(* ===== verification/_CoqProject ===== *)
-Q . S2P
Prelude.v
GoStrings.v
Model.v
RingBuffer.v
Inflight.v
Exchange.v
Wal.v
QueueRuntime.v
System.v
QueueSpec.v
QueueInv.v
RoundRobin.v
QueueRefine.v
QueueDeliver.v
Redelivery.v
SystemInv.v
QueueCases.v
Prefetch.v
Flow.v
QueueTheorems.v
QueueOps.v
QueueAnomalies.v
Broker.v
Topology.v
BrokerInv.v
Recovery.v
BrokerTheorems.v
Frame.v
Engine.v
Steady.v
EngineInv.v
EngineCalls.v
EngineTheorems.v
Drain.v
Utf8.v
Rfc3339.v
Protocol.v
JsonText.v
JsonTextFacts.v
JsonTorn.v
WireBytes.v
WalBytes.v
Handler.v
HandlerInv.v
Consumers.v
TcpServer.v
ServerInv.v
ServerTheorems.v
ServerRuns.v
ServerSpec.v
ServerSafety.v
Client.v
ClientTheorems.v
WalWriter.v
Cmd.v
Process.v
CmdTheorems.v
Logger.v
