(* ===== verification/Prelude.v ===== *)
(** * DSend: a verification library for the message broker

    ** The program

    DSend (Go) is a durable message broker. Producers publish messages to an
    exchange, which routes them to named queues; consumers subscribe to a queue,
    receive deliveries with acknowledgement tokens and acknowledge them. A
    delivery that is not acknowledged in time is put back, and dead lettered
    after [MaxRetries]; messages may expire. Every change is written to a
    write-ahead log before it is acknowledged, and a restart replays the log.

    The parts and the files that model them:

    - [internal/model], [engine/config.go]: [Model.v]. Structs are records with
      the fields of the source, string enumerations are inductive types.
    - [internal/queue]: [RingBuffer.v]. The ring with its slots, indices and
      64-bit counters, the dead letter queue, and the interface [engine.Queue]
      as the classes [Queue] (operations) and [QueueLaws] (what the runtime
      relies on), which the ring instantiates.
    - [internal/inflight], [internal/session]: [Inflight.v].
    - [internal/exchange]: [Exchange.v], with the binding table, the direct,
      fan-out and topic rules, and an inductive specification of patterns.
    - [internal/storage]: [Wal.v]. [load_record] is the switch of [Load],
      [replay] the fold over a log; the classes [WAL] and [WALLaws] are the
      interface [storage.WAL] and what the engine relies on; [FileWAL]
      implements it when a write leaves either the whole record or nothing.
      [WalWriter.v] has the writer goroutine and its hand-over with [Append] and
      [Close], lock by lock, and shows that [Append] may be taken as one step.
      [WalBytes.v] has the same file as bytes: records marshalled to lines, writes
      that stop after any byte, [Load] on the decoded documents.
    - [engine/queue_runtime.go]: [QueueRuntime.v] has one function per method,
      each a critical section under the runtime's mutex, on the runtime and the
      world it shares (log, session objects, the broker's token table).
      [System.v] adds the goroutines: the distributor, the redelivery worker and
      the expiry worker are program counters, and an event is one critical
      section or channel operation, so a list of events is an interleaving.
    - [engine/mem_broker.go], [engine/broker.go]: [Broker.v] has one function per
      method on a heap of runtimes, and [NewBroker]. [Engine.v] is a broker with
      the goroutines of all its queues: a step is a step of one of them, in the
      world they all share, or a call of the broker's interface.
    - [internal/protocol]: [Protocol.v]. Requests and responses, and their JSON
      documents as trees, read and written by the rules of [encoding/json] under
      the struct tags. [JsonText.v] has the texts of these trees: the writer with
      its escapes, the scanner and parser with the limit of nesting, [Decode];
      [WireBytes.v] is the stream of documents a connection carries. [Utf8.v] is
      the repair of strings that are not UTF-8, [Rfc3339.v] the calendar and the
      texts of instants, behind the class [TimeText].
    - [internal/server/handler.go]: [Handler.v]. A connection has a request loop
      and a delivery goroutine, both program counters; one function per case of
      the switch; [encode] with its three kinds of failure.
    - [internal/server/tcp.go], [cmd/dsend/server.go]: [TcpServer.v]. The accept
      loop, the goroutine that waits for the context and the handlers of all
      connections over one engine; [runServer] around them. [Drain.v] has the
      goroutines [b.wg.Wait()] waits for at the end of [Shutdown], [Process.v] the
      whole process from its flags to its exit and the next one on its log.
    - [client]: [Client.v]. The methods of the producer and the consumer; the
      connection is a function from the document written to what is read.
    - [cmd/dsend]: [Cmd.v]. The parser of the package [flag], one function per
      client command, the subscriber's loop as rounds, [main].
    - [internal/logger], [model/logger.go]: [Logger.v]. The chain of handlers in a
      heap, the configuration that shares them, the two formatters, the appenders
      with the files they write, the instance of the package.

    Go's own behaviour is in this file (panics, 64-bit [int]) and in
    [GoStrings.v] (the functions of [strings], [slices] and [unicode/utf8] the
    code calls). What the environment chooses is an argument: clock readings,
    fresh identifiers, the outcome of a system call. The order of a map
    iteration is any order ([Expired] is a relation, [MapRange] a class).

    ** The theorems

    One queue. [QueueSpec.v] specifies an at-least-once queue as a transition
    system over ready, in-flight and dead-lettered messages, counters and log.
    [QueueInv.v] has the invariant of a runtime; [RoundRobin.v], [QueueRefine.v],
    [QueueDeliver.v] and [Redelivery.v] show that every method keeps it, returns,
    and implements steps of the specification; [SystemInv.v] lifts this to runs.
    [QueueCases.v] lists the outcomes of the methods. [Prefetch.v] and [Flow.v]
    have the invariants of backpressure, of the wakeups of blocked publishers and
    of the notifications of the distributor. [QueueTheorems.v] states what runs
    guarantee (no panic, refinement, conservation, durability, unique
    identifiers, bounded retries, token ownership, prefetch, no lost wakeup, no
    stall) and [QueueOps.v] what the single methods do.

    The theorems of [QueueTheorems.v] are about runs with a log that keeps
    [WALLaws] (an append that reports an error has added no record; the file does
    so unless a sync fails or a write stops in the middle, [clean_io]) and with two
    promises of the environment: [env_ok] (fresh tokens and pointers, the argument
    of a redelivery round is a result of [Expired]) and [quiet_cancel] (a
    reservation is cancelled only while its token is in flight and the queue has
    room). The code does not keep the last in all interleavings:
    [QueueAnomalies.v] has the executions that break it and the side conditions of
    the other theorems ([fresh_id], [resume_logged], [notifies],
    [fresh_consumer]), as computed runs. [QueueOps.v] assumes none of this: the
    outcomes of [Publish], [Ack] and a redelivery are stated for any log.

    The broker. [Topology.v] relates queues, exchanges and bindings in memory to
    the state the log replays to; [BrokerInv.v] shows that every call keeps the
    relation unless it reports a storage error after it has changed memory;
    [Recovery.v] shows that [NewBroker] rebuilds the topology and the messages.
    [BrokerTheorems.v] has the resulting theorems, for a broker whose memory agrees
    with its log ([broker_ok]) and for calls as [api_step] has them (no storage
    error in [DeleteQueue], [BindQueue] and [UnbindQueue]), and the executions that
    show where memory and log part after such an error.

    The engine. [Frame.v] says what a method of one queue leaves alone;
    [EngineInv.v] and [EngineCalls.v] have the invariant of the whole engine and
    show that steps of queues and calls keep it; [EngineTheorems.v] states crash
    recovery at any moment of a run that keeps the promises below, the routing of
    tokens, acknowledgement and shutdown. [Steady.v] has what holds with nothing
    promised: whatever clients, the log and the order of the goroutines do, the
    indices of every ring are in range, every registered consumer has its session
    and every pointer its runtime, so every call and every step returns.
    [Drain.v] shows that the goroutines come to their end after [Shutdown], and
    with the promises that the log still replays to the messages.

    The server and the client. [HandlerInv.v] has the invariant of a connection
    and shows that its steps are calls of the broker; [Consumers.v] follows the
    registered consumers through these calls; [ServerInv.v] has the invariant of
    the server. [ServerTheorems.v] states that the server leaves no consumer
    behind, closes every connection at shutdown and that closed handlers come to
    their end; [ServerRuns.v] has concrete runs, among them the one in which a
    waiting publisher keeps the server from stopping. [ServerSpec.v] is the
    service the protocol describes, a table of request types and calls and a
    transition system of clients, which the server implements; [ServerSafety.v]
    states that the server never panics, that it stops by itself, by steps no
    client has to help with, and that [Shutdown] comes back from [wg.Wait]. Both
    files assume nothing of clients, log and interleaving.
    [ClientTheorems.v] composes client, wire and handler: a call of the producer
    returns what the broker's operation returned; [CmdTheorems.v] puts the command
    line on top. [Process.v] puts processes in a row, stopped or killed between
    two steps, and states that each has the messages of the one before; a process
    killed inside a call or inside recovery is left to the executions of
    [BrokerTheorems.v]. [Logger.v] has its own theorems.

    Bytes. [JsonTextFacts.v] shows that the parser consumes what it reads and gives
    back every value the writer wrote, with repaired strings; [JsonTorn.v] that a
    text cut short is refused, also when further documents follow it.
    [WireBytes.v] states the round trip of conversations, [WalBytes.v] that the
    list of documents of [Wal.v] is a faithful abstraction of the file and what a
    file cut anywhere loads to. The engine and the handler are verified over
    documents; these theorems carry the results to bytes for records, requests and
    responses with valid strings, numbers in range and instants with a text
    ([record_wire], [request_wire], [response_wire]).

    The promises of longer runs. The runs of [EngineTheorems.v], of
    [ServerTheorems.v] and of [Process.v] keep the promises of the environment
    above, and [request_env]: clients leave message identifiers to the broker
    (the executions with a reused identifier are in [QueueAnomalies.v]), and the
    log does not fail in the three calls that change memory before they log
    ([BrokerTheorems.v] has the executions in which it does). Those of
    [Process.v] are over a file with [clean_io] and with logs of at most
    [2^63 - 1] pending messages per queue.

    ** Fuel

    Loops that are not structural run with fuel: the topic matcher makes at most
    one round per binding segment, [nextSession] one per consumer, the expiry
    sweep one per ready message, the logger's chain one per handler. The theorems
    show that the fuel never runs out ([OutOfFuel] is excluded together with
    [Panic]). The parser of lists and the decoder of a stream have the length of
    their input as fuel, which [parse_value_shrinks] and [decode_stream_fuel] show
    to be enough; the nesting of values is bounded by [maxNestingDepth], the limit
    [encoding/json] itself has.

    ** Not modelled

    [time.ParseDuration] and the offset of the local zone are parameters; the
    writing of version information and of the lines the broker and the server log
    is left out. Numbers with a fraction or an exponent are kept as their text,
    which no field of the program accepts. Deadlines, timers and
    the scheduler are choices of the environment: a step that can be made may be
    made at any time. The broker's calls are taken whole, with [Publish] able to
    stop where it waits: most run under the broker's mutex or touch one queue under
    that queue's mutex, but [Publish] to several queues, [DeleteQueue], [Metrics]
    and [Shutdown] release the broker's mutex on their way, and steps of other
    goroutines in between are not considered. Instants are numbers of nanoseconds:
    the zone that a [time.Time] carries into its JSON text is dropped, which
    matters only for [Timestamp] and [ExpiryAt] of a message a client sends (the
    program itself writes UTC). *)

From stdpp Require Export base list gmap strings sorting.
From Stdlib Require Export ZArith Lia.

Open Scope Z_scope.

#[export] Set Warnings "-clear-no-such-hyp".

(** ** Outcomes of Go code

    A Go function returns, panics (index out of range, nil dereference, close
    of a closed channel) or, for a loop run with bounded fuel, is cut off. *)

Inductive GoM (A : Type) : Type :=
| Done (a : A)
| Panic
| OutOfFuel.
Arguments Done {A} a.
Arguments Panic {A}.
Arguments OutOfFuel {A}.

Definition go_bind {A B} (c : GoM A) (k : A -> GoM B) : GoM B :=
  match c with
  | Done a => k a
  | Panic => Panic
  | OutOfFuel => OutOfFuel
  end.

Declare Scope go_scope.
Delimit Scope go_scope with go.
Notation "'let!' x ':=' c 'in' k" := (go_bind c (fun x => k))
  (at level 10, x pattern, c at level 200, k at level 200) : go_scope.
Open Scope go_scope.

(** An index expression [l[i]] on a slice; Go panics outside the range. *)
Definition go_index {A} (l : list A) (i : Z) : GoM A :=
  if decide (i < 0) then Panic
  else match l !! Z.to_nat i with Some a => Done a | None => Panic end.

(** An assignment [l[i] = a] on a slice; Go panics outside the range. *)
Definition go_store {A} (l : list A) (i : Z) (a : A) : GoM (list A) :=
  if decide (0 <= i < Z.of_nat (length l)) then Done (<[Z.to_nat i := a]> l) else Panic.

(** The remainder [a % b]; Go truncates towards zero and panics on [b = 0]. *)
Definition go_rem (a b : Z) : GoM Z :=
  if decide (b = 0) then Panic else Done (Z.rem a b).

(** ** The 64-bit [int] of Go *)

Definition min_int : Z := - 2 ^ 63.
Definition max_int : Z := 2 ^ 63 - 1.

(** Two's complement wrap-around of a mathematical integer. *)
Definition wrap64 (z : Z) : Z := (z + 2 ^ 63) `mod` 2 ^ 64 - 2 ^ 63.

Definition int_add (a b : Z) : Z := wrap64 (a + b).
Definition int_sub (a b : Z) : Z := wrap64 (a - b).
Notation "a ⊕ b" := (int_add a b) (at level 50, left associativity) : go_scope.
Notation "a ⊖ b" := (int_sub a b) (at level 50, left associativity) : go_scope.

(** [time.Time.Sub] (and so [time.Since]) saturates at the bounds of
    [time.Duration], which is an [int64] number of nanoseconds. *)
Definition clamp64 (z : Z) : Z := Z.max min_int (Z.min max_int z).

(** ** Tactics *)

Create HintDb dsend.
Create Rewrite HintDb dsend_rw.

(** Case analysis on every [match] or [if] that blocks the goal. *)
Ltac case_goal :=
  try done; repeat (case_match; simplify_eq/=; try done).

(** Case analysis on the [match]es of a hypothesis. *)
Ltac case_hyp H :=
  repeat match type of H with
  | context [match ?x with _ => _ end] =>
      let E := fresh "E" in destruct x eqn:E; simplify_eq/=
  end.

(** Inverts [c = Done r] for a computation built from binds, matches and tests. *)
Ltac go_inv H :=
  repeat (simplify_eq/=; match type of H with
  | go_bind ?c _ = Done _ =>
      let E := fresh "E" in
      destruct c eqn:E; simpl in H; [|discriminate H|discriminate H]
  | (match ?x with _ => _ end) = Done _ =>
      let E := fresh "E" in destruct x eqn:E
  | (let (_, _) := ?x in _) = Done _ =>
      let E := fresh "E" in destruct x eqn:E
  end); simplify_eq/=.

(** Splits conjunctions and closes what the development's hints close. *)
Ltac crush :=
  intros; simplify_eq/=; repeat split; simplify_eq/=; eauto with dsend; try done; try lia.

(** ** Lemmas on machine integers *)

Lemma wrap64_range z : min_int <= wrap64 z <= max_int.
Proof.
  unfold wrap64, min_int, max_int.
  pose proof (Z.mod_pos_bound (z + 2 ^ 63) (2 ^ 64) ltac:(lia)). lia.
Qed.

Lemma wrap64_id z : min_int <= z <= max_int -> wrap64 z = z.
Proof.
  unfold wrap64, min_int, max_int. intros Hz.
  rewrite Z.mod_small by lia. lia.
Qed.

Lemma wrap64_add_l a b : wrap64 (wrap64 a + b) = wrap64 (a + b).
Proof.
  unfold wrap64. f_equal.
  replace ((a + 2 ^ 63) `mod` 2 ^ 64 - 2 ^ 63 + b + 2 ^ 63)
    with ((a + 2 ^ 63) `mod` 2 ^ 64 + b) by lia.
  rewrite Zplus_mod_idemp_l. f_equal. lia.
Qed.

Lemma wrap64_add_r a b : wrap64 (a + wrap64 b) = wrap64 (a + b).
Proof. rewrite Z.add_comm, wrap64_add_l. f_equal. lia. Qed.

Lemma int_add_id a b : min_int <= a + b <= max_int -> a ⊕ b = a + b.
Proof. apply wrap64_id. Qed.

Lemma int_sub_id a b : min_int <= a - b <= max_int -> a ⊖ b = a - b.
Proof. apply wrap64_id. Qed.

(** ** Lemmas on indexing *)

Lemma go_index_Some {A} (l : list A) i a :
  0 <= i -> l !! Z.to_nat i = Some a -> go_index l i = Done a.
Proof. intros Hi Hl. unfold go_index. case_decide; [lia|]. by rewrite Hl. Qed.

Lemma go_index_Done {A} (l : list A) i a :
  go_index l i = Done a <-> 0 <= i /\ l !! Z.to_nat i = Some a.
Proof.
  unfold go_index. case_decide.
  - split; [done|]. lia.
  - destruct (l !! Z.to_nat i); split; intros; destruct_and?; simplify_eq; try done.
    split; [lia|done].
Qed.

Lemma go_store_in {A} (l : list A) i a :
  0 <= i < Z.of_nat (length l) -> go_store l i a = Done (<[Z.to_nat i := a]> l).
Proof. intros Hi. unfold go_store. by rewrite decide_True. Qed.

Lemma go_rem_pos a b : 0 <= a -> 0 < b -> go_rem a b = Done (a `mod` b).
Proof.
  intros. unfold go_rem. rewrite decide_False by lia.
  by rewrite Z.rem_mod_nonneg by lia.
Qed.

Lemma length_pos {A} (l : list A) : l <> [] -> (0 < length l)%nat.
Proof. destruct l; simpl; [done|lia]. Qed.

Lemma go_bind_Done {A B} (c : GoM A) (k : A -> GoM B) b :
  go_bind c k = Done b <-> exists a, c = Done a /\ k a = Done b.
Proof. destruct c; naive_solver. Qed.

(** A sum in which one summand is smaller. *)
Lemma sum_list_less {A} (f g : A -> nat) x l :
  x ∈ l -> (f x < g x)%nat -> (forall y, y <> x -> f y = g y) -> NoDup l ->
  (sum_list (f <$> l) < sum_list (g <$> l))%nat.
Proof.
  intros Hx Hlt Heq. induction 1 as [|y l Hy _ IH]; [by apply elem_of_nil in Hx|].
  rewrite !fmap_cons. cbn [sum_list]. apply elem_of_cons in Hx as [->|Hx].
  - assert (f <$> l = g <$> l) as ->; [|simpl; lia].
    apply list_fmap_ext. intros i z Hz. apply Heq. intros ->. apply Hy. by eapply list_elem_of_lookup_2.
  - specialize (IH Hx). pose proof (Heq y ltac:(by intros ->)). simpl in *. lia.
Qed.

#[export] Hint Resolve wrap64_range : dsend.
#[export] Hint Rewrite wrap64_add_l wrap64_add_r : dsend_rw.
