(* ===== verification/GoStrings.v ===== *)
(** What the source uses of the Go standard library on strings and slices:
    [strings.Split], ranging over the runes of a string (UTF-8 decoding),
    [slices.DeleteFunc] and [slices.Sort]. A Go string is a sequence of bytes,
    here a [string] of [ascii]. *)

From S2P Require Import Prelude.
From Stdlib Require Import Ascii.

(** ** [strings.Split] with a one-byte separator *)

(** The separator of key segments. *)
Definition dot : ascii := "."%char.

Fixpoint strings_Split (sep : ascii) (s : string) : list string :=
  match s with
  | EmptyString => [""]
  | String c rest =>
      if decide (c = sep) then "" :: strings_Split sep rest
      else match strings_Split sep rest with
           | p :: ps => String c p :: ps
           | [] => [String c ""]
           end
  end.

(** [strings.Join], the inverse used to state what [Split] computes. *)
Fixpoint strings_Join (sep : ascii) (parts : list string) : string :=
  match parts with
  | [] => ""
  | [p] => p
  | p :: ps => p +:+ String sep (strings_Join sep ps)
  end.

Fixpoint has_char (c : ascii) (s : string) : bool :=
  match s with
  | EmptyString => false
  | String d rest => bool_decide (d = c) || has_char c rest
  end.

(** ** Runes of a string *)

Fixpoint bytes_of (s : string) : list Z :=
  match s with
  | EmptyString => []
  | String c rest => Z.of_N (N_of_ascii c) :: bytes_of rest
  end.

Definition RuneError : Z := 0xFFFD.

Definition in_range (lo b hi : Z) : bool := bool_decide (lo <= b) && bool_decide (b <= hi).

(** The rune at the front of a byte sequence and its width, as
    [utf8.DecodeRune] computes it: [RuneError] of width 1 on an invalid
    encoding. *)
Definition decode_rune (bs : list Z) : Z * nat :=
  match bs with
  | [] => (RuneError, 0%nat)
  | b0 :: rest =>
      if bool_decide (b0 < 0x80) then (b0, 1%nat)
      else if in_range 0xC2 b0 0xDF then
        match rest with
        | b1 :: _ =>
            if in_range 0x80 b1 0xBF
            then ((b0 - 0xC0) * 0x40 + (b1 - 0x80), 2%nat) else (RuneError, 1%nat)
        | _ => (RuneError, 1%nat)
        end
      else if in_range 0xE0 b0 0xEF then
        let lo := if bool_decide (b0 = 0xE0) then 0xA0 else 0x80 in
        let hi := if bool_decide (b0 = 0xED) then 0x9F else 0xBF in
        match rest with
        | b1 :: b2 :: _ =>
            if in_range lo b1 hi && in_range 0x80 b2 0xBF
            then ((b0 - 0xE0) * 0x1000 + (b1 - 0x80) * 0x40 + (b2 - 0x80), 3%nat)
            else (RuneError, 1%nat)
        | _ => (RuneError, 1%nat)
        end
      else if in_range 0xF0 b0 0xF4 then
        let lo := if bool_decide (b0 = 0xF0) then 0x90 else 0x80 in
        let hi := if bool_decide (b0 = 0xF4) then 0x8F else 0xBF in
        match rest with
        | b1 :: b2 :: b3 :: _ =>
            if in_range lo b1 hi && in_range 0x80 b2 0xBF && in_range 0x80 b3 0xBF
            then ((b0 - 0xF0) * 0x40000 + (b1 - 0x80) * 0x1000 + (b2 - 0x80) * 0x40
                    + (b3 - 0x80), 4%nat)
            else (RuneError, 1%nat)
        | _ => (RuneError, 1%nat)
        end
      else (RuneError, 1%nat)
  end.

(** [for _, r := range s]: [skip] counts the bytes of the current rune that
    are still to be passed over. *)
Fixpoint runes_from (skip : nat) (bs : list Z) : list Z :=
  match bs with
  | [] => []
  | _ :: rest =>
      match skip with
      | S k => runes_from k rest
      | O => let (r, w) := decode_rune bs in r :: runes_from (Nat.pred w) rest
      end
  end.

Definition runes (s : string) : list Z := runes_from 0 (bytes_of s).

(** ** Slices *)

(** [slices.DeleteFunc] keeps, in order, the elements [del] rejects. *)
Definition slices_DeleteFunc {A} (del : A -> bool) (l : list A) : list A :=
  filter (fun x => del x = false) l.

(** [slices.Sort] on strings, which Go compares bytewise. *)
Definition slices_Sort (l : list string) : list string := merge_sort String.le l.

(** ** Facts on [Split] *)

Lemma split_nonempty sep s : strings_Split sep s <> [].
Proof. destruct s; simpl; case_goal. Qed.

Lemma join_cons sep p ps :
  ps <> [] -> strings_Join sep (p :: ps) = p +:+ String sep (strings_Join sep ps).
Proof. by destruct ps. Qed.

Lemma join_cons_char sep c p ps :
  strings_Join sep (String c p :: ps) = String c (strings_Join sep (p :: ps)).
Proof. by destruct ps. Qed.

Lemma join_split sep s : strings_Join sep (strings_Split sep s) = s.
Proof.
  induction s as [|c rest IH]; [done|]. simpl. case_decide as Hc.
  - rewrite join_cons by apply split_nonempty. by rewrite IH, Hc.
  - pose proof (split_nonempty sep rest) as Hne.
    destruct (strings_Split sep rest) as [|p ps]; [done|].
    by rewrite join_cons_char, IH.
Qed.

Lemma split_no_sep sep s : Forall (fun p => has_char sep p = false) (strings_Split sep s).
Proof.
  induction s as [|c rest IH]; simpl; [by repeat constructor|].
  case_decide as Hc; [by constructor|].
  destruct (strings_Split sep rest) as [|p ps].
  - repeat constructor. simpl. by rewrite bool_decide_false.
  - inversion IH; subst. constructor; [|done]. simpl. by rewrite bool_decide_false.
Qed.

Lemma split_single sep p : has_char sep p = false -> strings_Split sep p = [p].
Proof.
  induction p as [|c p IH]; [done|]. simpl. intros [Hc Hp]%orb_false_iff.
  apply bool_decide_eq_false in Hc. rewrite decide_False by done. by rewrite IH.
Qed.

Lemma split_app sep p s :
  has_char sep p = false ->
  strings_Split sep (p +:+ String sep s) = p :: strings_Split sep s.
Proof.
  induction p as [|c p IH]; simpl.
  - intros _. by rewrite decide_True.
  - intros [Hc Hp]%orb_false_iff. apply bool_decide_eq_false in Hc.
    rewrite decide_False by done. by rewrite IH.
Qed.

Lemma split_join sep parts :
  parts <> [] -> Forall (fun p => has_char sep p = false) parts ->
  strings_Split sep (strings_Join sep parts) = parts.
Proof.
  intros Hne Hall. induction Hall as [|p ps Hp Hps IH]; [done|].
  destruct ps as [|p' ps]; [by apply split_single|].
  rewrite join_cons by done. rewrite split_app by done. by rewrite IH.
Qed.

(** ** Facts on runes *)

Lemma in_range_true lo b hi : in_range lo b hi = true <-> lo <= b <= hi.
Proof. unfold in_range. rewrite andb_true_iff, !bool_decide_eq_true. done. Qed.

(** A byte outside ASCII never starts a rune that is an ASCII character. *)
Lemma decode_rune_high b0 rest :
  0x80 <= b0 -> 0x80 <= fst (decode_rune (b0 :: rest)).
Proof.
  intros Hb. unfold decode_rune. rewrite bool_decide_false by lia.
  repeat (case_match; simpl; try (unfold RuneError; lia)).
  all: repeat match goal with
       | H : _ && _ = true |- _ => apply andb_true_iff in H as [? ?]
       | H : in_range _ _ _ = true |- _ => apply in_range_true in H
       | H : bool_decide _ = true |- _ => apply bool_decide_eq_true in H
       | H : bool_decide _ = false |- _ => apply bool_decide_eq_false in H
       end; lia.
Qed.

(** A test that only ASCII characters pass may be run on the bytes of a string
    instead of on its runes. *)
Lemma runes_ascii_test (ok : Z -> bool) s :
  (forall r, 0x80 <= r -> ok r = false) ->
  forallb ok (runes s) = forallb ok (bytes_of s).
Proof.
  intros Hok. unfold runes. induction (bytes_of s) as [|b bs IH]; [done|].
  destruct (decide (b < 0x80)) as [Hb|Hb].
  - simpl. rewrite bool_decide_true by done. simpl. by rewrite IH.
  - pose proof (decode_rune_high b bs ltac:(lia)) as Hr. simpl in *.
    destruct (if bool_decide (b < 0x80) then _ else _) as [r w] eqn:E.
    simpl in *. rewrite (Hok r), (Hok b) by lia. done.
Qed.

(** ** Facts on slices *)

Lemma DeleteFunc_elem_of {A} del (l : list A) x :
  x ∈ slices_DeleteFunc del l <-> del x = false /\ x ∈ l.
Proof. unfold slices_DeleteFunc. by rewrite list_elem_of_filter. Qed.

Lemma DeleteFunc_app {A} del (l k : list A) :
  slices_DeleteFunc del (l ++ k) = slices_DeleteFunc del l ++ slices_DeleteFunc del k.
Proof. unfold slices_DeleteFunc. by rewrite filter_app. Qed.

Lemma DeleteFunc_none {A} del (l : list A) :
  (forall x, x ∈ l -> del x = false) -> slices_DeleteFunc del l = l.
Proof.
  intros H. induction l as [|x l IH]; [done|]. unfold slices_DeleteFunc in *.
  rewrite filter_cons_True by (apply H; left). f_equal. apply IH. intros y Hy.
  apply H. by right.
Qed.

Lemma DeleteFunc_NoDup {A} del (l : list A) : NoDup l -> NoDup (slices_DeleteFunc del l).
Proof. unfold slices_DeleteFunc. by apply NoDup_filter. Qed.

Lemma DeleteFunc_perm {A} del (l k : list A) :
  l ≡ₚ k -> slices_DeleteFunc del l ≡ₚ slices_DeleteFunc del k.
Proof. intros H. unfold slices_DeleteFunc. by rewrite H. Qed.

Lemma Sort_sorted l : Sorted String.le (slices_Sort l).
Proof. apply Sorted_merge_sort. apply _. Qed.

Lemma Sort_perm l : slices_Sort l ≡ₚ l.
Proof. apply merge_sort_Permutation. Qed.
