(* ===== verification/Model.v ===== *)
(** The data of [internal/model], the broker's errors and its configuration:
    every struct of the wire and storage model as a record with the fields of
    the source, and the Go zero values. A [time.Time] is an instant in
    nanoseconds since Go's zero time, a [time.Duration] a number of
    nanoseconds. *)

From S2P Require Import Prelude.

Definition DefaultQueueName : string := "default".
Definition DefaultExchangeName : string := "default".

Record Message := mkMessage {
  ID : string;
  Payload : string;
  Timestamp : Z;
  Retry : Z;
  ExpiryAt : option Z;
}.

(** The zero value [model.Message{}]. *)
Definition zeroMessage : Message := mkMessage "" "" 0 0 None.

(** [model.InFlightMessage] embeds a message. *)
Record InFlightMessage := mkInFlightMessage {
  if_Message : Message;
  if_ConsumerID : string;
  if_DeliveredAt : Z;
}.

(** [model.Delivery] embeds a message. *)
Record Delivery := mkDelivery {
  d_Message : Message;
  d_AckToken : string;
  d_ConsumerID : string;
}.

Record Binding := mkBinding {
  QueueName : string;
  BindingKey : string;
}.

Inductive ExchangeType := DirectExchange | FanOutExchange | TopicExchange.

(** The string constants behind [model.ExchangeType]. *)
Definition ExchangeType_string (t : ExchangeType) : string :=
  match t with
  | DirectExchange => "direct"
  | FanOutExchange => "fanout"
  | TopicExchange => "topic"
  end.

(** [model.RecordType] is a string; [OtherType] stands for the values no
    constant names, the empty one included. *)
Inductive RecordType :=
| ExchangeCreated | ExchangeDeleted
| QueueCreated | QueueDeleted
| QueueBinded | QueueUnbinded
| Published | Acknowledged | Requeued | DeadLettered
| OtherType (s : string).

Definition RecordType_string (t : RecordType) : string :=
  match t with
  | ExchangeCreated => "exchange_created"
  | ExchangeDeleted => "exchange_deleted"
  | QueueCreated => "queue_created"
  | QueueDeleted => "queue_deleted"
  | QueueBinded => "queue_binded"
  | QueueUnbinded => "queue_unbinded"
  | Published => "published"
  | Acknowledged => "acknowledged"
  | Requeued => "requeued"
  | DeadLettered => "dead_lettered"
  | OtherType s => s
  end.

(** [model.Record], one line of the write-ahead log. *)
Record WalRecord := mkRecord {
  r_Type : RecordType;
  r_Exchange : string;
  r_ExchangeType : string;
  r_Queue : string;
  r_Message : Message;
  r_MessageID : string;
  r_BindingKey : string;
}.

(** A record with the fields a composite literal leaves out at their zero. *)
Definition rec_queue (t : RecordType) (q : string) : WalRecord :=
  mkRecord t "" "" q zeroMessage "" "".
Definition rec_message (t : RecordType) (q : string) (m : Message) (id : string) : WalRecord :=
  mkRecord t "" "" q m id "".
Definition rec_exchange (t : RecordType) (e et : string) : WalRecord :=
  mkRecord t e et "" zeroMessage "" "".
Definition rec_binding (t : RecordType) (e q k : string) : WalRecord :=
  mkRecord t e "" q zeroMessage "" k.

Record Metric := mkMetric {
  ProducedCount : Z;
  AckedCount : Z;
  DlqCount : Z;
  InflightCount : Z;
  RedeliveredCount : Z;
  ConsumerSessionCount : Z;
  QueueDepth : Z;
}.

Definition zeroMetric : Metric := mkMetric 0 0 0 0 0 0 0.

Record QueueMetric := mkQueueMetric {
  qm_Name : string;
  qm_Metric : Metric;
}.

Record BrokerMetrics := mkBrokerMetrics {
  Queues : list QueueMetric;
  Total : Metric;
}.

(** The error values of [internal/engine], [internal/exchange] and
    [internal/storage] that the engine returns or compares. *)
Inductive Err :=
| ErrQueueExists | ErrQueueNotEmpty | ErrQueueNotFound | ErrInvalidQueue
| ErrBrokerClosed | ErrInvalidAckToken
| ErrExchangeNotFound | ErrInvalidExchange | ErrInvalidExchangeType
| ErrDefaultExchange | ErrExchangeExists | ErrExchangeNotEmpty
| ErrNoRoute | ErrInvalidBindingKey
| ErrBindingNotExist | ErrBindingAlreadyExist
| ErrStorage (what : string).

Record Config := mkConfig {
  AckTimeout : Z;
  RedeliveryInterval : Z;
  ExpiryInterval : Z;
  MaxRetries : Z;
  QueueSize : Z;
  ConsumerPrefetch : Z;
}.

(** [time.Second] in nanoseconds. *)
Definition second : Z := 1000000000.

Definition DefaultConfig : Config :=
  mkConfig (100 * second) (5 * second) (1 * second) 3 20 10.

#[export] Instance Message_eq_dec : EqDecision Message.
Proof. solve_decision. Defined.
#[export] Instance Delivery_eq_dec : EqDecision Delivery.
Proof. solve_decision. Defined.
#[export] Instance Binding_eq_dec : EqDecision Binding.
Proof. solve_decision. Defined.
#[export] Instance ExchangeType_eq_dec : EqDecision ExchangeType.
Proof. solve_decision. Defined.
#[export] Instance RecordType_eq_dec : EqDecision RecordType.
Proof. solve_decision. Defined.
#[export] Instance WalRecord_eq_dec : EqDecision WalRecord.
Proof. solve_decision. Defined.
#[export] Instance Err_eq_dec : EqDecision Err.
Proof. solve_decision. Defined.
