(* ===== verification/RingBuffer.v ===== *)
(** The queues of [internal/queue]: the ring buffer behind every named queue,
    the dead letter queue, and the interface [engine.Queue] between a queue and
    the runtime that uses it, as operations with their laws. The ring buffer is
    shown to implement the interface by refinement of a FIFO list. *)

From S2P Require Import Prelude Model.

(** ** The interface [engine.Queue] *)

Class Queue (Q : Type) := {
  Push : Message -> Q -> GoM Q;
  Pop : Q -> GoM (Message * Q);
  Peek : Q -> GoM Message;
  Size : Q -> Z;
  Capacity : Q -> Z;
}.

(** What the runtime relies on: inside its capacity a queue is a FIFO list.
    Nothing is promised about a push on a full queue. *)
Class QueueLaws (Q : Type) `{!Queue Q} := {
  queue_ok : Q -> Prop;
  contents : Q -> list Message;
  size_contents q : queue_ok q -> Size q = Z.of_nat (length (contents q));
  size_le_capacity q : queue_ok q -> Size q <= Capacity q;
  push_spec m q : queue_ok q -> Size q < Capacity q ->
    exists q', Push m q = Done q' /\ queue_ok q' /\
      contents q' = contents q ++ [m] /\ Capacity q' = Capacity q;
  pop_spec m l q : queue_ok q -> contents q = m :: l ->
    exists q', Pop q = Done (m, q') /\ queue_ok q' /\
      contents q' = l /\ Capacity q' = Capacity q;
  peek_spec m l q : queue_ok q -> contents q = m :: l -> Peek q = Done m;
}.

(** ** [RingBufferQueue] *)

Record RingBufferQueue := mkRing {
  rb_items : list Message;
  rb_head : Z;
  rb_tail : Z;
  rb_size : Z;
  rb_cap : Z;
}.

(** [make([]model.Message, capacity)] panics on a negative length. *)
Definition NewRingBufferQueue (capacity : Z) : GoM RingBufferQueue :=
  if decide (capacity < 0) then Panic
  else Done (mkRing (replicate (Z.to_nat capacity) zeroMessage) 0 0 0 capacity).

Definition ring_Push (message : Message) (q : RingBufferQueue) : GoM RingBufferQueue :=
  let! its := go_store (rb_items q) (rb_tail q) message in
  let! tl := go_rem (rb_tail q ⊕ 1) (rb_cap q) in
  Done (mkRing its (rb_head q) tl (rb_size q ⊕ 1) (rb_cap q)).

Definition ring_Pop (q : RingBufferQueue) : GoM (Message * RingBufferQueue) :=
  let! item := go_index (rb_items q) (rb_head q) in
  let! its := go_store (rb_items q) (rb_head q) zeroMessage in
  let! hd := go_rem (rb_head q ⊕ 1) (rb_cap q) in
  Done (item, mkRing its hd (rb_tail q) (rb_size q ⊖ 1) (rb_cap q)).

Definition ring_Peek (q : RingBufferQueue) : GoM Message :=
  let! item := go_index (rb_items q) (rb_head q) in
  Done item.

Definition ring_Size (q : RingBufferQueue) : Z := rb_size q.
Definition ring_Capacity (q : RingBufferQueue) : Z := rb_cap q.

#[export] Instance RingBuffer_Queue : Queue RingBufferQueue := {
  Push := ring_Push;
  Pop := ring_Pop;
  Peek := ring_Peek;
  Size := ring_Size;
  Capacity := ring_Capacity;
}.

(** ** [DLQ] *)

Record DLQ := mkDLQ { messages : list Message }.

Definition NewDLQ : DLQ := mkDLQ [].

Definition dlq_Push (message : Message) (q : DLQ) : DLQ := mkDLQ (messages q ++ [message]).

Definition dlq_Peek (q : DLQ) : GoM Message :=
  go_index (messages q) (Z.of_nat (length (messages q)) ⊖ 1).

Definition dlq_Size (q : DLQ) : Z := Z.of_nat (length (messages q)).

(** ** Well-formedness and abstraction of the ring *)

(** The slot that holds the [i]-th message. *)
Definition slot (q : RingBufferQueue) (i : nat) : nat :=
  Z.to_nat ((rb_head q + Z.of_nat i) `mod` rb_cap q).

Definition ring_at (q : RingBufferQueue) (i : nat) : Message :=
  default zeroMessage (rb_items q !! slot q i).

Definition ring_contents (q : RingBufferQueue) : list Message :=
  ring_at q <$> seq 0 (Z.to_nat (rb_size q)).

Record ring_ok (q : RingBufferQueue) : Prop := {
  ok_len : Z.of_nat (length (rb_items q)) = rb_cap q;
  ok_cap : 0 <= rb_cap q <= max_int;
  ok_head : 0 <= rb_head q /\ (0 < rb_cap q -> rb_head q < rb_cap q);
  ok_size : 0 <= rb_size q <= rb_cap q;
  ok_tail : 0 < rb_cap q -> rb_tail q = (rb_head q + rb_size q) `mod` rb_cap q;
}.

(** ** Proofs *)

Lemma mod_add_inj c h i j :
  0 < c -> 0 <= i < c -> 0 <= j < c -> (h + i) `mod` c = (h + j) `mod` c -> i = j.
Proof.
  intros Hc Hi Hj He.
  assert ((i - j) `mod` c = 0) as Hm.
  { replace (i - j) with ((h + i) - (h + j)) by lia.
    rewrite Zminus_mod, He, Z.sub_diag. apply Zmod_0_l. }
  apply Z.mod_divide in Hm as [k Hk]; [|lia].
  assert (k < 1) by (apply (Zmult_lt_reg_r _ _ c); lia).
  assert (-1 < k) by (apply (Zmult_lt_reg_r _ _ c); lia).
  assert (k = 0) as -> by lia. lia.
Qed.

Lemma slot_inj q i j :
  Z.of_nat i < rb_cap q -> Z.of_nat j < rb_cap q -> slot q i = slot q j -> i = j.
Proof.
  intros Hi Hj He. unfold slot in He.
  pose proof (Z.mod_pos_bound (rb_head q + Z.of_nat i) (rb_cap q) ltac:(lia)).
  pose proof (Z.mod_pos_bound (rb_head q + Z.of_nat j) (rb_cap q) ltac:(lia)).
  assert (Z.of_nat i = Z.of_nat j); [|lia].
  eapply (mod_add_inj (rb_cap q) (rb_head q)); lia.
Qed.

Lemma ring_contents_length q : 0 <= rb_size q -> Z.of_nat (length (ring_contents q)) = rb_size q.
Proof. intros. unfold ring_contents. rewrite length_fmap, length_seq. lia. Qed.

Lemma ring_contents_lookup q i m :
  ring_contents q !! i = Some m <-> (i < Z.to_nat (rb_size q))%nat /\ ring_at q i = m.
Proof.
  unfold ring_contents. rewrite list_lookup_fmap_Some.
  setoid_rewrite lookup_seq. naive_solver.
Qed.

(** A list is the contents of the ring when it has the ring's size and
    agrees with it slot by slot. *)
Lemma ring_contents_eq q l :
  Z.of_nat (length l) = rb_size q ->
  (forall i m, l !! i = Some m -> ring_at q i = m) ->
  ring_contents q = l.
Proof.
  intros Hlen Hat. apply list_eq_same_length with (length l); [done|..].
  - unfold ring_contents. rewrite length_fmap, length_seq. lia.
  - intros i x y Hi Hx Hy. apply ring_contents_lookup in Hx as [_ <-]. by apply Hat.
Qed.

Lemma ring_new_ok c :
  0 <= c <= max_int ->
  exists q, NewRingBufferQueue c = Done q /\ ring_ok q /\ ring_contents q = [] /\ rb_cap q = c.
Proof.
  intros Hc. unfold NewRingBufferQueue. rewrite decide_False by lia.
  eexists; split; [done|]. split; [|done].
  split; cbn; try lia.
  - rewrite length_replicate. lia.
  - intros. by rewrite Zmod_0_l.
Qed.

Lemma ring_push_ok m q :
  ring_ok q -> rb_size q < rb_cap q ->
  exists q', ring_Push m q = Done q' /\ ring_ok q' /\
    ring_contents q' = ring_contents q ++ [m] /\ rb_cap q' = rb_cap q.
Proof.
  intros [Hl Hc [Hh1 Hh2] Hs Ht] Hlt. specialize (Ht ltac:(lia)). specialize (Hh2 ltac:(lia)).
  pose proof (Z.mod_pos_bound (rb_head q + rb_size q) (rb_cap q) ltac:(lia)) as Hb.
  unfold ring_Push. rewrite go_store_in by lia. simpl.
  rewrite !int_add_id by (unfold min_int, max_int in *; lia).
  rewrite go_rem_pos by lia. simpl.
  eexists; split; [done|]. split; [split; simpl; try lia|split; [|done]].
  - by rewrite length_insert.
  - intros _. rewrite Ht, Zplus_mod_idemp_l. f_equal. lia.
  - apply ring_contents_eq; simpl.
    { rewrite length_app, Nat2Z.inj_add, ring_contents_length by lia. done. }
    intros i x [Hx|[Hi Hx]]%lookup_app_Some.
    + apply ring_contents_lookup in Hx as [Hi <-]. unfold ring_at. simpl.
      rewrite list_lookup_insert_ne; [done|]. intros He.
      assert (Z.to_nat (rb_size q) = i); [|lia]. apply (slot_inj q); [lia..|].
      unfold slot in *; simpl in *. rewrite <- He, Ht. f_equal. f_equal. lia.
    + apply list_lookup_singleton_Some in Hx as [Hx <-].
      pose proof (ring_contents_length q ltac:(lia)).
      assert (Z.of_nat i = rb_size q) as Hiq by lia.
      unfold ring_at, slot. simpl. rewrite Hiq, <- Ht, list_lookup_insert_eq by lia. done.
Qed.

Lemma ring_front q m l :
  ring_ok q -> ring_contents q = m :: l ->
  0 < rb_size q /\ 0 <= rb_head q < rb_cap q /\ rb_items q !! Z.to_nat (rb_head q) = Some m /\
  Z.of_nat (length l) = rb_size q - 1.
Proof.
  intros [Hl Hc [Hh1 Hh2] Hs Ht] Hcs.
  pose proof (ring_contents_length q ltac:(lia)) as Hlen. rewrite Hcs in Hlen. simpl in Hlen.
  specialize (Hh2 ltac:(lia)).
  assert (ring_contents q !! 0%nat = Some m) as [_ Hm]%ring_contents_lookup by by rewrite Hcs.
  unfold ring_at, slot in Hm. rewrite Z.add_0_r, Z.mod_small in Hm by lia.
  destruct (lookup_lt_is_Some_2 (rb_items q) (Z.to_nat (rb_head q))) as [x Hx]; [lia|].
  rewrite Hx in *. simpl in Hm. subst. repeat split; lia || done.
Qed.

Lemma ring_peek_ok m l q :
  ring_ok q -> ring_contents q = m :: l -> ring_Peek q = Done m.
Proof.
  intros Hok Hcs. destruct (ring_front q m l Hok Hcs) as (? & ? & Hm & ?).
  unfold ring_Peek. by rewrite (go_index_Some _ _ m) by (lia || done).
Qed.

Lemma ring_pop_ok m l q :
  ring_ok q -> ring_contents q = m :: l ->
  exists q', ring_Pop q = Done (m, q') /\ ring_ok q' /\ ring_contents q' = l /\ rb_cap q' = rb_cap q.
Proof.
  intros Hok Hcs. destruct (ring_front q m l Hok Hcs) as (Hp & Hh & Hm & Hll).
  destruct Hok as [Hl Hc _ Hs Ht]. specialize (Ht ltac:(lia)).
  pose proof (Z.mod_pos_bound (rb_head q + 1) (rb_cap q) ltac:(lia)) as Hb.
  unfold ring_Pop. rewrite (go_index_Some _ _ m) by (lia || done). simpl.
  rewrite go_store_in by lia. simpl.
  rewrite int_add_id, int_sub_id by (unfold min_int, max_int in *; lia).
  rewrite go_rem_pos by lia. simpl.
  eexists; split; [done|]. split; [split; simpl; try lia|split; [|done]].
  - by rewrite length_insert.
  - intros _. rewrite Ht, Zplus_mod_idemp_l. f_equal. lia.
  - apply ring_contents_eq; simpl; [done|].
    intros i x Hx. pose proof (lookup_lt_Some _ _ _ Hx).
    assert (ring_contents q !! S i = Some x) as [Hi <-]%ring_contents_lookup by by rewrite Hcs.
    unfold ring_at, slot. simpl. rewrite Zplus_mod_idemp_l.
    replace (rb_head q + 1 + Z.of_nat i) with (rb_head q + Z.of_nat (S i)) by lia.
    rewrite list_lookup_insert_ne; [done|]. intros He.
    assert (0%nat = S i); [|lia]. apply (slot_inj q); [lia..|].
    unfold slot. rewrite <- He, Z.add_0_r, Z.mod_small by lia. done.
Qed.

(** The ring buffer keeps the interface's promise. *)
#[export] Instance RingBuffer_laws : QueueLaws RingBufferQueue.
Proof.
  refine {| queue_ok := ring_ok; contents := ring_contents |}.
  - intros q Hq. symmetry. apply ring_contents_length, Hq.
  - intros q Hq. apply Hq.
  - exact ring_push_ok.
  - exact ring_pop_ok.
  - exact ring_peek_ok.
Defined.

(** ** The ring as a whole *)

Inductive ring_op := OpPush (m : Message) | OpPop.

(** A sequence of operations on the ring, with the messages popped. *)
Fixpoint ring_run (ops : list ring_op) (q : RingBufferQueue)
    : GoM (list Message * RingBufferQueue) :=
  match ops with
  | [] => Done ([], q)
  | OpPush m :: rest =>
      let! q := ring_Push m q in
      ring_run rest q
  | OpPop :: rest =>
      let! (m, q) := ring_Pop q in
      let! (out, q) := ring_run rest q in
      Done (m :: out, q)
  end.

(** The same sequence on a bounded list; [None] when it pushes on a full queue
    or pops an empty one. *)
Fixpoint fifo_run (cap : Z) (ops : list ring_op) (l : list Message)
    : option (list Message * list Message) :=
  match ops with
  | [] => Some ([], l)
  | OpPush m :: rest =>
      if decide (Z.of_nat (length l) < cap) then fifo_run cap rest (l ++ [m]) else None
  | OpPop :: rest =>
      match l with
      | [] => None
      | m :: l' => '(out, r) ← fifo_run cap rest l'; Some (m :: out, r)
      end
  end.

Lemma ring_run_fifo ops q out l :
  ring_ok q -> fifo_run (rb_cap q) ops (ring_contents q) = Some (out, l) ->
  exists q', ring_run ops q = Done (out, q') /\ ring_ok q' /\ ring_contents q' = l /\
    rb_cap q' = rb_cap q.
Proof.
  revert q out l. induction ops as [|[m|] ops IH]; intros q out l Hok Hrun; simpl in *.
  - simplify_eq. by exists q.
  - case_decide as Hlt; [|done]. rewrite ring_contents_length in Hlt by apply Hok.
    destruct (ring_push_ok m q Hok Hlt) as (q1 & -> & Hok1 & Hc & Hcap). simpl.
    rewrite <- Hcap in *. rewrite <- Hc in Hrun. by apply IH.
  - destruct (ring_contents q) as [|m l'] eqn:Hc; [done|].
    destruct (ring_pop_ok m l' q Hok Hc) as (q1 & -> & Hok1 & Hc1 & Hcap). simpl.
    apply bind_Some in Hrun as ([out' r] & Hrun & [= <- <-]).
    rewrite <- Hcap, <- Hc1 in Hrun. destruct (IH q1 out' r Hok1 Hrun) as (q' & -> & ? & ? & ?).
    exists q'. simpl. split_and!; congruence.
Qed.

(** C21: The ring buffer is a bounded FIFO queue: every sequence of pushes and
    pops that stays within capacity and never pops an empty queue runs without
    a panic on the ring, pops the messages a list would give, and leaves the
    messages the list would hold, wrap-around included. *)
Theorem ring_refines_fifo cap ops out l :
  0 <= cap <= max_int -> fifo_run cap ops [] = Some (out, l) ->
  exists q q', NewRingBufferQueue cap = Done q /\ ring_run ops q = Done (out, q') /\
    ring_contents q' = l /\ ring_Size q' = Z.of_nat (length l) /\ ring_Capacity q' = cap.
Proof.
  intros Hcap Hrun. destruct (ring_new_ok cap Hcap) as (q & Hnew & Hok & Hc & <-).
  rewrite <- Hc in Hrun. destruct (ring_run_fifo ops q out l Hok Hrun) as (q' & ? & Hok' & <- & ?).
  exists q, q'. split_and!; try done. symmetry. apply ring_contents_length, Hok'.
Qed.

Lemma ring_refines_fifo_witness :
  exists q q', NewRingBufferQueue 1 = Done q /\
    ring_run [OpPush (mkMessage "a" "" 0 0 None); OpPop; OpPush (mkMessage "b" "" 0 0 None)] q =
      Done ([mkMessage "a" "" 0 0 None], q') /\
    ring_contents q' = [mkMessage "b" "" 0 0 None] /\ ring_Size q' = Z.of_nat 1 /\
    ring_Capacity q' = 1.
Proof.
  apply (ring_refines_fifo 1
    [OpPush (mkMessage "a" "" 0 0 None); OpPop; OpPush (mkMessage "b" "" 0 0 None)]);
    [unfold max_int; lia|reflexivity].
Defined.

(** A push on a full ring overwrites the oldest message and counts one more
    than there are slots. *)
Theorem ring_push_full_overwrites m q :
  ring_ok q -> 0 < rb_cap q < max_int -> rb_size q = rb_cap q ->
  exists q', ring_Push m q = Done q' /\ ring_Size q' = ring_Capacity q' + 1 /\
    ring_Peek q' = Done m.
Proof.
  intros [Hl Hc [Hh1 Hh2] Hs Ht] Hpos Hfull. specialize (Ht ltac:(lia)). specialize (Hh2 ltac:(lia)).
  rewrite Hfull in Ht. replace (rb_head q + rb_cap q) with (rb_head q + 1 * rb_cap q) in Ht by lia.
  rewrite Z.mod_add, Z.mod_small in Ht by lia.
  unfold ring_Push. rewrite go_store_in by lia. simpl.
  rewrite !int_add_id by (unfold min_int, max_int in *; lia). rewrite go_rem_pos by lia. simpl.
  eexists. split; [done|]. unfold ring_Size, ring_Capacity, ring_Peek. simpl. split; [lia|].
  rewrite (go_index_Some _ _ m); [done|lia|]. rewrite Ht, list_lookup_insert_eq by lia. done.
Qed.
