(* ===== verification/Inflight.v ===== *)
(** The in-flight manager of [internal/inflight] and the consumer session of
    [internal/session]: the two objects a queue runtime shares with the
    connections that consume from it. *)

From S2P Require Import Prelude Model.

(** ** [inflight.Manager] *)

Record Manager := mkManager { deliveries : gmap string InFlightMessage }.

Definition NewManager : Manager := mkManager ∅.

(** [Add] reads the clock for [DeliveredAt]. *)
Definition Add (now : Z) (token : string) (message : Message) (sessionID : string)
    (m : Manager) : Manager :=
  mkManager (<[token := mkInFlightMessage message sessionID now]> (deliveries m)).

Definition Remove (token : string) (m : Manager) : option InFlightMessage * Manager :=
  match deliveries m !! token with
  | None => (None, m)
  | Some inflight => (Some inflight, mkManager (delete token (deliveries m)))
  end.

Definition Get (token : string) (m : Manager) : option InFlightMessage :=
  deliveries m !! token.

Definition IsPresent (token : string) (m : Manager) : bool :=
  match deliveries m !! token with None => false | Some _ => true end.

Definition mgr_Size (m : Manager) : Z := Z.of_nat (size (deliveries m)).

(** [time.Since(item.DeliveredAt) > timeout] at the instant [now]. *)
Definition timed_out (now timeout : Z) (item : InFlightMessage) : bool :=
  bool_decide (clamp64 (now - if_DeliveredAt item) > timeout).

Definition to_delivery (p : string * InFlightMessage) : Delivery :=
  mkDelivery (if_Message (snd p)) (fst p) (if_ConsumerID (snd p)).

(** The loop of [Expired] over the entries in one order of the map. *)
Fixpoint expired_loop (now timeout : Z) (entries : list (string * InFlightMessage))
    (expiredMessages : list Delivery) : list Delivery :=
  match entries with
  | [] => expiredMessages
  | p :: rest =>
      if timed_out now timeout (snd p)
      then expired_loop now timeout rest (expiredMessages ++ [to_delivery p])
      else expired_loop now timeout rest expiredMessages
  end.

(** [Expired]: Go leaves the order of a map iteration open, so the result is
    any list the loop builds from some ordering of the entries. *)
Definition Expired (now timeout : Z) (m : Manager) (result : list Delivery) : Prop :=
  exists entries, entries ≡ₚ map_to_list (deliveries m) /\
    result = expired_loop now timeout entries [].

(** One such result, for running the model. *)
Definition Expired_one (now timeout : Z) (m : Manager) : list Delivery :=
  expired_loop now timeout (map_to_list (deliveries m)) [].

(** ** [session.ConsumerSession]

    [Closed] says whether the channel of that name is closed, and [Deliveries]
    holds the buffered deliveries, at most [deliveries_cap]. *)

Record ConsumerSession := mkSession {
  sess_ID : string;
  Deliveries : list Delivery;
  Closed : bool;
  closeOnce : bool;
  UnackedCount : Z;
}.

Definition deliveries_cap : nat := 100.

Definition NewConsumerSession (id : string) : ConsumerSession :=
  mkSession id [] false false 0.

(** [close] of a channel panics when it is closed already. *)
Definition close_chan (cs : ConsumerSession) : GoM ConsumerSession :=
  if Closed cs then Panic
  else Done (mkSession (sess_ID cs) (Deliveries cs) true (closeOnce cs) (UnackedCount cs)).

(** [closeOnce.Do] runs its function at the first call only. *)
Definition Close (cs : ConsumerSession) : GoM ConsumerSession :=
  if closeOnce cs then Done cs
  else
    let! cs := close_chan cs in
    Done (mkSession (sess_ID cs) (Deliveries cs) (Closed cs) true (UnackedCount cs)).

Definition IsEligible (maxPrefetchCount : Z) (cs : ConsumerSession) : bool :=
  bool_decide (UnackedCount cs < maxPrefetchCount).

(** [cs.UnackedCount++] and [cs.UnackedCount--]. *)
Definition set_UnackedCount (n : Z) (cs : ConsumerSession) : ConsumerSession :=
  mkSession (sess_ID cs) (Deliveries cs) (Closed cs) (closeOnce cs) n.

Definition set_Deliveries (l : list Delivery) (cs : ConsumerSession) : ConsumerSession :=
  mkSession (sess_ID cs) l (Closed cs) (closeOnce cs) (UnackedCount cs).

(** A session made by [NewConsumerSession] and changed by [Close] only closes
    its channel through the [sync.Once]. *)
Definition session_ok (cs : ConsumerSession) : Prop :=
  Closed cs = closeOnce cs /\ (length (Deliveries cs) <= deliveries_cap)%nat.

(** ** Facts *)

Lemma expired_loop_app now timeout entries acc :
  expired_loop now timeout entries acc =
  acc ++ (to_delivery <$> filter (fun p => timed_out now timeout (snd p)) entries).
Proof.
  revert acc. induction entries as [|p rest IH]; intros acc; simpl.
  - by rewrite app_nil_r.
  - rewrite filter_cons. destruct (timed_out now timeout p.2) eqn:E.
    + rewrite decide_True by done. rewrite IH, <- app_assoc. done.
    + rewrite decide_False by auto. apply IH.
Qed.

(** What [Expired] returns does not depend on the iteration order, up to
    permutation: exactly the entries that timed out. *)
Lemma Expired_iff now timeout m result d :
  Expired now timeout m result ->
  d ∈ result <->
  exists item, deliveries m !! d_AckToken d = Some item /\
    timed_out now timeout item = true /\
    d = mkDelivery (if_Message item) (d_AckToken d) (if_ConsumerID item).
Proof.
  intros (entries & Hperm & ->). rewrite expired_loop_app. simpl.
  rewrite list_elem_of_fmap. split.
  - intros ([tok item] & -> & Hin). apply list_elem_of_filter in Hin as [Ht Hin].
    rewrite Hperm, elem_of_map_to_list in Hin. simpl in *.
    exists item. split_and!; [done|by apply Is_true_true|done].
  - intros (item & Hl & Ht & Hd). exists (d_AckToken d, item). split; [done|].
    apply list_elem_of_filter. split; [by apply Is_true_true|].
    by rewrite Hperm, elem_of_map_to_list.
Qed.

Lemma Expired_tokens_NoDup now timeout m result :
  Expired now timeout m result -> NoDup (d_AckToken <$> result).
Proof.
  intros (entries & Hperm & ->). rewrite expired_loop_app. simpl.
  rewrite <- list_fmap_compose.
  change (d_AckToken ∘ to_delivery) with (@fst string InFlightMessage).
  assert (NoDup (fst <$> entries)) as Hnd.
  { rewrite Hperm. apply NoDup_fst_map_to_list. }
  clear Hperm. induction entries as [|p rest IH]; [constructor|].
  apply NoDup_cons in Hnd as [Hp Hnd]. rewrite filter_cons.
  case_decide; [|by apply IH]. apply NoDup_cons. split; [|by apply IH].
  contradict Hp. apply list_elem_of_fmap in Hp as (x & -> & Hx).
  apply list_elem_of_filter in Hx as [_ Hx]. by apply list_elem_of_fmap_2.
Qed.

Lemma Expired_one_ok now timeout m : Expired now timeout m (Expired_one now timeout m).
Proof. by exists (map_to_list (deliveries m)). Qed.

Lemma Remove_Some token m item m' :
  Remove token m = (Some item, m') ->
  deliveries m !! token = Some item /\ deliveries m' = delete token (deliveries m).
Proof. unfold Remove. case_match; naive_solver. Qed.

Lemma Remove_snd token m : deliveries (Remove token m).2 = delete token (deliveries m).
Proof. unfold Remove. case_match; [done|]. simpl. by rewrite delete_id. Qed.

Lemma Close_ok cs :
  session_ok cs ->
  exists cs', Close cs = Done cs' /\ session_ok cs' /\ Closed cs' = true /\
    sess_ID cs' = sess_ID cs /\ Deliveries cs' = Deliveries cs /\
    UnackedCount cs' = UnackedCount cs.
Proof.
  intros [Hc Hl]. unfold Close, close_chan. destruct (closeOnce cs) eqn:E.
  - exists cs. unfold session_ok. rewrite Hc, E. done.
  - rewrite Hc. simpl. eexists. unfold session_ok. done.
Qed.

#[export] Hint Resolve Expired_one_ok : dsend.

(** A redelivery round is given exactly the deliveries whose age exceeds the
    timeout, each once, whatever the order the map is iterated in. *)
Theorem expired_exact now timeout m result :
  Expired now timeout m result ->
  NoDup (d_AckToken <$> result) /\
  forall d, d ∈ result <->
    exists item, deliveries m !! d_AckToken d = Some item /\ timed_out now timeout item = true /\
      d = mkDelivery (if_Message item) (d_AckToken d) (if_ConsumerID item).
Proof. intros He. split; [by eapply Expired_tokens_NoDup|]. intros d. by apply Expired_iff. Qed.

Lemma expired_exact_witness :
  NoDup (d_AckToken <$> Expired_one 200 100
    (Add 10 "t" (mkMessage "a" "" 0 0 None) "c" NewManager)).
Proof. apply (expired_exact 200 100 _ _ (Expired_one_ok 200 100 _)). Defined.
