(* ===== verification/Exchange.v ===== *)
(** The exchanges of [internal/exchange]: the binding table every exchange
    embeds, the three routing rules and the factory. The topic matcher is the
    index loop of the source; it is compared with an independent inductive
    specification of [*] and [#] patterns. *)

From S2P Require Import Prelude GoStrings Model.

(** ** [baseExchange] *)

Record baseExchange := mkBase {
  Name : string;
  bindings : list Binding;
}.

Definition NewBaseExchange (name : string) : baseExchange := mkBase name [].

Fixpoint checkBindingExists (bs : list Binding) (bindingKey queueName : string) : bool :=
  match bs with
  | [] => false
  | b :: rest =>
      if bool_decide (BindingKey b = bindingKey) && bool_decide (QueueName b = queueName)
      then true else checkBindingExists rest bindingKey queueName
  end.

Fixpoint hasBinding (bs : list Binding) (bindingKey queueName : string) : bool :=
  match bs with
  | [] => false
  | b :: rest =>
      if bool_decide (QueueName b <> queueName) then hasBinding rest bindingKey queueName
      else if bool_decide (bindingKey = "") || bool_decide (BindingKey b = bindingKey)
      then true else hasBinding rest bindingKey queueName
  end.

Definition base_Bind (bindingKey queueName : string) (e : baseExchange)
    : option Err * baseExchange :=
  if checkBindingExists (bindings e) bindingKey queueName
  then (Some ErrBindingAlreadyExist, e)
  else (None, mkBase (Name e) (bindings e ++ [mkBinding queueName bindingKey])).

(** The predicate both [Unbind] and the log replay delete by: an empty key
    stands for every key of the queue. *)
Definition unbind_matches (bindingKey queueName : string) (b : Binding) : bool :=
  if bool_decide (bindingKey <> "")
  then bool_decide (BindingKey b = bindingKey) && bool_decide (QueueName b = queueName)
  else bool_decide (QueueName b = queueName).

Definition base_Unbind (bindingKey queueName : string) (e : baseExchange)
    : option Err * baseExchange :=
  if hasBinding (bindings e) bindingKey queueName
  then (None, mkBase (Name e)
                (slices_DeleteFunc (unbind_matches bindingKey queueName) (bindings e)))
  else (Some ErrBindingNotExist, e).

Definition base_ListBindings (e : baseExchange) : list Binding := [] ++ bindings e.

(** ** Routing *)

Fixpoint direct_loop (bs : list Binding) (routingKey : string) (queues : list string)
    : list string :=
  match bs with
  | [] => queues
  | b :: rest =>
      if bool_decide (BindingKey b = routingKey)
      then direct_loop rest routingKey (queues ++ [QueueName b])
      else direct_loop rest routingKey queues
  end.

Definition direct_Route (e : baseExchange) (routingKey : string) : list string :=
  direct_loop (bindings e) routingKey [].

Fixpoint fanout_loop (bs : list Binding) (queues : list string) : list string :=
  match bs with
  | [] => queues
  | b :: rest => fanout_loop rest (queues ++ [QueueName b])
  end.

Definition fanout_Route (e : baseExchange) (routingKey : string) : list string :=
  fanout_loop (bindings e) [].

(** The loop of [TopicExchange.match]: [inl] is an early return, [inr] the
    indices with which the loop condition fails. *)
Fixpoint match_loop (fuel : nat) (bindingParts routingParts : list string) (bi ri : nat)
    : GoM (bool + nat * nat) :=
  match fuel with
  | O => OutOfFuel
  | S fuel' =>
      if bool_decide (bi < length bindingParts)%nat && bool_decide (ri < length routingParts)%nat
      then
        let! btoken := go_index bindingParts (Z.of_nat bi) in
        let! rtoken := go_index routingParts (Z.of_nat ri) in
        if bool_decide (btoken = rtoken)
        then match_loop fuel' bindingParts routingParts (S bi) (S ri)
        else if bool_decide (btoken = "*")
        then match_loop fuel' bindingParts routingParts (S bi) (S ri)
        else if bool_decide (btoken = "#")
        then Done (inl (bool_decide (Z.of_nat bi = Z.of_nat (length bindingParts) - 1)))
        else Done (inl false)
      else Done (inr (bi, ri))
  end.

(** What [TopicExchange.match] does once the loop has ended. *)
Definition match_finish (bindingParts routingParts : list string) (r : bool + nat * nat)
    : GoM bool :=
  match r with
  | inl b => Done b
  | inr (bi, ri) =>
      let! last_hash :=
        (if bool_decide (Z.of_nat bi = Z.of_nat (length bindingParts) - 1)
         then let! t := go_index bindingParts (Z.of_nat bi) in Done (bool_decide (t = "#"))
         else Done false) in
      if (last_hash : bool) then Done true
      else Done (bool_decide (bi = length bindingParts) && bool_decide (ri = length routingParts))
  end.

(** [TopicExchange.match] on the split keys; the loop makes at most one round
    per binding segment. *)
Definition match_parts (bindingParts routingParts : list string) : GoM bool :=
  let! r := match_loop (S (length bindingParts)) bindingParts routingParts 0 0 in
  match_finish bindingParts routingParts r.

Definition topic_match (bindingKey routingKey : string) : GoM bool :=
  match_parts (strings_Split dot bindingKey) (strings_Split dot routingKey).

Fixpoint topic_loop (bs : list Binding) (routingKey : string) (queues : list string)
    : GoM (list string) :=
  match bs with
  | [] => Done queues
  | b :: rest =>
      let! m := topic_match (BindingKey b) routingKey in
      if (m : bool) then topic_loop rest routingKey (queues ++ [QueueName b])
      else topic_loop rest routingKey queues
  end.

Definition topic_Route (e : baseExchange) (routingKey : string) : GoM (list string) :=
  topic_loop (bindings e) routingKey [].

(** ** The [Exchange] interface: a direct, fan-out or topic exchange *)

Inductive Exchange :=
| Direct (e : baseExchange)
| FanOut (e : baseExchange)
| Topic (e : baseExchange).

Definition base_of (e : Exchange) : baseExchange :=
  match e with Direct b | FanOut b | Topic b => b end.

Definition with_base (e : Exchange) (b : baseExchange) : Exchange :=
  match e with Direct _ => Direct b | FanOut _ => FanOut b | Topic _ => Topic b end.

Definition type_of (e : Exchange) : ExchangeType :=
  match e with
  | Direct _ => DirectExchange | FanOut _ => FanOutExchange | Topic _ => TopicExchange
  end.

Definition NewDirectExchange (name : string) : Exchange := Direct (NewBaseExchange name).
Definition NewFanOutExchange (name : string) : Exchange := FanOut (NewBaseExchange name).
Definition NewTopicExchange (name : string) : Exchange := Topic (NewBaseExchange name).

Definition NewExchangeFactory (exchangeName : string) (exchangeType : ExchangeType) : Exchange :=
  match exchangeType with
  | FanOutExchange => NewFanOutExchange exchangeName
  | TopicExchange => NewTopicExchange exchangeName
  | DirectExchange => NewDirectExchange exchangeName
  end.

Definition Route (e : Exchange) (routingKey : string) : GoM (list string) :=
  match e with
  | Direct b => Done (direct_Route b routingKey)
  | FanOut b => Done (fanout_Route b routingKey)
  | Topic b => topic_Route b routingKey
  end.

Definition Bind (bindingKey queueName : string) (e : Exchange) : option Err * Exchange :=
  let (err, b) := base_Bind bindingKey queueName (base_of e) in (err, with_base e b).

Definition Unbind (bindingKey queueName : string) (e : Exchange) : option Err * Exchange :=
  let (err, b) := base_Unbind bindingKey queueName (base_of e) in (err, with_base e b).

Definition ListBindings (e : Exchange) : list Binding := base_ListBindings (base_of e).

(** ** Specification of topic patterns

    [*] stands for exactly one segment, [#] for any number of segments. *)

Inductive pattern_matches : list string -> list string -> Prop :=
| pm_nil : pattern_matches [] []
| pm_word w b r : pattern_matches b r -> pattern_matches (w :: b) (w :: r)
| pm_star w b r : pattern_matches b r -> pattern_matches ("*" :: b) (w :: r)
| pm_hash_none b r : pattern_matches b r -> pattern_matches ("#" :: b) r
| pm_hash_one w b r : pattern_matches ("#" :: b) r -> pattern_matches ("#" :: b) (w :: r).

(** The shape [validateBindingKey] enforces: [#] only as the last segment. *)
Fixpoint hash_last (b : list string) : Prop :=
  match b with
  | [] => True
  | w :: rest => (w = "#" -> rest = []) /\ hash_last rest
  end.

(** The matcher by recursion on the two keys. *)
Fixpoint matchb (b r : list string) : bool :=
  match b, r with
  | [], [] => true
  | [], _ => false
  | w :: b', [] => bool_decide (w = "#") && bool_decide (b' = [])
  | w :: b', v :: r' =>
      if bool_decide (w = v) then matchb b' r'
      else if bool_decide (w = "*") then matchb b' r'
      else if bool_decide (w = "#") then bool_decide (b' = [])
      else false
  end.

#[export] Hint Constructors pattern_matches : dsend.

(** The bindings a routing key selects, in binding order. *)
Definition selects (e : Exchange) (routingKey : string) (b : Binding) : bool :=
  match e with
  | Direct _ => bool_decide (BindingKey b = routingKey)
  | FanOut _ => true
  | Topic _ => matchb (strings_Split dot (BindingKey b)) (strings_Split dot routingKey)
  end.

Definition routed (e : Exchange) (routingKey : string) : list string :=
  QueueName <$> filter (fun b => selects e routingKey b) (bindings (base_of e)).

(** No binding occurs twice in the table. *)
Definition exchange_ok (e : Exchange) : Prop := NoDup (bindings (base_of e)).

(** ** The index loop computes the recursive matcher *)

Lemma match_loop_spec fuel bp rp bi ri :
  (length bp - bi < fuel)%nat -> (bi <= length bp)%nat -> (ri <= length rp)%nat ->
  exists r, match_loop fuel bp rp bi ri = Done r /\
    match_finish bp rp r = Done (matchb (drop bi bp) (drop ri rp)).
Proof.
  revert bi ri. induction fuel as [|fuel IH]; intros bi ri Hf Hb Hr; [lia|]. simpl.
  destruct (decide (bi < length bp)%nat) as [Hbi|Hbi].
  - destruct (lookup_lt_is_Some_2 bp bi Hbi) as [w Hw].
    rewrite (drop_S bp w bi) by done. rewrite (bool_decide_true (bi < length bp)%nat) by done.
    destruct (decide (ri < length rp)%nat) as [Hri|Hri]; simpl.
    + destruct (lookup_lt_is_Some_2 rp ri Hri) as [v Hv].
      rewrite (drop_S rp v ri) by done. rewrite bool_decide_true by done.
      rewrite (go_index_Some bp (Z.of_nat bi) w) by (lia || by rewrite Nat2Z.id). simpl.
      rewrite (go_index_Some rp (Z.of_nat ri) v) by (lia || by rewrite Nat2Z.id). simpl.
      case_bool_decide; [apply IH; lia|]. case_bool_decide; [apply IH; lia|].
      case_bool_decide; eexists; split; try done. simpl. f_equal.
      apply bool_decide_ext. rewrite <- length_zero_iff_nil, length_drop. lia.
    + rewrite bool_decide_false by done. eexists; split; [done|]. simpl.
      rewrite (drop_ge rp ri) by lia. simpl.
      assert (bool_decide (drop (S bi) bp = []) =
              bool_decide (Z.of_nat bi = Z.of_nat (length bp) - 1)) as ->.
      { apply bool_decide_ext. rewrite <- length_zero_iff_nil, length_drop. lia. }
      rewrite (go_index_Some bp (Z.of_nat bi) w) by (lia || by rewrite Nat2Z.id).
      rewrite (bool_decide_false (bi = length bp)) by lia.
      repeat (case_bool_decide; simpl; try done).
  - rewrite bool_decide_false by done. eexists; split; [done|]. simpl.
    rewrite (drop_ge bp bi) by lia. rewrite bool_decide_false by lia. simpl.
    rewrite (bool_decide_true (bi = length bp)) by lia. simpl.
    destruct (drop ri rp) as [|v r'] eqn:E;
      apply (f_equal length) in E; rewrite length_drop in E; simpl in E;
      f_equal; [apply bool_decide_eq_true | apply bool_decide_eq_false]; lia.
Qed.

Lemma match_parts_spec bp rp : match_parts bp rp = Done (matchb bp rp).
Proof.
  unfold match_parts.
  destruct (match_loop_spec (S (length bp)) bp rp 0 0) as (r & -> & Hr); [lia..|].
  simpl. by rewrite Hr.
Qed.

Lemma hash_matches_all r : pattern_matches ["#"] r.
Proof. induction r; auto with dsend. Qed.

Lemma matchb_sound b r : matchb b r = true -> pattern_matches b r.
Proof.
  revert r. induction b as [|w b IH]; intros [|v r]; simpl; try done.
  - auto with dsend.
  - intros [->%bool_decide_eq_true ->%bool_decide_eq_true]%andb_true_iff. auto with dsend.
  - repeat case_bool_decide; subst; auto with dsend; try done.
    intros _. apply hash_matches_all.
Qed.

Lemma matchb_complete b r :
  hash_last b -> "#" ∉ r -> pattern_matches b r -> matchb b r = true.
Proof.
  intros Hb Hr Hm. induction Hm as [|w b r _ IH|w b r _ IH|b r Hm IH|w b r Hm IH]; simpl in *.
  - done.
  - rewrite bool_decide_true by done. apply IH; set_solver.
  - case_bool_decide; apply IH; set_solver.
  - destruct Hb as [Hb _]. rewrite (Hb eq_refl) in *. inversion Hm; subst. done.
  - destruct Hb as [Hb _]. rewrite (Hb eq_refl) in *.
    rewrite bool_decide_false by set_solver. done.
Qed.

(** ** Routing in closed form *)

Lemma direct_loop_eq bs rk acc :
  direct_loop bs rk acc =
  acc ++ (QueueName <$> filter (fun b => bool_decide (BindingKey b = rk)) bs).
Proof.
  revert acc. induction bs as [|b bs IH]; intros acc; simpl; [by rewrite app_nil_r|].
  rewrite filter_cons. repeat case_bool_decide; case_decide; try done;
    rewrite IH; simpl; by rewrite <- ?app_assoc.
Qed.

Lemma fanout_loop_eq bs acc : fanout_loop bs acc = acc ++ (QueueName <$> bs).
Proof.
  revert acc. induction bs as [|b bs IH]; intros acc; simpl; [by rewrite app_nil_r|].
  by rewrite IH, <- app_assoc.
Qed.

Lemma topic_loop_eq bs rk acc :
  topic_loop bs rk acc =
  Done (acc ++ (QueueName <$> filter
    (fun b => matchb (strings_Split dot (BindingKey b)) (strings_Split dot rk)) bs)).
Proof.
  revert acc. induction bs as [|b bs IH]; intros acc; simpl; [by rewrite app_nil_r|].
  unfold topic_match. rewrite match_parts_spec. simpl. rewrite filter_cons.
  destruct (matchb _ _); case_decide; try done; rewrite IH; simpl; by rewrite <- ?app_assoc.
Qed.

(** Every routing rule returns, one entry per selected binding. *)
Lemma Route_eq e rk : Route e rk = Done (routed e rk).
Proof.
  unfold routed. destruct e as [b|b|b]; simpl.
  - unfold direct_Route. by rewrite direct_loop_eq.
  - unfold fanout_Route. rewrite fanout_loop_eq. simpl. do 2 f_equal.
    induction (bindings b) as [|x l IH]; [done|]. by rewrite filter_cons_True, <- IH.
  - unfold topic_Route. by rewrite topic_loop_eq.
Qed.

(** ** The binding table *)

Lemma checkBindingExists_iff bs k q :
  checkBindingExists bs k q = true <-> mkBinding q k ∈ bs.
Proof.
  induction bs as [|[q' k'] bs IH]; simpl; [split; [done|by intros ?%elem_of_nil]|].
  rewrite elem_of_cons, <- IH. repeat case_bool_decide; simpl; naive_solver.
Qed.

Lemma hasBinding_cons b bs k q :
  hasBinding (b :: bs) k q = unbind_matches k q b || hasBinding bs k q.
Proof.
  unfold unbind_matches. simpl.
  destruct (decide (QueueName b = q)), (decide (k = "")), (decide (BindingKey b = k)).
  all: repeat first [rewrite bool_decide_true by done | rewrite bool_decide_false by naive_solver].
  all: done.
Qed.

Lemma hasBinding_iff bs k q :
  hasBinding bs k q = true <-> exists b, b ∈ bs /\ unbind_matches k q b = true.
Proof.
  induction bs as [|b bs IH].
  - split; [done|]. by intros (b & ?%elem_of_nil & _).
  - rewrite hasBinding_cons, orb_true_iff, IH. setoid_rewrite elem_of_cons.
    split; [intros [?|(x & ? & ?)]; eauto|intros (x & [->|?] & ?); eauto].
Qed.

Lemma unbind_matches_key k q b :
  k <> "" -> unbind_matches k q b = true <-> b = mkBinding q k.
Proof.
  intros Hk. unfold unbind_matches. rewrite bool_decide_true by done.
  rewrite andb_true_iff, !bool_decide_eq_true. destruct b; naive_solver.
Qed.

(** ** Theorems *)

(** A topic exchange never selects a binding its pattern does not match,
    for any keys at all. *)
Theorem topic_match_sound bindingKey routingKey :
  topic_match bindingKey routingKey = Done true ->
  pattern_matches (strings_Split dot bindingKey) (strings_Split dot routingKey).
Proof. unfold topic_match. rewrite match_parts_spec. intros [= H]. by apply matchb_sound. Qed.

Lemma topic_match_sound_witness : pattern_matches ["a"; "#"] ["a"; "b"; "c"].
Proof. apply (topic_match_sound "a.#" "a.b.c"). by vm_compute. Defined.

(** [Route] returns one queue per selected binding, in binding order: for a
    direct exchange the bindings whose key is the routing key, for a fan-out
    exchange all of them, for a topic exchange those whose pattern the matcher
    accepts. *)
Theorem route_selects_bindings e rk :
  exists queues, Route e rk = Done queues /\
    queues = QueueName <$> filter (fun b => selects e rk b) (bindings (base_of e)) /\
    forall b, selects e rk b = true <->
      match e with
      | Direct _ => BindingKey b = rk
      | FanOut _ => True
      | Topic _ => topic_match (BindingKey b) rk = Done true
      end.
Proof.
  exists (routed e rk). split; [apply Route_eq|]. split; [done|]. intros b.
  destruct e; simpl; [apply bool_decide_eq_true|done|].
  unfold topic_match. rewrite match_parts_spec. split; [by intros ->|by intros [= ->]].
Qed.

(** A table without repeated bindings gives no queue twice when the key decides
    the binding. *)
Lemma direct_NoDup bs rk :
  NoDup bs -> NoDup (QueueName <$> filter (fun b => bool_decide (BindingKey b = rk)) bs).
Proof.
  intros Hnd. apply NoDup_fmap_2_strong; [|by apply NoDup_filter].
  intros [q k] [q' k'] Hx Hy. apply list_elem_of_filter in Hx as [Hx _], Hy as [Hy _].
  apply bool_decide_unpack in Hx, Hy. simpl in *. congruence.
Qed.

(** A direct exchange delivers a message to no queue more than once. *)
Theorem direct_route_no_duplicates b rk :
  exchange_ok (Direct b) -> NoDup (direct_Route b rk).
Proof. intros Hok. unfold direct_Route. rewrite direct_loop_eq. by apply direct_NoDup. Qed.

Lemma direct_route_no_duplicates_witness :
  NoDup (direct_Route (mkBase "e" [mkBinding "q" "k"; mkBinding "p" "k"]) "k").
Proof.
  apply direct_route_no_duplicates. unfold exchange_ok. simpl.
  apply (bool_decide_unpack _). by vm_compute.
Defined.

(** A topic exchange does when two of its patterns match. *)
Theorem topic_route_duplicates :
  Route (Topic (mkBase "e" [mkBinding "q" "a.*"; mkBinding "q" "a.#"])) "a.b" = Done ["q"; "q"].
Proof. by vm_compute. Qed.

(** A routing key with a segment [#] is compared literally first, so the
    pattern [#] does not match it. *)
Theorem hash_segment_not_matched :
  topic_match "#" "#.a" = Done false /\ pattern_matches ["#"] ["#"; "a"].
Proof. split; [by vm_compute|apply hash_matches_all]. Qed.

Lemma Bind_cases k q e err e' :
  Bind k q e = (err, e') ->
  (mkBinding q k ∈ bindings (base_of e) /\ err = Some ErrBindingAlreadyExist /\ e' = e) \/
  ((mkBinding q k ∉ bindings (base_of e)) /\ err = None /\
    e' = with_base e (mkBase (Name (base_of e)) (bindings (base_of e) ++ [mkBinding q k]))).
Proof.
  unfold Bind, base_Bind. destruct (checkBindingExists _ _ _) eqn:E; intros [= <- <-].
  - left. apply checkBindingExists_iff in E. by destruct e as [[]|[]|[]].
  - right. split; [|done]. rewrite <- checkBindingExists_iff. congruence.
Qed.

Lemma base_with_base e b : base_of (with_base e b) = b.
Proof. by destruct e. Qed.

Lemma Unbind_cases k q e err e' :
  Unbind k q e = (err, e') ->
  (forall b, b ∈ bindings (base_of e) -> unbind_matches k q b = false) /\
    err = Some ErrBindingNotExist /\ e' = e \/
  (exists b, b ∈ bindings (base_of e) /\ unbind_matches k q b = true) /\ err = None /\
    e' = with_base e (mkBase (Name (base_of e))
           (slices_DeleteFunc (unbind_matches k q) (bindings (base_of e)))).
Proof.
  unfold Unbind, base_Unbind. destruct (hasBinding _ _ _) eqn:E; intros [= <- <-].
  - right. split; [by apply hasBinding_iff|done].
  - left. split; [|by destruct e as [[]|[]|[]]]. intros b Hb. apply not_true_iff_false.
    intros Hm. assert (hasBinding (bindings (base_of e)) k q = true); [|congruence].
    apply hasBinding_iff. eauto.
Qed.

(** [Bind] refuses a binding that exists and keeps the table free of
    repetitions; [Unbind] of a binding just added gives the table back. *)
Theorem bind_unbind_roundtrip k q e e' :
  exchange_ok e -> k <> "" -> Bind k q e = (None, e') ->
  exchange_ok e' /\ Bind k q e' = (Some ErrBindingAlreadyExist, e') /\ Unbind k q e' = (None, e).
Proof.
  unfold exchange_ok. intros Hok Hk Hb.
  destruct (Bind_cases k q e None e' Hb) as [(_ & ? & _)|(Hnin & _ & ->)]; [done|].
  rewrite base_with_base. simpl. split; [|split].
  - apply NoDup_app. split_and!; [done| |by apply NoDup_singleton].
    intros x Hx Hx'. apply list_elem_of_singleton in Hx' as ->. done.
  - unfold Bind, base_Bind. rewrite base_with_base. simpl.
    rewrite (proj2 (checkBindingExists_iff _ k q)); [by destruct e|].
    apply elem_of_app. right. by apply list_elem_of_singleton.
  - unfold Unbind, base_Unbind. rewrite base_with_base. simpl.
    rewrite (proj2 (hasBinding_iff _ k q)).
    + rewrite DeleteFunc_app, (DeleteFunc_none _ (bindings (base_of e))).
      * unfold slices_DeleteFunc. rewrite filter_cons_False.
        { rewrite filter_nil, app_nil_r. by destruct e as [[]|[]|[]]. }
        { rewrite (proj2 (unbind_matches_key k q (mkBinding q k) Hk)) by done. naive_solver. }
      * intros b Hin. apply not_true_iff_false.
        intros Hm%unbind_matches_key; [|done]. by subst.
    + exists (mkBinding q k). split; [apply elem_of_app; right; by apply list_elem_of_singleton|].
      by apply unbind_matches_key.
Qed.

Lemma bind_unbind_roundtrip_witness :
  exists e', Bind "k" "q" (NewDirectExchange "e") = (None, e') /\
    Unbind "k" "q" e' = (None, NewDirectExchange "e").
Proof.
  eexists. split; [reflexivity|].
  apply (bind_unbind_roundtrip "k" "q" (NewDirectExchange "e")); [|done|reflexivity].
  apply NoDup_nil_2.
Defined.
