(* ===== verification/Wal.v ===== *)
(** The write-ahead log of [internal/storage]: the interface [storage.WAL] with
    its laws, the replay of records into a recovered state ([Load]) and the
    file-backed implementation, whose operating-system outcomes are a script
    the environment chooses. *)

From S2P Require Import Prelude GoStrings Model Exchange.

(** ** Recovered state *)

Record ExchangeState := mkExchangeState {
  es_ExchangeType : string;
  es_Bindings : list Binding;
}.

Record RecoveredState := mkRecovered {
  PendingMessages : gmap string (list Message);
  PendingExchanges : gmap string ExchangeState;
}.

Definition emptyRecovered : RecoveredState := mkRecovered ∅ ∅.

Definition set_PendingMessages (f : gmap string (list Message) -> gmap string (list Message))
    (s : RecoveredState) : RecoveredState :=
  mkRecovered (f (PendingMessages s)) (PendingExchanges s).

Definition set_PendingExchanges (f : gmap string ExchangeState -> gmap string ExchangeState)
    (s : RecoveredState) : RecoveredState :=
  mkRecovered (PendingMessages s) (f (PendingExchanges s)).

Definition removeMessage (messages : list Message) (messageID : string) : list Message :=
  slices_DeleteFunc (fun m => bool_decide (ID m = messageID)) messages.

(** [state.PendingMessages[q]]: a missing key reads as the nil slice. *)
Definition pending_of (s : RecoveredState) (q : string) : list Message :=
  default [] (PendingMessages s !! q).

(** The [switch record.Type] of [Load]: one record applied to the state. *)
Definition load_record (state : RecoveredState) (record : WalRecord) : RecoveredState :=
  match r_Type record with
  | QueueCreated =>
      match PendingMessages state !! r_Queue record with
      | Some _ => state
      | None => set_PendingMessages <[r_Queue record := []]> state
      end
  | Published =>
      set_PendingMessages
        <[r_Queue record := pending_of state (r_Queue record) ++ [r_Message record]]> state
  | Requeued =>
      let messages := removeMessage (pending_of state (r_Queue record)) (r_MessageID record) in
      set_PendingMessages <[r_Queue record := messages ++ [r_Message record]]> state
  | Acknowledged | DeadLettered =>
      set_PendingMessages
        <[r_Queue record :=
            removeMessage (pending_of state (r_Queue record)) (r_MessageID record)]> state
  | QueueDeleted => set_PendingMessages (delete (r_Queue record)) state
  | QueueBinded =>
      match PendingExchanges state !! r_Exchange record with
      | None => state
      | Some es =>
          set_PendingExchanges
            <[r_Exchange record := mkExchangeState (es_ExchangeType es)
                (es_Bindings es ++ [mkBinding (r_Queue record) (r_BindingKey record)])]> state
      end
  | QueueUnbinded =>
      match PendingExchanges state !! r_Exchange record with
      | None => state
      | Some es =>
          set_PendingExchanges
            <[r_Exchange record := mkExchangeState (es_ExchangeType es)
                (slices_DeleteFunc (unbind_matches (r_BindingKey record) (r_Queue record))
                   (es_Bindings es))]> state
      end
  | ExchangeCreated =>
      set_PendingExchanges
        <[r_Exchange record := mkExchangeState (r_ExchangeType record) []]> state
  | ExchangeDeleted => set_PendingExchanges (delete (r_Exchange record)) state
  | OtherType _ => state
  end.

(** Replaying a log of records. *)
Definition replay (log : list WalRecord) : RecoveredState :=
  foldl load_record emptyRecovered log.

(** ** The interface [storage.WAL] *)

Class WAL (W : Type) := {
  Append : WalRecord -> W -> option Err * W;
  Load : W -> RecoveredState + Err;
}.

(** Records the engine writes carry a type. *)
Definition typed (r : WalRecord) : Prop := RecordType_string (r_Type r) <> "".

(** What the engine relies on: a successful append adds exactly its record, a
    failed one adds nothing and reports a storage error, and loading replays the
    log. *)
Class WALLaws (W : Type) `{!WAL W} := {
  wal_ok : W -> Prop;
  wal_log : W -> list WalRecord;
  append_ok r w w' : wal_ok w -> typed r -> Append r w = (None, w') ->
    wal_ok w' /\ wal_log w' = wal_log w ++ [r];
  append_err r w e w' : wal_ok w -> typed r -> Append r w = (Some e, w') ->
    wal_ok w' /\ wal_log w' = wal_log w;
  append_storage r w e w' : Append r w = (Some e, w') -> exists what, e = ErrStorage what;
  load_ok w : wal_ok w -> Load w = inl (replay (wal_log w));
}.

(** The laws with the outcome first. *)
Lemma append_done `{WALLaws W} r w w' :
  Append r w = (None, w') -> wal_ok w -> typed r -> wal_ok w' /\ wal_log w' = wal_log w ++ [r].
Proof. intros Ha Hok Ht. by apply (append_ok r w w'). Qed.

Lemma append_failed `{WALLaws W} r w e w' :
  Append r w = (Some e, w') -> wal_ok w -> typed r -> wal_ok w' /\ wal_log w' = wal_log w.
Proof. intros Ha Hok Ht. by apply (append_err r w e w'). Qed.

(** ** [FileWAL] *)

(** A document of the log file as the decoder sees it: a syntax error, or a
    JSON value with the outcomes of unmarshalling it as a record and as a bare
    message (the format of logs without a record type). *)
Inductive raw_doc :=
| Undecodable
| RawDoc (as_record : option WalRecord) (as_message : option Message).

(** What a failed write leaves behind in the file. *)
Inductive fragment := FragNone | FragTorn | FragWhole.

(** The outcome of marshalling, writing and syncing one record. *)
Inductive io_outcome :=
| IoOk
| IoMarshalErr
| IoWriteErr (rest : fragment)
| IoShortWrite (rest : fragment)
| IoSyncErr.

(** The outcome of [os.Open] on the log. *)
Inductive open_outcome := Opened | NotExist | OpenErr.

Record FileWAL := mkFileWAL {
  fw_docs : list raw_doc;
  fw_closed : bool;
  fw_open : open_outcome;
  fw_io : list io_outcome;
}.

(** The JSON document of a record; read as a message it has no known field. *)
Definition record_doc (r : WalRecord) : raw_doc := RawDoc (Some r) (Some zeroMessage).

Definition fragment_docs (r : WalRecord) (rest : fragment) : list raw_doc :=
  match rest with
  | FragNone => []
  | FragTorn => [Undecodable]
  | FragWhole => [record_doc r]
  end.

(** [NewFileWAL] creates the file when it is missing; [io] is the script of
    outcomes the operating system will give. *)
Definition NewFileWAL (docs : list raw_doc) (io : list io_outcome) : FileWAL :=
  mkFileWAL docs false Opened io.

Definition writeRecord (record : WalRecord) (f : FileWAL) : option Err * FileWAL :=
  let outcome := hd IoOk (fw_io f) in
  let put docs := mkFileWAL (fw_docs f ++ docs) (fw_closed f) (fw_open f) (List.tl (fw_io f)) in
  match outcome with
  | IoMarshalErr => (Some (ErrStorage "error marshalling data"), put [])
  | IoWriteErr rest =>
      (Some (ErrStorage "failed to write record to WAL file"), put (fragment_docs record rest))
  | IoShortWrite rest => (Some (ErrStorage "short write"), put (fragment_docs record rest))
  | IoSyncErr => (Some (ErrStorage "failed to sync WAL file to disk"), put [record_doc record])
  | IoOk => (None, put [record_doc record])
  end.

(** [Append] hands the record to the writer goroutine and waits for its
    result; the writer runs [writeRecord] on the requests in order. *)
Definition file_Append (record : WalRecord) (f : FileWAL) : option Err * FileWAL :=
  if fw_closed f then (Some (ErrStorage "WAL closed"), f) else writeRecord record f.

Fixpoint load_loop (docs : list raw_doc) (state : RecoveredState) : RecoveredState + Err :=
  match docs with
  | [] => inl state
  | Undecodable :: _ => inr (ErrStorage "error decoding log entry")
  | RawDoc rec msg :: rest =>
      match rec with
      | None => inr (ErrStorage "error decoding WAL record")
      | Some record =>
          if bool_decide (RecordType_string (r_Type record) = "") then
            match msg with
            | None => inr (ErrStorage "error decoding WAL record")
            | Some message =>
                load_loop rest
                  (set_PendingMessages
                     <[DefaultQueueName := pending_of state DefaultQueueName ++ [message]]> state)
            end
          else load_loop rest (load_record state record)
      end
  end.

Definition file_Load (f : FileWAL) : RecoveredState + Err :=
  match fw_open f with
  | NotExist => inl emptyRecovered
  | OpenErr => inr (ErrStorage "error opening file")
  | Opened => load_loop (fw_docs f) emptyRecovered
  end.

Definition file_Close (f : FileWAL) : FileWAL :=
  if fw_closed f then f else mkFileWAL (fw_docs f) true (fw_open f) (fw_io f).

#[export] Instance FileWAL_WAL : WAL FileWAL := {
  Append := file_Append;
  Load := file_Load;
}.

(** An outcome after which the file holds the whole record or nothing of it,
    and says which. *)
Definition clean_io (o : io_outcome) : Prop :=
  match o with
  | IoOk | IoMarshalErr | IoWriteErr FragNone | IoShortWrite FragNone => True
  | _ => False
  end.

Definition doc_record (d : raw_doc) : option WalRecord :=
  match d with RawDoc r _ => r | Undecodable => None end.

Definition file_log (f : FileWAL) : list WalRecord := omap doc_record (fw_docs f).

Definition file_ok (f : FileWAL) : Prop :=
  fw_open f = Opened /\ Forall clean_io (fw_io f) /\
  Forall typed (file_log f) /\ fw_docs f = record_doc <$> file_log f.

#[export] Hint Extern 0 (typed _) => (unfold typed; simpl; discriminate) : dsend.

(** ** Facts on replay *)

Lemma replay_snoc log r : replay (log ++ [r]) = load_record (replay log) r.
Proof. unfold replay. by rewrite foldl_app. Qed.

(** What comes after whole records is read in the state they lead to. *)
Lemma load_loop_app rs docs state :
  Forall typed rs ->
  load_loop ((record_doc <$> rs) ++ docs) state = load_loop docs (foldl load_record state rs).
Proof.
  intros Hrs. revert state. induction Hrs as [|r rs Hr _ IH]; intros state; simpl; [done|].
  unfold typed in Hr. by rewrite bool_decide_false.
Qed.

Lemma load_loop_records rs state :
  Forall typed rs -> load_loop (record_doc <$> rs) state = inl (foldl load_record state rs).
Proof. intros Hrs. pose proof (load_loop_app rs [] state Hrs) as H. by rewrite app_nil_r in H. Qed.

(** A record changes the pending messages of its own queue only. *)
Lemma load_record_other_queue s r q :
  r_Queue r <> q -> PendingMessages (load_record s r) !! q = PendingMessages s !! q.
Proof.
  intros Hq. unfold load_record.
  destruct (r_Type r); simpl; try done; repeat case_match; simpl; try done;
    first [by rewrite lookup_insert_ne | by rewrite lookup_delete_ne].
Qed.

Lemma load_record_other_exchange s r e :
  r_Exchange r <> e -> PendingExchanges (load_record s r) !! e = PendingExchanges s !! e.
Proof.
  intros He. unfold load_record.
  destruct (r_Type r); simpl; try done; repeat case_match; simpl; try done;
    first [by rewrite lookup_insert_ne | by rewrite lookup_delete_ne].
Qed.

Lemma removeMessage_app l k id :
  removeMessage (l ++ k) id = removeMessage l id ++ removeMessage k id.
Proof. apply DeleteFunc_app. Qed.

Lemma removeMessage_notin l id : id ∉ ID <$> l -> removeMessage l id = l.
Proof.
  intros Hid. apply DeleteFunc_none. intros m Hm. apply bool_decide_eq_false.
  intros <-. apply Hid. by apply list_elem_of_fmap_2.
Qed.

Lemma removeMessage_perm l k id : l ≡ₚ k -> removeMessage l id ≡ₚ removeMessage k id.
Proof. apply DeleteFunc_perm. Qed.

(** Removing a message whose identifier is unique removes just that message. *)
Lemma removeMessage_unique l k m :
  NoDup (ID <$> l) -> l ≡ₚ m :: k -> removeMessage l (ID m) ≡ₚ k.
Proof.
  intros Hnd Hp. rewrite (removeMessage_perm _ _ _ Hp).
  rewrite Hp in Hnd. simpl in Hnd. apply NoDup_cons in Hnd as [Hm _].
  unfold removeMessage, slices_DeleteFunc. rewrite filter_cons_False.
  - by rewrite <- (removeMessage_notin k (ID m)) at 2.
  - by rewrite bool_decide_true.
Qed.

(** ** The file keeps the interface's promise under clean outcomes *)

Lemma file_log_app docs r closed o io :
  file_log (mkFileWAL (docs ++ [record_doc r]) closed o io) = omap doc_record docs ++ [r].
Proof. unfold file_log. simpl. by rewrite omap_app. Qed.

Lemma file_put_ok docs r closed io :
  Forall clean_io io -> Forall typed (omap doc_record docs) ->
  docs = record_doc <$> omap doc_record docs -> typed r ->
  file_ok (mkFileWAL (docs ++ [record_doc r]) closed Opened io).
Proof.
  intros Hio Ht Hd Hr. unfold file_ok. simpl. rewrite file_log_app.
  split_and!; [done|done|apply Forall_app; by auto|]. rewrite fmap_app, <- Hd. done.
Qed.

Lemma file_append_spec r f e f' :
  file_ok f -> typed r -> file_Append r f = (e, f') ->
  file_ok f' /\ file_log f' = file_log f ++ match e with Some _ => [] | None => [r] end.
Proof.
  intros (Ho & Hio & Ht & Hd) Hr. destruct f as [docs closed o io]. simpl in *. subst o.
  unfold file_Append, writeRecord; simpl.
  destruct closed; [intros [= <- <-]; rewrite app_nil_r; done|].
  assert (Forall clean_io (List.tl io)) by (inversion Hio; simpl; auto).
  destruct io as [|out io]; simpl in *; [|inversion Hio as [|? ? Hc _]; subst].
  - intros [= <- <-]. rewrite file_log_app. split; [by apply file_put_ok|done].
  - destruct out as [| |[]|[]|]; simpl in *; try done; intros [= <- <-];
      rewrite ?app_nil_r; rewrite ?file_log_app; split; try done; by apply file_put_ok.
Qed.

#[export] Instance FileWAL_laws : WALLaws FileWAL.
Proof.
  refine {| wal_ok := file_ok; wal_log := file_log |}.
  - intros r w w' Hok Hr Ha. by apply (file_append_spec r w None w').
  - intros r w e w' Hok Hr Ha. rewrite <- (app_nil_r (file_log w)).
    by apply (file_append_spec r w (Some e) w').
  - intros r w e w'. simpl. unfold file_Append, writeRecord.
    destruct (fw_closed w); [intros [= <- _]; eauto|].
    destruct (hd IoOk (fw_io w)); intros [= <- _]; eauto.
  - intros w (Ho & _ & Ht & Hd). simpl. unfold file_Load. rewrite Ho.
    rewrite Hd at 1. by rewrite load_loop_records.
Defined.

(** ** Theorems on the file *)

(** A successful [Append] is seen by the next [Load] as exactly one more
    record at the end of the log; a failed one whose write left nothing behind
    is not seen at all. *)
Theorem append_then_load r f e f' st :
  file_ok f -> typed r -> file_Load f = inl st -> file_Append r f = (e, f') ->
  file_Load f' = inl match e with None => load_record st r | Some _ => st end.
Proof.
  intros Hok Hr Hl Ha. destruct (file_append_spec r f e f' Hok Hr Ha) as [Hok' Hlog].
  pose proof (load_ok f Hok) as H1. pose proof (load_ok f' Hok') as H2. simpl in H1, H2.
  rewrite H1 in Hl. injection Hl as <-. rewrite H2, Hlog. destruct e; [by rewrite app_nil_r|].
  by rewrite replay_snoc.
Qed.

Lemma append_then_load_witness :
  file_Load (file_Append (rec_queue QueueCreated "q") (NewFileWAL [] [])).2 =
  inl (load_record emptyRecovered (rec_queue QueueCreated "q")).
Proof.
  apply (append_then_load (rec_queue QueueCreated "q") (NewFileWAL [] []) None _ emptyRecovered).
  - repeat split; constructor.
  - discriminate.
  - reflexivity.
  - reflexivity.
Defined.

(** Logs of the old format still load: a document without a record type is a
    message of the default queue, in order. *)
Theorem legacy_log_loads (msgs : list Message) :
  file_Load (NewFileWAL ((fun m => RawDoc (Some (rec_queue (OtherType "") "")) (Some m)) <$> msgs) []) =
  inl (match msgs with [] => emptyRecovered
       | _ => mkRecovered {[DefaultQueueName := msgs]} ∅ end).
Proof.
  unfold file_Load, NewFileWAL. simpl.
  assert (forall ms st, load_loop ((fun m => RawDoc (Some (rec_queue (OtherType "") "")) (Some m)) <$> ms) st =
    inl match ms with [] => st | _ => set_PendingMessages
      <[DefaultQueueName := pending_of st DefaultQueueName ++ ms]> st end) as Hgen.
  { induction ms as [|m ms IH]; intros st; [done|]. rewrite fmap_cons. cbn -[DefaultQueueName].
    rewrite IH. destruct ms as [|m' ms]; [done|]. unfold set_PendingMessages, pending_of. simpl.
    rewrite lookup_insert_eq, insert_insert_eq. simpl. by rewrite <- app_assoc. }
  rewrite Hgen. by destruct msgs.
Qed.

(** A record torn by a failed write or a crash stops every later [Load]. *)
Theorem torn_record_blocks_load docs rest io :
  Forall (fun d => exists r, typed r /\ d = record_doc r) docs ->
  exists e, file_Load (NewFileWAL (docs ++ Undecodable :: rest) io) = inr e.
Proof.
  intros Hd. unfold file_Load. simpl. generalize emptyRecovered.
  induction Hd as [|d docs (r & Hr & ->) _ IH]; intros st; simpl; [by eexists|].
  unfold typed in Hr. rewrite bool_decide_false by done. apply IH.
Qed.

(** When [Sync] fails the caller is told so, but the record is in the file. *)
Theorem sync_error_keeps_record r f io :
  fw_closed f = false -> fw_io f = IoSyncErr :: io ->
  exists e, file_Append r f = (Some e, mkFileWAL (fw_docs f ++ [record_doc r]) false (fw_open f) io).
Proof.
  intros Hc Hio. unfold file_Append, writeRecord. rewrite Hc, Hio. simpl. by eexists.
Qed.
