(* ===== verification/QueueRuntime.v ===== *)
(** The per-queue runtime of [internal/engine/queue_runtime.go]: its state and
    every critical section of its methods, as a function on the runtime and the
    world it shares with other components (the log, the consumer sessions that
    connections hold pointers to, and the broker's token table the token hooks
    write to). Clock readings and fresh identifiers are arguments. *)

From S2P Require Import Prelude GoStrings Model RingBuffer Inflight Exchange Wal.

(** ** State *)

(** A condition variable: the goroutines blocked in [Wait], and those a
    [Signal] or [Broadcast] has released that have not run yet. *)
Record Cond := mkCond { waiting : nat; woken : nat }.

Definition Signal (c : Cond) : Cond :=
  match waiting c with
  | O => c
  | S n => mkCond n (S (woken c))
  end.

Definition Broadcast (c : Cond) : Cond := mkCond 0 (woken c + waiting c).

(** [QueueRuntime]. [consumerSessions] maps identifiers to session pointers,
    [notifyDistributor] says whether the one-slot channel holds a token, and
    [tokenHooks] is the pointer the hooks of [newQueueRuntime] capture. *)
Record QueueRuntime {Q : Type} := mkRuntime {
  name : string;
  config : Config;
  closed : bool;
  queue : Q;
  inFlightManager : Manager;
  deadLetterQueue : DLQ;
  consumerSessions : gmap string nat;
  consumerOrder : list string;
  nextConsumer : Z;
  notifyDistributor : bool;
  condProd : Cond;
  tokenHooks : option nat;
  ackedCount : Z;
  producedCount : Z;
  redeliveredCount : Z;
  deadletteredCount : Z;
}.
Arguments QueueRuntime Q : clear implicits.
Arguments mkRuntime {Q}.

(** What a runtime shares: sessions by pointer, and the token table. *)
Record World {W : Type} := mkWorld {
  w_wal : W;
  w_sessions : gmap nat ConsumerSession;
  w_tokenOwners : gmap string nat;
}.
Arguments World W : clear implicits.
Arguments mkWorld {W}.

Record QState {Q W : Type} := mkQState {
  rt : QueueRuntime Q;
  wd : World W;
}.
Arguments QState Q W : clear implicits.
Arguments mkQState {Q W}.

Definition set_closed {Q} (v : bool) (q : QueueRuntime Q) : QueueRuntime Q :=
  mkRuntime
    (name q) (config q) v (queue q) (inFlightManager q) (deadLetterQueue q)
    (consumerSessions q) (consumerOrder q) (nextConsumer q) (notifyDistributor q)
    (condProd q) (tokenHooks q) (ackedCount q) (producedCount q) (redeliveredCount q)
    (deadletteredCount q).
Definition set_queue {Q} (v : Q) (q : QueueRuntime Q) : QueueRuntime Q :=
  mkRuntime
    (name q) (config q) (closed q) v (inFlightManager q) (deadLetterQueue q)
    (consumerSessions q) (consumerOrder q) (nextConsumer q) (notifyDistributor q)
    (condProd q) (tokenHooks q) (ackedCount q) (producedCount q) (redeliveredCount q)
    (deadletteredCount q).
Definition set_inFlightManager {Q} (v : Manager) (q : QueueRuntime Q) : QueueRuntime Q :=
  mkRuntime
    (name q) (config q) (closed q) (queue q) v (deadLetterQueue q) (consumerSessions q)
    (consumerOrder q) (nextConsumer q) (notifyDistributor q) (condProd q) (tokenHooks q)
    (ackedCount q) (producedCount q) (redeliveredCount q) (deadletteredCount q).
Definition set_deadLetterQueue {Q} (v : DLQ) (q : QueueRuntime Q) : QueueRuntime Q :=
  mkRuntime
    (name q) (config q) (closed q) (queue q) (inFlightManager q) v (consumerSessions q)
    (consumerOrder q) (nextConsumer q) (notifyDistributor q) (condProd q) (tokenHooks q)
    (ackedCount q) (producedCount q) (redeliveredCount q) (deadletteredCount q).
Definition set_consumerSessions {Q} (v : gmap string nat) (q : QueueRuntime Q) : QueueRuntime Q :=
  mkRuntime
    (name q) (config q) (closed q) (queue q) (inFlightManager q) (deadLetterQueue q) v
    (consumerOrder q) (nextConsumer q) (notifyDistributor q) (condProd q) (tokenHooks q)
    (ackedCount q) (producedCount q) (redeliveredCount q) (deadletteredCount q).
Definition set_consumerOrder {Q} (v : list string) (q : QueueRuntime Q) : QueueRuntime Q :=
  mkRuntime
    (name q) (config q) (closed q) (queue q) (inFlightManager q) (deadLetterQueue q)
    (consumerSessions q) v (nextConsumer q) (notifyDistributor q) (condProd q)
    (tokenHooks q) (ackedCount q) (producedCount q) (redeliveredCount q)
    (deadletteredCount q).
Definition set_nextConsumer {Q} (v : Z) (q : QueueRuntime Q) : QueueRuntime Q :=
  mkRuntime
    (name q) (config q) (closed q) (queue q) (inFlightManager q) (deadLetterQueue q)
    (consumerSessions q) (consumerOrder q) v (notifyDistributor q) (condProd q)
    (tokenHooks q) (ackedCount q) (producedCount q) (redeliveredCount q)
    (deadletteredCount q).
Definition set_notifyDistributor {Q} (v : bool) (q : QueueRuntime Q) : QueueRuntime Q :=
  mkRuntime
    (name q) (config q) (closed q) (queue q) (inFlightManager q) (deadLetterQueue q)
    (consumerSessions q) (consumerOrder q) (nextConsumer q) v (condProd q) (tokenHooks q)
    (ackedCount q) (producedCount q) (redeliveredCount q) (deadletteredCount q).
Definition set_condProd {Q} (v : Cond) (q : QueueRuntime Q) : QueueRuntime Q :=
  mkRuntime
    (name q) (config q) (closed q) (queue q) (inFlightManager q) (deadLetterQueue q)
    (consumerSessions q) (consumerOrder q) (nextConsumer q) (notifyDistributor q) v
    (tokenHooks q) (ackedCount q) (producedCount q) (redeliveredCount q)
    (deadletteredCount q).
Definition set_tokenHooks {Q} (v : option nat) (q : QueueRuntime Q) : QueueRuntime Q :=
  mkRuntime
    (name q) (config q) (closed q) (queue q) (inFlightManager q) (deadLetterQueue q)
    (consumerSessions q) (consumerOrder q) (nextConsumer q) (notifyDistributor q)
    (condProd q) v (ackedCount q) (producedCount q) (redeliveredCount q)
    (deadletteredCount q).
Definition set_ackedCount {Q} (v : Z) (q : QueueRuntime Q) : QueueRuntime Q :=
  mkRuntime
    (name q) (config q) (closed q) (queue q) (inFlightManager q) (deadLetterQueue q)
    (consumerSessions q) (consumerOrder q) (nextConsumer q) (notifyDistributor q)
    (condProd q) (tokenHooks q) v (producedCount q) (redeliveredCount q)
    (deadletteredCount q).
Definition set_producedCount {Q} (v : Z) (q : QueueRuntime Q) : QueueRuntime Q :=
  mkRuntime
    (name q) (config q) (closed q) (queue q) (inFlightManager q) (deadLetterQueue q)
    (consumerSessions q) (consumerOrder q) (nextConsumer q) (notifyDistributor q)
    (condProd q) (tokenHooks q) (ackedCount q) v (redeliveredCount q)
    (deadletteredCount q).
Definition set_redeliveredCount {Q} (v : Z) (q : QueueRuntime Q) : QueueRuntime Q :=
  mkRuntime
    (name q) (config q) (closed q) (queue q) (inFlightManager q) (deadLetterQueue q)
    (consumerSessions q) (consumerOrder q) (nextConsumer q) (notifyDistributor q)
    (condProd q) (tokenHooks q) (ackedCount q) (producedCount q) v (deadletteredCount q).
Definition set_deadletteredCount {Q} (v : Z) (q : QueueRuntime Q) : QueueRuntime Q :=
  mkRuntime
    (name q) (config q) (closed q) (queue q) (inFlightManager q) (deadLetterQueue q)
    (consumerSessions q) (consumerOrder q) (nextConsumer q) (notifyDistributor q)
    (condProd q) (tokenHooks q) (ackedCount q) (producedCount q) (redeliveredCount q) v.

Definition upd_rt {Q W} (f : QueueRuntime Q -> QueueRuntime Q) (s : QState Q W) : QState Q W :=
  mkQState (f (rt s)) (wd s).

Definition set_wal {Q W} (w : W) (s : QState Q W) : QState Q W :=
  mkQState (rt s) (mkWorld w (w_sessions (wd s)) (w_tokenOwners (wd s))).

Definition set_sessions {Q W} (m : gmap nat ConsumerSession) (s : QState Q W) : QState Q W :=
  mkQState (rt s) (mkWorld (w_wal (wd s)) m (w_tokenOwners (wd s))).

Definition set_tokenOwners {Q W} (m : gmap string nat) (s : QState Q W) : QState Q W :=
  mkQState (rt s) (mkWorld (w_wal (wd s)) (w_sessions (wd s)) m).

Section Operations.
Context {Q W : Type} `{!Queue Q} `{!WAL W}.
Abbreviation QS := (QState Q W).

(** ** Pieces of statements that recur in the methods *)

(** [select { case q.notifyDistributor <- struct{}{}: default: }] *)
Definition notify (s : QS) : QS := upd_rt (set_notifyDistributor true) s.

(** [q.condProd.Signal()] and [q.condProd.Broadcast()] *)
Definition signal (s : QS) : QS := upd_rt (fun q => set_condProd (Signal (condProd q)) q) s.
Definition broadcast (s : QS) : QS := upd_rt (fun q => set_condProd (Broadcast (condProd q)) q) s.

(** The hooks [newQueueRuntime] installs; a runtime without hooks skips them. *)
Definition registerToken (token : string) (s : QS) : QS :=
  match tokenHooks (rt s) with
  | Some self => set_tokenOwners (<[token := self]> (w_tokenOwners (wd s))) s
  | None => s
  end.

Definition removeToken (token : string) (s : QS) : QS :=
  match tokenHooks (rt s) with
  | Some _ => set_tokenOwners (delete token (w_tokenOwners (wd s))) s
  | None => s
  end.

(** [q.inFlightManager.Remove(token)] with its result dropped. *)
Definition remove_inflight (token : string) (s : QS) : QS :=
  upd_rt (fun q => set_inFlightManager (Remove token (inFlightManager q)).2 q) s.

(** [sess.UnackedCount += n] through the pointer [l]. *)
Definition add_unacked (l : nat) (n : Z) (s : QS) : QS :=
  set_sessions
    (alter (fun cs => set_UnackedCount (UnackedCount cs ⊕ n) cs) l (w_sessions (wd s))) s.

(** [if sess, exists := q.consumerSessions[id]; exists { sess.UnackedCount-- }] *)
Definition dec_unacked (id : string) (s : QS) : QS :=
  match consumerSessions (rt s) !! id with
  | Some l => add_unacked l (-1) s
  | None => s
  end.

(** [q.wal.Append(record)] *)
Definition wal_append (record : WalRecord) (s : QS) : option Err * QS :=
  let (err, w) := Append record (w_wal (wd s)) in (err, set_wal w s).

Definition push_queue (message : Message) (s : QS) : GoM QS :=
  let! q := Push message (queue (rt s)) in
  Done (upd_rt (set_queue q) s).

Definition pop_queue (s : QS) : GoM (Message * QS) :=
  let! (m, q) := Pop (queue (rt s)) in
  Done (m, upd_rt (set_queue q) s).

Definition push_dlq (message : Message) (s : QS) : QS :=
  upd_rt (fun q => set_deadLetterQueue (dlq_Push message (deadLetterQueue q)) q) s.

(** ** [NewQueueRuntime] *)

Fixpoint push_all (messages : list Message) (r : QueueRuntime Q) : GoM (QueueRuntime Q) :=
  match messages with
  | [] => Done r
  | msg :: rest =>
      let! q := Push msg (queue r) in
      push_all rest (set_producedCount (producedCount r ⊕ 1) (set_queue q r))
  end.

Definition NewQueueRuntime (nm : string) (cfg : Config) (messages : list Message) (q : Q)
    (dlq : DLQ) (manager : Manager) : GoM (QueueRuntime Q) :=
  let runtime := mkRuntime nm cfg false q manager dlq ∅ [] 0 false (mkCond 0 0) None 0 0 0 0 in
  let! runtime := push_all messages runtime in
  Done (set_notifyDistributor true runtime).

(** [SetTokenHooks] with the closures of [newQueueRuntime], which capture the
    runtime's own pointer. *)
Definition SetTokenHooks (self : nat) (r : QueueRuntime Q) : QueueRuntime Q :=
  set_tokenHooks (Some self) r.

(** ** [Publish] *)

Inductive publish_result :=
| PubBlocked
| PubReturned (err : option Err).

(** The identifier, timestamp and expiry the broker stamps on a message. *)
Definition stamp (now : Z) (newID : string) (message : Message) (ttl : Z) : Message :=
  mkMessage
    (if bool_decide (ID message = "") then newID else ID message)
    (Payload message) now (Retry message)
    (if bool_decide (ttl > 0) then Some (now + ttl) else ExpiryAt message).

(** One pass of [Publish] from the test of the wait loop on: the goroutine
    blocks in [condProd.Wait] or returns. *)
Definition Publish (now : Z) (newID : string) (message : Message) (ttl : Z) (s : QS)
    : GoM (publish_result * QS) :=
  let q := rt s in
  if negb (closed q) && bool_decide (Size (queue q) = Capacity (queue q)) then
    Done (PubBlocked,
          upd_rt (set_condProd (mkCond (S (waiting (condProd q))) (woken (condProd q)))) s)
  else if closed q then Done (PubReturned (Some ErrBrokerClosed), s)
  else
    let message := stamp now newID message ttl in
    let record := rec_message Published (name q) message (ID message) in
    let (err, s) := wal_append record s in
    match err with
    | Some e => Done (PubReturned (Some e), s)
    | None =>
        let! s := push_queue message s in
        let s := upd_rt (fun q => set_producedCount (producedCount q ⊕ 1) q) s in
        Done (PubReturned None, notify s)
    end.

(** A released publisher runs again: it leaves the woken set and goes back to
    the loop test. *)
Definition Publish_resume (now : Z) (newID : string) (message : Message) (ttl : Z) (s : QS)
    : GoM (publish_result * QS) :=
  let c := condProd (rt s) in
  Publish now newID message ttl
    (upd_rt (set_condProd (mkCond (waiting c) (Nat.pred (woken c)))) s).

(** ** [Ack] *)

Definition Ack (token : string) (s : QS) : option Err * QS :=
  match Get token (inFlightManager (rt s)) with
  | None => (Some ErrInvalidAckToken, s)
  | Some inflightMessage =>
      let m := if_Message inflightMessage in
      let (err, s) := wal_append (rec_message Acknowledged (name (rt s)) m (ID m)) s in
      match err with
      | Some e => (Some e, s)
      | None =>
          let s := remove_inflight token s in
          let s := removeToken token s in
          let s := upd_rt (fun q => set_ackedCount (ackedCount q ⊕ 1) q) s in
          let s := dec_unacked (if_ConsumerID inflightMessage) s in
          (None, notify s)
      end
  end.

(** ** [Shutdown] and [CloseIfEmpty] *)

Fixpoint close_all (ls : list nat) (sessions : gmap nat ConsumerSession)
    : GoM (gmap nat ConsumerSession) :=
  match ls with
  | [] => Done sessions
  | l :: rest =>
      match sessions !! l with
      | None => Panic
      | Some cs => let! cs := Close cs in close_all rest (<[l := cs]> sessions)
      end
  end.

(** The part the two share: mark closed, close and forget the sessions, wake
    the producers. Closing is done in one order of the session map. *)
Definition close_runtime (s : QS) : GoM QS :=
  let s := upd_rt (set_closed true) s in
  let! m := close_all (map_to_list (consumerSessions (rt s))).*2 (w_sessions (wd s)) in
  let s := set_sessions m s in
  let s := upd_rt (fun q => set_nextConsumer 0 (set_consumerOrder [] (set_consumerSessions ∅ q))) s in
  Done (broadcast s).

Definition Shutdown (s : QS) : GoM QS := close_runtime s.

Definition CloseIfEmpty (s : QS) : GoM (bool * QS) :=
  if bool_decide (Size (queue (rt s)) <> 0) || bool_decide (mgr_Size (inFlightManager (rt s)) <> 0)
  then Done (false, s)
  else
    let! s := close_runtime s in
    Done (true, s).

(** ** [Metrics] *)

Definition Metrics (q : QueueRuntime Q) : Metric :=
  mkMetric (producedCount q) (ackedCount q) (deadletteredCount q)
    (mgr_Size (inFlightManager q)) (redeliveredCount q)
    (Z.of_nat (size (consumerSessions q))) (Size (queue q)).

(** ** [Subscribe] and [Unsubscribe] *)

(** [Subscribe] with the session at pointer [l]. *)
Definition Subscribe (l : nat) (s : QS) : GoM (option Err * QS) :=
  if closed (rt s) then Done (Some ErrBrokerClosed, s)
  else match w_sessions (wd s) !! l with
  | None => Panic
  | Some session =>
      match consumerSessions (rt s) !! sess_ID session with
      | Some _ => Done (None, s)
      | None =>
          let s := upd_rt (fun q =>
            set_consumerOrder (consumerOrder q ++ [sess_ID session])
              (set_consumerSessions (<[sess_ID session := l]> (consumerSessions q)) q)) s in
          Done (None, notify s)
      end
  end.

Definition Unsubscribe (id : string) (s : QS) : GoM QS :=
  match consumerSessions (rt s) !! id with
  | None => Done s
  | Some l =>
      let order := slices_DeleteFunc (fun sid => bool_decide (sid = id)) (consumerOrder (rt s)) in
      let s := upd_rt (fun q =>
        set_consumerOrder order (set_consumerSessions (delete id (consumerSessions q)) q)) s in
      let! next :=
        (if bool_decide (order = []) then Done 0
         else go_rem (nextConsumer (rt s)) (Z.of_nat (length order))) in
      let s := upd_rt (set_nextConsumer next) s in
      match w_sessions (wd s) !! l with
      | None => Panic
      | Some cs =>
          let! cs := Close cs in
          Done (set_sessions (<[l := cs]> (w_sessions (wd s))) s)
      end
  end.

(** ** Delivery *)

(** [cancelReservation]: the push does not look at the capacity. *)
Definition cancelReservation (delivery : Delivery) (s : QS) : GoM QS :=
  let (removed, mgr) := Remove (d_AckToken delivery) (inFlightManager (rt s)) in
  let s := upd_rt (set_inFlightManager mgr) s in
  let s := match removed with
           | Some _ => dec_unacked (d_ConsumerID delivery) s
           | None => s
           end in
  let s := removeToken (d_AckToken delivery) s in
  let! s := push_queue (d_Message delivery) s in
  Done (notify (signal s)).

(** The loop of [nextSession]: the identifier it stops at, if any, and the
    final [nextConsumer]. A nil session pointer panics in [IsEligible]. *)
Fixpoint nextSession_loop (fuel : nat) (q : QueueRuntime Q)
    (sessions : gmap nat ConsumerSession) (currConsumer next : Z) : GoM (option string * Z) :=
  match fuel with
  | O => OutOfFuel
  | S fuel' =>
      let! id := go_index (consumerOrder q) next in
      let! next := go_rem (next ⊕ 1) (Z.of_nat (length (consumerOrder q))) in
      match consumerSessions q !! id ≫= (fun l => sessions !! l) with
      | None => Panic
      | Some cs =>
          if IsEligible (ConsumerPrefetch (config q)) cs then Done (Some id, next)
          else if bool_decide (next = currConsumer) then Done (None, next)
          else nextSession_loop fuel' q sessions currConsumer next
      end
  end.

(** [nextSession]: the pointer of the session to deliver to. *)
Definition nextSession (s : QS) : GoM (option nat * QS) :=
  let order := consumerOrder (rt s) in
  if bool_decide (order = []) then Done (None, s)
  else
    let curr := if bool_decide (nextConsumer (rt s) >= Z.of_nat (length order))
                then 0 else nextConsumer (rt s) in
    let! (found, next) := nextSession_loop (length order) (rt s) (w_sessions (wd s)) curr curr in
    let s := upd_rt (set_nextConsumer next) s in
    match found with
    | None => Done (None, s)
    | Some id => Done (consumerSessions (rt s) !! id, s)
    end.

Definition isExpired (now : Z) (message : Message) : bool :=
  match ExpiryAt message with
  | None => false
  | Some t => negb (bool_decide (now < t))
  end.

(** The loop of [deadLetterExpiredMessages]; [clock i] is the reading of
    [time.Now] in round [i]. *)
Fixpoint deadLetter_loop (fuel : nat) (clock : nat -> Z) (i : nat) (s : QS)
    : GoM (option Err * QS) :=
  match fuel with
  | O => OutOfFuel
  | S fuel' =>
      if bool_decide (Size (queue (rt s)) > 0) then
        let! message := Peek (queue (rt s)) in
        if negb (isExpired (clock i) message) then Done (None, s)
        else
          let (err, s) :=
            wal_append (rec_message DeadLettered (name (rt s)) zeroMessage (ID message)) s in
          match err with
          | Some e => Done (Some e, s)
          | None =>
              let! (_, s) := pop_queue s in
              let s := push_dlq message s in
              let s := upd_rt (fun q => set_deadletteredCount (deadletteredCount q ⊕ 1) q) s in
              deadLetter_loop fuel' clock (S i) (signal s)
          end
      else Done (None, s)
  end.

(** Every round pops a message, so the size bounds the rounds. *)
Definition deadLetterExpiredMessages (clock : nat -> Z) (s : QS) : GoM (option Err * QS) :=
  deadLetter_loop (S (Z.to_nat (Size (queue (rt s))))) clock 0 s.

Definition checkExpiredMessages (clock : nat -> Z) (s : QS) : GoM (option Err * QS) :=
  deadLetterExpiredMessages clock s.

(** [reserveDelivery] after its sweep of expired messages: [token] is the fresh
    identifier, [now] the clock reading of [inFlightManager.Add]. *)
Definition reserve_next (now : Z) (token : string) (s : QS)
    : GoM (option (nat * Delivery) * QS) :=
  if bool_decide (Size (queue (rt s)) = 0) || bool_decide (size (consumerSessions (rt s)) = 0%nat)
  then Done (None, s)
  else
    let! (found, s) := nextSession s in
    match found with
    | None => Done (None, s)
    | Some l =>
        match w_sessions (wd s) !! l with
        | None => Panic
        | Some session =>
            let! (message, s) := pop_queue s in
            let s := upd_rt (fun q =>
              set_inFlightManager
                (Add now token message (sess_ID session) (inFlightManager q)) q) s in
            let s := add_unacked l 1 s in
            let s := registerToken token s in
            let s := signal s in
            Done (Some (l, mkDelivery message token (sess_ID session)), s)
        end
    end.

Definition reserveDelivery (clock : nat -> Z) (now : Z) (token : string) (s : QS)
    : GoM (option (nat * Delivery) * QS) :=
  let! (err, s) := deadLetterExpiredMessages clock s in
  match err with
  | Some _ => Done (None, s)
  | None => reserve_next now token s
  end.

(** ** [processExpiredMessages] *)

(** The body of its loop for one timed-out delivery. *)
Definition process_item (maxRetries : Z) (item : Delivery) (s : QS) : GoM QS :=
  if bool_decide (Size (queue (rt s)) = Capacity (queue (rt s))) then Done s
  else if bool_decide (Retry (d_Message item) >= maxRetries) then
    let (err, s) :=
      wal_append (rec_message DeadLettered (name (rt s)) zeroMessage (ID (d_Message item))) s in
    match err with
    | Some _ => Done s
    | None =>
        let s := push_dlq (d_Message item) s in
        let s := remove_inflight (d_AckToken item) s in
        let s := removeToken (d_AckToken item) s in
        let s := upd_rt (fun q => set_deadletteredCount (deadletteredCount q ⊕ 1) q) s in
        Done (dec_unacked (d_ConsumerID item) s)
    end
  else
    let m := d_Message item in
    let message := mkMessage (ID m) (Payload m) (Timestamp m) (Retry m ⊕ 1) (ExpiryAt m) in
    let (err, s) := wal_append (rec_message Requeued (name (rt s)) message (ID message)) s in
    match err with
    | Some _ => Done s
    | None =>
        let! s := push_queue message s in
        let s := remove_inflight (d_AckToken item) s in
        let s := removeToken (d_AckToken item) s in
        let s := upd_rt (fun q => set_redeliveredCount (redeliveredCount q ⊕ 1) q) s in
        Done (notify (dec_unacked (d_ConsumerID item) s))
    end.

Fixpoint process_loop (maxRetries : Z) (removeMessage : list Delivery) (s : QS) : GoM QS :=
  match removeMessage with
  | [] => Done s
  | item :: rest =>
      let! s := process_item maxRetries item s in
      process_loop maxRetries rest s
  end.

(** [items] is the list [inFlightManager.Expired] returned, in its order. *)
Definition processExpiredMessages (items : list Delivery) (s : QS) : GoM QS :=
  if closed (rt s) then Done s
  else process_loop (MaxRetries (config (rt s))) items s.

End Operations.
