(* ===== verification/System.v ===== *)
(** A queue runtime together with its goroutines: the distributor
    ([RunDistributor]), the redelivery worker ([StartInflightRedeliveryWorker])
    and the expiry worker ([StartExpiryWorker]), interleaved with the calls
    connections make. A step is one critical section or one channel operation;
    what the environment chooses (clock readings, fresh identifiers, the order
    of a map iteration, which ready case a [select] takes) is part of the
    event. *)

From S2P Require Import Prelude GoStrings Model RingBuffer Inflight Exchange Wal QueueRuntime.

(** ** Program points of the goroutines *)

(** [RunDistributor]: before the test of [closed], at the outer [select], in
    the inner loop before [reserveDelivery], at the inner [select] with a
    reserved delivery for the session at a pointer, returned. *)
Inductive DistPC :=
| DTop
| DSelect
| DLoop
| DSend (l : nat) (d : Delivery)
| DStopped.

(** A ticker worker: at its [select], past the test of [closed], returned. *)
Inductive WorkerPC := WSelect | WReady | WStopped.

Record Sys {Q W : Type} := mkSys {
  qs : QState Q W;
  dist : DistPC;
  redel : WorkerPC;
  expiry : WorkerPC;
  ctxDone : bool;
}.
Arguments Sys Q W : clear implicits.
Arguments mkSys {Q W}.

Definition set_qs {Q W} (x : QState Q W) (s : Sys Q W) : Sys Q W :=
  mkSys x (dist s) (redel s) (expiry s) (ctxDone s).
Definition set_dist {Q W} (x : DistPC) (s : Sys Q W) : Sys Q W :=
  mkSys (qs s) x (redel s) (expiry s) (ctxDone s).
Definition set_redel {Q W} (x : WorkerPC) (s : Sys Q W) : Sys Q W :=
  mkSys (qs s) (dist s) x (expiry s) (ctxDone s).
Definition set_expiry {Q W} (x : WorkerPC) (s : Sys Q W) : Sys Q W :=
  mkSys (qs s) (dist s) (redel s) x (ctxDone s).

(** ** Events *)

Inductive event :=
(* calls *)
| EPublish (now : Z) (newID : string) (m : Message) (ttl : Z)
| EResume (now : Z) (newID : string) (m : Message) (ttl : Z)
| EAck (token : string)
| ESubscribe (l : nat) (id : string)
| EUnsubscribe (id : string)
| EShutdown
| ECloseIfEmpty
| ECancelCtx
(* a connection takes a delivery from its session's channel *)
| EReceive (l : nat)
(* distributor *)
| DCheck
| DNotified
| DCtxDone
| DReserve (clock : nat -> Z) (now : Z) (token : string)
| DSent
| DSawClosed
| DDefault
(* redelivery worker *)
| RTick | RCtxDone | RProcess (now : Z) (items : list Delivery)
(* expiry worker *)
| XTick | XCtxDone | XProcess (clock : nat -> Z).

Section Steps.
Context {Q W : Type} `{!Queue Q} `{!WAL W}.

(** [ESubscribe] is the subscription of a connection: a new session object at
    the pointer [l], then [Subscribe]. *)
Definition alloc_session (l : nat) (id : string) (s : QState Q W) : QState Q W :=
  set_sessions (<[l := NewConsumerSession id]> (w_sessions (wd s))) s.

(** The two ready conditions of the inner [select]. *)
Definition session_closed (l : nat) (s : QState Q W) : bool :=
  match w_sessions (wd s) !! l with Some cs => Closed cs | None => false end.

Definition session_has_room (l : nat) (s : QState Q W) : bool :=
  match w_sessions (wd s) !! l with
  | Some cs => bool_decide (length (Deliveries cs) < deliveries_cap)%nat
  | None => false
  end.

(** A receive from an empty channel blocks. *)
Definition session_has_delivery (l : nat) (s : QState Q W) : bool :=
  match w_sessions (wd s) !! l with
  | Some cs => bool_decide (Deliveries cs <> [])
  | None => false
  end.

(** [sess.Deliveries <- delivery] *)
Definition send_delivery (l : nat) (d : Delivery) (s : QState Q W) : QState Q W :=
  set_sessions
    (alter (fun cs => set_Deliveries (Deliveries cs ++ [d]) cs) l (w_sessions (wd s))) s.

(** [<-currentSess.Deliveries] *)
Definition receive_delivery (l : nat) (s : QState Q W) : QState Q W :=
  set_sessions
    (alter (fun cs => set_Deliveries (List.tl (Deliveries cs)) cs) l (w_sessions (wd s))) s.

Definition lift_qs (s : Sys Q W) (c : GoM (QState Q W)) : option (GoM (Sys Q W)) :=
  Some (let! q := c in Done (set_qs q s)).

(** A call by a connection or by the broker. [None]: the event is not
    enabled. *)
Definition call_step (e : event) (s : Sys Q W) : option (GoM (Sys Q W)) :=
  match e with
  | EPublish now newID m ttl =>
      lift_qs s (let! (_, q) := Publish now newID m ttl (qs s) in Done q)
  | EResume now newID m ttl =>
      if bool_decide (woken (condProd (rt (qs s))) = 0%nat) then None
      else lift_qs s (let! (_, q) := Publish_resume now newID m ttl (qs s) in Done q)
  | EAck token => lift_qs s (Done (Ack token (qs s)).2)
  | ESubscribe l id =>
      lift_qs s (let! (_, q) := Subscribe l (alloc_session l id (qs s)) in Done q)
  | EUnsubscribe id => lift_qs s (Unsubscribe id (qs s))
  | EShutdown => lift_qs s (Shutdown (qs s))
  | ECloseIfEmpty => lift_qs s (let! (_, q) := CloseIfEmpty (qs s) in Done q)
  | ECancelCtx => Some (Done (mkSys (qs s) (dist s) (redel s) (expiry s) true))
  | EReceive l =>
      if session_has_delivery l (qs s) then lift_qs s (Done (receive_delivery l (qs s))) else None
  | _ => None
  end.

(** [RunDistributor]: one test, channel operation or critical section. *)
Definition RunDistributor_step (e : event) (s : Sys Q W) : option (GoM (Sys Q W)) :=
  match e with
  | DCheck =>
      match dist s with
      | DTop => Some (Done (set_dist (if closed (rt (qs s)) then DStopped else DSelect) s))
      | _ => None
      end
  | DNotified =>
      match dist s with
      | DSelect =>
          if notifyDistributor (rt (qs s))
          then Some (Done (set_dist DLoop (set_qs (upd_rt (set_notifyDistributor false) (qs s)) s)))
          else None
      | _ => None
      end
  | DCtxDone =>
      match dist s with
      | DSelect => if ctxDone s then Some (Done (set_dist DStopped s)) else None
      | _ => None
      end
  | DReserve clock now token =>
      match dist s with
      | DLoop =>
          Some (let! (r, q) := reserveDelivery clock now token (qs s) in
                Done (set_dist (match r with Some (l, d) => DSend l d | None => DTop end)
                        (set_qs q s)))
      | _ => None
      end
  | DSent =>
      match dist s with
      | DSend l d =>
          if session_has_room l (qs s)
          then Some (Done (set_dist DLoop (set_qs (send_delivery l d (qs s)) s)))
          else None
      | _ => None
      end
  | DSawClosed =>
      match dist s with
      | DSend l d =>
          if session_closed l (qs s)
          then Some (let! q := cancelReservation d (qs s) in Done (set_dist DLoop (set_qs q s)))
          else None
      | _ => None
      end
  | DDefault =>
      match dist s with
      | DSend l d =>
          if session_closed l (qs s) || session_has_room l (qs s) then None
          else Some (let! q := cancelReservation d (qs s) in Done (set_dist DLoop (set_qs q s)))
      | _ => None
      end
  | _ => None
  end.

(** [StartInflightRedeliveryWorker]: a tick with the test of [closed], the end
    of the context, or the work of a round. *)
Definition RedeliveryWorker_step (e : event) (s : Sys Q W) : option (GoM (Sys Q W)) :=
  match e with
  | RTick =>
      match redel s with
      | WSelect => Some (Done (set_redel (if closed (rt (qs s)) then WStopped else WReady) s))
      | _ => None
      end
  | RCtxDone =>
      match redel s with
      | WSelect => if ctxDone s then Some (Done (set_redel WStopped s)) else None
      | _ => None
      end
  | RProcess now items =>
      match redel s with
      | WReady =>
          Some (let! q := processExpiredMessages items (qs s) in
                Done (set_redel WSelect (set_qs q s)))
      | _ => None
      end
  | _ => None
  end.

(** [StartExpiryWorker], likewise. *)
Definition ExpiryWorker_step (e : event) (s : Sys Q W) : option (GoM (Sys Q W)) :=
  match e with
  | XTick =>
      match expiry s with
      | WSelect => Some (Done (set_expiry (if closed (rt (qs s)) then WStopped else WReady) s))
      | _ => None
      end
  | XCtxDone =>
      match expiry s with
      | WSelect => if ctxDone s then Some (Done (set_expiry WStopped s)) else None
      | _ => None
      end
  | XProcess clock =>
      match expiry s with
      | WReady =>
          Some (let! (_, q) := checkExpiredMessages clock (qs s) in
                Done (set_expiry WSelect (set_qs q s)))
      | _ => None
      end
  | _ => None
  end.

(** One step of the queue and its goroutines. *)
Definition sys_step (e : event) (s : Sys Q W) : option (GoM (Sys Q W)) :=
  match e with
  | EPublish _ _ _ _ | EResume _ _ _ _ | EAck _ | ESubscribe _ _ | EUnsubscribe _ | EShutdown
  | ECloseIfEmpty | ECancelCtx | EReceive _ => call_step e s
  | DCheck | DNotified | DCtxDone | DReserve _ _ _ | DSent | DSawClosed | DDefault =>
      RunDistributor_step e s
  | RTick | RCtxDone | RProcess _ _ => RedeliveryWorker_step e s
  | XTick | XCtxDone | XProcess _ => ExpiryWorker_step e s
  end.

(** A started queue: the three goroutines at their first statement. *)
Definition sys_start (q : QState Q W) : Sys Q W := mkSys q DTop WSelect WSelect false.

(** Running a script of events, for concrete executions. *)
Fixpoint sys_run (es : list event) (s : Sys Q W) : option (GoM (Sys Q W)) :=
  match es with
  | [] => Some (Done s)
  | e :: rest =>
      match sys_step e s with
      | Some (Done s') => sys_run rest s'
      | r => r
      end
  end.

(** ** What the environment guarantees

    Identifiers from [uuid.NewString] are new, a new session object has a new
    pointer, and the list a redelivery round works on is a result of
    [Expired]. *)

Definition env_ok (e : event) (s : Sys Q W) : Prop :=
  match e with
  | DReserve _ _ token =>
      deliveries (inFlightManager (rt (qs s))) !! token = None /\
      w_tokenOwners (wd (qs s)) !! token = None
  | ESubscribe l _ =>
      w_sessions (wd (qs s)) !! l = None /\
      Z.of_nat (length (consumerOrder (rt (qs s)))) < max_int
  | RProcess now items =>
      Expired now (AckTimeout (config (rt (qs s)))) (inFlightManager (rt (qs s))) items
  | _ => True
  end.

End Steps.
