(* ===== verification/QueueSpec.v ===== *)
(** The abstract specification of one queue: an at-least-once queue as a
    transition system over the messages that are ready, in flight, dead
    lettered, the counters the metrics report and the durable log. The
    theorems about it (conservation of messages, identifiers, durability,
    bounded retries) are proved here by induction on its steps; the runtime is
    shown to implement it in [QueueRefine.v]. *)

From S2P Require Import Prelude GoStrings Model Exchange Wal.

Record AQ := mkAQ {
  a_ready : list Message;
  a_flight : gmap string (Message * string);
  a_dead : list Message;
  a_produced : Z;
  a_acked : Z;
  a_deadCount : Z;
  a_redelivered : Z;
  a_log : list WalRecord;
}.

(** The message a redelivery puts back: one retry more. *)
Definition retried (m : Message) : Message :=
  mkMessage (ID m) (Payload m) (Timestamp m) (Retry m ⊕ 1) (ExpiryAt m).

Definition flight_msgs (f : gmap string (Message * string)) : list Message :=
  (fun p => p.2.1) <$> map_to_list f.

(** Everything the queue still owes a consumer. *)
Definition a_live (a : AQ) : list Message := a_ready a ++ flight_msgs (a_flight a).

(** Which messages producers may add to a queue in a given state. *)
Class PubPolicy := pub_ok : AQ -> Message -> Prop.

(** The steps of queue [q] with [maxRetries]. *)
Inductive astep `{PubPolicy} (q : string) (maxRetries : Z) : AQ -> AQ -> Prop :=
| a_publish m ready flight dead p k d r log :
    pub_ok (mkAQ ready flight dead p k d r log) m ->
    astep q maxRetries
      (mkAQ ready flight dead p k d r log)
      (mkAQ (ready ++ [m]) flight dead (p ⊕ 1) k d r (log ++ [rec_message Published q m (ID m)]))
| a_deliver tok c m ready flight dead p k d r log :
    flight !! tok = None ->
    astep q maxRetries
      (mkAQ (m :: ready) flight dead p k d r log)
      (mkAQ ready (<[tok := (m, c)]> flight) dead p k d r log)
| a_ack tok c m ready flight dead p k d r log :
    flight !! tok = Some (m, c) ->
    astep q maxRetries
      (mkAQ ready flight dead p k d r log)
      (mkAQ ready (delete tok flight) dead p (k ⊕ 1) d r
         (log ++ [rec_message Acknowledged q m (ID m)]))
| a_cancel tok c m ready flight dead p k d r log :
    flight !! tok = Some (m, c) ->
    astep q maxRetries
      (mkAQ ready flight dead p k d r log)
      (mkAQ (ready ++ [m]) (delete tok flight) dead p k d r log)
| a_requeue tok c m ready flight dead p k d r log :
    flight !! tok = Some (m, c) -> Retry m < maxRetries ->
    astep q maxRetries
      (mkAQ ready flight dead p k d r log)
      (mkAQ (ready ++ [retried m]) (delete tok flight) dead p k d (r ⊕ 1)
         (log ++ [rec_message Requeued q (retried m) (ID m)]))
| a_expire m ready flight dead p k d r log :
    astep q maxRetries
      (mkAQ (m :: ready) flight dead p k d r log)
      (mkAQ ready flight (dead ++ [m]) p k (d ⊕ 1) r
         (log ++ [rec_message DeadLettered q zeroMessage (ID m)]))
| a_exhaust tok c m ready flight dead p k d r log :
    flight !! tok = Some (m, c) -> maxRetries <= Retry m ->
    astep q maxRetries
      (mkAQ ready flight dead p k d r log)
      (mkAQ ready (delete tok flight) (dead ++ [m]) p k (d ⊕ 1) r
         (log ++ [rec_message DeadLettered q zeroMessage (ID m)])).

(** What a step does to the live messages and the log. *)
Inductive live_step `{PubPolicy} (q : string) (maxRetries : Z) (a a' : AQ) : Prop :=
| ls_publish m :
    a_live a' ≡ₚ m :: a_live a -> pub_ok a m ->
    a_log a' = a_log a ++ [rec_message Published q m (ID m)] ->
    live_step q maxRetries a a'
| ls_move :
    a_live a' ≡ₚ a_live a -> a_log a' = a_log a -> live_step q maxRetries a a'
| ls_drop m t payload :
    a_live a ≡ₚ m :: a_live a' -> t = Acknowledged \/ t = DeadLettered ->
    a_log a' = a_log a ++ [rec_message t q payload (ID m)] ->
    live_step q maxRetries a a'
| ls_retry m rest :
    a_live a ≡ₚ m :: rest -> a_live a' ≡ₚ retried m :: rest -> Retry m < maxRetries ->
    a_log a' = a_log a ++ [rec_message Requeued q (retried m) (ID m)] ->
    live_step q maxRetries a a'.

(** No restriction; a new identifier; a retry count within the bound. *)
Definition any_message : PubPolicy := fun _ _ => True.
Definition fresh_id : PubPolicy := fun a m => ID m ∉ ID <$> a_live a.
Definition few_retries (maxRetries : Z) : PubPolicy :=
  fun _ m => min_int <= Retry m <= maxRetries.

(** ** Invariants *)

(** The counters account for every message, modulo the width of [int]. *)
Definition conserved (a : AQ) : Prop :=
  a_produced a = wrap64 (a_acked a + a_deadCount a
                         + Z.of_nat (size (a_flight a)) + Z.of_nat (length (a_ready a))).

Definition ids_unique (a : AQ) : Prop := NoDup (ID <$> a_live a).

(** Replaying the log gives back exactly the live messages. *)
Definition durable (q : string) (a : AQ) : Prop :=
  pending_of (replay (a_log a)) q ≡ₚ a_live a.

Definition retries_bounded (maxRetries : Z) (a : AQ) : Prop :=
  Forall (fun m => min_int <= Retry m <= maxRetries) (a_live a).

(** ** Lemmas *)

Lemma flight_msgs_delete tok x f :
  f !! tok = Some x -> flight_msgs f ≡ₚ x.1 :: flight_msgs (delete tok f).
Proof. intros Hf. unfold flight_msgs. by rewrite <- (map_to_list_delete f tok x). Qed.

Lemma flight_msgs_insert tok x f :
  f !! tok = None -> flight_msgs (<[tok := x]> f) ≡ₚ x.1 :: flight_msgs f.
Proof. intros Hf. unfold flight_msgs. by rewrite map_to_list_insert. Qed.

Lemma size_delete_flight {A} (f : gmap string A) tok x :
  f !! tok = Some x -> Z.of_nat (size f) = Z.of_nat (size (delete tok f)) + 1.
Proof.
  intros Hf. rewrite map_size_delete_Some by eauto.
  assert (size f <> 0%nat); [|lia]. intros ->%map_size_empty_inv. by rewrite lookup_empty in Hf.
Qed.

Lemma astep_conserved `{PubPolicy} q mr a a' : astep q mr a a' -> conserved a -> conserved a'.
Proof.
  unfold conserved. intros Hs. destruct Hs; simpl; intros ->.
  all: try (erewrite (size_delete_flight flight) by eassumption).
  all: rewrite ?map_size_insert_None by done.
  all: unfold int_add; rewrite ?length_app; simpl length.
  - rewrite wrap64_add_l. f_equal. lia.
  - f_equal. lia.
  - rewrite <- !Z.add_assoc, wrap64_add_l. f_equal. lia.
  - f_equal. lia.
  - f_equal. lia.
  - replace (k + wrap64 (d + 1) + Z.of_nat (size flight) + Z.of_nat (length ready))
      with (wrap64 (d + 1) + (k + Z.of_nat (size flight) + Z.of_nat (length ready))) by lia.
    rewrite wrap64_add_l. f_equal. lia.
  - replace (k + wrap64 (d + 1) + Z.of_nat (size (delete tok flight)) + Z.of_nat (length ready))
      with (wrap64 (d + 1) + (k + Z.of_nat (size (delete tok flight)) + Z.of_nat (length ready)))
      by lia.
    rewrite wrap64_add_l. f_equal. lia.
Qed.

Lemma astep_live `{PubPolicy} q mr a a' : astep q mr a a' -> live_step q mr a a'.
Proof.
  unfold a_live. destruct 1 as
    [m ready flight dead p k d r log Hpub|tok c m ready flight dead p k d r log Hf
    |tok c m ready flight dead p k d r log Hf|tok c m ready flight dead p k d r log Hf
    |tok c m ready flight dead p k d r log Hf Hr|m ready flight
    |tok c m ready flight dead p k d r log Hf Hr].
  - apply ls_publish with m; unfold a_live; simpl; try done.
    rewrite <- app_assoc. simpl. by rewrite Permutation_middle.
  - apply ls_move; unfold a_live; simpl; [|done].
    rewrite (flight_msgs_insert tok (m, c)) by done. simpl. by rewrite Permutation_middle.
  - apply ls_drop with m Acknowledged m; unfold a_live; simpl; [|by left|done].
    rewrite (flight_msgs_delete tok (m, c)) by done. simpl. by rewrite Permutation_middle.
  - apply ls_move; unfold a_live; simpl; [|done].
    rewrite (flight_msgs_delete tok (m, c) flight) by done. simpl. by rewrite <- app_assoc.
  - apply ls_retry with m (ready ++ flight_msgs (delete tok flight)); unfold a_live; simpl; try done.
    + rewrite (flight_msgs_delete tok (m, c) flight) by done. simpl. by rewrite Permutation_middle.
    + rewrite <- app_assoc. simpl. by rewrite Permutation_middle.
  - by apply ls_drop with m DeadLettered zeroMessage; unfold a_live; simpl; [|right|].
  - apply ls_drop with m DeadLettered zeroMessage; unfold a_live; simpl; [|by right|done].
    rewrite (flight_msgs_delete tok (m, c)) by done. simpl. by rewrite Permutation_middle.
Qed.

Lemma live_step_ids q mr a a' :
  live_step (H:=fresh_id) q mr a a' -> ids_unique a -> ids_unique a'.
Proof.
  unfold ids_unique. intros Hs Hnd.
  destruct Hs as [m Hp Hpub _|Hp _|m t pl Hp _ _|m rest Hp Hp' _ _].
  - rewrite Hp. simpl. apply NoDup_cons. done.
  - by rewrite Hp.
  - rewrite Hp in Hnd. simpl in Hnd. by apply NoDup_cons in Hnd as [_ ?].
  - rewrite Hp in Hnd. rewrite Hp'. done.
Qed.

Lemma live_step_durable `{PubPolicy} q mr a a' :
  live_step q mr a a' -> ids_unique a -> durable q a -> durable q a'.
Proof.
  unfold durable, ids_unique. intros Hs Hnd Hd.
  assert (forall r, r_Queue r = q -> pending_of (load_record (replay (a_log a)) r) q =
    default [] (PendingMessages (load_record (replay (a_log a)) r) !! r_Queue r)) as Hq.
  { by intros r <-. }
  destruct Hs as [m Hp _ Hl|Hp Hl|m t pl Hp Ht Hl|m rest Hp Hp' _ Hl]; rewrite Hl.
  - rewrite replay_snoc, Hp, Hq by done. simpl. rewrite lookup_insert_eq. simpl.
    rewrite Hd. by rewrite <- Permutation_cons_append.
  - by rewrite Hd, Hp.
  - rewrite replay_snoc, Hq by done. rewrite <- Hd in Hnd, Hp.
    destruct Ht as [-> | ->]; simpl; rewrite lookup_insert_eq; simpl;
      by apply removeMessage_unique.
  - rewrite replay_snoc, Hq by done. simpl. rewrite lookup_insert_eq. simpl.
    rewrite <- Hd in Hnd, Hp. rewrite Hp', (removeMessage_unique _ rest m) by done.
    by rewrite <- Permutation_cons_append.
Qed.

Lemma live_step_retries q mr bound a a' :
  mr <= bound <= max_int ->
  live_step (H:=few_retries bound) q mr a a' -> retries_bounded bound a -> retries_bounded bound a'.
Proof.
  unfold retries_bounded. intros Hmr Hs Hb.
  destruct Hs as [m Hp Hpub _|Hp _|m t pl Hp _ _|m rest Hp Hp' Hlt _].
  - rewrite Hp. by constructor.
  - by rewrite Hp.
  - rewrite Hp in Hb. by inversion Hb.
  - rewrite Hp in Hb. rewrite Hp'. inversion Hb; subst.
    constructor; [|done]. simpl. rewrite int_add_id by lia. lia.
Qed.
