(* ===== verification/QueueInv.v ===== *)
(** The well-formedness invariant of a queue runtime and the lemmas that say
    what each statement of its methods does to the parts of the state. The
    lemmas are collected in the rewrite database [qstate]. *)

From S2P Require Import Prelude GoStrings Model RingBuffer Inflight Exchange Wal QueueRuntime.

(** ** The invariant, by part *)

(** The consumer registry: the order lists every registered identifier once,
    and every registered pointer leads to the session of that identifier. *)
Record cons_wf (registry : gmap string nat) (order : list string) (next : Z)
    (heap : gmap nat ConsumerSession) : Prop := {
  cw_nodup : NoDup order;
  cw_dom id : id ∈ order <-> is_Some (registry !! id);
  cw_ptr id l : registry !! id = Some l -> exists cs, heap !! l = Some cs /\ sess_ID cs = id;
  cw_ok : map_Forall (fun _ cs => session_ok cs) heap;
  cw_next : 0 <= next <= Z.of_nat (length order);
  cw_len : Z.of_nat (length order) <= max_int;
}.

(** The token table names this runtime for exactly its in-flight tokens. *)
Definition tok_wf (hooks : option nat) (owners : gmap string nat)
    (inflight : gmap string InFlightMessage) : Prop :=
  forall self, hooks = Some self ->
  forall tok, owners !! tok = Some self <-> is_Some (inflight !! tok).

(** [owners] after the remove and register hooks. *)
Definition owners_remove (hooks : option nat) (tok : string) (owners : gmap string nat) :=
  match hooks with Some _ => delete tok owners | None => owners end.
Definition owners_register (hooks : option nat) (tok : string) (owners : gmap string nat) :=
  match hooks with Some self => <[tok := self]> owners | None => owners end.

(** The session heap after [dec_unacked]. *)
Definition heap_dec (registry : gmap string nat) (id : string) (heap : gmap nat ConsumerSession) :=
  match registry !! id with
  | Some l => alter (fun cs => set_UnackedCount (UnackedCount cs ⊕ -1) cs) l heap
  | None => heap
  end.

Section Inv.
Context {Q W : Type} `{!Queue Q} `{!QueueLaws Q} `{!WAL W} `{!WALLaws W}.
Abbreviation QS := (QState Q W).

Record rt_wf (s : QS) : Prop := {
  wf_queue : queue_ok (queue (rt s));
  wf_wal : wal_ok (w_wal (wd s));
  wf_cons : cons_wf (consumerSessions (rt s)) (consumerOrder (rt s)) (nextConsumer (rt s))
              (w_sessions (wd s));
  wf_tok : tok_wf (tokenHooks (rt s)) (w_tokenOwners (wd s))
             (deliveries (inFlightManager (rt s)));
}.

(** ** What the shared statements leave alone *)

Lemma rt_removeToken tok (s : QS) : rt (removeToken tok s) = rt s.
Proof. unfold removeToken. by case_match. Qed.
Lemma wal_removeToken tok (s : QS) : w_wal (wd (removeToken tok s)) = w_wal (wd s).
Proof. unfold removeToken. by case_match. Qed.
Lemma heap_removeToken tok (s : QS) : w_sessions (wd (removeToken tok s)) = w_sessions (wd s).
Proof. unfold removeToken. by case_match. Qed.
Lemma owners_removeToken tok (s : QS) :
  w_tokenOwners (wd (removeToken tok s)) =
  owners_remove (tokenHooks (rt s)) tok (w_tokenOwners (wd s)).
Proof. unfold removeToken, owners_remove. by case_match. Qed.

Lemma rt_registerToken tok (s : QS) : rt (registerToken tok s) = rt s.
Proof. unfold registerToken. by case_match. Qed.
Lemma wal_registerToken tok (s : QS) : w_wal (wd (registerToken tok s)) = w_wal (wd s).
Proof. unfold registerToken. by case_match. Qed.
Lemma heap_registerToken tok (s : QS) :
  w_sessions (wd (registerToken tok s)) = w_sessions (wd s).
Proof. unfold registerToken. by case_match. Qed.
Lemma owners_registerToken tok (s : QS) :
  w_tokenOwners (wd (registerToken tok s)) =
  owners_register (tokenHooks (rt s)) tok (w_tokenOwners (wd s)).
Proof. unfold registerToken, owners_register. by case_match. Qed.

Lemma rt_dec_unacked id (s : QS) : rt (dec_unacked id s) = rt s.
Proof. unfold dec_unacked. by case_match. Qed.
Lemma wal_dec_unacked id (s : QS) : w_wal (wd (dec_unacked id s)) = w_wal (wd s).
Proof. unfold dec_unacked. by case_match. Qed.
Lemma owners_dec_unacked id (s : QS) :
  w_tokenOwners (wd (dec_unacked id s)) = w_tokenOwners (wd s).
Proof. unfold dec_unacked. by case_match. Qed.
Lemma heap_dec_unacked id (s : QS) :
  w_sessions (wd (dec_unacked id s)) =
  heap_dec (consumerSessions (rt s)) id (w_sessions (wd s)).
Proof. unfold dec_unacked, heap_dec. by case_match. Qed.

(** An append either succeeds and extends the log by its record, or fails and
    leaves it; nothing else of the state changes. *)
Lemma wal_append_spec r (s : QS) err s' :
  wal_append r s = (err, s') -> wal_ok (w_wal (wd s)) -> typed r ->
  exists w, s' = set_wal w s /\ wal_ok w /\
    wal_log w = wal_log (w_wal (wd s)) ++ match err with None => [r] | Some _ => [] end.
Proof.
  unfold wal_append. destruct (Append r (w_wal (wd s))) as [e w] eqn:Ha.
  intros [= <- <-] Hok Hr. exists w. split; [done|]. destruct e as [e|].
  - rewrite app_nil_r. by eapply append_err.
  - by eapply append_ok.
Qed.

End Inv.

Create Rewrite HintDb qstate.
#[export] Hint Rewrite @rt_removeToken @wal_removeToken @heap_removeToken @owners_removeToken
  @rt_registerToken @wal_registerToken @heap_registerToken @owners_registerToken
  @rt_dec_unacked @wal_dec_unacked @owners_dec_unacked @heap_dec_unacked
  Remove_snd : qstate.

(** Simplifies projections of an updated state. *)
Ltac qsimpl := repeat (progress (simpl; autorewrite with qstate)).

(** ** The registry *)

Lemma cons_wf_alter registry order next heap f l :
  (forall cs, sess_ID (f cs) = sess_ID cs) ->
  (forall cs, heap !! l = Some cs -> session_ok cs -> session_ok (f cs)) ->
  cons_wf registry order next heap -> cons_wf registry order next (alter f l heap).
Proof.
  intros Hid Hok [? ? Hptr Hall ? ?]. split; try done.
  - intros id l' Hl. destruct (Hptr id l' Hl) as (cs & Hcs & Hi).
    destruct (decide (l = l')) as [->|Hne].
    + exists (f cs). rewrite lookup_alter_eq, Hcs. split; [done|]. by rewrite Hid.
    + exists cs. by rewrite lookup_alter_ne.
  - intros l' cs' Hcs'. destruct (decide (l = l')) as [->|Hne].
    + rewrite lookup_alter_eq in Hcs'. apply fmap_Some in Hcs' as (cs & Hcs & ->).
      apply Hok; [done|]. by eapply Hall.
    + rewrite lookup_alter_ne in Hcs' by done. by eapply Hall.
Qed.

Lemma set_UnackedCount_ok n cs : session_ok cs -> session_ok (set_UnackedCount n cs).
Proof. done. Qed.

Lemma cons_wf_dec registry order next heap id :
  cons_wf registry order next heap -> cons_wf registry order next (heap_dec registry id heap).
Proof. intros Hc. unfold heap_dec. case_match; [|done]. by apply cons_wf_alter. Qed.

Lemma cons_wf_next registry order next next' heap :
  0 <= next' <= Z.of_nat (length order) ->
  cons_wf registry order next heap -> cons_wf registry order next' heap.
Proof. intros Hn []. by split. Qed.

Lemma cons_wf_alloc registry order next heap l id :
  heap !! l = None ->
  cons_wf registry order next heap ->
  cons_wf registry order next (<[l := NewConsumerSession id]> heap).
Proof.
  intros Hl [? ? Hptr Hall ? ?]. split; try done.
  - intros i l' Hi. destruct (Hptr i l' Hi) as (cs & Hcs & Hid). exists cs.
    rewrite lookup_insert_ne; [done|]. naive_solver.
  - apply map_Forall_insert_2; [|done]. split; [done|]. simpl. unfold deliveries_cap. lia.
Qed.

Lemma cons_wf_subscribe registry order next heap l cs :
  heap !! l = Some cs -> registry !! sess_ID cs = None ->
  Z.of_nat (length order) < max_int ->
  cons_wf registry order next heap ->
  cons_wf (<[sess_ID cs := l]> registry) (order ++ [sess_ID cs]) next heap.
Proof.
  intros Hl Hr Hlen [Hnd Hdom Hptr Hall Hn Hm]. split; try done.
  - apply NoDup_app. split_and!; [done| |by apply NoDup_singleton].
    intros x Hx Hx'. apply list_elem_of_singleton in Hx' as ->.
    apply Hdom in Hx as [? Hx]. by rewrite Hr in Hx.
  - intros id. rewrite elem_of_app, list_elem_of_singleton, Hdom, lookup_insert.
    case_decide; subst; naive_solver.
  - intros id l'. rewrite lookup_insert. case_decide; naive_solver.
  - rewrite length_app. simpl. lia.
  - rewrite length_app. simpl. lia.
Qed.

Lemma cons_wf_unsubscribe registry order next next' heap id :
  cons_wf registry order next heap ->
  let order' := slices_DeleteFunc (fun sid => bool_decide (sid = id)) order in
  0 <= next' <= Z.of_nat (length order') ->
  cons_wf (delete id registry) order' next' heap.
Proof.
  intros [Hnd Hdom Hptr Hall Hn Hm] order' Hn'. split; try done.
  - by apply DeleteFunc_NoDup.
  - intros x. unfold order'. rewrite DeleteFunc_elem_of, Hdom, lookup_delete, bool_decide_eq_false.
    case_decide; subst; naive_solver.
  - intros x l. rewrite lookup_delete. case_decide; naive_solver.
  - unfold order', slices_DeleteFunc.
    pose proof (length_filter (fun x => bool_decide (x = id) = false) order). lia.
Qed.

Lemma cons_wf_close registry order next heap l cs cs' :
  heap !! l = Some cs -> session_ok cs' -> sess_ID cs' = sess_ID cs ->
  cons_wf registry order next heap -> cons_wf registry order next (<[l := cs']> heap).
Proof.
  intros Hl Hok Hid [? ? Hptr Hall ? ?]. split; try done.
  - intros i l' Hi. destruct (Hptr i l' Hi) as (c & Hc & Hci). rewrite lookup_insert.
    case_decide; naive_solver.
  - by apply map_Forall_insert_2.
Qed.

(** ** The token table *)

Lemma tok_wf_remove hooks owners inflight tok :
  tok_wf hooks owners inflight ->
  tok_wf hooks (owners_remove hooks tok owners) (delete tok inflight).
Proof.
  intros Ht self -> tok'. specialize (Ht self eq_refl tok'). simpl.
  rewrite !lookup_delete. case_decide; [|done]. split; [done|]. by intros [? ?].
Qed.

Lemma tok_wf_register hooks owners inflight tok im :
  tok_wf hooks owners inflight ->
  tok_wf hooks (owners_register hooks tok owners) (<[tok := im]> inflight).
Proof.
  intros Ht self -> tok'. specialize (Ht self eq_refl tok'). simpl.
  rewrite !lookup_insert. case_decide; naive_solver.
Qed.

#[export] Hint Resolve cons_wf_dec tok_wf_remove tok_wf_register : dsend.
