(* ===== verification/RoundRobin.v ===== *)
(** Consumer scheduling: [nextSession] picks the first eligible session in the
    rotation of the consumer order that starts at [nextConsumer], and leaves
    [nextConsumer] just behind it; it returns after at most one round. *)

From S2P Require Import Prelude GoStrings Model RingBuffer Inflight Exchange Wal QueueRuntime.
From S2P Require Import QueueInv.

Section RoundRobin.
Context {Q W : Type} `{!Queue Q} `{!QueueLaws Q} `{!WAL W} `{!WALLaws W}.
Abbreviation QS := (QState Q W).

(** The session registered under an identifier may take another delivery. *)
Definition eligible (q : QueueRuntime Q) (heap : gmap nat ConsumerSession) (id : string) : bool :=
  match consumerSessions q !! id ≫= (fun l => heap !! l) with
  | Some cs => IsEligible (ConsumerPrefetch (config q)) cs
  | None => false
  end.

(** The order of a round that starts at position [c]. *)
Definition rotation (c : nat) (order : list string) : list string := drop c order ++ take c order.

(** Where a round starts. *)
Definition start_pos (q : QueueRuntime Q) : nat :=
  if decide (nextConsumer q >= Z.of_nat (length (consumerOrder q)))
  then 0%nat else Z.to_nat (nextConsumer q).

Lemma rotation_length c order : (c <= length order)%nat -> length (rotation c order) = length order.
Proof. intros. unfold rotation. rewrite length_app, length_drop, length_take. lia. Qed.

Lemma rotation_lookup c order j :
  (c < length order)%nat -> (j < length order)%nat ->
  rotation c order !! j = order !! ((c + j) mod length order)%nat.
Proof.
  intros Hc Hj. unfold rotation. destruct (decide (c + j < length order)%nat) as [Hlt|Hge].
  - rewrite lookup_app_l by (rewrite length_drop; lia).
    by rewrite lookup_drop, Nat.mod_small by lia.
  - rewrite lookup_app_r by (rewrite length_drop; lia). rewrite length_drop, lookup_take_lt by lia.
    f_equal. rewrite <- (Nat.mod_small (j - (length order - c)) (length order)) by lia.
    rewrite <- (Nat.Div0.mod_add (j - (length order - c)) 1). f_equal. lia.
Qed.

Lemma rotation_elem c order id : id ∈ rotation c order <-> id ∈ order.
Proof.
  unfold rotation. rewrite <- (take_drop c order) at 3. rewrite !elem_of_app. tauto.
Qed.

(** One step of the position around the circle. *)
Lemma circle_step c j n :
  (0 < n)%nat -> Z.of_nat n <= max_int ->
  go_rem (Z.of_nat ((c + j) mod n) ⊕ 1) (Z.of_nat n) = Done (Z.of_nat ((c + S j) mod n)).
Proof.
  intros Hn Hm. pose proof (Nat.mod_upper_bound (c + j) n ltac:(lia)).
  rewrite int_add_id by (unfold min_int, max_int in *; lia).
  rewrite go_rem_pos by lia. f_equal.
  replace (Z.of_nat ((c + j) mod n) + 1) with (Z.of_nat ((c + j) mod n + 1)) by lia.
  rewrite <- Nat2Z.inj_mod, Nat.Div0.add_mod_idemp_l. do 2 f_equal. lia.
Qed.

Lemma circle_closes c j n :
  (c < n)%nat -> (j < n)%nat -> ((c + S j) mod n = c <-> S j = n)%nat.
Proof.
  intros Hc Hj. destruct (decide (c + S j < n)%nat) as [Hlt|Hge].
  - rewrite Nat.mod_small by lia. lia.
  - replace (c + S j)%nat with ((c + S j - n) + 1 * n)%nat by lia.
    rewrite Nat.Div0.mod_add, Nat.mod_small by lia. lia.
Qed.

Lemma eligible_lookup q heap next id :
  cons_wf (consumerSessions q) (consumerOrder q) next heap -> id ∈ consumerOrder q ->
  exists l cs, consumerSessions q !! id = Some l /\ heap !! l = Some cs /\
    eligible q heap id = IsEligible (ConsumerPrefetch (config q)) cs.
Proof.
  intros Hc [l Hl]%(cw_dom _ _ _ _ Hc). destruct (cw_ptr _ _ _ _ Hc _ _ Hl) as (cs & Hcs & _).
  exists l, cs. unfold eligible. rewrite Hl. simpl. by rewrite Hcs.
Qed.

Abbreviation len q := (length (consumerOrder q)).

(** The loop, from the [j]-th position of the round on. *)
Lemma nextSession_loop_spec q heap next c j :
  cons_wf (consumerSessions q) (consumerOrder q) next heap ->
  (c < len q)%nat -> (j < len q)%nat ->
  nextSession_loop (len q - j) q heap (Z.of_nat c) (Z.of_nat ((c + j) mod (len q))) =
  match list_find (fun id => eligible q heap id) (drop j (rotation c (consumerOrder q))) with
  | Some (k, id) => Done (Some id, Z.of_nat ((c + j + k + 1) mod (len q)))
  | None => Done (None, Z.of_nat c)
  end.
Proof.
  intros Hc Hcn. remember (len q - S j)%nat as fuel eqn:Hf. revert j Hf.
  induction fuel as [|fuel IH]; intros j Hf Hj.
  all: replace (len q - j)%nat with (S (len q - S j)) by lia.
  all: pose proof (Nat.mod_upper_bound (c + j) (len q) ltac:(lia)) as Hpos.
  all: destruct (lookup_lt_is_Some_2 (consumerOrder q) ((c + j) mod (len q)) Hpos) as [id Hid].
  all: assert (rotation c (consumerOrder q) !! j = Some id) as Hrot
         by (rewrite rotation_lookup by done; done).
  all: destruct (eligible_lookup q heap next id Hc) as (l & cs & Hl & Hcs & He);
         [by eapply list_elem_of_lookup_2|].
  all: rewrite (drop_S _ id) by done; simpl.
  all: rewrite (go_index_Some _ _ id) by (lia || by rewrite Nat2Z.id); simpl.
  all: rewrite circle_step by (lia || apply Hc); simpl; rewrite Hl; simpl; rewrite Hcs.
  all: rewrite He; destruct (IsEligible _ cs); [rewrite decide_True by done; by replace (c + j + 0 + 1)%nat with (c + S j)%nat by lia|].
  all: rewrite decide_False by auto.
  - pose proof (proj2 (circle_closes c j (len q) Hcn Hj) ltac:(lia)) as Hend.
    rewrite Hend, bool_decide_true by done. rewrite drop_ge; [done|].
    rewrite rotation_length by lia. lia.
  - assert (((c + S j) mod (len q))%nat <> c) by (rewrite circle_closes by done; lia).
    rewrite bool_decide_false by lia.
    rewrite IH by lia.
    destruct (list_find _ _) as [[k id']|]; simpl; [|done].
    by replace (c + S j + k + 1)%nat with (c + j + S k + 1)%nat by lia.
Qed.

Lemma start_pos_lt (s : QS) :
  cons_wf (consumerSessions (rt s)) (consumerOrder (rt s)) (nextConsumer (rt s)) (w_sessions (wd s)) ->
  consumerOrder (rt s) <> [] -> (start_pos (rt s) < len (rt s))%nat.
Proof.
  intros Hc Hne. pose proof (length_pos _ Hne). pose proof (cw_next _ _ _ _ Hc).
  unfold start_pos. case_decide; lia.
Qed.

(** [nextSession] in closed form. *)
Lemma nextSession_spec (s : QS) :
  cons_wf (consumerSessions (rt s)) (consumerOrder (rt s)) (nextConsumer (rt s)) (w_sessions (wd s)) ->
  consumerOrder (rt s) <> [] ->
  nextSession s =
  match list_find (fun id => eligible (rt s) (w_sessions (wd s)) id)
          (rotation (start_pos (rt s)) (consumerOrder (rt s))) with
  | Some (k, id) =>
      Done (consumerSessions (rt s) !! id,
            upd_rt (set_nextConsumer (Z.of_nat ((start_pos (rt s) + k + 1) mod len (rt s)))) s)
  | None => Done (None, upd_rt (set_nextConsumer (Z.of_nat (start_pos (rt s)))) s)
  end.
Proof.
  intros Hc Hne. pose proof (start_pos_lt s Hc Hne) as Hcl.
  pose proof (cw_next _ _ _ _ Hc) as Hn.
  pose proof (nextSession_loop_spec (rt s) (w_sessions (wd s)) _ (start_pos (rt s)) 0 Hc Hcl
                ltac:(lia)) as Hloop.
  rewrite Nat.sub_0_r, Nat.add_0_r, Nat.mod_small, drop_0 in Hloop by done.
  unfold nextSession. rewrite bool_decide_false by done.
  replace (if bool_decide (nextConsumer (rt s) >= Z.of_nat (len (rt s)))
           then 0 else nextConsumer (rt s)) with (Z.of_nat (start_pos (rt s))).
  2:{ unfold start_pos. case_bool_decide; case_decide; lia. }
  rewrite Hloop. by destruct (list_find _ _) as [[k id]|].
Qed.

Lemma nextSession_found (s : QS) :
  cons_wf (consumerSessions (rt s)) (consumerOrder (rt s)) (nextConsumer (rt s)) (w_sessions (wd s)) ->
  exists r n, nextSession s = Done (r, upd_rt (set_nextConsumer n) s) /\
    0 <= n <= Z.of_nat (length (consumerOrder (rt s))) /\
    match r with
    | Some l => exists id cs, consumerSessions (rt s) !! id = Some l /\
        w_sessions (wd s) !! l = Some cs /\ sess_ID cs = id /\
        UnackedCount cs < ConsumerPrefetch (config (rt s))
    | None => forall id, id ∈ consumerOrder (rt s) -> eligible (rt s) (w_sessions (wd s)) id = false
    end.
Proof.
  intros Hc.
  destruct (decide (consumerOrder (rt s) = [])) as [He|Hne].
  { exists None, (nextConsumer (rt s)). unfold nextSession. rewrite bool_decide_true by done.
    split_and!; [by destruct s as [[] ?]|apply Hc|apply Hc|]. rewrite He. by intros ? ?%elem_of_nil. }
  rewrite nextSession_spec by done. pose proof (start_pos_lt s Hc Hne).
  destruct (list_find _ _) as [[k id]|] eqn:Hf.
  - apply list_find_Some in Hf as (Hk & He & _).
    assert (id ∈ consumerOrder (rt s)) as Hin by (eapply rotation_elem, list_elem_of_lookup_2, Hk).
    destruct (eligible_lookup (rt s) (w_sessions (wd s)) _ id Hc Hin) as (l & cs & Hl & Hcs & Hel).
    destruct (cw_ptr _ _ _ _ Hc _ _ Hl) as (cs' & Hcs' & Hid). simplify_eq.
    eexists (Some l), _. rewrite Hl. split; [done|]. split.
    + pose proof (Nat.mod_upper_bound (start_pos (rt s) + k + 1) (len (rt s))). lia.
    + exists (sess_ID cs), cs. split_and!; try done.
      rewrite Hel in He. by apply Is_true_true, bool_decide_eq_true in He.
  - apply list_find_None in Hf. rewrite Forall_forall in Hf.
    eexists None, _. split; [done|]. split.
    + lia.
    + intros id Hin. apply rotation_elem with (c := start_pos (rt s)) in Hin.
      specialize (Hf id Hin). destruct (eligible _ _ id); [by contradict Hf|done].
Qed.

End RoundRobin.
