(* ===== verification/QueueRefine.v ===== *)
(** The refinement between the queue runtime and the abstract queue of
    [QueueSpec.v]: every method keeps the invariant, never panics and runs to
    completion, and its effect is a sequence of abstract steps. *)

From S2P Require Import Prelude GoStrings Model RingBuffer Inflight Exchange Wal QueueRuntime.
From S2P Require Import System QueueSpec QueueInv.

Definition flight_of (im : InFlightMessage) : Message * string :=
  (if_Message im, if_ConsumerID im).

(** Closes [sim s s'] when [s'] differs from [s] in fields that neither the
    invariant nor the abstraction mentions. *)
Ltac silent Hwf :=
  destruct Hwf; split; [by split|done|by repeat split].

Section Refine.
Context {Q W : Type} `{!Queue Q} `{!QueueLaws Q} `{!WAL W} `{!WALLaws W} {policy : PubPolicy}.
Abbreviation QS := (QState Q W).

(** The abstraction function. *)
Definition abs (s : QS) : AQ :=
  mkAQ (contents (queue (rt s))) (flight_of <$> deliveries (inFlightManager (rt s)))
    (messages (deadLetterQueue (rt s)))
    (producedCount (rt s)) (ackedCount (rt s)) (deadletteredCount (rt s))
    (redeliveredCount (rt s)) (wal_log (w_wal (wd s))).

(** What no method changes. *)
Definition same_identity (s s' : QS) : Prop :=
  name (rt s') = name (rt s) /\ config (rt s') = config (rt s) /\
  tokenHooks (rt s') = tokenHooks (rt s) /\
  Capacity (queue (rt s')) = Capacity (queue (rt s)).

Abbreviation steps s := (rtc (astep (name (rt s)) (MaxRetries (config (rt s))))).

(** The concrete step from [s] to [s'] keeps the invariant and implements a
    sequence of abstract steps. *)
Record sim (s s' : QS) : Prop := {
  sim_wf : rt_wf s';
  sim_steps : steps s (abs s) (abs s');
  sim_id : same_identity s s';
}.

Lemma sim_refl s : rt_wf s -> sim s s.
Proof. by split. Qed.

Lemma sim_trans s s' s'' : sim s s' -> sim s' s'' -> sim s s''.
Proof.
  intros [Hw Hs (Hn & Hc & Ht & Hq)] [Hw' Hs' (Hn' & Hc' & Ht' & Hq')].
  rewrite Hn, Hc in Hs'. split; [done|by etrans|].
  unfold same_identity. rewrite Hn', Hc', Ht', Hq'. done.
Qed.

(** A change the abstraction does not see. *)
Lemma sim_silent s s' : rt_wf s' -> abs s' = abs s -> same_identity s s' -> sim s s'.
Proof. intros Hw Ha Hi. split; [done|by rewrite Ha|done]. Qed.

Lemma sim_once s s' :
  rt_wf s' -> same_identity s s' ->
  astep (name (rt s)) (MaxRetries (config (rt s))) (abs s) (abs s') -> sim s s'.
Proof. intros Hw Hi Ha. split; [done|by apply rtc_once|done]. Qed.

Lemma flight_lookup s tok im :
  deliveries (inFlightManager (rt s)) !! tok = Some im ->
  a_flight (abs s) !! tok = Some (flight_of im).
Proof. intros Hd. simpl. by rewrite lookup_fmap, Hd. Qed.

(** A failed append changes nothing the abstraction sees. *)
Lemma sim_append_err r s e s' :
  wal_append r s = (Some e, s') -> rt_wf s -> typed r -> sim s s'.
Proof.
  intros Ha [Hq Hw Hc Ht] Hr.
  destruct (wal_append_spec r s _ s' Ha Hw Hr) as (w & -> & Hok & Hl).
  rewrite app_nil_r in Hl. apply sim_silent; [by split| |done].
  unfold abs. simpl. by rewrite Hl.
Qed.

(** ** Publish *)

Lemma size_full s :
  rt_wf s -> Size (queue (rt s)) <> Capacity (queue (rt s)) ->
  Size (queue (rt s)) < Capacity (queue (rt s)).
Proof. intros [Hq _ _ _] Hne. pose proof (size_le_capacity _ Hq). lia. Qed.

Lemma Publish_sim now id m ttl s :
  rt_wf s -> pub_ok (abs s) (stamp now id m ttl) ->
  exists r s', Publish now id m ttl s = Done (r, s') /\ sim s s'.
Proof.
  intros Hwf Hpub. unfold Publish.
  case_match eqn:Efull; [eexists _, _; split; [done|]; silent Hwf|].
  destruct (closed (rt s)) eqn:Ec; [eexists _, _; split; [done|by apply sim_refl]|].
  simpl in Efull. apply bool_decide_eq_false in Efull.
  set (msg := stamp now id m ttl).
  destruct (wal_append (rec_message Published (name (rt s)) msg (ID msg)) s) as [[e|] s1] eqn:Ea.
  - eexists _, _; split; [done|]. apply (sim_append_err _ _ _ _ Ea); auto with dsend.
  - destruct (Hwf) as [Hq Hw Hc Ht].
    destruct (wal_append_spec _ _ _ _ Ea Hw ltac:(auto with dsend)) as (w & -> & Hok & Hl).
    destruct (push_spec msg (queue (rt s)) Hq (size_full s Hwf Efull)) as (q' & Hp & Hq' & Hct & Hcap).
    unfold push_queue. simpl. rewrite Hp. simpl.
    eexists _, _; split; [done|]. apply sim_once; [by split|by repeat split|].
    unfold abs. simpl. rewrite Hct, Hl. by constructor.
Qed.

Lemma Publish_resume_sim now id m ttl s :
  rt_wf s -> pub_ok (abs s) (stamp now id m ttl) ->
  exists r s', Publish_resume now id m ttl s = Done (r, s') /\ sim s s'.
Proof.
  intros Hwf Hpub. unfold Publish_resume. set (s1 := upd_rt _ s).
  assert (sim s s1) as H1 by (silent Hwf).
  destruct (Publish_sim now id m ttl s1 (sim_wf _ _ H1) Hpub) as (r & s2 & Hp & H2).
  exists r, s2. split; [done|]. by eapply sim_trans.
Qed.

(** ** Ack *)

Lemma Ack_sim tok s : rt_wf s -> sim s (Ack tok s).2.
Proof.
  intros Hwf. unfold Ack, Get.
  destruct (deliveries _ !! tok) as [im|] eqn:Hd; [|by apply sim_refl].
  destruct (wal_append _ s) as [[e|] s1] eqn:Ea; simpl; [apply (sim_append_err _ _ _ _ Ea); auto with dsend|].
  destruct (Hwf) as [Hq Hw Hc Ht].
  destruct (wal_append_spec _ _ _ _ Ea Hw ltac:(auto with dsend)) as (w & -> & Hok & Hl).
  apply sim_once; [|by repeat split; qsimpl|].
  - split; qsimpl; auto with dsend.
  - unfold abs. qsimpl. rewrite Hl, fmap_delete.
    apply (a_ack _ _ tok (if_ConsumerID im)). apply (flight_lookup s tok im Hd).
Qed.

(** ** Closing *)

Lemma close_all_spec registry order next ls heap :
  cons_wf registry order next heap ->
  (forall l, l ∈ ls -> is_Some (heap !! l)) ->
  exists heap', close_all ls heap = Done heap' /\ cons_wf registry order next heap' /\
    (forall l cs, heap !! l = Some cs -> exists cs', heap' !! l = Some cs' /\
       sess_ID cs' = sess_ID cs /\ Deliveries cs' = Deliveries cs /\
       UnackedCount cs' = UnackedCount cs /\
       (l ∈ ls \/ Closed cs = true -> Closed cs' = true)).
Proof.
  revert heap. induction ls as [|l ls IH]; intros heap Hc Hls; simpl.
  - exists heap. split_and!; [done|done|]. intros l cs Hl. exists cs.
    split_and!; try done. by intros [?%elem_of_nil|?].
  - destruct (Hls l ltac:(left)) as [cs Hcs]. rewrite Hcs.
    destruct (Close_ok cs) as (cs1 & Hcl & Hok & Hclosed & Hid & Hdel & Hun).
    { by eapply (cw_ok _ _ _ _ Hc). }
    rewrite Hcl. simpl.
    destruct (IH (<[l := cs1]> heap)) as (heap' & Hrun & Hwf & Hsp).
    { by eapply cons_wf_close. }
    { intros l' Hl'. rewrite lookup_insert. case_decide; [done|]. apply Hls. by right. }
    exists heap'. split_and!; [done|done|]. intros l' c Hl'.
    destruct (decide (l = l')) as [<-|Hne].
    + destruct (Hsp l cs1) as (c' & ? & ? & ? & ? & Hx); [by rewrite lookup_insert_eq|].
      simplify_eq. exists c'. split_and!; try congruence. intros _. apply Hx. by right.
    + destruct (Hsp l' c) as (c' & ? & ? & ? & ? & Hx); [by rewrite lookup_insert_ne|].
      exists c'. split_and!; try done. intros [[->|?]%elem_of_cons|?]; auto.
Qed.

Lemma registry_ptrs registry order next heap l :
  cons_wf registry order next heap -> l ∈ (map_to_list registry).*2 -> is_Some (heap !! l).
Proof.
  intros Hc ([id l'] & -> & Hin)%list_elem_of_fmap. simpl.
  apply elem_of_map_to_list in Hin. destruct (cw_ptr _ _ _ _ Hc _ _ Hin) as (cs & -> & _). eauto.
Qed.

Lemma close_runtime_sim s :
  rt_wf s -> exists s', close_runtime s = Done s' /\ sim s s' /\ closed (rt s') = true /\
    consumerSessions (rt s') = ∅ /\ waiting (condProd (rt s')) = 0%nat /\
    (forall id l cs, consumerSessions (rt s) !! id = Some l ->
       w_sessions (wd s') !! l = Some cs -> Closed cs = true).
Proof.
  intros Hwf. destruct (Hwf) as [Hq Hw Hc Ht]. unfold close_runtime. simpl.
  edestruct close_all_spec as (heap' & -> & Hc' & Hsp); [exact Hc|by intros; eapply registry_ptrs|].
  simpl. eexists; split; [done|]. split_and!; try done; simpl.
  - apply sim_silent; [|done|done]. split; simpl; try done.
    destruct Hc' as [? ? ? Hall ? ?]. split; simpl; try done; try lia.
    + constructor.
    + intros id. rewrite lookup_empty. split; [by intros ?%elem_of_nil|by intros []].
  - intros id l cs Hid Hl. destruct (cw_ptr _ _ _ _ Hc _ _ Hid) as (c & Hcs & _).
    destruct (Hsp l c Hcs) as (cs' & Hcs' & _ & _ & _ & Hx).
    assert (cs = cs') as -> by congruence. apply Hx. left.
    apply list_elem_of_fmap. exists (id, l). split; [done|]. by apply elem_of_map_to_list.
Qed.

Lemma Shutdown_sim s : rt_wf s -> exists s', Shutdown s = Done s' /\ sim s s'.
Proof. intros Hwf. destruct (close_runtime_sim s Hwf) as (s' & ? & ? & _). eauto. Qed.

Lemma CloseIfEmpty_sim s :
  rt_wf s -> exists b s', CloseIfEmpty s = Done (b, s') /\ sim s s'.
Proof.
  intros Hwf. unfold CloseIfEmpty.
  case_match; [eexists _, _; split; [done|by apply sim_refl]|].
  destruct (close_runtime_sim s Hwf) as (s' & -> & ? & _). simpl. eauto.
Qed.

End Refine.
