(* ===== verification/QueueDeliver.v ===== *)
(** The refinement for the delivery side of the runtime: subscription, expiry
    of queued messages, reservation and cancellation of deliveries, and the
    redelivery round. *)

From S2P Require Import Prelude GoStrings Model RingBuffer Inflight Exchange Wal QueueRuntime.
From S2P Require Import System QueueSpec QueueInv RoundRobin QueueRefine.

Section Deliver.
Context {Q W : Type} `{!Queue Q} `{!QueueLaws Q} `{!WAL W} `{!WALLaws W} {policy : PubPolicy}.
Abbreviation QS := (QState Q W).
Abbreviation ready s := (contents (queue (rt s))).

(** What a sweep of expired messages did: it took the first [k] messages, each
    expired at the clock reading of its round, to the dead letter queue, and
    stopped at one that was not expired unless the log failed. *)
Record sweep (clock : nat -> Z) (i k : nat) (err : option Err) (s s' : QS) : Prop := {
  sw_ready : ready s' = drop k (ready s);
  sw_bound : (k <= length (ready s))%nat;
  sw_expired j m : (j < k)%nat -> ready s !! j = Some m -> isExpired (clock (i + j)%nat) m = true;
  sw_stop m : err = None -> ready s !! k = Some m -> isExpired (clock (i + k)%nat) m = false;
  sw_dead : messages (deadLetterQueue (rt s')) =
            messages (deadLetterQueue (rt s)) ++ take k (ready s);
  sw_cond : condProd (rt s') = Nat.iter k Signal (condProd (rt s));
  sw_frame : exists q d n c w,
    s' = mkQState (set_queue q (set_deadLetterQueue d (set_deadletteredCount n
                     (set_condProd c (rt s)))))
           (mkWorld w (w_sessions (wd s)) (w_tokenOwners (wd s)));
}.

Lemma sweep_none clock i err s w :
  (err = None -> forall m, ready s !! 0%nat = Some m -> isExpired (clock i) m = false) ->
  sweep clock i 0 err s (set_wal w s).
Proof.
  intros Hstop. split; simpl.
  - done.
  - lia.
  - lia.
  - rewrite Nat.add_0_r. auto.
  - by rewrite app_nil_r.
  - done.
  - by exists (queue (rt s)), (deadLetterQueue (rt s)), (deadletteredCount (rt s)),
      (condProd (rt s)), w; destruct s as [[] ?].
Qed.

Lemma sweep_cons clock i k err s s1 s' m l q w :
  ready s = m :: l -> isExpired (clock i) m = true -> contents q = l ->
  s1 = signal (upd_rt (fun r => set_deadletteredCount (deadletteredCount r ⊕ 1) r)
         (push_dlq m (upd_rt (set_queue q) (set_wal w s)))) ->
  sweep clock (S i) k err s1 s' -> sweep clock i (S k) err s s'.
Proof.
  intros Hr He Hq -> [Hre Hb Hex Hst Hd Hc (q' & d' & n' & c' & w' & ->)]. simpl in *.
  rewrite Hq in *. split; simpl.
  - by rewrite Hr.
  - rewrite Hr. simpl. lia.
  - intros [|j] x Hj; rewrite Hr; simpl.
    + intros [= <-]. by rewrite Nat.add_0_r.
    + intros Hx. rewrite Nat.add_succ_r. by apply Hex; [lia|].
  - intros x Herr. rewrite Hr, Nat.add_succ_r. simpl. by apply Hst.
  - rewrite Hd, Hr. simpl. by rewrite <- app_assoc.
  - by rewrite Hc, <- Nat.iter_swap.
  - by exists q', d', n', c', w'.
Qed.

Lemma sim_expire_one (s : QS) m l w :
  rt_wf s -> ready s = m :: l -> wal_ok w ->
  wal_log w = wal_log (w_wal (wd s)) ++ [rec_message DeadLettered (name (rt s)) zeroMessage (ID m)] ->
  exists q, Pop (queue (rt s)) = Done (m, q) /\ contents q = l /\ 
    sim s (signal (upd_rt (fun r => set_deadletteredCount (deadletteredCount r ⊕ 1) r)
            (push_dlq m (upd_rt (set_queue q) (set_wal w s))))).
Proof.
  intros [Hq Hw Hc Ht] Hr Hok Hl.
  destruct (pop_spec m l _ Hq Hr) as (q & Hp & Hq' & Hct & Hcap).
  exists q. split_and!; [done|done|]. apply sim_once; [by split|by repeat split|].
  unfold abs. simpl. rewrite Hr, Hct, Hl. constructor.
Qed.

Lemma ready_size s : rt_wf s -> Size (queue (rt s)) = Z.of_nat (length (ready s)).
Proof. intros [Hq _ _ _]. by apply size_contents. Qed.

Lemma deadLetter_loop_spec fuel clock i s :
  rt_wf s -> Size (queue (rt s)) < Z.of_nat fuel ->
  exists err s' k, deadLetter_loop fuel clock i s = Done (err, s') /\
    sim s s' /\ sweep clock i k err s s'.
Proof.
  revert i s. induction fuel as [|fuel IH]; intros i s Hwf Hf.
  { rewrite ready_size in Hf by done. lia. }
  pose proof (ready_size s Hwf) as Hsz. simpl.
  destruct (ready s) as [|m l] eqn:Hr; simpl in Hsz.
  { rewrite bool_decide_false by lia. exists None, s, 0%nat. split; [done|].
    split; [by apply sim_refl|]. replace s with (set_wal (w_wal (wd s)) s) at 2 by by destruct s as [? []].
    apply sweep_none. by rewrite Hr. }
  rewrite bool_decide_true by lia. rewrite (peek_spec m l) by (apply Hwf || done). simpl.
  destruct (isExpired (clock i) m) eqn:He; simpl.
  2:{ exists None, s, 0%nat. split; [done|]. split; [by apply sim_refl|].
      replace s with (set_wal (w_wal (wd s)) s) at 2 by by destruct s as [? []].
      apply sweep_none. rewrite Hr. simpl. naive_solver. }
  destruct (wal_append _ s) as [[e|] s1] eqn:Ea.
  - exists (Some e), s1, 0%nat. split; [done|]. split.
    + apply (sim_append_err _ _ _ _ Ea); auto with dsend.
    + destruct (wal_append_spec _ _ _ _ Ea (wf_wal _ Hwf) ltac:(auto with dsend)) as (w & -> & _).
      by apply sweep_none.
  - destruct (wal_append_spec _ _ _ _ Ea (wf_wal _ Hwf) ltac:(auto with dsend)) as (w & -> & Hok & Hl).
    destruct (sim_expire_one s m l w Hwf Hr Hok Hl) as (q & Hp & Hct & Hsim).
    unfold pop_queue. simpl. rewrite Hp. simpl.
    destruct (IH (S i) _ (sim_wf _ _ Hsim)) as (err & s' & k & Hrun & Hs & Hsw).
    { rewrite ready_size by apply Hsim. simpl. rewrite Hct. lia. }
    exists err, s', (S k). split; [done|]. split; [by eapply sim_trans|].
    by eapply sweep_cons.
Qed.

(** A sweep returns, with the rounds bounded by the number of messages. *)
Lemma deadLetterExpired_spec clock s :
  rt_wf s -> exists err s' k, deadLetterExpiredMessages clock s = Done (err, s') /\
    sim s s' /\ sweep clock 0 k err s s'.
Proof.
  intros Hwf. apply deadLetter_loop_spec; [done|].
  pose proof (ready_size s Hwf). lia.
Qed.

(** ** Subscription *)

Lemma Subscribe_sim l id s :
  rt_wf s -> w_sessions (wd s) !! l = None ->
  Z.of_nat (length (consumerOrder (rt s))) < max_int ->
  exists err s', Subscribe l (alloc_session l id s) = Done (err, s') /\ sim s s'.
Proof.
  intros [Hq Hw Hc Ht] Hl Hlen. unfold Subscribe. simpl.
  pose proof (cons_wf_alloc _ _ _ _ l id Hl Hc) as Hc1.
  destruct (closed (rt s)); [eexists _, _; split; [done|]; by apply sim_silent|].
  rewrite lookup_insert_eq. simpl.
  destruct (consumerSessions (rt s) !! id) eqn:Hr;
    (eexists _, _; split; [done|]; apply sim_silent; [split; simpl; try done|done|done]).
  apply (cons_wf_subscribe _ _ _ _ l (NewConsumerSession id)); try done.
  by rewrite lookup_insert_eq.
Qed.

Lemma Unsubscribe_sim id s :
  rt_wf s -> exists s', Unsubscribe id s = Done s' /\ sim s s'.
Proof.
  intros Hwf. destruct (Hwf) as [Hq Hw Hc Ht]. unfold Unsubscribe.
  destruct (consumerSessions (rt s) !! id) as [l|] eqn:Hr; [|eexists; split; [done|by apply sim_refl]].
  destruct (cw_ptr _ _ _ _ Hc _ _ Hr) as (cs & Hcs & Hid).
  destruct (Close_ok cs) as (cs' & Hcl & Hok & _ & Hid' & _); [by eapply (cw_ok _ _ _ _ Hc)|].
  set (order := slices_DeleteFunc _ (consumerOrder (rt s))).
  assert (exists n, (if bool_decide (order = []) then Done 0
                     else go_rem (nextConsumer (rt s)) (Z.of_nat (length order))) = Done n /\
                    0 <= n <= Z.of_nat (length order)) as (n & Hn & Hnb).
  { pose proof (cw_next _ _ _ _ Hc). case_bool_decide as Ho; [exists 0; split; [done|lia]|].
    pose proof (length_pos order Ho). rewrite go_rem_pos by lia.
    pose proof (Z.mod_pos_bound (nextConsumer (rt s)) (Z.of_nat (length order)) ltac:(lia)).
    eexists; split; [done|lia]. }
  simpl. rewrite Hn. simpl. rewrite Hcs, Hcl. simpl.
  eexists; split; [done|]. apply sim_silent; [|done|done]. split; simpl; try done.
  eapply cons_wf_close; [exact Hcs|done|done|]. by eapply cons_wf_unsubscribe.
Qed.

(** ** Reservation *)

(** What a reservation did after the sweep: nothing but move [nextConsumer],
    or take the first ready message for an eligible session. *)
Definition reserved (now : Z) (token : string) (r : option (nat * Delivery)) (s s' : QS) : Prop :=
  exists n, 0 <= n <= Z.of_nat (length (consumerOrder (rt s))) /\
  match r with
  | None => s' = upd_rt (set_nextConsumer n) s
  | Some (l, d) => exists id cs m rest q,
      consumerSessions (rt s) !! id = Some l /\ w_sessions (wd s) !! l = Some cs /\
      sess_ID cs = id /\ UnackedCount cs < ConsumerPrefetch (config (rt s)) /\
      ready s = m :: rest /\ Pop (queue (rt s)) = Done (m, q) /\
      d = mkDelivery m token id /\
      s' = signal (registerToken token (add_unacked l 1
             (upd_rt (fun r => set_inFlightManager (Add now token m id (inFlightManager r)) r)
                (upd_rt (set_queue q) (upd_rt (set_nextConsumer n) s)))))
  end.

Lemma upd_next_id (s : QS) : upd_rt (set_nextConsumer (nextConsumer (rt s))) s = s.
Proof. by destruct s as [[] ?]. Qed.

(** A reservation that does not happen leaves no eligible consumer with a
    ready message. *)
Lemma reserve_next_spec now token s :
  rt_wf s ->
  exists r s', reserve_next now token s = Done (r, s') /\
    reserved now token r s s' /\
    (r = None -> ready s = [] \/
       forall id, id ∈ consumerOrder (rt s) -> eligible (rt s) (w_sessions (wd s)) id = false).
Proof.
  intros Hwf. pose proof (ready_size s Hwf) as Hsz. destruct (Hwf) as [Hq _ Hc _].
  unfold reserve_next. case_match eqn:E.
  { exists None, s. split; [done|]. split.
    - exists (nextConsumer (rt s)). split; [apply Hc|]. by rewrite upd_next_id.
    - intros _. apply orb_true_iff in E as [E|E]; apply bool_decide_eq_true in E.
      + left. destruct (ready s); [done|simpl in *; lia].
      + right. apply map_size_empty_inv in E. intros id [? Hin]%(cw_dom _ _ _ _ Hc).
        by rewrite E in Hin. }
  apply orb_false_iff in E as [E1 E2]. apply bool_decide_eq_false in E1, E2.
  destruct (ready s) as [|m rest] eqn:Hr; [simpl in *; lia|].
  destruct (nextSession_found s (wf_cons _ Hwf)) as (f & n & -> & Hn & Hf). simpl.
  destruct f as [l|].
  - destruct Hf as (id & cs & Hid & Hcs & Hsid & Hel). rewrite Hcs.
    destruct (pop_spec m rest _ Hq Hr) as (q & Hp & _). unfold pop_queue. simpl. rewrite Hp. simpl.
    eexists _, _. split; [done|]. split; [|done]. exists n. split; [done|].
    subst id. by exists (sess_ID cs), cs, m, rest, q.
  - eexists None, _. split; [done|]. split; [by exists n|]. intros _. by right.
Qed.

Lemma reserved_sim now token r s s' :
  rt_wf s -> deliveries (inFlightManager (rt s)) !! token = None ->
  reserved now token r s s' -> sim s s'.
Proof.
  intros [Hq Hw Hc Ht] Htok (n & Hn & Hr). destruct r as [[l d]|].
  - destruct Hr as (id & cs & m & rest & q & Hid & Hcs & Hsid & Hel & Hrd & Hp & -> & ->).
    destruct (pop_spec m rest _ Hq Hrd) as (q' & Hp' & Hq' & Hct & Hcap).
    rewrite Hp in Hp'. injection Hp' as <-. subst id rest.
    apply sim_once; [|by repeat split; qsimpl|].
    + split; qsimpl; auto with dsend. apply cons_wf_alter; [done|done|]. by eapply cons_wf_next.
    + unfold abs. qsimpl. rewrite Hrd, fmap_insert. apply a_deliver.
      by rewrite lookup_fmap, Htok.
  - subst. apply sim_silent; [|done|done]. split; try done. simpl. by eapply cons_wf_next.
Qed.

Lemma reserveDelivery_spec clock now token s :
  rt_wf s ->
  exists r s' s1 err k, reserveDelivery clock now token s = Done (r, s') /\
    sim s s1 /\ sweep clock 0 k err s s1 /\
    match err with
    | Some _ => r = None /\ s' = s1
    | None => reserved now token r s1 s' /\
        (r = None -> ready s1 = [] \/
           forall id, id ∈ consumerOrder (rt s1) -> eligible (rt s1) (w_sessions (wd s1)) id = false)
    end.
Proof.
  intros Hwf. unfold reserveDelivery.
  destruct (deadLetterExpired_spec clock s Hwf) as (err & s1 & k & -> & Hsim & Hsw). simpl.
  destruct err as [e|]; [by exists None, s1, s1, (Some e), k|].
  destruct (reserve_next_spec now token s1 (sim_wf _ _ Hsim)) as (r & s' & -> & Hr & Hn).
  by exists r, s', s1, None, k.
Qed.

Lemma sweep_inflight clock i k err s s' :
  sweep clock i k err s s' -> inFlightManager (rt s') = inFlightManager (rt s) /\
  consumerOrder (rt s') = consumerOrder (rt s) /\ closed (rt s') = closed (rt s) /\
  consumerSessions (rt s') = consumerSessions (rt s) /\ wd s' = mkWorld (w_wal (wd s')) (w_sessions (wd s)) (w_tokenOwners (wd s)) /\
  notifyDistributor (rt s') = notifyDistributor (rt s).
Proof. by intros [_ _ _ _ _ _ (q & d & n & c & w & ->)]. Qed.

Lemma reserveDelivery_sim clock now token s :
  rt_wf s -> deliveries (inFlightManager (rt s)) !! token = None ->
  exists r s', reserveDelivery clock now token s = Done (r, s') /\ sim s s'.
Proof.
  intros Hwf Htok.
  destruct (reserveDelivery_spec clock now token s Hwf) as (r & s' & s1 & err & k & Hrun & Hs & Hsw & Hr).
  exists r, s'. split; [done|]. destruct err as [e|]; [by destruct Hr as [-> ->]|].
  destruct Hr as [Hr _]. apply (sim_trans _ s1); [done|].
  apply (reserved_sim now token r); [apply Hs| |done].
  by rewrite (proj1 (sweep_inflight _ _ _ _ _ _ Hsw)).
Qed.

End Deliver.
