(* ===== verification/Redelivery.v ===== *)
(** The refinement for cancelled reservations and for the redelivery round, and
    with it for every step of a queue and its goroutines. *)

From S2P Require Import Prelude GoStrings Model RingBuffer Inflight Exchange Wal QueueRuntime.
From S2P Require Import System QueueSpec QueueInv RoundRobin QueueRefine QueueDeliver.

Section Redelivery.
Context {Q W : Type} `{!Queue Q} `{!QueueLaws Q} `{!WAL W} `{!WALLaws W} {policy : PubPolicy}.
Abbreviation QS := (QState Q W).

Abbreviation flight s := (deliveries (inFlightManager (rt s))).

(** The delivery is in flight under its token. *)
Definition in_flight (d : Delivery) (s : QS) : Prop :=
  exists im, deliveries (inFlightManager (rt s)) !! d_AckToken d = Some im /\
    if_Message im = d_Message d /\ if_ConsumerID im = d_ConsumerID d.

Lemma in_flight_abs d s :
  in_flight d s -> a_flight (abs s) !! d_AckToken d = Some (d_Message d, d_ConsumerID d).
Proof. intros (im & Hd & <- & <-). by apply (flight_lookup s). Qed.

Lemma cancelReservation_sim d s :
  rt_wf s -> in_flight d s -> Size (queue (rt s)) < Capacity (queue (rt s)) ->
  exists s', cancelReservation d s = Done s' /\ sim s s'.
Proof.
  intros [Hq Hw Hc Ht] Hd Hsz. pose proof (in_flight_abs d s Hd) as Ha.
  destruct Hd as (im & Hd & Hm & _). unfold cancelReservation, Remove. rewrite Hd.
  destruct (push_spec (d_Message d) _ Hq Hsz) as (q & Hp & Hq' & Hct & Hcap).
  unfold push_queue. qsimpl. rewrite Hp. simpl.
  eexists; split; [done|]. apply sim_once; [|by repeat split; qsimpl|].
  - split; qsimpl; auto with dsend.
  - unfold abs. qsimpl. rewrite Hct, fmap_delete. by eapply a_cancel.
Qed.

Lemma process_item_sim item s :
  rt_wf s -> in_flight item s ->
  exists s', process_item (MaxRetries (config (rt s))) item s = Done s' /\ sim s s' /\
    (deliveries (inFlightManager (rt s')) = deliveries (inFlightManager (rt s)) \/
     deliveries (inFlightManager (rt s')) =
       delete (d_AckToken item) (deliveries (inFlightManager (rt s)))).
Proof.
  intros Hwf Hd. pose proof (in_flight_abs item s Hd) as Ha. destruct (Hwf) as [Hq Hw Hc Ht].
  unfold process_item. case_bool_decide as Hfull.
  { exists s. split; [done|]. split; [by apply sim_refl|by left]. }
  case_bool_decide as Hret.
  - destruct (wal_append _ s) as [[e|] s1] eqn:Ea.
    + exists s1. split; [done|]. split; [apply (sim_append_err _ _ _ _ Ea); auto with dsend|].
      destruct (wal_append_spec _ _ _ _ Ea Hw ltac:(auto with dsend)) as (w & -> & _). by left.
    + destruct (wal_append_spec _ _ _ _ Ea Hw ltac:(auto with dsend)) as (w & -> & Hok & Hl).
      eexists. split; [done|]. split; [|right; by qsimpl].
      apply sim_once; [|by repeat split; qsimpl|].
      * split; qsimpl; auto with dsend.
      * unfold abs. qsimpl. rewrite Hl, fmap_delete. eapply a_exhaust; [exact Ha|lia].
  - destruct (wal_append _ s) as [[e|] s1] eqn:Ea.
    + exists s1. split; [done|]. split; [apply (sim_append_err _ _ _ _ Ea); auto with dsend|].
      destruct (wal_append_spec _ _ _ _ Ea Hw ltac:(auto with dsend)) as (w & -> & _). by left.
    + destruct (wal_append_spec _ _ _ _ Ea Hw ltac:(auto with dsend)) as (w & -> & Hok & Hl).
      destruct (push_spec (retried (d_Message item)) _ Hq (size_full s Hwf Hfull))
        as (q & Hp & Hq' & Hct & Hcap).
      unfold push_queue. simpl. unfold retried in Hp. rewrite Hp. simpl.
      eexists. split; [done|]. split; [|right; by qsimpl].
      apply sim_once; [|by repeat split; qsimpl|].
      * split; qsimpl; auto with dsend.
      * unfold abs. qsimpl. rewrite Hct, Hl, fmap_delete.
        apply (a_requeue _ _ (d_AckToken item) (d_ConsumerID item) (d_Message item)); [exact Ha|lia].
Qed.

Lemma in_flight_rest d items s s1 :
  d_AckToken d ∉ d_AckToken <$> items -> Forall (fun x => in_flight x s) items ->
  (flight s1 = flight s \/ flight s1 = delete (d_AckToken d) (flight s)) ->
  Forall (fun x => in_flight x s1) items.
Proof.
  rewrite !Forall_forall. intros Hnin Hrest Hdel x Hx. destruct (Hrest x Hx) as (im & Him & Hrec).
  exists im. split; [|done]. destruct Hdel as [-> | ->]; [done|].
  rewrite lookup_delete_ne; [done|]. intros He. apply Hnin. rewrite He.
  by apply list_elem_of_fmap_2.
Qed.

Lemma Expired_in_flight now items s :
  Expired now (AckTimeout (config (rt s))) (inFlightManager (rt s)) items ->
  Forall (fun d => in_flight d s) items.
Proof.
  intros He. apply Forall_forall. intros d Hd.
  apply (Expired_iff _ _ _ _ d He) in Hd as (im & Hl & _ & ->). by exists im.
Qed.

Lemma process_loop_sim items s :
  rt_wf s -> Forall (fun d => in_flight d s) items -> NoDup (d_AckToken <$> items) ->
  exists s', process_loop (MaxRetries (config (rt s))) items s = Done s' /\ sim s s' /\
    flight s' ⊆ flight s.
Proof.
  revert s. induction items as [|d items IH]; intros s Hwf Hall Hnd; simpl.
  { exists s. split; [done|]. split; [by apply sim_refl|done]. }
  inversion Hall as [|? ? Hd Hrest]; subst. apply NoDup_cons in Hnd as [Hnin Hnd].
  destruct (process_item_sim d s Hwf Hd) as (s1 & -> & Hsim & Hdel). simpl.
  destruct (sim_id _ _ Hsim) as (_ & Hcfg & _). rewrite <- Hcfg.
  destruct (IH s1 (sim_wf _ _ Hsim)) as (s' & Hrun & Hsim' & Hsub); [|done|].
  - by eapply in_flight_rest.
  - exists s'. split; [done|]. split; [by eapply sim_trans|].
    transitivity (flight s1); [done|]. destruct Hdel as [-> | ->]; [done|apply delete_subseteq].
Qed.

Lemma processExpired_sim now items s :
  rt_wf s -> Expired now (AckTimeout (config (rt s))) (inFlightManager (rt s)) items ->
  exists s', processExpiredMessages items s = Done s' /\ sim s s' /\ flight s' ⊆ flight s.
Proof.
  intros Hwf He. unfold processExpiredMessages.
  destruct (closed (rt s)); [exists s; split; [done|]; split; [by apply sim_refl|done]|].
  apply process_loop_sim; [done|by eapply Expired_in_flight|by eapply Expired_tokens_NoDup].
Qed.

(** ** Every step of the system *)

(** The distributor's own invariant: while the token of the delivery it holds
    is in flight, the entry is that delivery. *)
Definition dist_wf (s : Sys Q W) : Prop :=
  match dist s with
  | DSend _ d =>
      is_Some (deliveries (inFlightManager (rt (qs s))) !! d_AckToken d) -> in_flight d (qs s)
  | _ => True
  end.

Definition sys_wf (s : Sys Q W) : Prop := rt_wf (qs s) /\ dist_wf s.

(** When a reservation is cancelled, its token is still in flight and the queue
    has room for the message. *)
Definition quiet_cancel (e : event) (s : Sys Q W) : Prop :=
  match e, dist s with
  | (DSawClosed | DDefault), DSend _ d =>
      is_Some (deliveries (inFlightManager (rt (qs s))) !! d_AckToken d) /\
      Size (queue (rt (qs s))) < Capacity (queue (rt (qs s)))
  | _, _ => True
  end.

(** ** In-flight entries only disappear, except when the distributor reserves *)

Lemma append_rt r (s s' : QS) err : wal_append r s = (err, s') -> rt s' = rt s.
Proof. unfold wal_append. destruct (Append _ _). by intros [= _ <-]. Qed.

Lemma push_queue_rt m (s s' : QS) :
  push_queue m s = Done s' -> exists q, s' = upd_rt (set_queue q) s.
Proof. unfold push_queue. intros H. go_inv H. eauto. Qed.

Lemma Publish_flight now id m ttl (s : QS) r s' :
  Publish now id m ttl s = Done (r, s') -> flight s' = flight s.
Proof.
  unfold Publish. intros H. go_inv H; try done.
  - by rewrite (append_rt _ _ _ _ E1).
  - destruct (push_queue_rt _ _ _ E2) as [q' ->]. simpl. by rewrite (append_rt _ _ _ _ E1).
Qed.

Lemma Ack_flight tok (s : QS) : flight (Ack tok s).2 ⊆ flight s.
Proof.
  unfold Ack. destruct (Get _ _) as [im|]; [|done].
  destruct (wal_append _ s) as [[e|] s1] eqn:E; apply append_rt in E; simpl; rewrite ?E; [done|].
  qsimpl. rewrite E. apply delete_subseteq.
Qed.

Lemma close_flight (s s' : QS) : close_runtime s = Done s' -> flight s' = flight s.
Proof. unfold close_runtime. intros H. by go_inv H. Qed.

Lemma Unsubscribe_flight id (s s' : QS) : Unsubscribe id s = Done s' -> flight s' = flight s.
Proof. unfold Unsubscribe. intros H. by go_inv H. Qed.

Lemma Subscribe_flight l (s : QS) err s' : Subscribe l s = Done (err, s') -> flight s' = flight s.
Proof. unfold Subscribe. intros H. by go_inv H. Qed.

Lemma sweep_flight clock i k err (s s' : QS) : sweep clock i k err s s' -> flight s' = flight s.
Proof. intros H. by rewrite (proj1 (sweep_inflight _ _ _ _ _ _ H)). Qed.

Lemma cancel_flight d (s s' : QS) : cancelReservation d s = Done s' -> flight s' ⊆ flight s.
Proof.
  unfold cancelReservation. destruct (Remove _ _) as [r m] eqn:Er. intros H. go_inv H.
  destruct (push_queue_rt _ _ _ E) as [q ->]. simpl.
  assert (flight (upd_rt (set_inFlightManager m) s) ⊆ flight s).
  { simpl. change m with (r, m).2. rewrite <- Er, Remove_snd. apply delete_subseteq. }
  by destruct r; qsimpl.
Qed.

Lemma dist_wf_shrinks s q :
  dist_wf s -> flight q ⊆ flight (qs s) -> dist_wf (set_qs q s).
Proof.
  unfold dist_wf. simpl. destruct (dist s); try done. intros Hd Hf [im Him].
  pose proof (lookup_weaken _ _ _ _ Him Hf) as Him'.
  destruct Hd as (im' & Hi & Hrec); [eauto|]. exists im. split; [done|].
  by rewrite Him' in Hi; simplify_eq.
Qed.

(** A step that leaves the distributor where it is. *)
Lemma lift_qs_sim s q (c : GoM QS) r :
  c = Done q -> sim (qs s) q -> flight q ⊆ flight (qs s) -> dist_wf s ->
  lift_qs s c = Some r ->
  exists s', r = Done s' /\ sim (qs s) (qs s') /\ dist_wf s'.
Proof.
  intros -> Hsim Hf Hd [= <-]. eexists. split; [done|]. split; [done|]. by apply dist_wf_shrinks.
Qed.

Lemma reserve_dist_wf clock now token s r q :
  rt_wf (qs s) -> reserveDelivery clock now token (qs s) = Done (r, q) ->
  dist_wf (set_dist (match r with Some (l, d) => DSend l d | None => DTop end) (set_qs q s)).
Proof.
  intros Hwf Hrun.
  destruct (reserveDelivery_spec clock now token (qs s) Hwf)
    as (r' & s' & s1 & err & k & Hrun' & _ & _ & Hr).
  rewrite Hrun in Hrun'. injection Hrun' as <- <-. unfold dist_wf. simpl.
  destruct r as [[l d]|]; [|done]. destruct err; [by destruct Hr|]. destruct Hr as [(n & _ & Hr) _].
  destruct Hr as (id & cs & m & rest & q' & _ & _ & _ & _ & _ & _ & -> & ->).
  intros _. eexists. qsimpl. by rewrite lookup_insert_eq.
Qed.

End Redelivery.

Section Rounds.
Context {Q W : Type} `{!Queue Q} `{!QueueLaws Q} `{!WAL W} `{!WALLaws W}.
Abbreviation QS := (QState Q W).

(** An invariant every item of a redelivery round keeps is kept by the round. *)
Lemma process_loop_ind (P : QS -> Prop) (ok : Delivery -> Prop) cfg items (s s' : QS) :
  (forall d s1 s2, ok d -> rt_wf s1 -> config (rt s1) = cfg -> in_flight d s1 ->
     process_item (MaxRetries cfg) d s1 = Done s2 -> P s1 -> P s2) ->
  Forall ok items -> config (rt s) = cfg -> rt_wf s ->
  Forall (fun d => in_flight d s) items -> NoDup (d_AckToken <$> items) ->
  process_loop (MaxRetries cfg) items s = Done s' -> P s -> P s'.
Proof.
  intros Hitem. revert s. induction items as [|d items IH];
    intros s Hoks Hcfg Hwf Hall Hnd Hrun Hp; [by simplify_eq/=|].
  inversion Hall as [|? ? Hd Hrest]; inversion Hoks; subst. apply NoDup_cons in Hnd as [Hnin Hnd].
  destruct (process_item_sim (policy:=any_message) d s Hwf Hd) as (s1 & Hs1 & Hsim & Hdel).
  destruct (sim_id _ _ Hsim) as (_ & Hcfg1 & _).
  simpl in Hrun. rewrite Hs1 in Hrun. simpl in Hrun.
  apply (IH s1); try done; [apply Hsim|by eapply in_flight_rest|by eapply Hitem].
Qed.

Lemma process_ind (P : QS -> Prop) (ok : Delivery -> Prop) now items (s s' : QS) :
  (forall d s1 s2, ok d -> rt_wf s1 -> config (rt s1) = config (rt s) -> in_flight d s1 ->
     process_item (MaxRetries (config (rt s))) d s1 = Done s2 -> P s1 -> P s2) ->
  Forall ok items -> rt_wf s ->
  Expired now (AckTimeout (config (rt s))) (inFlightManager (rt s)) items ->
  processExpiredMessages items s = Done s' -> P s -> P s'.
Proof.
  intros Hitem Hoks Hwf He. unfold processExpiredMessages.
  destruct (closed (rt s)); [by intros [= <-]|].
  apply (process_loop_ind P ok); try done; [by eapply Expired_in_flight|by eapply Expired_tokens_NoDup].
Qed.

End Rounds.
