(* ===== verification/SystemInv.v ===== *)
(** Runs of a queue with its goroutines. The step lemma lifts the refinement of
    the single methods to every event of [System.v]; the theorems below follow
    by induction on runs: safety (no panic), refinement of the abstract queue,
    conservation of messages, durability of the log, bounded retries. *)

From S2P Require Import Prelude GoStrings Model RingBuffer Inflight Exchange Wal QueueRuntime.
From S2P Require Import System QueueSpec QueueInv RoundRobin QueueRefine QueueDeliver.
From S2P Require Import Redelivery.

Section Runs.
Context {Q W : Type} `{!Queue Q} `{!QueueLaws Q} `{!WAL W} `{!WALLaws W}.
Abbreviation SYS := (Sys Q W).

(** The message a publish event adds satisfies the policy. *)
Definition publishes_ok (policy : PubPolicy) (e : event) (s : SYS) : Prop :=
  match e with
  | EPublish now newID m ttl | EResume now newID m ttl =>
      policy (abs (qs s)) (stamp now newID m ttl)
  | _ => True
  end.

(** One step of a run in which the environment keeps its promises, cancelled
    reservations are quiet and every event satisfies a side condition. *)
Inductive gstep (side : event -> SYS -> Prop) (s s' : SYS) : Prop :=
| gstep_event e :
    env_ok e s -> quiet_cancel e s -> side e s ->
    sys_step e s = Some (Done s') -> gstep side s s'.

Abbreviation sstep policy := (gstep (publishes_ok policy)).
Abbreviation runs policy := (rtc (sstep policy)).

Lemma gstep_any side (s s' : SYS) : gstep side s s' -> sstep any_message s s'.
Proof. intros [e He Hq _ Hs]. apply gstep_event with e; try done. by destruct e. Qed.

(** ** One event *)

(** The events of calls and connections, and those of the distributor. *)
Definition is_call (e : event) : bool :=
  match e with
  | EPublish _ _ _ _ | EResume _ _ _ _ | EAck _ | ESubscribe _ _ | EUnsubscribe _ | EShutdown
  | ECloseIfEmpty | ECancelCtx | EReceive _ => true
  | _ => false
  end.

Definition is_dist (e : event) : bool :=
  match e with
  | DCheck | DNotified | DCtxDone | DReserve _ _ _ | DSent | DSawClosed | DDefault => true
  | _ => false
  end.

(** The result of a step: it returns, keeps the invariant and refines. *)
Definition step_ok {policy : PubPolicy} (s : SYS) (r : GoM SYS) : Prop :=
  exists s', r = Done s' /\ sim (qs s) (qs s') /\ dist_wf s'.

Lemma step_same {policy : PubPolicy} (s s' : SYS) :
  rt_wf (qs s) -> qs s' = qs s -> dist_wf s' -> step_ok s (Done s').
Proof. intros Hwf Hq Hd. exists s'. split; [done|]. rewrite Hq. split; [by apply sim_refl|done]. Qed.

Lemma receive_sim {policy : PubPolicy} l (s : QState Q W) :
  rt_wf s -> sim s (receive_delivery l s).
Proof.
  intros [H1 H2 H3 H4]. apply sim_silent; [|done|done]. split; try done. simpl.
  apply cons_wf_alter; [done| |done]. intros cs _ [? Hlen]. split; [done|]. simpl.
  destruct (Deliveries cs); simpl in *; lia.
Qed.

Lemma send_sim {policy : PubPolicy} l d (s : QState Q W) :
  rt_wf s -> session_has_room l s = true -> sim s (send_delivery l d s).
Proof.
  intros [H1 H2 H3 H4] Hr. apply sim_silent; [|done|done]. split; try done. simpl.
  apply cons_wf_alter; [done| |done]. intros cs Hcs [? Hlen]. split; [done|]. simpl.
  unfold session_has_room in Hr. rewrite Hcs in Hr. apply bool_decide_eq_true in Hr.
  rewrite length_app. simpl. lia.
Qed.

Lemma call_step_ok {policy : PubPolicy} e (s : SYS) r :
  is_call e = true -> sys_wf s -> env_ok e s -> publishes_ok policy e s ->
  sys_step e s = Some r -> step_ok s r.
Proof.
  intros He [Hwf Hd] Henv Hp Hstep. destruct e; try done; simpl in Henv, Hp, Hstep.
  - destruct (Publish_sim now newID m ttl (qs s) Hwf Hp) as (? & q & Hrun & Hs).
    refine (lift_qs_sim s q _ r _ Hs _ Hd Hstep); [by rewrite Hrun|].
    by rewrite (Publish_flight _ _ _ _ _ _ _ Hrun).
  - case_bool_decide; [done|].
    destruct (Publish_resume_sim now newID m ttl (qs s) Hwf Hp) as (? & q & Hrun & Hs).
    refine (lift_qs_sim s q _ r _ Hs _ Hd Hstep); [by rewrite Hrun|].
    by rewrite (Publish_flight _ _ _ _ _ _ _ Hrun).
  - by refine (lift_qs_sim s _ _ r eq_refl (Ack_sim _ _ Hwf) (Ack_flight _ _) Hd Hstep).
  - destruct Henv as [Hl Hlen].
    destruct (Subscribe_sim l id (qs s) Hwf Hl Hlen) as (? & q & Hrun & Hs).
    refine (lift_qs_sim s q _ r _ Hs _ Hd Hstep); [by rewrite Hrun|].
    by rewrite (Subscribe_flight _ _ _ _ Hrun).
  - destruct (Unsubscribe_sim id (qs s) Hwf) as (q & Hrun & Hs).
    refine (lift_qs_sim s q _ r Hrun Hs _ Hd Hstep). by rewrite (Unsubscribe_flight _ _ _ Hrun).
  - destruct (Shutdown_sim (qs s) Hwf) as (q & Hrun & Hs).
    refine (lift_qs_sim s q _ r Hrun Hs _ Hd Hstep). by rewrite (close_flight _ _ Hrun).
  - destruct (CloseIfEmpty_sim (qs s) Hwf) as (? & q & Hrun & Hs).
    refine (lift_qs_sim s q _ r _ Hs _ Hd Hstep); [by rewrite Hrun|].
    unfold CloseIfEmpty in Hrun. go_inv Hrun; [done|]. by erewrite close_flight.
  - simplify_eq. by apply step_same.
  - destruct (session_has_delivery l (qs s)); [|done].
    by refine (lift_qs_sim s _ _ r eq_refl (receive_sim l _ Hwf) _ Hd Hstep).
Qed.

Lemma cancel_step_ok {policy : PubPolicy} (s : SYS) d :
  rt_wf (qs s) -> in_flight d (qs s) -> Size (queue (rt (qs s))) < Capacity (queue (rt (qs s))) ->
  step_ok s (let! q := cancelReservation d (qs s) in Done (set_dist DLoop (set_qs q s))).
Proof.
  intros Hwf Hin Hsz. destruct (cancelReservation_sim d (qs s) Hwf Hin Hsz) as (q & -> & Hs).
  by eexists.
Qed.

Lemma dist_step_ok {policy : PubPolicy} e (s : SYS) r :
  is_dist e = true -> sys_wf s -> env_ok e s -> quiet_cancel e s ->
  sys_step e s = Some r -> step_ok s r.
Proof.
  intros He [Hwf Hd] Henv Hq Hstep. unfold dist_wf, quiet_cancel in *.
  destruct e; try done; simpl in Henv, Hstep;
    destruct (dist s) as [| | |l d|] eqn:Ed; simplify_eq.
  - apply step_same; [done|done|]. unfold dist_wf. simpl. by destruct (closed _).
  - destruct (notifyDistributor _); simplify_eq. eexists. split; [done|]. split; [by silent Hwf|done].
  - destruct (ctxDone s); simplify_eq. by apply step_same.
  - destruct (reserveDelivery_sim clock now token (qs s) Hwf (proj1 Henv)) as (r & q & Hrun & Hs).
    rewrite Hrun. eexists. split; [done|]. split; [done|]. by eapply reserve_dist_wf.
  - destruct (session_has_room l (qs s)) eqn:Er; simplify_eq.
    eexists. split; [done|]. split; [by apply send_sim|done].
  - destruct (session_closed l (qs s)); simplify_eq. destruct Hq as [Hin Hsz].
    apply cancel_step_ok; auto.
  - destruct (session_closed l (qs s) || _); simplify_eq. destruct Hq as [Hin Hsz].
    apply cancel_step_ok; auto.
Qed.

Lemma worker_step_ok {policy : PubPolicy} e (s : SYS) r :
  is_call e = false -> is_dist e = false -> sys_wf s -> env_ok e s ->
  sys_step e s = Some r -> step_ok s r.
Proof.
  intros Hc Hdi [Hwf Hd] Henv Hstep. destruct e; try done; simpl in Henv, Hstep.
  all: repeat match type of Hstep with
       | (match ?x with _ => _ end) = _ => destruct x; simplify_eq
       end; try by apply step_same.
  - destruct (processExpired_sim now items (qs s) Hwf Henv) as (q & -> & Hs & Hf).
    eexists. split; [done|]. split; [done|]. by apply (dist_wf_shrinks s q).
  - unfold checkExpiredMessages.
    destruct (deadLetterExpired_spec clock (qs s) Hwf) as (err & q & k & -> & Hs & Hsw).
    eexists. split; [done|]. split; [done|]. apply (dist_wf_shrinks s q); [done|].
    by rewrite (sweep_flight _ _ _ _ _ _ Hsw).
Qed.

Lemma sys_step_ok {policy : PubPolicy} e (s : SYS) r :
  sys_wf s -> env_ok e s -> quiet_cancel e s -> publishes_ok policy e s ->
  sys_step e s = Some r -> step_ok s r.
Proof.
  destruct (is_call e) eqn:Ec; [intros; by eapply call_step_ok|].
  destruct (is_dist e) eqn:Ed; [intros; by eapply dist_step_ok|].
  intros. by eapply worker_step_ok.
Qed.

(** ** Runs *)

Lemma sstep_sim {policy : PubPolicy} (s s' : SYS) :
  sys_wf s -> sstep policy s s' -> sys_wf s' /\ sim (qs s) (qs s').
Proof.
  intros Hwf [e He Hq Hp Hs].
  destruct (sys_step_ok e s _ Hwf He Hq Hp Hs) as (s1 & [= <-] & Hsim & Hd).
  split; [|done]. split; [apply Hsim|done].
Qed.

Lemma runs_sim {policy : PubPolicy} (s s' : SYS) :
  sys_wf s -> runs policy s s' -> sys_wf s' /\ sim (qs s) (qs s').
Proof.
  intros Hwf Hr. induction Hr as [s|s s1 s' Hs _ IH].
  - split; [done|]. apply sim_refl, Hwf.
  - destruct (sstep_sim s s1 Hwf Hs) as [Hwf1 Hsim]. destruct (IH Hwf1) as [Hwf' Hsim'].
    split; [done|]. by eapply sim_trans.
Qed.

(** A property of abstract states that every abstract step keeps. *)
Lemma steps_invariant {policy : PubPolicy} q mr (P : AQ -> Prop) a a' :
  (forall x y, astep q mr x y -> P x -> P y) -> rtc (astep q mr) a a' -> P a -> P a'.
Proof. intros Hp. induction 1; eauto. Qed.

(** ** A new runtime *)

Lemma push_all_spec msgs (r : QueueRuntime Q) :
  queue_ok (queue r) ->
  Z.of_nat (length (contents (queue r)) + length msgs) <= Capacity (queue r) ->
  exists q, queue_ok q /\ contents q = contents (queue r) ++ msgs /\
    Capacity q = Capacity (queue r) /\
    push_all msgs r =
      Done (set_producedCount (match msgs with [] => producedCount r
              | _ => wrap64 (producedCount r + Z.of_nat (length msgs)) end) (set_queue q r)).
Proof.
  revert r. induction msgs as [|m msgs IH]; intros r Hq Hcap; simpl.
  { exists (queue r). rewrite app_nil_r. by destruct r. }
  simpl in Hcap.
  destruct (push_spec m (queue r) Hq) as (q1 & Hp & Hq1 & Hc1 & Hcap1).
  { rewrite size_contents by done. lia. }
  rewrite Hp. simpl.
  destruct (IH (set_producedCount (producedCount r ⊕ 1) (set_queue q1 r))) as (q & Hq' & Hc & Hcq & ->);
    simpl; [done|rewrite Hc1, length_app; simpl; lia|].
  exists q. simpl in *. rewrite Hc, Hc1, <- app_assoc. split_and!; [done|done|congruence|].
  f_equal. unfold set_producedCount, set_queue. simpl. f_equal. unfold int_add.
  destruct msgs as [|m' msgs]; [done|]. rewrite wrap64_add_l. f_equal. lia.
Qed.

(** A runtime made for recovered messages holds exactly those, in order, with
    every other part empty. *)
Lemma NewQueueRuntime_spec nm cfg msgs q :
  queue_ok q -> contents q = [] -> Z.of_nat (length msgs) <= Capacity q ->
  exists q', queue_ok q' /\ contents q' = msgs /\ Capacity q' = Capacity q /\
    NewQueueRuntime nm cfg msgs q NewDLQ NewManager =
      Done (mkRuntime nm cfg false q' NewManager NewDLQ ∅ [] 0 true (mkCond 0 0) None 0
              (match msgs with [] => 0 | _ => wrap64 (Z.of_nat (length msgs)) end) 0 0).
Proof.
  intros Hq Hc Hcap. unfold NewQueueRuntime.
  destruct (push_all_spec msgs
    (mkRuntime nm cfg false q NewManager NewDLQ ∅ [] 0 false (mkCond 0 0) None 0 0 0 0))
    as (q' & Hq' & Hc' & Hcap' & ->); simpl; [done|rewrite Hc; simpl; lia|].
  exists q'. simpl in *. rewrite Hc in Hc'. done.
Qed.

Lemma new_cons_wf (heap : gmap nat ConsumerSession) :
  map_Forall (fun _ cs => session_ok cs) heap -> cons_wf ∅ [] 0 heap.
Proof.
  intros Hh. split; simpl; try done; try lia.
  - constructor.
  - intros id. rewrite lookup_empty. split; [by intros ?%elem_of_nil|by intros []].
Qed.

(** A queue just created or recovered with [msgs], as [newQueueRuntime] and
    [startQueue] leave it: the runtime owns no token yet and the sessions of the
    process are well formed. *)
Definition started (nm : string) (cfg : Config) (msgs : list Message) (s : SYS) : Prop :=
  exists q0 r self w,
    queue_ok q0 /\ contents q0 = [] /\ Z.of_nat (length msgs) <= Capacity q0 /\
    NewQueueRuntime nm cfg msgs q0 NewDLQ NewManager = Done r /\
    wal_ok (w_wal w) /\ map_Forall (fun _ cs => session_ok cs) (w_sessions w) /\
    map_Forall (fun _ owner => owner <> self) (w_tokenOwners w) /\
    s = sys_start (mkQState (SetTokenHooks self r) w).

Lemma started_spec nm cfg msgs (s : SYS) :
  started nm cfg msgs s ->
  sys_wf s /\ name (rt (qs s)) = nm /\ config (rt (qs s)) = cfg /\
  abs (qs s) = mkAQ msgs ∅ [] (wrap64 (Z.of_nat (length msgs))) 0 0 0 (wal_log (w_wal (wd (qs s)))) /\
  condProd (rt (qs s)) = mkCond 0 0 /\ notifyDistributor (rt (qs s)) = true /\
  deliveries (inFlightManager (rt (qs s))) = ∅ /\ consumerSessions (rt (qs s)) = ∅ /\
  closed (rt (qs s)) = false.
Proof.
  intros (q0 & r & self & w & Hq & Hc & Hcap & Hnew & Hw & Hs & Ht & ->).
  destruct (NewQueueRuntime_spec nm cfg msgs q0 Hq Hc Hcap) as (q' & Hq' & Hc' & _ & Hnew').
  rewrite Hnew in Hnew'. injection Hnew' as ->. simpl.
  split_and!; try done.
  - split; [|done]. split; simpl; try done; [by apply new_cons_wf|].
    intros ? [= <-] tok. rewrite lookup_empty. split; [|by intros []].
    intros Hl. by destruct (Ht tok self Hl).
  - unfold abs. simpl. rewrite Hc', fmap_empty. by destruct msgs.
Qed.

(** A property of states that every step under the side condition keeps holds
    along runs. *)
Lemma runs_invariant side (P : SYS -> Prop) (s s' : SYS) :
  (forall e x y, sys_wf x -> env_ok e x -> quiet_cancel e x -> side e x ->
     sys_step e x = Some (Done y) -> P x -> P y) ->
  sys_wf s -> rtc (gstep side) s s' -> P s -> P s'.
Proof.
  intros Hstep Hwf Hr. induction Hr as [|s s1 s' Hs _ IH]; [done|]. intros Hp.
  destruct (sstep_sim s s1 Hwf (gstep_any _ _ _ Hs)) as [Hwf1 _]. apply (IH Hwf1).
  destruct Hs as [e He Hq Hsd Hst]. by apply (Hstep e s).
Qed.

(** ** Scripts *)

(** Tests that imply the conditions on events, for concrete executions. *)
Definition env_okb (e : event) (s : SYS) : bool :=
  match e with
  | DReserve _ _ token =>
      bool_decide (deliveries (inFlightManager (rt (qs s))) !! token = None) &&
      bool_decide (w_tokenOwners (wd (qs s)) !! token = None)
  | ESubscribe l _ =>
      bool_decide (w_sessions (wd (qs s)) !! l = None) &&
      bool_decide (Z.of_nat (length (consumerOrder (rt (qs s)))) < max_int)
  | RProcess now items =>
      bool_decide (items = Expired_one now (AckTimeout (config (rt (qs s))))
                             (inFlightManager (rt (qs s))))
  | _ => true
  end.

Definition quiet_cancelb (e : event) (s : SYS) : bool :=
  match e, dist s with
  | (DSawClosed | DDefault), DSend _ d =>
      bool_decide (is_Some (deliveries (inFlightManager (rt (qs s))) !! d_AckToken d)) &&
      bool_decide (Size (queue (rt (qs s))) < Capacity (queue (rt (qs s))))
  | _, _ => true
  end.

Lemma env_okb_ok e s : env_okb e s = true -> env_ok e s.
Proof.
  destruct e; simpl; try done; rewrite ?andb_true_iff, ?bool_decide_eq_true; [done|done|].
  intros ->. apply Expired_one_ok.
Qed.

Lemma quiet_cancelb_ok e s : quiet_cancelb e s = true -> quiet_cancel e s.
Proof.
  unfold quiet_cancelb, quiet_cancel.
  destruct e; try done; destruct (dist s); try done; by rewrite andb_true_iff, !bool_decide_eq_true.
Qed.

(** The conditions on the events of a script along its execution. *)
Fixpoint script_ok (sideb : event -> SYS -> bool) (es : list event) (s : SYS) : bool :=
  match es with
  | [] => true
  | e :: rest =>
      env_okb e s && quiet_cancelb e s && sideb e s &&
      match sys_step e s with Some (Done s') => script_ok sideb rest s' | _ => false end
  end.

Lemma script_runs (side : event -> SYS -> Prop) sideb es (s s' : SYS) :
  (forall e x, sideb e x = true -> side e x) ->
  script_ok sideb es s = true -> sys_run es s = Some (Done s') -> rtc (gstep side) s s'.
Proof.
  intros Hb. revert s. induction es as [|e es IH]; intros s; simpl; [by intros _ [= <-]|].
  rewrite !andb_true_iff. intros [[[He Hq] Hp] Hok] Hrun.
  destruct (sys_step e s) as [[s1| |]|] eqn:E; try done.
  apply rtc_l with s1; [|by apply IH].
  apply gstep_event with e; auto using env_okb_ok, quiet_cancelb_ok.
Qed.

End Runs.

(** Runs in which every published message satisfies a policy. *)
Abbreviation runs policy := (rtc (gstep (publishes_ok policy))).
