(* ===== verification/QueueCases.v ===== *)
(** The methods of the runtime branch by branch: for each result, the exact
    state it is reached in and the exact state it leaves. *)

From S2P Require Import Prelude GoStrings Model RingBuffer Inflight Exchange Wal QueueRuntime.
From S2P Require Import System QueueInv.

Section Cases.
Context {Q W : Type} `{!Queue Q} `{!WAL W}.
Abbreviation QS := (QState Q W).

(** A successful publish. *)
Definition published (w : W) (q : Q) (s : QS) : QS :=
  notify (upd_rt (fun r => set_producedCount (producedCount r ⊕ 1) r)
            (upd_rt (set_queue q) (set_wal w s))).

(** A waiting publisher more. *)
Definition blocked (s : QS) : QS :=
  let c := condProd (rt s) in upd_rt (set_condProd (mkCond (S (waiting c)) (woken c))) s.

(** The in-flight entry [tok] of consumer [id] gone, its session credited. *)
Definition released (tok id : string) (f : QueueRuntime Q -> QueueRuntime Q) (s : QS) : QS :=
  dec_unacked id (upd_rt f (removeToken tok (remove_inflight tok s))).

Definition count_acked (q : QueueRuntime Q) := set_ackedCount (ackedCount q ⊕ 1) q.
Definition count_dead (q : QueueRuntime Q) := set_deadletteredCount (deadletteredCount q ⊕ 1) q.
Definition count_redelivered (q : QueueRuntime Q) :=
  set_redeliveredCount (redeliveredCount q ⊕ 1) q.

Lemma wal_append_eq r (s : QS) err s' :
  wal_append r s = (err, s') ->
  exists w, Append r (w_wal (wd s)) = (err, w) /\ s' = set_wal w s.
Proof. unfold wal_append. destruct (Append _ _) as [e w]. intros [= <- <-]. eauto. Qed.

Lemma push_queue_eq m (s s' : QS) :
  push_queue m s = Done s' ->
  exists q, Push m (queue (rt s)) = Done q /\ s' = upd_rt (set_queue q) s.
Proof. unfold push_queue. intros H. go_inv H. eauto. Qed.

(** [Publish] blocks exactly on a full open queue, refuses on a closed one,
    reports a failed append without touching the queue, and otherwise stamps,
    logs and pushes the message and wakes the distributor. *)
Inductive publish_case (now : Z) (id : string) (m : Message) (ttl : Z) (s : QS)
    : publish_result -> QS -> Prop :=
| pc_blocked :
    closed (rt s) = false -> Size (queue (rt s)) = Capacity (queue (rt s)) ->
    publish_case now id m ttl s PubBlocked (blocked s)
| pc_closed :
    closed (rt s) = true ->
    publish_case now id m ttl s (PubReturned (Some ErrBrokerClosed)) s
| pc_failed e w :
    closed (rt s) = false -> Size (queue (rt s)) <> Capacity (queue (rt s)) ->
    Append (rec_message Published (name (rt s)) (stamp now id m ttl) (ID (stamp now id m ttl)))
      (w_wal (wd s)) = (Some e, w) ->
    publish_case now id m ttl s (PubReturned (Some e)) (set_wal w s)
| pc_done w q :
    closed (rt s) = false -> Size (queue (rt s)) <> Capacity (queue (rt s)) ->
    Append (rec_message Published (name (rt s)) (stamp now id m ttl) (ID (stamp now id m ttl)))
      (w_wal (wd s)) = (None, w) ->
    Push (stamp now id m ttl) (queue (rt s)) = Done q ->
    publish_case now id m ttl s (PubReturned None) (published w q s).

Lemma Publish_cases now id m ttl (s : QS) r s' :
  Publish now id m ttl s = Done (r, s') -> publish_case now id m ttl s r s'.
Proof.
  unfold Publish. destruct (closed (rt s)) eqn:Ec; simpl.
  { intros [= <- <-]. by constructor. }
  case_bool_decide as Hfull; [intros [= <- <-]; by constructor|].
  destruct (wal_append _ s) as [err s1] eqn:Ea.
  destruct (wal_append_eq _ _ _ _ Ea) as (w & Hw & ->). destruct err as [e|].
  - intros [= <- <-]. by constructor.
  - unfold push_queue. simpl. destruct (Push _ _) as [q| |] eqn:Hp; simpl; try done.
    intros [= <- <-]. by apply pc_done.
Qed.

Inductive ack_case (tok : string) (s : QS) : option Err -> QS -> Prop :=
| ak_unknown :
    deliveries (inFlightManager (rt s)) !! tok = None ->
    ack_case tok s (Some ErrInvalidAckToken) s
| ak_failed im e w :
    deliveries (inFlightManager (rt s)) !! tok = Some im ->
    Append (rec_message Acknowledged (name (rt s)) (if_Message im) (ID (if_Message im)))
      (w_wal (wd s)) = (Some e, w) ->
    ack_case tok s (Some e) (set_wal w s)
| ak_done im w :
    deliveries (inFlightManager (rt s)) !! tok = Some im ->
    Append (rec_message Acknowledged (name (rt s)) (if_Message im) (ID (if_Message im)))
      (w_wal (wd s)) = (None, w) ->
    ack_case tok s None (notify (released tok (if_ConsumerID im) count_acked (set_wal w s))).

Lemma Ack_cases tok (s : QS) err s' : Ack tok s = (err, s') -> ack_case tok s err s'.
Proof.
  unfold Ack, Get.
  destruct (deliveries _ !! tok) as [im|] eqn:Hd; [|intros [= <- <-]; by constructor].
  destruct (wal_append _ s) as [err0 s1] eqn:Ea.
  destruct (wal_append_eq _ _ _ _ Ea) as (w & Hw & ->).
  destruct err0 as [e|]; intros [= <- <-]; [by eapply ak_failed|by apply ak_done].
Qed.

(** [cancelReservation] puts the message back whatever the size. *)
Lemma cancel_cases d (s s' : QS) :
  cancelReservation d s = Done s' ->
  exists q, Push (d_Message d) (queue (rt s)) = Done q /\
  s' = notify (signal (upd_rt (set_queue q)
         (match deliveries (inFlightManager (rt s)) !! d_AckToken d with
          | Some _ => removeToken (d_AckToken d)
                        (dec_unacked (d_ConsumerID d) (remove_inflight (d_AckToken d) s))
          | None => removeToken (d_AckToken d) s
          end))).
Proof.
  unfold cancelReservation, remove_inflight, upd_rt, Remove.
  destruct (deliveries _ !! d_AckToken d) as [im|] eqn:Hd; intros H; go_inv H;
    destruct (push_queue_eq _ _ _ E) as (q & Hq & ->); exists q.
  - split; [revert Hq; by qsimpl|done].
  - split; [revert Hq; by qsimpl|]. by destruct s as [[] []].
Qed.

(** One timed-out delivery: skipped while the queue is full, left alone when
    the log fails, dead lettered or put back with one retry more. *)
Inductive item_case (mr : Z) (d : Delivery) (s : QS) : QS -> Prop :=
| ic_full : Size (queue (rt s)) = Capacity (queue (rt s)) -> item_case mr d s s
| ic_failed w : Size (queue (rt s)) <> Capacity (queue (rt s)) -> item_case mr d s (set_wal w s)
| ic_dead w :
    Size (queue (rt s)) <> Capacity (queue (rt s)) -> mr <= Retry (d_Message d) ->
    item_case mr d s
      (released (d_AckToken d) (d_ConsumerID d) count_dead (push_dlq (d_Message d) (set_wal w s)))
| ic_requeue w q :
    Size (queue (rt s)) <> Capacity (queue (rt s)) -> Retry (d_Message d) < mr ->
    Push (mkMessage (ID (d_Message d)) (Payload (d_Message d)) (Timestamp (d_Message d))
            (Retry (d_Message d) ⊕ 1) (ExpiryAt (d_Message d))) (queue (rt s)) = Done q ->
    item_case mr d s
      (notify (released (d_AckToken d) (d_ConsumerID d) count_redelivered
                 (upd_rt (set_queue q) (set_wal w s)))).

Lemma process_item_cases mr d (s s' : QS) :
  process_item mr d s = Done s' -> item_case mr d s s'.
Proof.
  unfold process_item. case_bool_decide as Hfull; [intros [= <-]; by constructor|].
  case_bool_decide as Hr; destruct (wal_append _ s) as [err s1] eqn:Ea;
    destruct (wal_append_eq _ _ _ _ Ea) as (w & Hw & ->); destruct err as [e|].
  - intros [= <-]. by constructor.
  - intros [= <-]. apply ic_dead; [done|lia].
  - intros [= <-]. by constructor.
  - unfold push_queue. simpl. destruct (Push _ _) as [q| |] eqn:Hp; simpl; try done.
    intros [= <-]. apply ic_requeue; [done|lia|done].
Qed.

End Cases.
