(* ===== verification/Prefetch.v ===== *)
(** Consumer backpressure: for every registered session [UnackedCount] is the
    number of its in-flight deliveries, and it never exceeds the prefetch
    limit, as long as an identifier is subscribed only while no delivery to an
    earlier session of that identifier is in flight. *)

From S2P Require Import Prelude GoStrings Model RingBuffer Inflight Exchange Wal QueueRuntime.
From S2P Require Import System QueueSpec QueueInv RoundRobin QueueRefine QueueDeliver.
From S2P Require Import Redelivery SystemInv QueueCases.

(** The deliveries in flight to consumer [id]. *)
Definition flight_count (id : string) (del : gmap string InFlightMessage) : Z :=
  Z.of_nat (size (filter (fun p => if_ConsumerID p.2 = id) del)).

Definition unacked_wf (prefetch : Z) (registry : gmap string nat)
    (heap : gmap nat ConsumerSession) (del : gmap string InFlightMessage) : Prop :=
  forall id l cs, registry !! id = Some l -> heap !! l = Some cs ->
    UnackedCount cs = flight_count id del /\ flight_count id del <= Z.max 0 prefetch.

Lemma flight_count_delete id tok im del :
  del !! tok = Some im ->
  flight_count id del =
  flight_count id (delete tok del) + (if decide (if_ConsumerID im = id) then 1 else 0).
Proof.
  intros Hd. unfold flight_count. rewrite map_filter_delete. case_decide as Hid.
  - apply (size_delete_flight _ tok im). by apply map_lookup_filter_Some.
  - rewrite delete_id; [lia|]. apply map_lookup_filter_None. right.
    intros x Hx. simpl. congruence.
Qed.

Lemma flight_count_insert id tok im del :
  del !! tok = None ->
  flight_count id (<[tok := im]> del) =
  flight_count id del + (if decide (if_ConsumerID im = id) then 1 else 0).
Proof.
  intros Hd. rewrite (flight_count_delete id tok im (<[tok := im]> del)) by apply lookup_insert_eq.
  by rewrite delete_insert_id.
Qed.

Lemma flight_count_nonneg id del : 0 <= flight_count id del.
Proof. unfold flight_count. lia. Qed.

Lemma unacked_wf_heap prefetch registry heap heap' del :
  (forall id l cs, registry !! id = Some l -> heap' !! l = Some cs ->
     exists cs0, heap !! l = Some cs0 /\ UnackedCount cs0 = UnackedCount cs) ->
  unacked_wf prefetch registry heap del -> unacked_wf prefetch registry heap' del.
Proof.
  intros Hh Hu id l cs Hr Hl. destruct (Hh id l cs Hr Hl) as (cs0 & H0 & <-). by apply (Hu id l).
Qed.

Lemma unacked_wf_alter prefetch registry heap del f l :
  (forall cs, UnackedCount (f cs) = UnackedCount cs) ->
  unacked_wf prefetch registry heap del -> unacked_wf prefetch registry (alter f l heap) del.
Proof.
  intros Hf. apply unacked_wf_heap. intros id l' cs _ Hl.
  apply lookup_alter_Some in Hl as [(<- & cs0 & Hl & ->)|[_ Hl]]; eauto.
Qed.

(** Releasing an in-flight entry lowers the count and the session together. *)
Lemma unacked_wf_release prefetch registry order next heap del tok im :
  prefetch <= max_int -> cons_wf registry order next heap -> del !! tok = Some im ->
  unacked_wf prefetch registry heap del ->
  unacked_wf prefetch registry (heap_dec registry (if_ConsumerID im) heap) (delete tok del).
Proof.
  intros Hp Hc Hd Hu id l cs Hr Hl. pose proof (flight_count_delete id tok im del Hd) as Hcount.
  pose proof (flight_count_nonneg id (delete tok del)) as Hpos.
  unfold heap_dec in Hl. destruct (registry !! if_ConsumerID im) as [l0|] eqn:Hr0.
  - apply lookup_alter_Some in Hl as [(<- & cs0 & Hl & ->)|[Hne Hl]].
    + assert (id = if_ConsumerID im) as ->.
      { destruct (cw_ptr _ _ _ _ Hc _ _ Hr) as (c1 & ? & <-).
        destruct (cw_ptr _ _ _ _ Hc _ _ Hr0) as (c2 & ? & <-). congruence. }
      rewrite decide_True in Hcount by done. destruct (Hu _ _ _ Hr Hl) as [Hun Hle]. simpl.
      rewrite int_add_id by (unfold min_int, max_int in *; lia). lia.
    + rewrite decide_False in Hcount by congruence. destruct (Hu _ _ _ Hr Hl). lia.
  - rewrite decide_False in Hcount by congruence. destruct (Hu _ _ _ Hr Hl). lia.
Qed.

(** A reservation raises both together, below the limit. *)
Lemma unacked_wf_reserve prefetch registry order next heap del tok m now l cs :
  prefetch <= max_int -> cons_wf registry order next heap ->
  registry !! sess_ID cs = Some l -> heap !! l = Some cs -> UnackedCount cs < prefetch ->
  del !! tok = None -> unacked_wf prefetch registry heap del ->
  unacked_wf prefetch registry
    (alter (fun cs => set_UnackedCount (UnackedCount cs ⊕ 1) cs) l heap)
    (<[tok := mkInFlightMessage m (sess_ID cs) now]> del).
Proof.
  intros Hp Hc Hr0 Hl0 Hlt Hd Hu id l' cs' Hr Hl.
  pose proof (flight_count_insert id tok (mkInFlightMessage m (sess_ID cs) now) del Hd) as Hcount.
  pose proof (flight_count_nonneg id del) as Hpos. simpl in Hcount.
  apply lookup_alter_Some in Hl as [(<- & cs0 & Hl & ->)|[Hne Hl]].
  - rewrite Hl0 in Hl. injection Hl as <-. assert (id = sess_ID cs) as ->.
    { destruct (cw_ptr _ _ _ _ Hc _ _ Hr) as (c1 & ? & <-). congruence. }
    rewrite decide_True in Hcount by done. destruct (Hu _ _ _ Hr Hl0) as [Hun Hle]. simpl.
    rewrite int_add_id by (unfold min_int, max_int in *; lia). lia.
  - rewrite decide_False in Hcount by congruence. destruct (Hu _ _ _ Hr Hl). lia.
Qed.

Section Prefetch.
Context {Q W : Type} `{!Queue Q} `{!QueueLaws Q} `{!WAL W} `{!WALLaws W}.
Abbreviation QS := (QState Q W).
Abbreviation SYS := (Sys Q W).

Definition unacked_ok (s : QS) : Prop :=
  unacked_wf (ConsumerPrefetch (config (rt s))) (consumerSessions (rt s)) (w_sessions (wd s))
    (deliveries (inFlightManager (rt s))).

(** An identifier is subscribed only while nothing is in flight to it. *)
Definition fresh_consumer (e : event) (s : SYS) : Prop :=
  match e with
  | ESubscribe _ id => flight_count id (deliveries (inFlightManager (rt (qs s)))) = 0
  | _ => True
  end.

Abbreviation small s := (ConsumerPrefetch (config (rt s)) <= max_int).

Abbreviation cons_ok s :=
  (cons_wf (consumerSessions (rt s)) (consumerOrder (rt s)) (nextConsumer (rt s))
     (w_sessions (wd s))).

Lemma Publish_unacked now id m ttl (s : QS) r s' :
  Publish now id m ttl s = Done (r, s') -> unacked_ok s -> unacked_ok s'.
Proof. intros H. by destruct (Publish_cases _ _ _ _ _ _ _ H). Qed.

Lemma released_unacked tok id f (s : QS) im :
  (forall q, config (f q) = config q /\ consumerSessions (f q) = consumerSessions q /\
     inFlightManager (f q) = inFlightManager q) ->
  cons_ok s -> small s -> deliveries (inFlightManager (rt s)) !! tok = Some im ->
  if_ConsumerID im = id -> unacked_ok s -> unacked_ok (released tok id f s).
Proof.
  intros Hf Hwf Hs Hd <- Hu. unfold unacked_ok, released. qsimpl.
  destruct (Hf (set_inFlightManager (Remove tok (inFlightManager (rt s))).2 (rt s))) as (-> & -> & ->).
  simpl. rewrite Remove_snd. eapply unacked_wf_release; [done|exact Hwf|done|done].
Qed.

Lemma Ack_unacked tok (s : QS) :
  cons_ok s -> small s -> unacked_ok s -> unacked_ok (Ack tok s).2.
Proof.
  intros Hwf Hs Hu. destruct (Ack tok s) as [err s'] eqn:E.
  destruct (Ack_cases tok s err s' E) as [| |im w Hd Ha]; try done.
  by refine (released_unacked tok _ _ (set_wal w s) im _ Hwf Hs Hd eq_refl Hu).
Qed.

Lemma cancel_unacked d (s s' : QS) :
  cons_ok s -> small s -> in_flight d s -> cancelReservation d s = Done s' ->
  unacked_ok s -> unacked_ok s'.
Proof.
  intros Hwf Hs (im & Hd & _ & Hid) Hrun Hu. destruct (cancel_cases d s s' Hrun) as (q & _ & ->).
  rewrite Hd. unfold unacked_ok. qsimpl. rewrite <- Hid.
  eapply unacked_wf_release; [done|exact Hwf|done|done].
Qed.

Lemma process_item_unacked mr d (s s' : QS) :
  cons_ok s -> small s -> in_flight d s -> process_item mr d s = Done s' ->
  unacked_ok s -> unacked_ok s'.
Proof.
  intros Hwf Hs (im & Hd & _ & Hid) Hrun Hu.
  destruct (process_item_cases mr d s s' Hrun) as [|w|w _ _|w q _ _ _]; try done.
  - by refine (released_unacked _ _ _ (push_dlq _ (set_wal w s)) im _ Hwf Hs Hd Hid Hu).
  - by refine (released_unacked _ _ _ (upd_rt (set_queue q) (set_wal w s)) im _ Hwf Hs Hd Hid Hu).
Qed.

Lemma process_unacked now items (s s' : QS) :
  rt_wf s -> small s ->
  Expired now (AckTimeout (config (rt s))) (inFlightManager (rt s)) items ->
  processExpiredMessages items s = Done s' -> unacked_ok s -> unacked_ok s'.
Proof.
  intros Hwf Hs He. apply (process_ind unacked_ok (fun _ => True) now); [|by apply Forall_true|done..].
  intros d s1 s2 _ Hwf1 Hcfg Hd. apply process_item_unacked; [apply Hwf1|by rewrite Hcfg|done].
Qed.

Lemma close_unacked (s s' : QS) : close_runtime s = Done s' -> unacked_ok s'.
Proof. unfold close_runtime. intros H. go_inv H. intros id l cs. simpl. by rewrite lookup_empty. Qed.

Lemma Subscribe_unacked l id (s s' : QS) err :
  cons_ok s -> w_sessions (wd s) !! l = None ->
  flight_count id (deliveries (inFlightManager (rt s))) = 0 ->
  Subscribe l (alloc_session l id s) = Done (err, s') -> unacked_ok s -> unacked_ok s'.
Proof.
  intros Hc Hl Hz Hrun Hu.
  assert (unacked_ok (alloc_session l id s)) as Ha.
  { revert Hu. apply unacked_wf_heap. simpl. intros i l' cs Hr Hl'.
    destruct (cw_ptr _ _ _ _ Hc _ _ Hr) as (c & Hcs & _).
    rewrite lookup_insert_ne in Hl' by congruence. eauto. }
  unfold Subscribe in Hrun. simpl in Hrun. rewrite lookup_insert_eq in Hrun. simpl in Hrun.
  go_inv Hrun; try done. intros i l' cs. simpl. rewrite lookup_insert. case_decide; [|apply Ha].
  intros [= <-]. subst. rewrite lookup_insert_eq. intros [= <-]. simpl. lia.
Qed.

Lemma Unsubscribe_unacked id (s s' : QS) :
  cons_ok s -> Unsubscribe id s = Done s' -> unacked_ok s -> unacked_ok s'.
Proof.
  unfold Unsubscribe. intros Hc Hrun Hu. go_inv Hrun; [|done].
  assert (session_ok c) as Hok by by eapply (cw_ok _ _ _ _ Hc).
  destruct (Close_ok c Hok) as (c' & Hcl & _ & _ & _ & _ & Hun).
  intros i l cs. simpl. rewrite lookup_delete. case_decide; [done|]. intros Hr.
  rewrite lookup_insert. case_decide; [|by apply Hu]. intros [= <-]. subst.
  assert (UnackedCount a0 = UnackedCount c) as -> by congruence. by apply (Hu i l).
Qed.

Lemma reserved_unacked now token r (s s' : QS) :
  rt_wf s -> small s -> deliveries (inFlightManager (rt s)) !! token = None ->
  reserved now token r s s' -> unacked_ok s -> unacked_ok s'.
Proof.
  intros Hwf Hs Ht (n & _ & Hr) Hu. destruct r as [[l d]|]; [|by subst].
  destruct Hr as (id & cs & m & rest & q & Hid & Hcs & <- & Hel & _ & _ & _ & ->).
  unfold unacked_ok. qsimpl. eapply unacked_wf_reserve; [done|apply Hwf|done..].
Qed.

Lemma sweep_unacked clock i k err (s s' : QS) :
  sweep clock i k err s s' -> unacked_ok s -> unacked_ok s'.
Proof. by intros [_ _ _ _ _ _ (q & d & n & c & w & ->)]. Qed.

Lemma reserve_unacked clock now token r (s s' : QS) :
  rt_wf s -> small s -> deliveries (inFlightManager (rt s)) !! token = None ->
  reserveDelivery clock now token s = Done (r, s') -> unacked_ok s -> unacked_ok s'.
Proof.
  intros Hwf Hs Ht Hrun Hu.
  destruct (reserveDelivery_spec (policy:=any_message) clock now token s Hwf)
    as (r' & s2 & s1 & err & k & Hrun' & Hsim & Hsw & Hr).
  rewrite Hrun in Hrun'. injection Hrun' as <- <-.
  pose proof (sweep_unacked _ _ _ _ _ _ Hsw Hu) as Hu1.
  destruct err; [by destruct Hr as [_ ->]|]. destruct Hr as [Hr _].
  destruct (sim_id _ _ Hsim) as (_ & Hcfg & _).
  eapply reserved_unacked; [apply Hsim|by rewrite Hcfg| |done|done].
  by rewrite (sweep_flight _ _ _ _ _ _ Hsw).
Qed.

(** ** Every event *)

Lemma call_unacked e (s s' : SYS) :
  is_call e = true -> sys_wf s -> env_ok e s -> fresh_consumer e s -> small (qs s) ->
  sys_step e s = Some (Done s') -> unacked_ok (qs s) -> unacked_ok (qs s').
Proof.
  intros He [Hwf _] Henv Hf Hs Hstep Hu. pose proof (wf_cons _ Hwf) as Hc.
  destruct e; try done; simpl in Henv, Hf, Hstep; unfold lift_qs in Hstep.
  - apply (inj Some) in Hstep. go_inv Hstep. go_inv E. by eapply Publish_unacked.
  - case_bool_decide; [done|]. apply (inj Some) in Hstep. go_inv Hstep. go_inv E.
    by eapply Publish_unacked.
  - apply (inj Some) in Hstep. go_inv Hstep. by apply Ack_unacked.
  - apply (inj Some) in Hstep. go_inv Hstep. go_inv E. destruct Henv. by eapply Subscribe_unacked.
  - apply (inj Some) in Hstep. go_inv Hstep. by eapply Unsubscribe_unacked.
  - apply (inj Some) in Hstep. go_inv Hstep. by eapply close_unacked.
  - apply (inj Some) in Hstep. go_inv Hstep. go_inv E. unfold CloseIfEmpty in E0.
    go_inv E0; [done|]. by eapply close_unacked.
  - by simplify_eq.
  - destruct (session_has_delivery l (qs s)); [|done]. apply (inj Some) in Hstep. go_inv Hstep.
    by apply unacked_wf_alter.
Qed.

Lemma other_unacked e (s s' : SYS) :
  is_call e = false -> sys_wf s -> env_ok e s -> quiet_cancel e s -> small (qs s) ->
  sys_step e s = Some (Done s') -> unacked_ok (qs s) -> unacked_ok (qs s').
Proof.
  intros He [Hwf Hd] Henv Hq Hs Hstep Hu. pose proof (wf_cons _ Hwf) as Hc.
  unfold dist_wf, quiet_cancel in *.
  destruct e; try done; simpl in Henv, Hstep;
    repeat match type of Hstep with
    | (match ?x with _ => _ end) = _ => destruct x eqn:?; simplify_eq/=
    end; try done; try (go_inv Hstep).
  - eapply reserve_unacked; [done|done|apply Henv|done|done].
  - by apply unacked_wf_alter.
  - destruct Hq. eapply cancel_unacked; [done|done|by apply Hd|done|done].
  - destruct Hq. eapply cancel_unacked; [done|done|by apply Hd|done|done].
  - by eapply process_unacked.
  - unfold checkExpiredMessages in E.
    destruct (deadLetterExpired_spec (policy:=any_message) clock (qs s) Hwf)
      as (err & q1 & k & Hrun & _ & Hsw). rewrite Hrun in E. simplify_eq. by eapply sweep_unacked.
Qed.

(** Runs in which identifiers are subscribed afresh. *)
Lemma runs_unacked (s s' : SYS) :
  rtc (gstep fresh_consumer) s s' -> sys_wf s -> small (qs s) -> unacked_ok (qs s) ->
  unacked_ok (qs s').
Proof.
  intros Hr Hwf Hsm Hu.
  apply (runs_invariant fresh_consumer (fun x => small (qs x) /\ unacked_ok (qs x)) s s'); try done.
  intros e x y Hx He Hq Hf Hst [Hs Hxu].
  destruct (sstep_sim (policy:=any_message) x y Hx) as [_ Hsim]; [by eapply gstep_any, gstep_event|].
  destruct (sim_id _ _ Hsim) as (_ & -> & _). split; [done|].
  destruct (is_call e) eqn:Ec; [by apply (call_unacked e x)|by apply (other_unacked e x)].
Qed.

End Prefetch.
