(* ===== verification/Flow.v ===== *)
(** Progress of the two kinds of goroutines that wait on each other through a
    queue, as invariants of its runs. A publisher blocked on a full queue is
    owed a wakeup for every free slot; a distributor that went to sleep without
    a pending notification has nothing it could deliver. The side conditions on
    events name the code paths that do not keep them. *)

From S2P Require Import Prelude GoStrings Model RingBuffer Inflight Exchange Wal QueueRuntime.
From S2P Require Import System QueueSpec QueueInv RoundRobin QueueRefine QueueDeliver.
From S2P Require Import Redelivery SystemInv QueueCases.

(** ** Wakeups of blocked publishers *)

(** While publishers wait the queue is open, and the free slots do not exceed
    the publishers released but not yet run. *)
Definition room_ok (is_closed : bool) (room : Z) (c : Cond) : Prop :=
  (0 < waiting c)%nat -> is_closed = false /\ room <= Z.of_nat (woken c).

Lemma room_ok_mono b r r' c : r' <= r -> room_ok b r c -> room_ok b r' c.
Proof. intros Hr H Hw. destruct (H Hw). split; [done|lia]. Qed.

Lemma room_ok_signal b r c : room_ok b r c -> room_ok b (r + 1) (Signal c).
Proof.
  unfold room_ok, Signal. intros H. destruct (waiting c) as [|n] eqn:E; simpl; [lia|].
  destruct H; [lia|]. intros _. split; [done|lia].
Qed.

Lemma room_ok_signals b r c k : room_ok b r c -> room_ok b (r + Z.of_nat k) (Nat.iter k Signal c).
Proof.
  intros H. induction k as [|k IH]; [by rewrite Z.add_0_r|].
  rewrite Nat2Z.inj_succ, <- Z.add_1_r, Z.add_assoc. by apply (room_ok_signal b _ (Nat.iter k Signal c)).
Qed.

Section Wakeups.
Context {Q W : Type} `{!Queue Q} `{!QueueLaws Q} `{!WAL W} `{!WALLaws W}.
Abbreviation QS := (QState Q W).
Abbreviation SYS := (Sys Q W).

Definition room (s : QS) : Z := Capacity (queue (rt s)) - Size (queue (rt s)).

Definition wakeups_ok (s : QS) : Prop := room_ok (closed (rt s)) (room s) (condProd (rt s)).

(** A released publisher that gets to its append does not fail there: [Publish]
    returns the error without passing its wakeup on. *)
Definition resume_logged (e : event) (s : SYS) : Prop :=
  match e with
  | EResume now newID m ttl =>
      let m' := stamp now newID m ttl in
      (Append (rec_message Published (name (rt (qs s))) m' (ID m')) (w_wal (wd (qs s)))).1 = None
  | _ => True
  end.

Lemma push_room m q q' :
  queue_ok q -> Size q < Capacity q -> Push m q = Done q' ->
  Capacity q' - Size q' = Capacity q - Size q - 1.
Proof.
  intros Hq Hs Hp. destruct (push_spec m q Hq Hs) as (q1 & Hp' & Hq1 & Hc & Hcap).
  rewrite Hp in Hp'. injection Hp' as <-.
  rewrite !size_contents, Hc, length_app, Hcap by done. simpl. lia.
Qed.

Lemma Publish_wakeups now id m ttl (s : QS) r s' :
  rt_wf s -> Publish now id m ttl s = Done (r, s') ->
  wakeups_ok s -> wakeups_ok s'.
Proof.
  intros Hwf H Hok.
  destruct (Publish_cases _ _ _ _ _ _ _ H) as [Hc Hf|Hc|e w Hc Hf Ha|w q Hc Hf Ha Hp]; try done.
  - intros _. unfold room. simpl. split; [done|lia].
  - revert Hok. apply room_ok_mono. unfold room. simpl.
    rewrite (push_room _ _ _ (wf_queue _ Hwf) (size_full s Hwf Hf) Hp). lia.
Qed.

Lemma Publish_resume_wakeups now id m ttl (s : SYS) r s' :
  rt_wf (qs s) -> resume_logged (EResume now id m ttl) s ->
  Publish_resume now id m ttl (qs s) = Done (r, s') -> wakeups_ok (qs s) -> wakeups_ok s'.
Proof.
  unfold Publish_resume. simpl. intros Hwf Hlog H Hok.
  destruct (Publish_cases _ _ _ _ _ _ _ H) as [Hc Hf|Hc|e w Hc Hf Ha|w q Hc Hf Ha Hp];
    simpl in *.
  - intros _. unfold room. simpl. split; [done|lia].
  - intros Hw. simpl in *. destruct (Hok Hw). congruence.
  - by rewrite Ha in Hlog.
  - intros Hw. simpl in *. destruct (Hok Hw) as [Ho Hr]. split; [done|]. unfold room in *. simpl.
    rewrite (push_room _ _ _ (wf_queue _ Hwf) (size_full (qs s) Hwf Hf) Hp). lia.
Qed.

Lemma Ack_wakeups tok (s : QS) : wakeups_ok s -> wakeups_ok (Ack tok s).2.
Proof.
  intros Hok. destruct (Ack tok s) as [err s'] eqn:E. unfold wakeups_ok, room in *.
  by destruct (Ack_cases tok s err s' E); unfold released; qsimpl.
Qed.

Lemma close_wakeups (s s' : QS) : close_runtime s = Done s' -> wakeups_ok s'.
Proof. unfold close_runtime. intros H. go_inv H. intros Hw. simpl in Hw. lia. Qed.

Lemma Subscribe_wakeups l id (s s' : QS) err :
  Subscribe l (alloc_session l id s) = Done (err, s') -> wakeups_ok s -> wakeups_ok s'.
Proof. unfold Subscribe. intros H. by go_inv H. Qed.

Lemma Unsubscribe_wakeups id (s s' : QS) :
  Unsubscribe id s = Done s' -> wakeups_ok s -> wakeups_ok s'.
Proof. unfold Unsubscribe. intros H. by go_inv H. Qed.

Lemma cancel_wakeups d (s s' : QS) :
  rt_wf s -> Size (queue (rt s)) < Capacity (queue (rt s)) ->
  cancelReservation d s = Done s' -> wakeups_ok s -> wakeups_ok s'.
Proof.
  intros Hwf Hsz Hrun Hok. destruct (cancel_cases d s s' Hrun) as (q & Hp & ->).
  pose proof (push_room _ _ _ (wf_queue _ Hwf) Hsz Hp) as Hroom.
  apply room_ok_mono with (room s + 1); [unfold room; destruct (deliveries _ !! _); qsimpl; lia|].
  apply room_ok_signal in Hok. destruct (deliveries _ !! _); qsimpl; exact Hok.
Qed.

Lemma process_item_wakeups mr d (s s' : QS) :
  rt_wf s -> process_item mr d s = Done s' -> wakeups_ok s -> wakeups_ok s'.
Proof.
  intros Hwf Hrun Hok. unfold wakeups_ok, room in *.
  destruct (process_item_cases mr d s s' Hrun) as [|w|w Hf|w q Hf _ Hp];
    unfold released; qsimpl; try done.
  revert Hok. apply room_ok_mono.
  rewrite (push_room _ _ _ (wf_queue _ Hwf) (size_full s Hwf Hf) Hp). lia.
Qed.

Lemma sweep_wakeups clock i k err (s s' : QS) :
  rt_wf s -> rt_wf s' -> Capacity (queue (rt s')) = Capacity (queue (rt s)) ->
  sweep clock i k err s s' -> wakeups_ok s -> wakeups_ok s'.
Proof.
  intros Hwf Hwf' Hcap Hsw Hok. pose proof (sweep_inflight _ _ _ _ _ _ Hsw) as (_ & _ & Hcl & _).
  unfold wakeups_ok. rewrite Hcl, (sw_cond _ _ _ _ _ _ Hsw).
  apply room_ok_mono with (room s + Z.of_nat k); [|by apply room_ok_signals].
  unfold room. rewrite !ready_size, Hcap, (sw_ready _ _ _ _ _ _ Hsw), length_drop by done. lia.
Qed.

Lemma reserved_wakeups now token r (s s' : QS) :
  rt_wf s -> reserved now token r s s' -> wakeups_ok s -> wakeups_ok s'.
Proof.
  intros Hwf (n & _ & Hr) Hok. destruct r as [[l d]|]; [|by subst].
  destruct Hr as (id & cs & m & rest & q & _ & _ & _ & _ & Hrd & Hp & _ & ->).
  pose proof (wf_queue _ Hwf) as Hq.
  destruct (pop_spec m rest _ Hq Hrd) as (q' & Hp' & Hq' & Hct & Hcap).
  rewrite Hp in Hp'. injection Hp' as <-.
  apply room_ok_mono with (room s + 1); [|apply room_ok_signal in Hok; by qsimpl].
  unfold room. qsimpl. rewrite !size_contents, Hcap, Hrd, Hct by done. simpl. lia.
Qed.

Lemma reserve_wakeups clock now token r (s s' : QS) :
  rt_wf s -> reserveDelivery clock now token s = Done (r, s') -> wakeups_ok s -> wakeups_ok s'.
Proof.
  intros Hwf Hrun Hok.
  destruct (reserveDelivery_spec (policy:=any_message) clock now token s Hwf)
    as (r' & s2 & s1 & err & k & Hrun' & Hsim & Hsw & Hr).
  rewrite Hrun in Hrun'. injection Hrun' as <- <-. destruct (sim_id _ _ Hsim) as (_ & _ & _ & Hcap).
  pose proof (sweep_wakeups _ _ _ _ _ _ Hwf (sim_wf _ _ Hsim) Hcap Hsw Hok) as Hok1.
  destruct err; [by destruct Hr as [_ ->]|]. destruct Hr as [Hr _].
  by eapply reserved_wakeups; [apply Hsim|done|].
Qed.

Lemma call_wakeups e (s s' : SYS) :
  is_call e = true -> sys_wf s -> resume_logged e s ->
  sys_step e s = Some (Done s') -> wakeups_ok (qs s) -> wakeups_ok (qs s').
Proof.
  intros He [Hwf _] Hlog Hstep Hok. unfold lift_qs in *.
  destruct e; try done; simpl in Hstep; unfold lift_qs in Hstep;
    repeat match type of Hstep with
    | (if ?b then _ else _) = _ => destruct b; try done
    end; apply (inj Some) in Hstep; go_inv Hstep; try (go_inv E); try done.
  - by eapply Publish_wakeups.
  - by apply (Publish_resume_wakeups _ _ _ _ s _ _ Hwf Hlog E0).
  - by apply Ack_wakeups.
  - by eapply Subscribe_wakeups.
  - by eapply Unsubscribe_wakeups.
  - by eapply close_wakeups.
  - unfold CloseIfEmpty in E0. go_inv E0; [done|]. by eapply close_wakeups.
Qed.

Lemma other_wakeups e (s s' : SYS) :
  is_call e = false -> sys_wf s -> env_ok e s -> quiet_cancel e s ->
  sys_step e s = Some (Done s') -> wakeups_ok (qs s) -> wakeups_ok (qs s').
Proof.
  intros He [Hwf Hd] Henv Hq Hstep Hok. unfold dist_wf, quiet_cancel in *.
  destruct e; try done; simpl in Henv, Hstep;
    repeat match type of Hstep with
    | (match ?x with _ => _ end) = _ => destruct x eqn:?; simplify_eq/=
    end; try done; try (go_inv Hstep).
  - by eapply reserve_wakeups.
  - eapply cancel_wakeups; [done|apply Hq|done|done].
  - eapply cancel_wakeups; [done|apply Hq|done|done].
  - eapply (process_ind wakeups_ok (fun _ => True)); [|by apply Forall_true|done..].
    intros d s1 s2 _ Hwf1 _ _. by apply process_item_wakeups.
  - unfold checkExpiredMessages in E.
    destruct (deadLetterExpired_spec (policy:=any_message) clock (qs s) Hwf)
      as (err & q1 & k & Hrun & Hsim & Hsw). rewrite Hrun in E. injection E as <- <-.
    destruct (sim_id _ _ Hsim) as (_ & _ & _ & Hcap). eapply sweep_wakeups; [done|apply Hsim|done..].
Qed.

Lemma runs_wakeups (s s' : SYS) :
  rtc (gstep resume_logged) s s' -> sys_wf s -> wakeups_ok (qs s) -> wakeups_ok (qs s').
Proof.
  intros Hr Hwf. apply (runs_invariant resume_logged (fun x => wakeups_ok (qs x)) s s'); try done.
  intros e x y Hx He Hq Hl Hst.
  destruct (is_call e) eqn:Ec; [by apply (call_wakeups e)|by apply (other_wakeups e)].
Qed.

End Wakeups.

(** ** A sleeping distributor *)

Section Idle.
Context {Q W : Type} `{!Queue Q} `{!QueueLaws Q} `{!WAL W} `{!WALLaws W}.
Abbreviation QS := (QState Q W).
Abbreviation SYS := (Sys Q W).
Abbreviation ready s := (contents (queue (rt s))).

(** No message, or no consumer that may take one. *)
Definition nothing_to_do (s : QS) : Prop :=
  ready s = [] \/
  forall id, id ∈ consumerOrder (rt s) -> eligible (rt s) (w_sessions (wd s)) id = false.

Definition quiet (s : QS) : Prop :=
  closed (rt s) = false -> notifyDistributor (rt s) = false -> nothing_to_do s.

(** The distributor is on its way to the [select], or in it. *)
Definition idle (p : DistPC) : Prop := p = DTop \/ p = DSelect.

Definition no_stall (s : SYS) : Prop := idle (dist s) -> quiet (qs s).

(** No delivery is dead lettered by a redelivery round, which frees a slot of
    its consumer without a notification, and the log does not fail in the sweep
    of a reservation, which then gives up. *)
Definition notifies (e : event) (s : SYS) : Prop :=
  match e with
  | RProcess _ items =>
      Forall (fun d => Retry (d_Message d) < MaxRetries (config (rt (qs s)))) items
  | DReserve clock _ _ => forall err q, deadLetterExpiredMessages clock (qs s) = Done (err, q) -> err = None
  | _ => True
  end.

Lemma eligible_heap (q : QueueRuntime Q) heap heap' id :
  (forall l, consumerSessions q !! id = Some l ->
     UnackedCount <$> heap' !! l = UnackedCount <$> heap !! l) ->
  eligible q heap' id = eligible q heap id.
Proof.
  unfold eligible, IsEligible. intros H. destruct (consumerSessions q !! id) as [l|]; [|done]. simpl.
  specialize (H l eq_refl). destruct (heap !! l), (heap' !! l); simpl in H; try done.
  by injection H as ->.
Qed.

(** Changes that leave the order, the registry and every count alone. *)
Lemma quiet_sessions (s : QS) heap' :
  (forall id l, consumerSessions (rt s) !! id = Some l ->
     UnackedCount <$> heap' !! l = UnackedCount <$> w_sessions (wd s) !! l) ->
  quiet s -> quiet (set_sessions heap' s).
Proof.
  intros Hh Hq Hc Hn. destruct (Hq Hc Hn) as [Hr|He]; [by left|right].
  intros id Hid. rewrite <- (He id Hid). apply eligible_heap. intros l. apply Hh.
Qed.

Lemma quiet_alter (s : QS) f l :
  (forall cs, UnackedCount (f cs) = UnackedCount cs) ->
  quiet s -> quiet (set_sessions (alter f l (w_sessions (wd s))) s).
Proof.
  intros Hf. apply quiet_sessions. intros id l' _. rewrite lookup_alter. case_decide; [|done]. subst.
  destruct (w_sessions (wd s) !! l'); simpl; by rewrite ?Hf.
Qed.

Lemma Publish_quiet now id m ttl (s : QS) r s' :
  Publish now id m ttl s = Done (r, s') -> quiet s -> quiet s'.
Proof. intros H. by destruct (Publish_cases _ _ _ _ _ _ _ H). Qed.

Lemma Ack_quiet tok (s : QS) : quiet s -> quiet (Ack tok s).2.
Proof.
  destruct (Ack tok s) as [err s'] eqn:E.
  by destruct (Ack_cases tok s err s' E).
Qed.

Lemma close_quiet (s s' : QS) : close_runtime s = Done s' -> quiet s'.
Proof. unfold close_runtime. intros H. go_inv H. intros ?. done. Qed.

Lemma Subscribe_quiet l id (s s' : QS) err :
  rt_wf s -> w_sessions (wd s) !! l = None ->
  Subscribe l (alloc_session l id s) = Done (err, s') -> quiet s -> quiet s'.
Proof.
  intros Hwf Hl Hrun Hq. assert (quiet (alloc_session l id s)) as Ha.
  { revert Hq. apply quiet_sessions. intros i l' Hr.
    destruct (cw_ptr _ _ _ _ (wf_cons _ Hwf) _ _ Hr) as (c & Hcs & _).
    rewrite lookup_insert_ne by congruence. done. }
  unfold Subscribe in Hrun. simpl in Hrun. rewrite lookup_insert_eq in Hrun. simpl in Hrun.
  by go_inv Hrun.
Qed.

Lemma Unsubscribe_quiet id (s s' : QS) :
  rt_wf s -> Unsubscribe id s = Done s' -> quiet s -> quiet s'.
Proof.
  unfold Unsubscribe. intros Hwf Hrun Hq. pose proof (wf_cons _ Hwf) as Hc. go_inv Hrun; [|done].
  intros Ho Hn. destruct (Hq Ho Hn) as [Hr|He]; [by left|right]. simpl. intros i Hi.
  apply DeleteFunc_elem_of in Hi as [Hne Hi]. apply bool_decide_eq_false in Hne.
  rewrite <- (He i Hi). unfold eligible. simpl. rewrite lookup_delete_ne by done.
  destruct (consumerSessions (rt s) !! i) as [l'|] eqn:Hl'; [|done]. simpl.
  destruct (cw_ptr _ _ _ _ Hc _ _ Hl') as (c1 & Hc1 & Hi1). rewrite lookup_insert_ne; [done|].
  intros <-. apply Hne. destruct (cw_ptr _ _ _ _ Hc _ _ E) as (c2 & Hc2 & <-). congruence.
Qed.

Lemma process_item_quiet mr d (s s' : QS) :
  Retry (d_Message d) < mr -> process_item mr d s = Done s' -> quiet s -> quiet s'.
Proof.
  intros Hr Hrun Hq. destruct (process_item_cases mr d s s' Hrun); try done. lia.
Qed.

Lemma sweep_quiet clock i k err (s s' : QS) : sweep clock i k err s s' -> quiet s -> quiet s'.
Proof.
  intros Hsw Hq. pose proof (sw_ready _ _ _ _ _ _ Hsw) as Hr.
  destruct (sw_frame _ _ _ _ _ _ Hsw) as (q & d & n & c & w & ->). intros Hc Hn. simpl in *.
  destruct (Hq Hc Hn) as [H0|He]; [left|by right]. simpl. by rewrite Hr, H0, drop_nil.
Qed.

(** [reserveDelivery] returns nothing only when there is nothing to do. *)
Lemma reserve_quiet clock now token (s s' : QS) :
  rt_wf s -> (forall err q, deadLetterExpiredMessages clock s = Done (err, q) -> err = None) ->
  reserveDelivery clock now token s = Done (None, s') -> nothing_to_do s'.
Proof.
  intros Hwf Hlog Hrun. unfold reserveDelivery in Hrun.
  destruct (deadLetterExpired_spec (policy:=any_message) clock s Hwf) as (err & s1 & k & Hd & Hsim & Hsw).
  pose proof (Hlog _ _ Hd) as ->. rewrite Hd in Hrun. simpl in Hrun.
  destruct (reserve_next_spec now token s1 (sim_wf _ _ Hsim)) as (r & s2 & Hr & Hres & Hnone).
  rewrite Hr in Hrun. injection Hrun as -> ->. destruct Hres as (n & _ & ->). by apply Hnone.
Qed.

Lemma call_dist e (s s' : SYS) :
  is_call e = true -> sys_step e s = Some (Done s') -> dist s' = dist s.
Proof.
  intros He Hstep. destruct e; try done; simpl in Hstep; unfold lift_qs in Hstep;
    repeat match type of Hstep with
    | (if ?b then _ else _) = _ => destruct b; try done
    end; apply (inj Some) in Hstep; by go_inv Hstep.
Qed.

Lemma call_quiet e (s s' : SYS) :
  is_call e = true -> sys_wf s -> env_ok e s ->
  sys_step e s = Some (Done s') -> quiet (qs s) -> quiet (qs s').
Proof.
  intros He [Hwf _] Henv Hstep Hq.
  destruct e; try done; simpl in Henv, Hstep; unfold lift_qs in Hstep;
    repeat match type of Hstep with
    | (if ?b then _ else _) = _ => destruct b; try done
    end; apply (inj Some) in Hstep; go_inv Hstep; try (go_inv E); try done.
  - by eapply Publish_quiet.
  - by eapply (Publish_quiet _ _ _ _ _ _ _ E0).
  - by apply Ack_quiet.
  - destruct Henv. by eapply Subscribe_quiet.
  - by eapply Unsubscribe_quiet.
  - by eapply close_quiet.
  - unfold CloseIfEmpty in E0. go_inv E0; [done|]. by eapply close_quiet.
  - by apply quiet_alter.
Qed.

Lemma other_no_stall e (s s' : SYS) :
  is_call e = false -> sys_wf s -> env_ok e s -> notifies e s ->
  sys_step e s = Some (Done s') -> no_stall s -> no_stall s'.
Proof.
  intros He [Hwf _] Henv Hnt Hstep Hq Hi.
  destruct e; try done; simpl in Henv, Hnt, Hstep;
    repeat match type of Hstep with
    | (match ?x with _ => _ end) = _ => destruct x eqn:?; simplify_eq/=
    end; try (by apply Hq; rewrite ?Heqd; first [by left|by right]);
    try (go_inv Hstep); try (by destruct Hi); try (by apply Hq).
  - destruct o as [[l d]|]; [by destruct Hi|]. intros _ _. by eapply reserve_quiet.
  - eapply (process_ind quiet _ now); [|exact Hnt|done..|by apply Hq].
    intros d s1 s2 Hr _ _ _. by apply process_item_quiet.
  - unfold checkExpiredMessages in E.
    destruct (deadLetterExpired_spec (policy:=any_message) clock (qs s) Hwf)
      as (err & q1 & k & Hrun & _ & Hsw). rewrite Hrun in E. injection E as <- <-.
    eapply sweep_quiet; [done|by apply Hq].
Qed.

Lemma runs_no_stall (s s' : SYS) :
  rtc (gstep notifies) s s' -> sys_wf s -> no_stall s -> no_stall s'.
Proof.
  intros Hr Hwf. apply (runs_invariant notifies no_stall s s'); try done.
  intros e x y Hx He Hq Hn Hst Hx1. destruct (is_call e) eqn:Ec; [|by apply (other_no_stall e x)].
  intros Hi. assert (dist y = dist x) as Hd by by eapply call_dist.
  eapply call_quiet; try done. apply Hx1. by rewrite <- Hd.
Qed.

End Idle.
