(* ===== verification/QueueTheorems.v ===== *)
(** What the runs of one queue with its goroutines guarantee, for every queue
    and log that keep the promises of the interfaces [Queue] and [WAL]. A run
    starts from a queue as [newQueueRuntime] makes it ([started]) and is any
    interleaving of calls, distributor and workers. *)

From S2P Require Import Prelude GoStrings Model RingBuffer Inflight Exchange Wal QueueRuntime.
From S2P Require Import System QueueSpec QueueInv RoundRobin QueueRefine QueueDeliver.
From S2P Require Import Redelivery SystemInv QueueCases Prefetch Flow.

(** ** A concrete queue, for the witnesses *)

Definition demo_sys (cfg : Config) (io : list io_outcome) : Sys RingBufferQueue FileWAL :=
  sys_start (mkQState
    (mkRuntime "jobs" cfg false
       (mkRing (replicate (Z.to_nat (QueueSize cfg)) zeroMessage) 0 0 0 (QueueSize cfg))
       NewManager NewDLQ ∅ [] 0 true (mkCond 0 0) (Some 0%nat) 0 0 0 0)
    (mkWorld (NewFileWAL [] io) ∅ ∅)).

Lemma demo_started cfg io :
  0 <= QueueSize cfg <= max_int -> Forall clean_io io -> started "jobs" cfg [] (demo_sys cfg io).
Proof.
  intros Hq Hio. destruct (ring_new_ok (QueueSize cfg) Hq) as (q0 & Hnew & Hok & Hc & Hcap).
  unfold NewRingBufferQueue in Hnew. rewrite decide_False in Hnew by lia. injection Hnew as <-.
  eexists _, _, 0%nat, _. split; [exact Hok|]. split; [done|]. split; [simpl; lia|].
  split_and!; try done; simpl.
  - repeat split; simpl; auto.
  - apply map_Forall_empty.
  - apply map_Forall_empty.
Qed.

Definition tiny : Config := mkConfig (100 * second) (5 * second) second 3 2 1.

Definition msg (id : string) : Message := mkMessage id "payload" 0 0 None.

(** Two messages, one consumer: the first is delivered and acknowledged, the
    second delivered, timed out and put back. *)
Definition demo_script : list event :=
  [ ESubscribe 1 "c1"; EPublish 10 "m1" (msg "") 0; EPublish 11 "m2" (msg "") 0;
    DCheck; DNotified; DReserve (fun _ => 12) 12 "t1"; DSent; EReceive 1;
    DReserve (fun _ => 13) 13 "t2"; EAck "t1"; DCheck; DNotified;
    DReserve (fun _ => 14) 14 "t2"; DSent; RTick;
    RProcess (200 * second)
      [mkDelivery (mkMessage "m2" "payload" 11 0 None) "t2" "c1"];
    XTick; XProcess (fun _ => 15) ].

Definition demo_end : Sys RingBufferQueue FileWAL :=
  match sys_run demo_script (demo_sys tiny []) with Some (Done s) => s | _ => demo_sys tiny [] end.

Lemma demo_check : script_ok (fun _ _ => true) demo_script (demo_sys tiny []) = true.
Proof. vm_compute. reflexivity. Qed.

Lemma demo_runs (side : event -> Sys RingBufferQueue FileWAL -> Prop) sideb :
  (forall e x, sideb e x = true -> side e x) ->
  script_ok sideb demo_script (demo_sys tiny []) = true ->
  rtc (gstep side) (demo_sys tiny []) demo_end.
Proof. intros Hb Hok. apply (script_runs side sideb demo_script); [done|done|by vm_compute]. Qed.

Lemma tiny_started io : Forall clean_io io -> started "jobs" tiny [] (demo_sys tiny io).
Proof. apply demo_started. by vm_compute. Qed.

Lemma any_runs : runs any_message (demo_sys tiny []) demo_end.
Proof. apply (demo_runs _ (fun _ _ => true)); [by intros []|by vm_compute]. Qed.

Section Safety.
Context {Q W : Type} `{!Queue Q} `{!QueueLaws Q} `{!WAL W} `{!WALLaws W}.
Abbreviation SYS := (Sys Q W).

(** No event of a run makes the code panic (index out of range, division by
    zero, nil session, double close of a channel) or loop for ever: every
    enabled step returns. *)
Theorem queue_never_panics nm cfg msgs (s s' : SYS) e r :
  started nm cfg msgs s -> runs any_message s s' ->
  env_ok e s' -> quiet_cancel e s' -> sys_step e s' = Some r ->
  exists s'', r = Done s''.
Proof.
  intros Hst Hr He Hq Hs. destruct (started_spec _ _ _ _ Hst) as [Hwf _].
  destruct (runs_sim s s' Hwf Hr) as [Hwf' _].
  destruct (sys_step_ok (policy:=any_message) e s' r Hwf' He Hq) as (s'' & -> & _); [by destruct e|done|eauto].
Qed.

(** C15: The runtime implements the abstract at-least-once queue: the abstract
    state at the end of a run is reached by steps of the specification from the
    recovered messages. The runs are those with fresh tokens, [quiet_cancel] (a reservation is
    cancelled only while its token is in flight and the queue has room) and a log
    that keeps [WALLaws] (a failed append adds no record); the run
    [cancel_overflows_ring] breaks the first and is no run of the specification. *)
Theorem queue_refines_spec nm cfg msgs (s s' : SYS) :
  started nm cfg msgs s -> runs any_message s s' ->
  rtc (astep (H:=any_message) nm (MaxRetries cfg))
    (mkAQ msgs ∅ [] (wrap64 (Z.of_nat (length msgs))) 0 0 0 (wal_log (w_wal (wd (qs s)))))
    (abs (qs s')).
Proof.
  intros Hst Hr. destruct (started_spec _ _ _ _ Hst) as (Hwf & Hn & Hc & <- & _).
  destruct (runs_sim s s' Hwf Hr) as [_ Hsim]. rewrite <- Hn, <- Hc. apply Hsim.
Qed.

(** C17: The metrics account for every message of the queue: what was produced is
    acknowledged, dead lettered, in flight or ready, modulo the width of the
    counters. Runs with [quiet_cancel] and a log that keeps [WALLaws]: cancelling a
    reservation whose token a redelivery round has already put back would count
    its message twice. *)
Theorem queue_metrics_conserved nm cfg msgs (s s' : SYS) :
  started nm cfg msgs s -> runs any_message s s' ->
  let m := Metrics (rt (qs s')) in
  ProducedCount m = wrap64 (AckedCount m + DlqCount m + InflightCount m + QueueDepth m).
Proof.
  intros Hst Hr. destruct (started_spec _ _ _ _ Hst) as (Hwf & _ & _ & Ha & _).
  destruct (runs_sim s s' Hwf Hr) as [[Hwf' _] Hsim].
  assert (conserved (abs (qs s'))) as Hc.
  { eapply steps_invariant; [|apply Hsim|by rewrite Ha]. intros x y. apply astep_conserved. }
  unfold conserved in Hc. simpl in *. rewrite Hc, map_size_fmap, (ready_size _ Hwf'). done.
Qed.

(** C13: Durability: loading the log gives back exactly the messages that are
    ready or in flight, with their current retry counts, in every run, from
    recovered messages with distinct identifiers that the log replays to, in which
    tokens are fresh, published messages have identifiers no live message has ([fresh_id]),
    reservations are cancelled only while their token is in flight and the queue
    has room ([quiet_cancel]), and an append that reports an error has added no
    record ([WALLaws]; any append may fail so). *)
Theorem queue_log_durable nm cfg msgs (s s' : SYS) :
  started nm cfg msgs s -> NoDup (ID <$> msgs) ->
  pending_of (replay (wal_log (w_wal (wd (qs s))))) nm ≡ₚ msgs ->
  runs fresh_id s s' ->
  exists st, Load (w_wal (wd (qs s'))) = inl st /\
    pending_of st nm ≡ₚ
      contents (queue (rt (qs s'))) ++
      (if_Message <$> (map_to_list (deliveries (inFlightManager (rt (qs s'))))).*2).
Proof.
  intros Hst Hnd Hd0 Hr. destruct (started_spec _ _ _ _ Hst) as (Hwf & Hn & _ & Ha & _).
  destruct (runs_sim s s' Hwf Hr) as [[Hwf' _] Hsim].
  assert (ids_unique (abs (qs s')) /\ durable nm (abs (qs s'))) as [_ Hd].
  { eapply (steps_invariant (policy:=fresh_id) _ _ (fun a => ids_unique a /\ durable nm a));
      [|apply Hsim|].
    - intros x y Hxy [Hi Hdx]. apply astep_live in Hxy. rewrite Hn in Hxy.
      split; [by eapply live_step_ids|by eapply live_step_durable].
    - rewrite Ha. unfold ids_unique, durable, a_live. simpl. by rewrite app_nil_r. }
  eexists. split; [apply load_ok, Hwf'|]. rewrite Hd. unfold a_live. simpl. f_equiv.
  unfold flight_msgs. by rewrite map_to_list_fmap, <- !list_fmap_compose.
Qed.

(** A message is at one place: no identifier occurs twice among the ready
    and the in-flight messages, while publishers use new identifiers. *)
Theorem queue_ids_unique nm cfg msgs (s s' : SYS) :
  started nm cfg msgs s -> NoDup (ID <$> msgs) -> runs fresh_id s s' ->
  NoDup (ID <$> a_live (abs (qs s'))).
Proof.
  intros Hst Hnd Hr. destruct (started_spec _ _ _ _ Hst) as (Hwf & _ & _ & Ha & _).
  destruct (runs_sim s s' Hwf Hr) as [_ Hsim].
  eapply (steps_invariant (policy:=fresh_id) _ _ ids_unique); [|apply Hsim|].
  - intros x y Hxy%astep_live. by eapply live_step_ids.
  - rewrite Ha. unfold ids_unique, a_live. simpl. by rewrite app_nil_r.
Qed.

(** C24: Retries are bounded: let [bound] be at least [MaxRetries] and at least
    the retry count of every message recovered or published ([Publish] keeps the
    count a client sends). Then no ready or in-flight message ever has a higher
    count; in particular no count goes above [MaxRetries] if none is recovered or
    published above it. Runs with [quiet_cancel] and a log that
    keeps [WALLaws]. *)
Theorem queue_retries_bounded nm cfg msgs bound (s s' : SYS) :
  MaxRetries cfg <= bound <= max_int -> started nm cfg msgs s ->
  Forall (fun m => min_int <= Retry m <= bound) msgs ->
  runs (few_retries bound) s s' ->
  retries_bounded bound (abs (qs s')).
Proof.
  intros Hm Hst Hb Hr. destruct (started_spec _ _ _ _ Hst) as (Hwf & _ & Hcfg & Ha & _).
  destruct (runs_sim s s' Hwf Hr) as [_ Hsim].
  eapply (steps_invariant (policy:=few_retries bound) _ _ (retries_bounded bound)); [|apply Hsim|].
  - intros x y Hxy%astep_live. rewrite Hcfg in Hxy. by eapply live_step_retries.
  - rewrite Ha. unfold retries_bounded, a_live. simpl. by rewrite app_nil_r.
Qed.

(** The broker's token table names this queue for exactly the tokens of its
    in-flight deliveries, so an acknowledgement reaches the queue that holds the
    delivery. *)
Theorem queue_owns_its_tokens nm cfg msgs (s s' : SYS) self tok :
  started nm cfg msgs s -> runs any_message s s' -> tokenHooks (rt (qs s')) = Some self ->
  w_tokenOwners (wd (qs s')) !! tok = Some self <->
  is_Some (deliveries (inFlightManager (rt (qs s'))) !! tok).
Proof.
  intros Hst Hr Hh. destruct (started_spec _ _ _ _ Hst) as (Hwf & _).
  destruct (runs_sim s s' Hwf Hr) as [[Hwf' _] _]. by apply (wf_tok _ Hwf').
Qed.

(** C20: Backpressure: in runs with [quiet_cancel] and a log that keeps
    [WALLaws] that register a consumer identifier only while nothing is in flight to it ([fresh_consumer]; the run
    [resubscribe_exceeds_prefetch] does not), a registered session's count is the
    number of its unacknowledged deliveries, and never more than the prefetch
    limit. *)
Theorem queue_prefetch_respected nm cfg msgs (s s' : SYS) id l cs :
  ConsumerPrefetch cfg <= max_int -> started nm cfg msgs s -> rtc (gstep fresh_consumer) s s' ->
  consumerSessions (rt (qs s')) !! id = Some l -> w_sessions (wd (qs s')) !! l = Some cs ->
  UnackedCount cs = flight_count id (deliveries (inFlightManager (rt (qs s')))) /\
  UnackedCount cs <= Z.max 0 (ConsumerPrefetch cfg).
Proof.
  intros Hm Hst Hr Hid Hl.
  destruct (started_spec _ _ _ _ Hst) as (Hwf & _ & Hcfg & _ & _ & _ & Hd & Hcs & _).
  assert (unacked_ok (qs s)) as Hu0 by (intros i p c; by rewrite Hcs, lookup_empty).
  rewrite <- Hcfg in Hm. pose proof (runs_unacked s s' Hr Hwf Hm Hu0) as Hu.
  assert (config (rt (qs s')) = cfg) as Hcfg'.
  { destruct (runs_sim (policy:=any_message) s s' Hwf) as [_ Hsim].
    - eapply rtc_subrel; [|exact Hr]. intros x y. apply gstep_any.
    - destruct (sim_id _ _ Hsim) as (_ & -> & _). done. }
  destruct (Hu id l cs Hid Hl) as [-> Hle]. by rewrite Hcfg' in Hle.
Qed.

(** C18: No lost wakeup: while a publisher waits for room, either the queue is
    full or at least as many released publishers as free slots are still to
    run; nobody waits on a closed queue. Runs with [quiet_cancel] and a log that
    keeps [WALLaws], in which no released publisher's append fails ([resume_logged]; the run
    [failed_append_loses_wakeup] shows that the condition is needed). *)
Theorem publishers_woken nm cfg msgs (s s' : SYS) :
  started nm cfg msgs s -> rtc (gstep resume_logged) s s' ->
  (0 < waiting (condProd (rt (qs s'))))%nat ->
  closed (rt (qs s')) = false /\
  Capacity (queue (rt (qs s'))) - Size (queue (rt (qs s'))) <=
    Z.of_nat (woken (condProd (rt (qs s')))).
Proof.
  intros Hst Hr. destruct (started_spec _ _ _ _ Hst) as (Hwf & _ & _ & _ & Hc & _).
  apply (runs_wakeups s s' Hr Hwf). intros Hw. rewrite Hc in Hw. simpl in Hw. lia.
Qed.

(** C19: No stall: a distributor of an open queue that is about to sleep without
    a notification has no message to deliver or no consumer below its prefetch
    limit. Runs with [quiet_cancel] and a log that keeps [WALLaws], in which no
    redelivery round dead letters and no sweep fails to log ([notifies]; the run [dead_letter_round_stalls] shows
    that the condition is needed). *)
Theorem distributor_never_stalls nm cfg msgs (s s' : SYS) :
  started nm cfg msgs s -> rtc (gstep notifies) s s' ->
  idle (dist s') -> closed (rt (qs s')) = false -> notifyDistributor (rt (qs s')) = false ->
  contents (queue (rt (qs s'))) = [] \/
  forall id, id ∈ consumerOrder (rt (qs s')) ->
    eligible (rt (qs s')) (w_sessions (wd (qs s'))) id = false.
Proof.
  intros Hst Hr. destruct (started_spec _ _ _ _ Hst) as (Hwf & _ & _ & _ & _ & Hn & _).
  apply (runs_no_stall s s' Hr Hwf). intros _ _. congruence.
Qed.

End Safety.

(** ** The theorems at the concrete run *)

Lemma queue_never_panics_witness :
  exists s'', sys_step (EPublish 20 "m3" (msg "") 0) demo_end = Some (Done s'').
Proof.
  destruct (sys_step (EPublish 20 "m3" (msg "") 0) demo_end) as [r|] eqn:E; [|by vm_compute in E].
  destruct (queue_never_panics "jobs" tiny [] (demo_sys tiny []) demo_end (EPublish 20 "m3" (msg "") 0) r
    (tiny_started [] ltac:(constructor)) any_runs I I E) as [s'' ->].
  by exists s''.
Defined.

Lemma queue_refines_spec_witness :
  rtc (astep (H:=any_message) "jobs" (MaxRetries tiny))
    (mkAQ [] ∅ [] (wrap64 (Z.of_nat (length (@nil Message)))) 0 0 0
       (wal_log (w_wal (wd (qs (demo_sys tiny []))))))
    (abs (qs demo_end)).
Proof. exact (queue_refines_spec "jobs" tiny [] (demo_sys tiny []) demo_end (tiny_started [] ltac:(constructor)) any_runs). Defined.

Lemma queue_metrics_conserved_witness :
  let m := Metrics (rt (qs demo_end)) in
  m = mkMetric 2 1 0 0 1 1 1 /\
  ProducedCount m = wrap64 (AckedCount m + DlqCount m + InflightCount m + QueueDepth m).
Proof.
  split; [by vm_compute|].
  exact (queue_metrics_conserved "jobs" tiny [] (demo_sys tiny []) demo_end (tiny_started [] ltac:(constructor)) any_runs).
Defined.

Definition fresh_idb (e : event) (s : Sys RingBufferQueue FileWAL) : bool :=
  match e with
  | EPublish now newID m ttl | EResume now newID m ttl =>
      bool_decide (ID (stamp now newID m ttl) ∉ ID <$> a_live (abs (qs s)))
  | _ => true
  end.

Lemma fresh_runs : runs fresh_id (demo_sys tiny []) demo_end.
Proof.
  apply (demo_runs _ fresh_idb); [|by vm_compute].
  intros [] x; simpl; try done; by rewrite bool_decide_eq_true.
Qed.

Lemma queue_log_durable_witness :
  exists st, Load (w_wal (wd (qs demo_end))) = inl st /\
    pending_of st "jobs" ≡ₚ
      contents (queue (rt (qs demo_end))) ++
      (if_Message <$> (map_to_list (deliveries (inFlightManager (rt (qs demo_end))))).*2).
Proof.
  exact (queue_log_durable "jobs" tiny [] (demo_sys tiny []) demo_end (tiny_started [] ltac:(constructor))
    ltac:(constructor) ltac:(done) fresh_runs).
Defined.

Lemma queue_ids_unique_witness : NoDup (ID <$> a_live (abs (qs demo_end))).
Proof.
  exact (queue_ids_unique "jobs" tiny [] (demo_sys tiny []) demo_end (tiny_started [] ltac:(constructor))
    ltac:(constructor) fresh_runs).
Defined.

Definition few_retriesb (e : event) (s : Sys RingBufferQueue FileWAL) : bool :=
  match e with
  | EPublish now newID m ttl | EResume now newID m ttl =>
      bool_decide (min_int <= Retry (stamp now newID m ttl) <= 3)
  | _ => true
  end.

Lemma queue_retries_bounded_witness : retries_bounded (MaxRetries tiny) (abs (qs demo_end)).
Proof.
  apply (queue_retries_bounded "jobs" tiny [] 3 (demo_sys tiny []) demo_end ltac:(by vm_compute)
    (tiny_started [] ltac:(constructor)) ltac:(constructor)).
  apply (demo_runs _ few_retriesb); [|by vm_compute].
  intros [] x; simpl; try done; by rewrite bool_decide_eq_true.
Defined.

(** The run up to the second delivery. *)
Definition flying_script : list event := take 14 demo_script.

Definition flying : Sys RingBufferQueue FileWAL :=
  match sys_run flying_script (demo_sys tiny []) with Some (Done s) => s | _ => demo_sys tiny [] end.

Lemma flying_runs (side : event -> Sys RingBufferQueue FileWAL -> Prop) sideb :
  (forall e x, sideb e x = true -> side e x) ->
  script_ok sideb flying_script (demo_sys tiny []) = true ->
  rtc (gstep side) (demo_sys tiny []) flying.
Proof. intros Hb Hok. apply (script_runs side sideb flying_script); [done|done|by vm_compute]. Qed.

Lemma queue_owns_its_tokens_witness :
  w_tokenOwners (wd (qs flying)) !! "t2" = Some 0%nat <->
  is_Some (deliveries (inFlightManager (rt (qs flying))) !! "t2").
Proof.
  apply (queue_owns_its_tokens "jobs" tiny [] (demo_sys tiny []) flying 0%nat "t2").
  - apply tiny_started. constructor.
  - apply (flying_runs _ (fun _ _ => true)); [by intros []|by vm_compute].
  - by vm_compute.
Defined.

Definition fresh_consumerb (e : event) (s : Sys RingBufferQueue FileWAL) : bool :=
  match e with
  | ESubscribe _ id =>
      bool_decide (flight_count id (deliveries (inFlightManager (rt (qs s)))) = 0)
  | _ => true
  end.

Lemma fresh_consumerb_ok e s : fresh_consumerb e s = true -> fresh_consumer e s.
Proof. destruct e; simpl; try done. by rewrite bool_decide_eq_true. Qed.

Lemma queue_prefetch_respected_witness :
  exists cs, w_sessions (wd (qs flying)) !! 1%nat = Some cs /\
    UnackedCount cs = flight_count "c1" (deliveries (inFlightManager (rt (qs flying)))) /\
    UnackedCount cs <= Z.max 0 (ConsumerPrefetch tiny).
Proof.
  destruct (w_sessions (wd (qs flying)) !! 1%nat) as [cs|] eqn:E; [|by vm_compute in E].
  exists cs. split; [reflexivity|].
  apply (queue_prefetch_respected "jobs" tiny [] (demo_sys tiny []) flying "c1" 1%nat cs).
  - by vm_compute.
  - apply tiny_started. constructor.
  - apply (flying_runs _ fresh_consumerb); [exact fresh_consumerb_ok|]. vm_compute. reflexivity.
  - vm_compute. reflexivity.
  - exact E.
Defined.

(** Three publishers on two slots: the third waits, and is released by the
    first delivery. *)
Definition waiting_script : list event :=
  [ ESubscribe 1 "c1"; EPublish 10 "m1" (msg "") 0; EPublish 11 "m2" (msg "") 0;
    EPublish 12 "m3" (msg "") 0; EPublish 13 "m4" (msg "") 0;
    DCheck; DNotified; DReserve (fun _ => 14) 14 "t1" ].

Definition waiting_end : Sys RingBufferQueue FileWAL :=
  match sys_run waiting_script (demo_sys tiny []) with Some (Done s) => s | _ => demo_sys tiny [] end.

Lemma publishers_woken_witness :
  (0 < waiting (condProd (rt (qs waiting_end))))%nat /\
  closed (rt (qs waiting_end)) = false /\
  Capacity (queue (rt (qs waiting_end))) - Size (queue (rt (qs waiting_end))) <=
    Z.of_nat (woken (condProd (rt (qs waiting_end)))).
Proof.
  split; [vm_compute; lia|].
  apply (publishers_woken "jobs" tiny [] (demo_sys tiny []) waiting_end).
  - apply tiny_started. constructor.
  - apply (script_runs _ (fun e _ => match e with EResume _ _ _ _ => false | _ => true end)
      waiting_script); [by intros []|by vm_compute|by vm_compute].
  - vm_compute. lia.
Defined.

(** With its only consumer at the prefetch limit the distributor goes back to
    sleep. *)
Definition sleepy_script : list event :=
  waiting_script ++ [DSent; DReserve (fun _ => 15) 15 "t2"].

Definition sleepy : Sys RingBufferQueue FileWAL :=
  match sys_run sleepy_script (demo_sys tiny []) with Some (Done s) => s | _ => demo_sys tiny [] end.

Definition notifiesb (e : event) (s : Sys RingBufferQueue FileWAL) : bool :=
  match e with
  | RProcess _ items => false
  | DReserve clock _ _ =>
      match deadLetterExpiredMessages clock (qs s) with Done (None, _) => true | _ => false end
  | _ => true
  end.

Lemma notifiesb_ok e s : notifiesb e s = true -> notifies e s.
Proof.
  destruct e; simpl; try done. intros H err q Hd. rewrite Hd in H. by destruct err.
Qed.

Lemma distributor_never_stalls_witness :
  contents (queue (rt (qs sleepy))) = [] \/
  forall id, id ∈ consumerOrder (rt (qs sleepy)) ->
    eligible (rt (qs sleepy)) (w_sessions (wd (qs sleepy))) id = false.
Proof.
  apply (distributor_never_stalls "jobs" tiny [] (demo_sys tiny []) sleepy).
  - apply tiny_started. constructor.
  - apply (script_runs _ notifiesb sleepy_script); [exact notifiesb_ok|by vm_compute|by vm_compute].
  - left. by vm_compute.
  - by vm_compute.
  - by vm_compute.
Defined.
