(* ===== verification/QueueOps.v ===== *)
(** The methods of a queue runtime one by one, in every outcome: what they
    return, when, and what they leave behind. *)

From S2P Require Import Prelude GoStrings Model RingBuffer Inflight Exchange Wal QueueRuntime.
From S2P Require Import System QueueSpec QueueInv RoundRobin QueueRefine QueueDeliver.
From S2P Require Import Redelivery SystemInv QueueCases Prefetch Flow QueueTheorems.

(** The messages a sweep at instant [now] takes, and those it leaves: it stops
    at the first that has not expired. *)
Fixpoint expired_front (now : Z) (l : list Message) : list Message :=
  match l with
  | m :: rest => if isExpired now m then m :: expired_front now rest else []
  | [] => []
  end.

Fixpoint after_expired (now : Z) (l : list Message) : list Message :=
  match l with
  | m :: rest => if isExpired now m then after_expired now rest else l
  | [] => []
  end.

(** A sweep of [k] messages under a constant clock. *)
Lemma expired_front_spec now l k :
  (k <= length l)%nat ->
  (forall j m, (j < k)%nat -> l !! j = Some m -> isExpired now m = true) ->
  (forall m, l !! k = Some m -> isExpired now m = false) ->
  take k l = expired_front now l /\ drop k l = after_expired now l.
Proof.
  revert k. induction l as [|x l IH]; intros [|k] Hk He Hs; simpl in *; try done; try lia.
  - rewrite (Hs x eq_refl). done.
  - rewrite (He 0%nat x ltac:(lia) eq_refl). destruct (IH k) as [-> ->]; try done; [lia|].
    intros j m Hj. by apply (He (S j)); lia.
Qed.

Section Ops.
Context {Q W : Type} `{!Queue Q} `{!QueueLaws Q} `{!WAL W} `{!WALLaws W}.
Abbreviation QS := (QState Q W).

(** What a log record that was written changes besides the queue. *)
Definition credited (id : string) (s : QS) : gmap nat ConsumerSession :=
  match consumerSessions (rt s) !! id with
  | Some l => alter (fun cs => set_UnackedCount (UnackedCount cs ⊕ -1) cs) l (w_sessions (wd s))
  | None => w_sessions (wd s)
  end.

(** C25: [Publish] always returns and its outcome is decided by the state: a
    closed queue answers [ErrBrokerClosed] and stays as it is; a full open queue
    makes the caller wait and nothing else changes; otherwise the stamped message
    is appended to the log, and the answer is that of the append: on an error
    nothing but the log file is touched (what it then holds is the outcome of
    [Append]), on success the message is the last of the queue, within its
    capacity, it is counted and the distributor notified. For a queue with the
    invariant of the ring and any log. *)
Theorem publish_outcomes now id m ttl (s : QS) :
  queue_ok (queue (rt s)) ->
  let message := stamp now id m ttl in
  let (err, w) :=
    Append (rec_message Published (name (rt s)) message (ID message)) (w_wal (wd s)) in
  exists r s', Publish now id m ttl s = Done (r, s') /\
  if closed (rt s) then r = PubReturned (Some ErrBrokerClosed) /\ s' = s
  else if decide (Size (queue (rt s)) = Capacity (queue (rt s))) then
    r = PubBlocked /\ s' = blocked s
  else r = PubReturned err /\
    match err with
    | Some _ => s' = set_wal w s
    | None =>
        wd s' = wd (set_wal w s) /\
        contents (queue (rt s')) = contents (queue (rt s)) ++ [message] /\
        Size (queue (rt s')) <= Capacity (queue (rt s')) /\
        inFlightManager (rt s') = inFlightManager (rt s) /\
        deadLetterQueue (rt s') = deadLetterQueue (rt s) /\
        producedCount (rt s') = producedCount (rt s) ⊕ 1 /\
        notifyDistributor (rt s') = true
    end.
Proof.
  intros Hq message. destruct (Append _ _) as [err w] eqn:Ea. unfold Publish.
  destruct (closed (rt s)) eqn:Ec; cbn [negb andb]; [eauto|].
  destruct (decide _) as [Hf|Hf]; [rewrite bool_decide_true by done; eauto|].
  rewrite bool_decide_false by done. fold message. unfold wal_append. rewrite Ea.
  destruct err as [e|]; [eauto|].
  destruct (push_spec message _ Hq) as (q & Hp & Hq' & Hct & Hcap).
  { pose proof (size_le_capacity _ Hq). lia. }
  unfold push_queue. simpl. rewrite Hp. simpl. eexists _, _. split; [done|]. simpl.
  split_and!; try done. by apply size_le_capacity.
Qed.

(** C26: [Ack] in every outcome, for any state and any log: an unknown token is
    refused and nothing changes; for a token in flight the acknowledgement is
    appended to the log and the answer is that of the append: on an error nothing
    but the log file is touched (what it then holds is the outcome of [Append]),
    on success that delivery and no other leaves the in-flight table, the ready
    and the dead lettered messages stay, the consumer gets its slot back, the
    distributor is notified, and a second acknowledgement of the token is
    refused. *)
Theorem ack_outcomes tok (s : QS) :
  match deliveries (inFlightManager (rt s)) !! tok with
  | None => Ack tok s = (Some ErrInvalidAckToken, s)
  | Some im =>
      let m := if_Message im in
      let (err, w) := Append (rec_message Acknowledged (name (rt s)) m (ID m)) (w_wal (wd s)) in
      exists s', Ack tok s = (err, s') /\
      match err with
      | Some _ => s' = set_wal w s
      | None =>
          w_wal (wd s') = w /\
          deliveries (inFlightManager (rt s')) = delete tok (deliveries (inFlightManager (rt s))) /\
          queue (rt s') = queue (rt s) /\ deadLetterQueue (rt s') = deadLetterQueue (rt s) /\
          w_sessions (wd s') = credited (if_ConsumerID im) s /\
          ackedCount (rt s') = ackedCount (rt s) ⊕ 1 /\ notifyDistributor (rt s') = true /\
          Ack tok s' = (Some ErrInvalidAckToken, s')
      end
  end.
Proof.
  unfold Ack, Get. destruct (deliveries _ !! tok) as [im|] eqn:Ed; [|done]. unfold wal_append.
  destruct (Append _ _) as [[e|] w]; eexists; (split; [reflexivity|]); [done|].
  qsimpl. rewrite lookup_delete_eq. split_and!; try done.
Qed.

(** C27: [nextSession] is round robin: it returns the first eligible consumer in
    the circular order that starts behind the consumer served last, moves the
    position just behind it, and gives up, leaving the position, only after it
    has looked at every consumer. *)
Theorem next_session_round_robin (s : QS) :
  rt_wf s -> consumerOrder (rt s) <> [] ->
  nextSession s =
  match list_find (fun id => eligible (rt s) (w_sessions (wd s)) id)
          (rotation (start_pos (rt s)) (consumerOrder (rt s))) with
  | Some (k, id) =>
      Done (consumerSessions (rt s) !! id,
            upd_rt (set_nextConsumer (Z.of_nat
              ((start_pos (rt s) + k + 1) mod length (consumerOrder (rt s))))) s)
  | None => Done (None, upd_rt (set_nextConsumer (Z.of_nat (start_pos (rt s)))) s)
  end.
Proof. intros Hwf Hne. rewrite nextSession_spec by (done || apply Hwf). by repeat case_match. Qed.

(** C28: [reserveDelivery] hands out the first message that has not expired: the
    messages before it had expired at the readings of the clock the sweep made,
    the one delivered had not at the reading made for it, the consumer was below
    its prefetch limit, and the delivery is in flight under its token. *)
Theorem reserve_first_unexpired clock now token (s : QS) l d s' :
  rt_wf s -> reserveDelivery clock now token s = Done (Some (l, d), s') ->
  exists k cs,
    contents (queue (rt s)) !! k = Some (d_Message d) /\
    contents (queue (rt s')) = drop (S k) (contents (queue (rt s))) /\
    (forall j m, (j < k)%nat -> contents (queue (rt s)) !! j = Some m -> isExpired (clock j) m = true) /\
    isExpired (clock k) (d_Message d) = false /\
    consumerSessions (rt s) !! d_ConsumerID d = Some l /\ w_sessions (wd s) !! l = Some cs /\
    UnackedCount cs < ConsumerPrefetch (config (rt s)) /\
    deliveries (inFlightManager (rt s')) =
      <[token := mkInFlightMessage (d_Message d) (d_ConsumerID d) now]>
        (deliveries (inFlightManager (rt s))) /\
    messages (deadLetterQueue (rt s')) =
      messages (deadLetterQueue (rt s)) ++ take k (contents (queue (rt s))).
Proof.
  intros Hwf Hrun.
  destruct (reserveDelivery_spec (policy:=any_message) clock now token s Hwf)
    as (r & s2 & s1 & err & k & Hrun' & Hsim & Hsw & Hr).
  rewrite Hrun in Hrun'. injection Hrun' as <- <-. destruct err; [by destruct Hr|].
  destruct Hr as [(n & _ & id & cs & m & rest & q & Hid & Hcs & Hsid & Hlt & Hrd & Hp & -> & ->) _].
  pose proof (sw_ready _ _ _ _ _ _ Hsw) as Hre.
  destruct (pop_spec m rest _ (wf_queue _ (sim_wf _ _ Hsim)) Hrd) as (q' & Hp' & _ & Hct & _).
  rewrite Hp in Hp'. injection Hp' as <-.
  assert (contents (queue (rt s)) !! k = Some m) as Hk.
  { rewrite <- (Nat.add_0_r k), <- lookup_drop, <- Hre, Hrd. done. }
  rewrite Hre, (drop_S _ m k) in Hrd by done. injection Hrd as <-.
  pose proof (sweep_inflight _ _ _ _ _ _ Hsw) as (Hfl & _ & _ & Hreg & Hwd & _).
  destruct (sim_id _ _ Hsim) as (_ & Hcfg & _).
  exists k, cs. qsimpl. rewrite Hct, <- Hfl, <- Hreg, <- Hcfg, (sw_dead _ _ _ _ _ _ Hsw).
  rewrite Hwd in Hcs. simpl in Hcs.
  split_and!; try done.
  - exact (sw_expired _ _ _ _ _ _ Hsw).
  - exact (sw_stop _ _ _ _ _ _ Hsw m eq_refl Hk).
Qed.

(** With a steady clock a sweep moves exactly the expired messages at the
    front of the queue to the dead letter queue, in order, when the log takes
    its records; an expired message behind one that has not expired stays. *)
Theorem sweep_takes_expired_front now (s : QS) s' :
  rt_wf s -> checkExpiredMessages (fun _ => now) s = Done (None, s') ->
  messages (deadLetterQueue (rt s')) =
    messages (deadLetterQueue (rt s)) ++ expired_front now (contents (queue (rt s))) /\
  contents (queue (rt s')) = after_expired now (contents (queue (rt s))) /\
  inFlightManager (rt s') = inFlightManager (rt s).
Proof.
  intros Hwf Hrun. unfold checkExpiredMessages in Hrun.
  destruct (deadLetterExpired_spec (policy:=any_message) (fun _ => now) s Hwf)
    as (err & s1 & k & Hrun' & _ & Hsw).
  rewrite Hrun in Hrun'. injection Hrun' as <- <-.
  destruct (expired_front_spec now (contents (queue (rt s))) k) as [<- <-].
  - apply (sw_bound _ _ _ _ _ _ Hsw).
  - apply (sw_expired _ _ _ _ _ _ Hsw).
  - intros m. by apply (sw_stop _ _ _ _ _ _ Hsw).
  - rewrite (sw_dead _ _ _ _ _ _ Hsw), (sw_ready _ _ _ _ _ _ Hsw).
    by rewrite (proj1 (sweep_inflight _ _ _ _ _ _ Hsw)).
Qed.

(** C29: One delivery of a redelivery round always returns, and the state decides
    what becomes of it: while the queue is full nothing changes; otherwise, below
    the retry limit, it is logged and becomes the last ready message with one
    retry more, and at the limit it is logged and dead lettered; in both cases
    its entry leaves the in-flight table and the consumer gets its slot back, and
    when the append fails nothing but the log file is touched. For a queue with
    the invariant of the ring and any log. *)
Theorem redelivery_outcomes mr d (s : QS) :
  queue_ok (queue (rt s)) ->
  let m := d_Message d in
  let again := bool_decide (Retry m < mr) in
  let (err, w) :=
    Append (if again then rec_message Requeued (name (rt s)) (retried m) (ID m)
            else rec_message DeadLettered (name (rt s)) zeroMessage (ID m)) (w_wal (wd s)) in
  exists s', process_item mr d s = Done s' /\
  if decide (Size (queue (rt s)) = Capacity (queue (rt s))) then s' = s
  else match err with
  | Some _ => s' = set_wal w s
  | None =>
      w_wal (wd s') = w /\
      deliveries (inFlightManager (rt s')) = delete (d_AckToken d) (deliveries (inFlightManager (rt s))) /\
      w_sessions (wd s') = credited (d_ConsumerID d) s /\
      if again then
        contents (queue (rt s')) = contents (queue (rt s)) ++ [retried m] /\
        deadLetterQueue (rt s') = deadLetterQueue (rt s) /\
        redeliveredCount (rt s') = redeliveredCount (rt s) ⊕ 1 /\ notifyDistributor (rt s') = true
      else
        queue (rt s') = queue (rt s) /\
        messages (deadLetterQueue (rt s')) = messages (deadLetterQueue (rt s)) ++ [m] /\
        deadletteredCount (rt s') = deadletteredCount (rt s) ⊕ 1
  end.
Proof.
  intros Hq m again. destruct (Append _ _) as [err w] eqn:Ea. unfold process_item.
  destruct (decide _) as [Hf|Hf]; [rewrite bool_decide_true by done; eauto|].
  rewrite bool_decide_false by done. unfold wal_append.
  assert (bool_decide (Retry (d_Message d) >= mr) = negb again) as ->.
  { unfold again. fold m. case_bool_decide; case_bool_decide; done || lia. }
  destruct again; cbn [negb].
  - change (mkMessage _ _ _ _ _) with (retried m) in *. change (ID (retried m)) with (ID m).
    rewrite Ea. destruct err as [e|]; [eauto|].
    destruct (push_spec (retried m) _ Hq) as (q & Hp & _ & Hct & _).
    { pose proof (size_le_capacity _ Hq). lia. }
    unfold push_queue. simpl. rewrite Hp. simpl. eexists. split; [reflexivity|]. qsimpl.
    split_and!; try done.
  - fold m. rewrite Ea. destruct err as [e|]; [eauto|]. eexists. split; [reflexivity|]. qsimpl.
    split_and!; try done.
Qed.

(** [Shutdown] closes: the sessions that were registered are closed and
    forgotten, no publisher is left waiting, the messages stay as they are, and
    [Publish] and [Subscribe] answer [ErrBrokerClosed] from then on. *)
Theorem shutdown_closes (s : QS) :
  rt_wf s -> exists s', Shutdown s = Done s' /\ rt_wf s' /\ abs s' = abs s /\
    (forall id l cs, consumerSessions (rt s) !! id = Some l -> w_sessions (wd s') !! l = Some cs ->
       Closed cs = true) /\
    consumerSessions (rt s') = ∅ /\ waiting (condProd (rt s')) = 0%nat /\
    (forall now id m ttl, Publish now id m ttl s' = Done (PubReturned (Some ErrBrokerClosed), s')) /\
    (forall l, Subscribe l s' = Done (Some ErrBrokerClosed, s')).
Proof.
  intros Hwf. destruct (close_runtime_sim (policy:=any_message) s Hwf) as (s' & Hrun & Hsim & Hcl).
  exists s'. unfold Shutdown. split; [done|]. split; [apply Hsim|].
  unfold close_runtime in Hrun. go_inv Hrun. split_and!; try done. apply Hcl.
Qed.

(** [CloseIfEmpty] succeeds exactly on a queue with no ready message and no
    delivery in flight, and otherwise leaves it untouched. *)
Theorem close_if_empty_outcomes (s : QS) :
  rt_wf s -> exists b s', CloseIfEmpty s = Done (b, s') /\ closed (rt s') = (b || closed (rt s)) /\
    (b = true <-> contents (queue (rt s)) = [] /\ deliveries (inFlightManager (rt s)) = ∅) /\
    (b = false -> s' = s).
Proof.
  intros Hwf. pose proof (ready_size s Hwf) as Hsz. unfold CloseIfEmpty.
  assert (mgr_Size (inFlightManager (rt s)) = 0 <-> deliveries (inFlightManager (rt s)) = ∅) as Hm.
  { unfold mgr_Size. split; [|by intros ->].
    intros H. apply map_size_empty_inv. lia. }
  assert (Size (queue (rt s)) = 0 <-> contents (queue (rt s)) = []) as Hc.
  { rewrite Hsz, <- length_zero_iff_nil. lia. }
  case_match eqn:E.
  - exists false, s. split_and!; try done. split; [done|]. intros [H1 H2].
    apply Hc in H1. apply Hm in H2. apply orb_true_iff in E as [E|E]; by apply bool_decide_eq_true in E.
  - apply orb_false_iff in E as [E1 E2].
    apply bool_decide_eq_false, dec_stable in E1, E2.
    destruct (close_runtime_sim (policy:=any_message) s Hwf) as (s' & Hrun & _). rewrite Hrun. simpl.
    exists true, s'. split; [done|]. split; [unfold close_runtime in Hrun; by go_inv Hrun|].
    split; [|done]. split; [|done]. intros _. split; [by apply Hc|by apply Hm].
Qed.

End Ops.

(** ** The theorems on concrete states *)

Abbreviation CQ := (QState RingBufferQueue FileWAL).

Lemma demo_wf : rt_wf (qs (demo_sys tiny [])).
Proof. apply (started_spec "jobs" tiny [] _ (tiny_started [] ltac:(constructor))). Qed.

Lemma script_wf es s' :
  script_ok (fun _ _ => true) es (demo_sys tiny []) = true ->
  sys_run es (demo_sys tiny []) = Some (Done s') -> sys_wf s'.
Proof.
  intros Hok Hrun.
  destruct (started_spec "jobs" tiny [] _ (tiny_started [] ltac:(constructor))) as [Hwf _].
  apply (runs_sim (policy:=any_message) (demo_sys tiny []) s' Hwf).
  apply (script_runs _ (fun _ _ => true) es); [by intros []|done|done].
Qed.

Lemma flying_wf : rt_wf (qs flying).
Proof. apply (script_wf flying_script); by vm_compute. Qed.

(** The state evaluated. *)
Definition flying_state : CQ := Eval vm_compute in (qs flying).

Lemma flying_state_ok : queue_ok (queue (rt flying_state)).
Proof.
  assert (qs flying = flying_state) as <- by (vm_compute; reflexivity). apply (wf_queue _ flying_wf).
Qed.

Lemma publish_outcomes_witness :
  exists s', Publish 20 "m3" (msg "") 5 flying_state = Done (PubReturned None, s') /\
    contents (queue (rt s')) = contents (queue (rt flying_state)) ++ [stamp 20 "m3" (msg "") 5].
Proof.
  destruct (publish_outcomes 20 "m3" (msg "") 5 flying_state flying_state_ok)
    as (r & s' & Hp & -> & _ & Hc & _).
  exists s'. split; [exact Hp|exact Hc].
Defined.

(** The acknowledgement of a delivery, by computation. *)
Example ack_demo :
  let (err, s) := Ack "t2" (qs flying) in err = None /\ deliveries (inFlightManager (rt s)) = ∅.
Proof. vm_compute. done. Qed.

(** Two consumers, the first at its limit. *)
Definition two_script : list event :=
  [ ESubscribe 1 "c1"; ESubscribe 2 "c2"; EPublish 10 "m1" (msg "") 0; DCheck; DNotified;
    DReserve (fun _ => 12) 12 "t1"; DSent ].

Definition two_consumers : Sys RingBufferQueue FileWAL :=
  match sys_run two_script (demo_sys tiny []) with Some (Done s) => s | _ => flying end.

Lemma two_consumers_wf : rt_wf (qs two_consumers).
Proof. apply (script_wf two_script); by vm_compute. Qed.

Lemma next_session_round_robin_witness :
  nextSession (qs two_consumers) =
  Done (Some 2%nat, upd_rt (set_nextConsumer 0) (qs two_consumers)).
Proof.
  etransitivity.
  - apply (next_session_round_robin (qs two_consumers) two_consumers_wf).
    vm_compute. discriminate.
  - vm_compute. reflexivity.
Defined.

(** One message that expires at 15 and one that does not. *)
Definition expiring_script : list event :=
  [ESubscribe 1 "c1"; EPublish 10 "m1" (msg "") 5; EPublish 11 "m2" (msg "") 0].

Definition two_ready : CQ :=
  qs (match sys_run expiring_script (demo_sys tiny []) with Some (Done s) => s | _ => flying end).

Lemma two_ready_wf : rt_wf two_ready.
Proof. apply (script_wf expiring_script); by vm_compute. Qed.

Definition two_reserved : CQ :=
  match reserveDelivery (fun _ => 20) 20 "t1" two_ready with Done (_, s) => s | _ => two_ready end.

Definition second_delivery : Delivery := mkDelivery (stamp 11 "m2" (msg "") 0) "t1" "c1".

Lemma reserve_first_unexpired_witness :
  isExpired 20 (d_Message second_delivery) = false /\
  exists k, contents (queue (rt two_ready)) !! k = Some (d_Message second_delivery).
Proof.
  destruct (reserve_first_unexpired (fun _ => 20) 20 "t1" two_ready 1%nat second_delivery two_reserved)
    as (k & cs & Hk & _ & _ & He & _).
  - exact two_ready_wf.
  - vm_compute. reflexivity.
  - split; [exact He|]. exists k. exact Hk.
Defined.

Definition two_swept : CQ :=
  match checkExpiredMessages (fun _ => 20) two_ready with Done (_, s) => s | _ => two_ready end.

Lemma sweep_takes_expired_front_witness :
  contents (queue (rt two_swept)) = after_expired 20 (contents (queue (rt two_ready))).
Proof.
  apply (sweep_takes_expired_front 20 two_ready two_swept).
  - exact two_ready_wf.
  - vm_compute. reflexivity.
Defined.

Definition flying_delivery : Delivery := mkDelivery (mkMessage "m2" "payload" 11 0 None) "t2" "c1".

Lemma redelivery_outcomes_witness :
  exists s', process_item 3 flying_delivery flying_state = Done s' /\
    contents (queue (rt s')) =
      contents (queue (rt flying_state)) ++ [mkMessage "m2" "payload" 11 1 None].
Proof.
  destruct (redelivery_outcomes 3 flying_delivery flying_state flying_state_ok)
    as (s' & Hp & _ & _ & _ & Hc & _).
  exists s'. split; [exact Hp|exact Hc].
Defined.

Lemma shutdown_closes_witness :
  exists s', Shutdown (qs flying) = Done s' /\ consumerSessions (rt s') = ∅.
Proof.
  destruct (shutdown_closes (qs flying) flying_wf) as (s' & H & _ & _ & _ & Hc & _).
  exists s'. split; [exact H|exact Hc].
Defined.

Lemma close_if_empty_outcomes_witness :
  exists b s', CloseIfEmpty (qs flying) = Done (b, s') /\ (b = false -> s' = qs flying).
Proof.
  destruct (close_if_empty_outcomes (qs flying) flying_wf) as (b & s' & H & _ & _ & Hb).
  exists b, s'. split; [exact H|exact Hb].
Defined.
