(* ===== verification/QueueAnomalies.v ===== *)
(** Executions in which a queue does not do what its comments and the README
    promise, each a concrete run of the model from a new queue. They show that
    the side conditions of the theorems on runs cannot be dropped. *)

From S2P Require Import Prelude GoStrings Model RingBuffer Inflight Exchange Wal QueueRuntime.
From S2P Require Import System QueueSpec QueueInv RoundRobin QueueRefine QueueDeliver.
From S2P Require Import Redelivery SystemInv QueueCases Prefetch Flow QueueTheorems.

(** A predicate on the end of a script that runs to completion. *)
Definition ends (cfg : Config) (io : list io_outcome) (es : list event)
    (P : Sys RingBufferQueue FileWAL -> Prop) : Prop :=
  match sys_run es (demo_sys cfg io) with
  | Some (Done s) => P s
  | _ => False
  end.

(** The first message is reserved for a consumer that then leaves, a publisher
    fills the queue, and the distributor puts the message back. *)
Definition overflow_script : list event :=
  [ ESubscribe 1 "c1"; EPublish 10 "m1" (msg "") 0; DCheck; DNotified;
    DReserve (fun _ => 11) 11 "t1"; EUnsubscribe "c1"; EPublish 12 "m2" (msg "") 0; DSawClosed ].

Definition one_slot : Config := mkConfig (100 * second) (5 * second) second 3 1 1.

(** [cancelReservation] pushes without a look at the capacity: the ring then
    counts two messages in one slot, the message published last is gone, and
    [Publish] no longer waits. The log still holds both. *)
Theorem cancel_overflows_ring :
  ends one_slot [] overflow_script (fun s =>
    Size (queue (rt (qs s))) = 2 /\ Capacity (queue (rt (qs s))) = 1 /\
    (ID <$> contents (queue (rt (qs s)))) = ["m1"; "m1"] /\
    (ID <$> pending_of (replay (wal_log (w_wal (wd (qs s))))) "jobs") = ["m1"; "m2"] /\
    (exists q, Publish 13 "m3" (msg "") 0 (qs s) = Done (PubReturned None, q))).
Proof. vm_compute. repeat split; try reflexivity. eexists. reflexivity. Qed.

(** The only consumer is at its limit, its delivery times out and is dead
    lettered. *)
Definition stall_script : list event :=
  [ ESubscribe 1 "c1"; EPublish 10 "m1" (msg "") 0; EPublish 11 "m2" (msg "") 0; DCheck;
    DNotified; DReserve (fun _ => 12) 12 "t1"; DSent; DReserve (fun _ => 13) 13 "t2"; DCheck;
    RTick; RProcess (200 * second) [mkDelivery (mkMessage "m1" "payload" 10 0 None) "t1" "c1"] ].

Definition no_retries : Config := mkConfig (100 * second) (5 * second) second 0 2 1.

(** The dead-letter branch of [processExpiredMessages] frees the consumer but
    does not notify: the distributor sleeps although a message is ready and the
    consumer may take it. *)
Theorem dead_letter_round_stalls :
  ends no_retries [] stall_script (fun s =>
    dist s = DSelect /\ notifyDistributor (rt (qs s)) = false /\ closed (rt (qs s)) = false /\
    (ID <$> contents (queue (rt (qs s)))) = ["m2"] /\
    eligible (rt (qs s)) (w_sessions (wd (qs s))) "c1" = true).
Proof. vm_compute. repeat split; reflexivity. Qed.

(** A consumer leaves with a delivery in flight and comes back under the same
    identifier. *)
Definition resubscribe_script : list event :=
  [ ESubscribe 1 "c1"; EPublish 10 "m1" (msg "") 0; EPublish 11 "m2" (msg "") 0; DCheck;
    DNotified; DReserve (fun _ => 12) 12 "t1"; DSent; DReserve (fun _ => 13) 13 "t2";
    EUnsubscribe "c1"; ESubscribe 2 "c1"; DCheck; DNotified; DReserve (fun _ => 14) 14 "t2" ].

(** The new session starts at zero, so two deliveries are in flight to an
    identifier whose limit is one; acknowledging the first brings the count of
    the new session to zero while its own delivery is still unacknowledged. *)
Theorem resubscribe_exceeds_prefetch :
  ends tiny [] resubscribe_script (fun s =>
    flight_count "c1" (deliveries (inFlightManager (rt (qs s)))) = 2 /\
    ConsumerPrefetch (config (rt (qs s))) = 1 /\
    UnackedCount <$> w_sessions (wd (Ack "t1" (qs s)).2) !! 2%nat = Some 0).
Proof. vm_compute. repeat split; reflexivity. Qed.

(** Two publishers wait on a full queue; a delivery makes room and releases the
    first, whose append fails. *)
Definition lost_wakeup_script : list event :=
  [ ESubscribe 1 "c1"; EPublish 10 "m1" (msg "") 0; EPublish 11 "m2" (msg "") 0;
    EPublish 12 "m3" (msg "") 0; EPublish 13 "m4" (msg "") 0; DCheck; DNotified;
    DReserve (fun _ => 14) 14 "t1"; EResume 15 "m3" (msg "") 0 ].

(** [Publish] returns the error without passing its wakeup on: the second
    publisher waits although there is room and nobody is left to wake it. *)
Theorem failed_append_loses_wakeup :
  ends tiny [IoOk; IoOk; IoMarshalErr] lost_wakeup_script (fun s =>
    condProd (rt (qs s)) = mkCond 1 0 /\
    Size (queue (rt (qs s))) = 1 /\ Capacity (queue (rt (qs s))) = 2 /\
    closed (rt (qs s)) = false).
Proof. vm_compute. repeat split; reflexivity. Qed.

(** Two messages with the same identifier, the first acknowledged. *)
Definition same_id_script : list event :=
  [ ESubscribe 1 "c1"; EPublish 10 "" (msg "x") 0; EPublish 11 "" (msg "x") 0; DCheck;
    DNotified; DReserve (fun _ => 12) 12 "t1"; DSent; EAck "t1" ].

(** [Publish] keeps an identifier the client chose, and replay removes by
    identifier: the message that is still ready would be lost on a restart. *)
Theorem same_id_lost_on_restart :
  ends tiny [] same_id_script (fun s =>
    (ID <$> contents (queue (rt (qs s)))) = ["x"] /\
    pending_of (replay (wal_log (w_wal (wd (qs s))))) "jobs" = []).
Proof. vm_compute. repeat split; reflexivity. Qed.

(** The queue is closed while the distributor sleeps. *)
Definition closed_script : list event :=
  [ DCheck; DNotified; DReserve (fun _ => 12) 12 "t1"; DCheck; ECloseIfEmpty ].

(** [CloseIfEmpty] does not notify: no step of the distributor of a deleted
    queue is enabled until the broker's context ends. *)
Theorem closed_queue_keeps_distributor :
  ends tiny [] closed_script (fun s =>
    closed (rt (qs s)) = true /\ dist s = DSelect /\
    forall e, is_dist e = true -> sys_step e s = None).
Proof. vm_compute. split; [reflexivity|]. split; [reflexivity|]. by intros []. Qed.

(** An expired message behind one that does not expire. *)
Definition hidden_script : list event :=
  [ EPublish 10 "m1" (msg "") 0; EPublish 11 "m2" (msg "") 5; XTick; XProcess (fun _ => 1000) ].

(** The sweep looks at the head of the queue only. *)
Theorem expired_message_behind_head_stays :
  ends tiny [] hidden_script (fun s =>
    (ID <$> contents (queue (rt (qs s)))) = ["m1"; "m2"] /\
    (isExpired 1000 <$> contents (queue (rt (qs s)))) = [false; true] /\
    messages (deadLetterQueue (rt (qs s))) = []).
Proof. vm_compute. repeat split; reflexivity. Qed.
