(* ===== verification/Broker.v ===== *)
(** The broker of [internal/engine/mem_broker.go] and its recovery in
    [broker.go]: named queues as pointers into a heap of runtimes, exchanges,
    the token table and the log they share, and every method of the [Broker]
    interface. Go leaves the order of a map iteration open: the class
    [MapRange] stands for any such order. *)

From S2P Require Import Prelude GoStrings Model RingBuffer Inflight Exchange Wal QueueRuntime.

(** ** Map iteration and allocation *)

(** [for k, v := range m]: the entries of a map in some order. *)
Class MapRange := {
  range : forall {A}, gmap string A -> list (string * A);
  range_perm A (m : gmap string A) : range m ≡ₚ map_to_list m;
}.

(** One order, for running the model. *)
#[export] Instance list_range : MapRange := {
  range A m := map_to_list m;
  range_perm A m := Permutation_refl _;
}.

(** A pointer that is not in use. *)
Definition new_ptr {A} (m : gmap nat A) : nat :=
  foldr (fun p n => Nat.max (S p.1) n) 0%nat (map_to_list m).

Lemma new_ptr_fresh {A} (m : gmap nat A) : m !! new_ptr m = None.
Proof.
  destruct (m !! new_ptr m) as [x|] eqn:E; [|done]. exfalso.
  apply elem_of_map_to_list in E.
  assert (forall (l : list (nat * A)) p, p ∈ l -> (p.1 < foldr (fun p n => Nat.max (S p.1) n) 0 l)%nat) as H.
  { induction l as [|y l IH]; intros p; [by intros ?%elem_of_nil|]. simpl.
    intros [->|Hp]%elem_of_cons; [lia|]. specialize (IH p Hp). lia. }
  apply H in E. unfold new_ptr in E. simpl in E. lia.
Qed.

(** ** Validation *)

Definition validateQueueName (name : string) : option Err :=
  if bool_decide (name = "") || bool_decide (255 < String.length name)%nat
  then Some ErrInvalidQueue else None.

(** On runes, as numbers. *)
Definition isValidBindingKeyChar (r : Z) : bool :=
  (bool_decide (r >= 97) && bool_decide (r <= 122)) ||
  (bool_decide (r >= 65) && bool_decide (r <= 90)) ||
  (bool_decide (r >= 48) && bool_decide (r <= 57)) ||
  bool_decide (r = 95) || bool_decide (r = 45).

(** The loop over the segments; [last] is [len(segments)-1]. *)
Fixpoint validate_segments (last : Z) (i : Z) (segments : list string) : option Err :=
  match segments with
  | [] => None
  | segment :: rest =>
      if bool_decide (segment = "") then Some ErrInvalidBindingKey
      else if bool_decide (segment = "#") then
        if bool_decide (i <> last) then Some ErrInvalidBindingKey
        else validate_segments last (i + 1) rest
      else if bool_decide (segment = "*") then validate_segments last (i + 1) rest
      else if forallb isValidBindingKeyChar (runes segment)
      then validate_segments last (i + 1) rest
      else Some ErrInvalidBindingKey
  end.

Definition validateBindingKey (bindingKey : string) : option Err :=
  if bool_decide (bindingKey = "") || bool_decide (255 < String.length bindingKey)%nat
  then Some ErrInvalidBindingKey
  else
    let segments := strings_Split dot bindingKey in
    validate_segments (Z.of_nat (length segments) - 1) 0 segments.

Definition validateExchangeName (name : string) : option Err :=
  if bool_decide (name = "") || bool_decide (255 < String.length name)%nat
  then Some ErrInvalidExchange
  else if bool_decide (name = DefaultExchangeName) then Some ErrDefaultExchange
  else None.

Definition validateExchangeType (name : string) : ExchangeType + Err :=
  if bool_decide (255 < String.length name)%nat then inr ErrInvalidExchangeType
  else if bool_decide (name = "") then inr ErrInvalidExchangeType
  else if bool_decide (name = ExchangeType_string FanOutExchange) then inl FanOutExchange
  else if bool_decide (name = ExchangeType_string TopicExchange) then inl TopicExchange
  else if bool_decide (name = ExchangeType_string DirectExchange) then inl DirectExchange
  else inr ErrInvalidExchangeType.

(** ** State *)

(** [InMemoryBroker]. [b_runtimes] is the heap the queue pointers lead to,
    [b_world] the log, the sessions and [tokenOwners]; [b_running] are the
    runtimes whose goroutines [startQueue] has started, [b_cancelled] says
    whether their context has ended. *)
Record InMemoryBroker {W : Type} := mkBroker {
  b_started : bool;
  b_closed : bool;
  b_cfg : Config;
  b_queues : gmap string nat;
  b_exchanges : gmap string Exchange;
  b_runtimes : gmap nat (QueueRuntime RingBufferQueue);
  b_world : World W;
  b_running : gset nat;
  b_cancelled : bool;
}.
Arguments InMemoryBroker W : clear implicits.
Arguments mkBroker {W}.

Definition set_b_queues {W} (v : gmap string nat) (b : InMemoryBroker W) : InMemoryBroker W :=
  mkBroker (b_started b) (b_closed b) (b_cfg b) v (b_exchanges b) (b_runtimes b) (b_world b)
    (b_running b) (b_cancelled b).
Definition set_b_exchanges {W} (v : gmap string Exchange) (b : InMemoryBroker W) : InMemoryBroker W :=
  mkBroker (b_started b) (b_closed b) (b_cfg b) (b_queues b) v (b_runtimes b) (b_world b)
    (b_running b) (b_cancelled b).
Definition set_b_runtimes {W} (v : gmap nat (QueueRuntime RingBufferQueue)) (b : InMemoryBroker W)
    : InMemoryBroker W :=
  mkBroker (b_started b) (b_closed b) (b_cfg b) (b_queues b) (b_exchanges b) v (b_world b)
    (b_running b) (b_cancelled b).
Definition set_b_world {W} (v : World W) (b : InMemoryBroker W) : InMemoryBroker W :=
  mkBroker (b_started b) (b_closed b) (b_cfg b) (b_queues b) (b_exchanges b) (b_runtimes b) v
    (b_running b) (b_cancelled b).
Definition set_b_running {W} (v : gset nat) (b : InMemoryBroker W) : InMemoryBroker W :=
  mkBroker (b_started b) (b_closed b) (b_cfg b) (b_queues b) (b_exchanges b) (b_runtimes b)
    (b_world b) v (b_cancelled b).

Section Broker.
Context {W : Type} `{!WAL W} {Hrange : MapRange}.
Abbreviation BR := (InMemoryBroker W).
Abbreviation QS := (QState RingBufferQueue W).

(** [b.wal.Append(record)] *)
Definition broker_append (record : WalRecord) (b : BR) : option Err * BR :=
  let (err, w) := Append record (w_wal (b_world b)) in
  (err, set_b_world (mkWorld w (w_sessions (b_world b)) (w_tokenOwners (b_world b))) b).

(** A method of the runtime at pointer [p]. *)
Definition on_runtime {A} (p : nat) (f : QS -> GoM (A * QS)) (b : BR) : GoM (A * BR) :=
  match b_runtimes b !! p with
  | None => Panic
  | Some r =>
      let! (a, s) := f (mkQState r (b_world b)) in
      Done (a, set_b_world (wd s) (set_b_runtimes (<[p := rt s]> (b_runtimes b)) b))
  end.

(** ** Construction *)

Definition NewInMemoryBroker (cfg : Config) (wal : W) (sessions : gmap nat ConsumerSession) : BR :=
  mkBroker false false cfg ∅
    {[DefaultExchangeName := NewDirectExchange DefaultExchangeName]} ∅
    (mkWorld wal sessions ∅) ∅ false.

Definition newQueueRuntime (name : string) (messages : list Message) (b : BR) : GoM (nat * BR) :=
  let! q := NewRingBufferQueue (Z.max (QueueSize (b_cfg b)) (Z.of_nat (length messages))) in
  let! runtime := NewQueueRuntime name (b_cfg b) messages q NewDLQ NewManager in
  let p := new_ptr (b_runtimes b) in
  Done (p, set_b_runtimes (<[p := SetTokenHooks p runtime]> (b_runtimes b)) b).

Definition startQueue (p : nat) (b : BR) : BR := set_b_running ({[p]} ∪ b_running b) b.

(** ** Queues *)

Definition CreateQueue (name : string) (b : BR) : GoM (option Err * BR) :=
  match validateQueueName name with
  | Some err => Done (Some err, b)
  | None =>
      if b_closed b then Done (Some ErrBrokerClosed, b)
      else if bool_decide (is_Some (b_queues b !! name)) then Done (Some ErrQueueExists, b)
      else
        let (err, b) := broker_append (rec_queue QueueCreated name) b in
        match err with
        | Some e => Done (Some e, b)
        | None =>
            let! (p, b) := newQueueRuntime name [] b in
            let b := set_b_queues (<[name := p]> (b_queues b)) b in
            Done (None, if b_started b then startQueue p b else b)
        end
  end.

(** The loop of [DeleteQueue] over the exchanges. *)
Fixpoint unbind_all (entries : list (string * Exchange)) (name : string) (b : BR)
    : option Err * BR :=
  match entries with
  | [] => (None, b)
  | (exchangeName, exchange) :: rest =>
      let (err, exchange') := Unbind "" name exchange in
      match err with
      | Some ErrBindingNotExist => unbind_all rest name b
      | Some e => (Some e, b)
      | None =>
          let b := set_b_exchanges (<[exchangeName := exchange']> (b_exchanges b)) b in
          let (err, b) := broker_append (rec_binding QueueUnbinded exchangeName name "") b in
          match err with
          | Some e => (Some e, b)
          | None => unbind_all rest name b
          end
      end
  end.

Definition DeleteQueue (name : string) (b : BR) : GoM (option Err * BR) :=
  if bool_decide (name = DefaultQueueName) then Done (Some ErrInvalidQueue, b)
  else match b_queues b !! name with
  | None => Done (Some ErrQueueNotFound, b)
  | Some p =>
      let! (emptied, b) := on_runtime p CloseIfEmpty b in
      if negb emptied then Done (Some ErrQueueNotEmpty, b)
      else
        let (err, b) := broker_append (rec_queue QueueDeleted name) b in
        match err with
        | Some e => Done (Some e, b)
        | None =>
            let b := set_b_queues (delete name (b_queues b)) b in
            let (err, b) := unbind_all (range (b_exchanges b)) name b in
            match err with
            | Some e => Done (Some e, b)
            | None =>
                let! (_, b) := on_runtime p (fun s => let! s := Shutdown s in Done (tt, s)) b in
                let wd := b_world b in
                Done (None, set_b_world (mkWorld (w_wal wd) (w_sessions wd)
                        (filter (fun e => e.2 <> p) (w_tokenOwners wd))) b)
            end
        end
  end.

Definition ListQueues (b : BR) : list string := slices_Sort (range (b_queues b)).*1.

(** ** Bindings *)

Definition BindQueue (exchangeName queueName bindingKey : string) (b : BR) : option Err * BR :=
  match validateBindingKey bindingKey with
  | Some err => (Some err, b)
  | None =>
      match b_exchanges b !! exchangeName with
      | None => (Some ErrExchangeNotFound, b)
      | Some exchange =>
          match b_queues b !! queueName with
          | None => (Some ErrQueueNotFound, b)
          | Some _ =>
              let (err, exchange') := Bind bindingKey queueName exchange in
              let b := set_b_exchanges (<[exchangeName := exchange']> (b_exchanges b)) b in
              match err with
              | Some e => (Some e, b)
              | None =>
                  let (err, b) :=
                    broker_append (rec_binding QueueBinded exchangeName queueName bindingKey) b in
                  (err, b)
              end
          end
      end
  end.

Definition UnbindQueue (exchangeName queueName bindingKey : string) (b : BR) : option Err * BR :=
  match b_exchanges b !! exchangeName with
  | None => (Some ErrExchangeNotFound, b)
  | Some exchange =>
      match b_queues b !! queueName with
      | None => (Some ErrQueueNotFound, b)
      | Some _ =>
          let (err, exchange') := Unbind bindingKey queueName exchange in
          let b := set_b_exchanges (<[exchangeName := exchange']> (b_exchanges b)) b in
          match err with
          | Some e => (Some e, b)
          | None =>
              let (err, b) :=
                broker_append (rec_binding QueueUnbinded exchangeName queueName bindingKey) b in
              (err, b)
          end
      end
  end.

(** ** Exchanges *)

Definition CreateExchange (exchangeName exchangeType : string) (b : BR) : option Err * BR :=
  match validateExchangeName exchangeName with
  | Some err => (Some err, b)
  | None =>
      match validateExchangeType exchangeType with
      | inr err => (Some err, b)
      | inl validatedExchangeType =>
          match b_exchanges b !! exchangeName with
          | Some _ => (Some ErrExchangeExists, b)
          | None =>
              let (err, b) :=
                broker_append (rec_exchange ExchangeCreated exchangeName exchangeType) b in
              match err with
              | Some e => (Some e, b)
              | None =>
                  (None, set_b_exchanges
                     (<[exchangeName := NewExchangeFactory exchangeName validatedExchangeType]>
                        (b_exchanges b)) b)
              end
          end
      end
  end.

Definition DeleteExchange (exchangeName : string) (b : BR) : option Err * BR :=
  match validateExchangeName exchangeName with
  | Some err => (Some err, b)
  | None =>
      match b_exchanges b !! exchangeName with
      | None => (Some ErrExchangeNotFound, b)
      | Some exchange =>
          if bool_decide (0 < length (ListBindings exchange))%nat then (Some ErrExchangeNotEmpty, b)
          else
            let (err, b) := broker_append (rec_exchange ExchangeDeleted exchangeName "") b in
            match err with
            | Some e => (Some e, b)
            | None => (None, set_b_exchanges (delete exchangeName (b_exchanges b)) b)
            end
      end
  end.

Definition ListExchanges (b : BR) : list string := slices_Sort (range (b_exchanges b)).*1.

(** ** Messages *)

(** [queue]: the runtime of a name; the empty name is the default queue. *)
Definition broker_queue (name : string) (b : BR) : nat + Err :=
  let name := if bool_decide (name = "") then DefaultQueueName else name in
  if b_closed b then inr ErrBrokerClosed
  else match b_queues b !! name with
  | None => inr ErrQueueNotFound
  | Some p => inl p
  end.

(** A call of [Publish] returned, or waits in the runtime at a pointer with
    queues of the route still to come. *)
Inductive broker_publish_result :=
| BReturned (err : option Err)
| BBlocked (p : nat) (rest : list string).

(** The loop of [Publish] over the route; round [i] reads the clock and draws
    the identifier at index [i]. *)
Fixpoint publish_loop (now : nat -> Z) (newID : nat -> string) (payload : Message) (ttl : Z)
    (i : nat) (queueNames : list string) (b : BR) : GoM (broker_publish_result * BR) :=
  match queueNames with
  | [] => Done (BReturned None, b)
  | queueName :: rest =>
      match broker_queue queueName b with
      | inr err => Done (BReturned (Some err), b)
      | inl p =>
          let! (r, b) := on_runtime p (QueueRuntime.Publish (now i) (newID i) payload ttl) b in
          match r with
          | PubBlocked => Done (BBlocked p rest, b)
          | PubReturned (Some err) => Done (BReturned (Some err), b)
          | PubReturned None => publish_loop now newID payload ttl (S i) rest b
          end
      end
  end.

Definition Broker_Publish (now : nat -> Z) (newID : nat -> string)
    (exchangeName routingKey : string) (payload : Message) (ttl : Z) (b : BR)
    : GoM (broker_publish_result * BR) :=
  match b_exchanges b !! exchangeName with
  | None => Done (BReturned (Some ErrExchangeNotFound), b)
  | Some exchange =>
      let! queueNames := Route exchange routingKey in
      if bool_decide (queueNames = []) then Done (BReturned (Some ErrNoRoute), b)
      else publish_loop now newID payload ttl 0 queueNames b
  end.

(** A waiting call goes on once its runtime has released it. *)
Definition Broker_Publish_resume (now : nat -> Z) (newID : nat -> string) (payload : Message)
    (ttl : Z) (p : nat) (rest : list string) (b : BR) : GoM (broker_publish_result * BR) :=
  let! (r, b) := on_runtime p (Publish_resume (now 0%nat) (newID 0%nat) payload ttl) b in
  match r with
  | PubBlocked => Done (BBlocked p rest, b)
  | PubReturned (Some err) => Done (BReturned (Some err), b)
  | PubReturned None => publish_loop now newID payload ttl 1 rest b
  end.

Definition Broker_Subscribe (queueName : string) (l : nat) (b : BR) : GoM (option Err * BR) :=
  match broker_queue queueName b with
  | inr err => Done (Some err, b)
  | inl p => on_runtime p (QueueRuntime.Subscribe l) b
  end.

Definition Broker_Unsubscribe (queueName sessionID : string) (b : BR) : GoM BR :=
  match broker_queue queueName b with
  | inr _ => Done b
  | inl p =>
      let! (_, b) :=
        on_runtime p (fun s => let! s := QueueRuntime.Unsubscribe sessionID s in Done (tt, s)) b in
      Done b
  end.

Definition Broker_Ack (token : string) (b : BR) : GoM (option Err * BR) :=
  match w_tokenOwners (b_world b) !! token with
  | None => Done (Some ErrInvalidAckToken, b)
  | Some p => on_runtime p (fun s => Done (QueueRuntime.Ack token s)) b
  end.

(** ** Metrics *)

Definition add_metric (total m : Metric) : Metric :=
  mkMetric (ProducedCount total ⊕ ProducedCount m) (AckedCount total ⊕ AckedCount m)
    (DlqCount total ⊕ DlqCount m) (InflightCount total ⊕ InflightCount m)
    (RedeliveredCount total ⊕ RedeliveredCount m)
    (ConsumerSessionCount total ⊕ ConsumerSessionCount m) (QueueDepth total ⊕ QueueDepth m).

Fixpoint metrics_loop (entries : list (string * nat)) (b : BR) (queues : list QueueMetric)
    (total : Metric) : GoM (list QueueMetric * Metric) :=
  match entries with
  | [] => Done (queues, total)
  | (name, p) :: rest =>
      match b_runtimes b !! p with
      | None => Panic
      | Some r =>
          let metric := QueueRuntime.Metrics r in
          metrics_loop rest b (queues ++ [mkQueueMetric name metric]) (add_metric total metric)
      end
  end.

(** [strings.Compare] on the names, as an order. *)
Definition metric_le (a b : QueueMetric) : Prop := String.le (qm_Name a) (qm_Name b).

#[export] Instance metric_le_dec : RelDecision metric_le.
Proof. intros a b. unfold metric_le. apply _. Defined.

Definition Broker_Metrics (b : BR) : GoM BrokerMetrics :=
  let! (queues, total) := metrics_loop (range (b_queues b)) b [] zeroMetric in
  Done (mkBrokerMetrics (merge_sort metric_le queues) total).

Definition QueueMetrics (queueName : string) (b : BR) : GoM (Metric * option Err) :=
  match broker_queue queueName b with
  | inr err => Done (zeroMetric, Some err)
  | inl p =>
      match b_runtimes b !! p with
      | None => Panic
      | Some r => Done (QueueRuntime.Metrics r, None)
      end
  end.

(** ** Life cycle *)

Definition Broker_Start (b : BR) : BR :=
  if b_started b || b_closed b then b
  else
    let b := mkBroker true (b_closed b) (b_cfg b) (b_queues b) (b_exchanges b) (b_runtimes b)
               (b_world b) (b_running b) (b_cancelled b) in
    foldl (fun b p => startQueue p b) b (range (b_queues b)).*2.

Fixpoint shutdown_loop (ps : list nat) (b : BR) : GoM BR :=
  match ps with
  | [] => Done b
  | p :: rest =>
      let! (_, b) :=
        on_runtime p (fun s => let! s := QueueRuntime.Shutdown s in Done (tt, s)) b in
      shutdown_loop rest b
  end.

(** [Shutdown] up to [wg.Wait]: [cancel] is nil before [Start]. *)
Definition Broker_Shutdown (b : BR) : GoM BR :=
  if b_closed b then Done b
  else
    let b := mkBroker (b_started b) true (b_cfg b) (b_queues b) (b_exchanges b) (b_runtimes b)
               (b_world b) (b_running b) (b_cancelled b) in
    let! b := shutdown_loop (range (b_queues b)).*2 b in
    let wd := b_world b in
    Done (mkBroker (b_started b) (b_closed b) (b_cfg b) (b_queues b) (b_exchanges b)
            (b_runtimes b) (mkWorld (w_wal wd) (w_sessions wd) ∅) (b_running b)
            (b_started b || b_cancelled b)).

(** ** [NewBroker] *)

Fixpoint recover_queues (entries : list (string * list Message)) (b : BR) : GoM BR :=
  match entries with
  | [] => Done b
  | (queueName, messages) :: rest =>
      let! (p, b) := newQueueRuntime queueName messages b in
      recover_queues rest (set_b_queues (<[queueName := p]> (b_queues b)) b)
  end.

Fixpoint recover_bindings (exchangeName : string) (bindings : list Binding) (b : BR)
    : option Err * BR :=
  match bindings with
  | [] => (None, b)
  | binding :: rest =>
      let (err, b) := BindQueue exchangeName (QueueName binding) (BindingKey binding) b in
      match err with
      | Some e => (Some e, b)
      | None => recover_bindings exchangeName rest b
      end
  end.

Fixpoint recover_exchanges (entries : list (string * ExchangeState)) (b : BR) : option Err * BR :=
  match entries with
  | [] => (None, b)
  | (exchangeName, exchangeState) :: rest =>
      let (err, b) := CreateExchange exchangeName (es_ExchangeType exchangeState) b in
      match err with
      | Some e => (Some e, b)
      | None =>
          let (err, b) := recover_bindings exchangeName (es_Bindings exchangeState) b in
          match err with
          | Some e => (Some e, b)
          | None => recover_exchanges rest b
          end
      end
  end.

(** The default queue, unless a recovered queue has its name. *)
Definition recover_default (b : BR) : GoM BR :=
  match b_queues b !! DefaultQueueName with
  | Some _ => Done b
  | None =>
      let! (p, b) := newQueueRuntime DefaultQueueName [] b in
      Done (set_b_queues (<[DefaultQueueName := p]> (b_queues b)) b)
  end.

Definition NewBroker (cfg : Config) (wal : W) (sessions : gmap nat ConsumerSession)
    : GoM (option BR * option Err) :=
  match Load wal with
  | inr err => Done (None, Some err)
  | inl state =>
      let b := NewInMemoryBroker cfg wal sessions in
      let! b := recover_queues (range (PendingMessages state)) b in
      let! b := recover_default b in
      let (err, b) := recover_exchanges (range (PendingExchanges state)) b in
      match err with
      | Some e => Done (Some b, Some e)
      | None =>
          let (err, b) := BindQueue DefaultExchangeName DefaultQueueName DefaultQueueName b in
          match err with
          | Some ErrBindingAlreadyExist => Done (Some b, None)
          | Some e => Done (Some b, Some e)
          | None => Done (Some b, None)
          end
      end
  end.

End Broker.
