(* ===== verification/Topology.v ===== *)
(** The broker's topology (its queues, exchanges and bindings) and the log. The
    invariant says that replaying the log gives back the topology in memory and
    that every binding leads to a queue; the lemmas show that each record
    matches the change of memory it is written for. *)

From S2P Require Import Prelude GoStrings Model RingBuffer Inflight Exchange Wal QueueRuntime.
From S2P Require Import QueueInv QueueCases Broker.

(** What the log keeps of an exchange. *)
Definition exchange_state (e : Exchange) : ExchangeState :=
  mkExchangeState (ExchangeType_string (type_of e)) (bindings (base_of e)).

(** A topology and the state its log replays to. [names] are the queue names
    bindings may use: those of the queues, except while a queue is deleted. The
    default exchange is made on every start and never logged. *)
Record topo (names : gset string) (queues : gmap string nat) (exchanges : gmap string Exchange)
    (st : RecoveredState) : Prop := {
  tp_queues : dom queues = dom (PendingMessages st) ∪ {[DefaultQueueName]};
  tp_exchanges n : n <> DefaultExchangeName ->
    PendingExchanges st !! n = exchange_state <$> exchanges !! n;
  tp_unlogged : PendingExchanges st !! DefaultExchangeName = None;
  tp_default : exists base, exchanges !! DefaultExchangeName = Some (Direct base);
  tp_names n : is_Some (exchanges !! n) -> n <> DefaultExchangeName ->
    validateExchangeName n = None;
  tp_named n e : exchanges !! n = Some e -> Name (base_of e) = n;
  tp_nodup n e : exchanges !! n = Some e -> exchange_ok e;
  tp_bindings n e b : exchanges !! n = Some e -> b ∈ bindings (base_of e) ->
    QueueName b ∈ names /\ validateBindingKey (BindingKey b) = None;
}.

Lemma exchange_state_with_base e b :
  exchange_state (with_base e b) = mkExchangeState (ExchangeType_string (type_of e)) (bindings b).
Proof. by destruct e. Qed.

(** ** Queue records *)

Lemma topo_create_queue queues ex st n p :
  queues !! n = None -> topo (dom queues) queues ex st ->
  topo (dom (<[n := p]> queues)) (<[n := p]> queues) ex (load_record st (rec_queue QueueCreated n)).
Proof.
  intros Hn [Hq Hx Hu Hd Hnm Hnd Hno Hb].
  assert (PendingMessages st !! n = None) as Hp.
  { apply not_elem_of_dom. intros Hin. apply (not_elem_of_dom_2 queues n) in Hn. set_solver. }
  unfold load_record. simpl. rewrite Hp.
  split; simpl; try done; rewrite ?dom_insert_L; [set_solver|].
  intros k e b Hk Hb'. destruct (Hb k e b Hk Hb'). set_solver.
Qed.

Lemma topo_message names queues ex st t q m id :
  (t = Published \/ t = Acknowledged \/ t = Requeued \/ t = DeadLettered) ->
  q ∈ dom queues -> topo names queues ex st ->
  topo names queues ex (load_record st (rec_message t q m id)).
Proof.
  intros Ht Hin [Hq Hx Hu Hd Hnm Hnd Hno Hb].
  assert (exists l, load_record st (rec_message t q m id) =
    set_PendingMessages <[q := l]> st) as [l ->].
  { unfold load_record. destruct Ht as [->|[->|[->| ->]]]; simpl; eauto. }
  split; simpl; try done. rewrite dom_insert_L. set_solver.
Qed.

Lemma topo_queue_deleted queues ex st n :
  n <> DefaultQueueName -> topo (dom queues) queues ex st ->
  topo (dom queues) (delete n queues) ex (load_record st (rec_queue QueueDeleted n)).
Proof.
  intros Hn [Hq Hx Hu Hd Hnm Hnd Hno Hb]. split; simpl; try done.
  rewrite !dom_delete_L, Hq. set_solver.
Qed.

(** The names of bindings may shrink to those in use. *)
Lemma topo_names names names' queues ex st :
  (forall n e b, ex !! n = Some e -> b ∈ bindings (base_of e) -> QueueName b ∈ names ->
     QueueName b ∈ names') ->
  topo names queues ex st -> topo names' queues ex st.
Proof.
  intros Hn [Hq Hx Hu Hd Hnm Hnd Hno Hb]. split; try done.
  intros n e b He Hbd. destruct (Hb n e b He Hbd). split; [|done]. by eapply Hn.
Qed.

(** ** Exchange records *)

Lemma topo_create_exchange names queues ex st n t :
  validateExchangeName n = None -> ex !! n = None -> topo names queues ex st ->
  topo names queues (<[n := NewExchangeFactory n t]> ex)
    (load_record st (rec_exchange ExchangeCreated n (ExchangeType_string t))).
Proof.
  intros Hv Hn [Hq Hx Hu Hd Hnm Hnd Hno Hb].
  assert (n <> DefaultExchangeName) as Hne.
  { intros ->. by vm_compute in Hv. }
  split; simpl; try done.
  - intros k Hk. rewrite !lookup_insert. case_decide; [|by apply Hx]. by destruct t.
  - by rewrite lookup_insert_ne.
  - by rewrite lookup_insert_ne.
  - intros k Hk Hk'. rewrite lookup_insert in Hk. case_decide; [congruence|by apply Hnm].
  - intros k e. rewrite lookup_insert. case_decide; [|by apply Hnd].
    intros [= <-]. subst. by destruct t.
  - intros k e. rewrite lookup_insert. case_decide; [|by apply Hno].
    intros [= <-]. unfold exchange_ok. destruct t; apply NoDup_nil_2.
  - intros k e b. rewrite lookup_insert. case_decide; [|by apply Hb].
    intros [= <-]. destruct t; by intros ?%elem_of_nil.
Qed.

Lemma topo_delete_exchange names queues ex st n :
  n <> DefaultExchangeName -> topo names queues ex st ->
  topo names queues (delete n ex) (load_record st (rec_exchange ExchangeDeleted n "")).
Proof.
  intros Hne [Hq Hx Hu Hd Hnm Hnd Hno Hb]. split; simpl; try done.
  - intros k Hk. rewrite !lookup_delete. case_decide; [done|by apply Hx].
  - by rewrite lookup_delete_ne.
  - by rewrite lookup_delete_ne.
  - intros k [e Hk] Hk'. rewrite lookup_delete in Hk. case_decide; [done|]. apply Hnm; eauto.
  - intros k e. rewrite lookup_delete. case_decide; [done|]. apply Hnd.
  - intros k e. rewrite lookup_delete. case_decide; [done|]. apply Hno.
  - intros k e b. rewrite lookup_delete. case_decide; [done|]. apply Hb.
Qed.

(** A change of the bindings of one exchange that the log follows. *)
Lemma topo_rebind names queues ex st n e bs st' :
  ex !! n = Some e -> NoDup bs ->
  (forall b, b ∈ bs -> QueueName b ∈ names /\ validateBindingKey (BindingKey b) = None) ->
  PendingMessages st' = PendingMessages st ->
  PendingExchanges st' = match PendingExchanges st !! n with
    | Some es => <[n := mkExchangeState (es_ExchangeType es) bs]> (PendingExchanges st)
    | None => PendingExchanges st
    end ->
  topo names queues ex st ->
  topo names queues (<[n := with_base e (mkBase (Name (base_of e)) bs)]> ex) st'.
Proof.
  intros Hn Hbs Hall Hpm Hpe [Hq Hx Hu Hd Hnm Hnd Hno Hb]. split.
  - by rewrite Hpm.
  - intros k Hk. rewrite Hpe. rewrite lookup_insert. case_decide as Hkn; subst.
    + rewrite (Hx k Hk), Hn. simpl. by rewrite lookup_insert_eq, exchange_state_with_base.
    + rewrite <- (Hx k Hk). destruct (PendingExchanges st !! n); [by rewrite lookup_insert_ne|done].
  - rewrite Hpe. destruct (PendingExchanges st !! n) eqn:E; [|done].
    rewrite lookup_insert_ne; [done|]. intros ->. congruence.
  - destruct Hd as [base Hd]. rewrite lookup_insert. case_decide; [|eauto].
    subst. rewrite Hd in Hn. injection Hn as <-. simpl. eauto.
  - intros k [x Hk]. rewrite lookup_insert in Hk. case_decide; subst; apply Hnm; eauto.
  - intros k x. rewrite lookup_insert. case_decide; [|by apply Hnd].
    intros [= <-]. rewrite base_with_base. simpl. subst. by apply Hnd.
  - intros k x. rewrite lookup_insert. case_decide; [|by apply Hno].
    intros [= <-]. unfold exchange_ok. by rewrite base_with_base.
  - intros k x b. rewrite lookup_insert. case_decide; [|by apply Hb].
    intros [= <-]. rewrite base_with_base. apply Hall.
Qed.

Lemma topo_bind names queues ex st n e q k e' :
  ex !! n = Some e -> q ∈ names -> validateBindingKey k = None -> Bind k q e = (None, e') ->
  topo names queues ex st ->
  topo names queues (<[n := e']> ex) (load_record st (rec_binding QueueBinded n q k)).
Proof.
  intros Hn Hq Hk Hb Ht.
  destruct (Bind_cases k q e None e' Hb) as [(_ & ? & _)|(Hnin & _ & ->)]; [done|].
  eapply topo_rebind; [done| | | | |exact Ht].
  - apply NoDup_app. split_and!; [by apply (tp_nodup _ _ _ _ Ht n)| |by apply NoDup_singleton].
    intros x Hx Hx'. apply list_elem_of_singleton in Hx' as ->. done.
  - intros b [Hin|Hin]%elem_of_app; [by apply (tp_bindings _ _ _ _ Ht n e)|].
    by apply list_elem_of_singleton in Hin as ->.
  - unfold load_record. simpl. by destruct (PendingExchanges st !! n).
  - unfold load_record. simpl. destruct (PendingExchanges st !! n) as [es|] eqn:E; [|done]. simpl.
    destruct (decide (n = DefaultExchangeName)) as [->|Hne]; [by rewrite (tp_unlogged _ _ _ _ Ht) in E|].
    rewrite (tp_exchanges _ _ _ _ Ht n Hne), Hn in E. simpl in E. injection E as <-. done.
Qed.

Lemma topo_unbind names queues ex st n e q k e' :
  ex !! n = Some e -> Unbind k q e = (None, e') -> topo names queues ex st ->
  topo names queues (<[n := e']> ex) (load_record st (rec_binding QueueUnbinded n q k)).
Proof.
  intros Hn Hb Ht.
  destruct (Unbind_cases k q e None e' Hb) as [(_ & ? & _)|(_ & _ & ->)]; [done|].
  eapply topo_rebind; [done| | | | |exact Ht].
  - apply DeleteFunc_NoDup. by apply (tp_nodup _ _ _ _ Ht n).
  - intros b [_ Hin]%DeleteFunc_elem_of. by apply (tp_bindings _ _ _ _ Ht n e).
  - unfold load_record. simpl. by destruct (PendingExchanges st !! n).
  - unfold load_record. simpl. destruct (PendingExchanges st !! n) as [es|] eqn:E; [|done]. simpl.
    destruct (decide (n = DefaultExchangeName)) as [->|Hne]; [by rewrite (tp_unlogged _ _ _ _ Ht) in E|].
    rewrite (tp_exchanges _ _ _ _ Ht n Hne), Hn in E. simpl in E. injection E as <-. done.
Qed.
