(* ===== verification/BrokerInv.v ===== *)
(** The broker's methods keep its topology in step with the log: every method
    that does not report a storage error, and every method at all that logs
    before it changes memory. *)

From S2P Require Import Prelude GoStrings Model RingBuffer Inflight Exchange Wal QueueRuntime.
From S2P Require Import QueueInv QueueCases Broker Topology.

Definition storage_error (err : option Err) : bool :=
  match err with Some (ErrStorage _) => true | _ => false end.

Definition message_type (t : RecordType) : Prop :=
  t = Published \/ t = Acknowledged \/ t = Requeued \/ t = DeadLettered.

Section Effects.
Context {Q W : Type} `{!Queue Q} `{!WAL W} `{!WALLaws W}.
Abbreviation QS := (QState Q W).

(** What a method of a runtime may do to what the broker's topology rests on:
    at most one message record of its own queue is logged, the runtime keeps its
    name and never reopens, and tokens only leave the table. *)
Record rt_effect (s s' : QS) : Prop := {
  re_name : name (rt s') = name (rt s);
  re_closed : closed (rt s) = true -> closed (rt s') = true;
  re_owners : w_tokenOwners (wd s') ⊆ w_tokenOwners (wd s);
  re_log : wal_ok (w_wal (wd s)) ->
    wal_ok (w_wal (wd s')) /\
    (wal_log (w_wal (wd s')) = wal_log (w_wal (wd s)) \/
     exists t m id, message_type t /\
       wal_log (w_wal (wd s')) = wal_log (w_wal (wd s)) ++ [rec_message t (name (rt s)) m id]);
}.

Lemma Publish_effect now id m ttl (s : QS) r s' :
  Publish now id m ttl s = Done (r, s') ->
  rt_effect s s' /\
  (closed (rt s) = true -> wal_log (w_wal (wd s')) = wal_log (w_wal (wd s))).
Proof.
  intros H. destruct (Publish_cases _ _ _ _ _ _ _ H) as [| |e w Hc _ Ha|w q Hc _ Ha _]; simpl.
  - split; [|done]. split; auto.
  - split; [|done]. split; auto.
  - split; [|congruence]. split; try done. intros Hok. simpl.
    destruct (append_failed _ _ _ _ Ha Hok ltac:(auto with dsend)) as [? ->]. auto.
  - split; [|congruence]. split; try done. intros Hok. simpl.
    destruct (append_done _ _ _ Ha Hok ltac:(auto with dsend)) as [? ->].
    split; [done|]. right. eexists Published, _, _. split; [by left|done].
Qed.

Lemma Publish_resume_effect now id m ttl (s : QS) r s' :
  Publish_resume now id m ttl s = Done (r, s') ->
  rt_effect s s' /\
  (closed (rt s) = true -> wal_log (w_wal (wd s')) = wal_log (w_wal (wd s))).
Proof. intros H. by destruct (Publish_effect _ _ _ _ _ _ _ H) as [[] ?]. Qed.

Lemma owners_remove_sub hooks tok owners : owners_remove hooks tok owners ⊆ owners.
Proof. unfold owners_remove. case_match; [apply delete_subseteq|done]. Qed.

Lemma Ack_effect tok (s : QS) err s' : Ack tok s = (err, s') -> rt_effect s s'.
Proof.
  intros H. destruct (Ack_cases tok s err s' H) as [|im e w _ Ha|im w _ Ha].
  - split; auto.
  - split; try done. intros Hok. simpl.
    destruct (append_failed _ _ _ _ Ha Hok ltac:(auto with dsend)) as [? ->]. auto.
  - unfold released. split; qsimpl; try done.
    + apply owners_remove_sub.
    + intros Hok. destruct (append_done _ _ _ Ha Hok ltac:(auto with dsend)) as [? ->].
      split; [done|]. right. eexists Acknowledged, _, _. split; [by right; left|done].
Qed.

Lemma Subscribe_effect l (s : QS) err s' : Subscribe l s = Done (err, s') -> rt_effect s s'.
Proof. unfold Subscribe. intros H. go_inv H; split; simpl; auto. Qed.

Lemma Unsubscribe_effect id (s s' : QS) : Unsubscribe id s = Done s' -> rt_effect s s'.
Proof. unfold Unsubscribe. intros H. go_inv H; split; simpl; auto. Qed.

Lemma close_effect (s s' : QS) :
  close_runtime s = Done s' -> rt_effect s s' /\ closed (rt s') = true.
Proof. unfold close_runtime. intros H. go_inv H. split; [|done]. split; simpl; auto. Qed.

Lemma CloseIfEmpty_effect (s : QS) b s' :
  CloseIfEmpty s = Done (b, s') ->
  rt_effect s s' /\ (b = true -> closed (rt s') = true) /\
  wal_log (w_wal (wd s')) = wal_log (w_wal (wd s)).
Proof.
  unfold CloseIfEmpty. intros H. go_inv H; [split; [split; auto|done]|].
  destruct (close_effect _ _ E0) as [He Hc]. split; [done|]. split; [done|].
  unfold close_runtime in E0. by go_inv E0.
Qed.

End Effects.

Section BrokerInv.
Context {W : Type} `{!WAL W} `{!WALLaws W} {Hrange : MapRange}.
Abbreviation BR := (InMemoryBroker W).

(** The state the broker's log replays to. *)
Definition logged (b : BR) : RecoveredState := replay (wal_log (w_wal (b_world b))).

(** The pointers: a queue name leads to the runtime of that name, a token to a
    queue, and a runtime that no name leads to is closed. *)
Record ptrs_ok (queues : gmap string nat) (runtimes : gmap nat (QueueRuntime RingBufferQueue))
    (owners : gmap string nat) : Prop := {
  po_name n p : queues !! n = Some p -> exists r, runtimes !! p = Some r /\ name r = n;
  po_owner tok p : owners !! tok = Some p -> exists n, queues !! n = Some p;
  po_gone p r : runtimes !! p = Some r -> closed r = true \/ exists n, queues !! n = Some p;
}.

(** The invariant of the broker. *)
Record broker_ok (b : BR) : Prop := {
  bk_wal : wal_ok (w_wal (b_world b));
  bk_topo : topo (dom (b_queues b)) (b_queues b) (b_exchanges b) (logged b);
  bk_ptrs : ptrs_ok (b_queues b) (b_runtimes b) (w_tokenOwners (b_world b));
}.

Lemma broker_append_spec r (b : BR) err b' :
  broker_append r b = (err, b') -> wal_ok (w_wal (b_world b)) -> typed r ->
  exists w, b' = set_b_world (mkWorld w (w_sessions (b_world b)) (w_tokenOwners (b_world b))) b /\
    wal_ok w /\
    replay (wal_log w) = match err with None => load_record (logged b) r | Some _ => logged b end /\
    (forall e, err = Some e -> storage_error err = true).
Proof.
  unfold broker_append. destruct (Append r (w_wal (b_world b))) as [e w] eqn:Ea.
  intros [= <- <-] Hok Hr. exists w. split; [done|]. destruct e as [e|].
  - destruct (append_failed _ _ _ _ Ea Hok Hr) as [? ->].
    destruct (append_storage _ _ _ _ Ea) as [what ->]. done.
  - destruct (append_done _ _ _ Ea Hok Hr) as [? ->]. unfold logged. by rewrite replay_snoc.
Qed.

(** A failed append leaves the broker as good as it was. *)
Lemma broker_append_ok r (b : BR) e b' :
  broker_append r b = (Some e, b') -> typed r -> broker_ok b -> broker_ok b'.
Proof.
  intros Ha Hr [Hw Ht Hp]. destruct (broker_append_spec _ _ _ _ Ha Hw Hr) as (w & -> & Hok & Hl & _).
  split; simpl; try done. unfold logged. simpl. by rewrite Hl.
Qed.

Lemma ptrs_ok_update queues runtimes owners p r r' owners' :
  runtimes !! p = Some r -> name r' = name r -> (closed r = true -> closed r' = true) ->
  owners' ⊆ owners -> ptrs_ok queues runtimes owners ->
  ptrs_ok queues (<[p := r']> runtimes) owners'.
Proof.
  intros Hr Hn Hc Ho [H1 H2 H3]. split.
  - intros n q Hq. destruct (H1 n q Hq) as (x & Hx & Hxn). rewrite lookup_insert.
    case_decide; subst; [|eauto]. rewrite Hr in Hx. injection Hx as <-. eauto.
  - intros tok q Hq. eapply H2, lookup_weaken; eauto.
  - intros q x. rewrite lookup_insert. case_decide; [|apply H3].
    intros [= <-]. subst. destruct (H3 q r Hr); auto.
Qed.

Lemma on_runtime_inv {A} p (f : QState RingBufferQueue W -> GoM (A * QState RingBufferQueue W))
    (b b' : BR) a :
  on_runtime p f b = Done (a, b') ->
  exists r s', b_runtimes b !! p = Some r /\ f (mkQState r (b_world b)) = Done (a, s') /\
    b' = set_b_world (wd s') (set_b_runtimes (<[p := rt s']> (b_runtimes b)) b).
Proof. unfold on_runtime. intros Hrun. go_inv Hrun. eauto 10. Qed.

(** A method of a runtime, called through a queue name, or one that logs
    nothing. *)
Lemma on_runtime_ok {A} p (f : QState RingBufferQueue W -> GoM (A * QState RingBufferQueue W))
    (b b' : BR) a :
  (forall s x s', f s = Done (x, s') -> rt_effect s s') ->
  ((exists n, b_queues b !! n = Some p) \/
   forall s x s', f s = Done (x, s') -> closed (rt s) = true ->
     wal_log (w_wal (wd s')) = wal_log (w_wal (wd s))) ->
  on_runtime p f b = Done (a, b') -> broker_ok b ->
  broker_ok b' /\ b_queues b' = b_queues b /\ b_exchanges b' = b_exchanges b.
Proof.
  intros Hf Hp Hrun [Hw Ht Hpo].
  destruct (on_runtime_inv _ _ _ _ _ Hrun) as (r & s' & Hr & Hfs & ->).
  destruct (Hf _ _ _ Hfs) as [Hn Hc Ho Hl]. destruct (Hl Hw) as [Hw' Hlog]. simpl in *.
  split; [|done]. split; simpl; [done| |by eapply ptrs_ok_update].
  unfold logged. simpl. destruct Hlog as [->|(t & m & id & Ht' & Hlog)]; [done|].
  destruct Hp as [[n Hq]|Hsame].
  - destruct (po_name _ _ _ Hpo n p Hq) as (x & Hx & Hxn). rewrite Hr in Hx. injection Hx as <-.
    rewrite Hlog, replay_snoc, Hxn. apply topo_message; [done|by apply elem_of_dom_2 in Hq|done].
  - destruct (po_gone _ _ _ Hpo p r Hr) as [Hcl|[n Hq]]; [by rewrite (Hsame _ _ _ Hfs Hcl)|].
    destruct (po_name _ _ _ Hpo n p Hq) as (x & Hx & Hxn). rewrite Hr in Hx. injection Hx as <-.
    rewrite Hlog, replay_snoc, Hxn. apply topo_message; [done|by apply elem_of_dom_2 in Hq|done].
Qed.

(** ** Messages *)

Lemma broker_queue_inl name (b : BR) p :
  broker_queue name b = inl p -> exists n, b_queues b !! n = Some p.
Proof. unfold broker_queue. intros H. repeat case_match; simplify_eq; eauto. Qed.

Lemma queue_Publish_ok now id payload ttl n p (b b1 : BR) r :
  on_runtime p (Publish now id payload ttl) b = Done (r, b1) -> broker_queue n b = inl p ->
  broker_ok b -> broker_ok b1 /\ b_queues b1 = b_queues b /\ b_exchanges b1 = b_exchanges b.
Proof.
  intros Hrun Hq Hok. eapply on_runtime_ok; [|left; by eapply broker_queue_inl|exact Hrun|done].
  intros. by eapply Publish_effect.
Qed.

Lemma publish_loop_ok now newID payload ttl i names (b : BR) r b' :
  publish_loop now newID payload ttl i names b = Done (r, b') -> broker_ok b -> broker_ok b'.
Proof.
  revert i b. induction names as [|n names IH]; intros i b H Hok; simpl in H; [by go_inv H|].
  destruct (broker_queue n b) as [p|e] eqn:Eq; [|by go_inv H].
  destruct (on_runtime p _ b) as [[pr b1]| |] eqn:Er; try done. simpl in H.
  destruct (queue_Publish_ok _ _ _ _ _ _ _ _ _ Er Eq Hok) as [Hok1 _].
  destruct pr as [|[e|]]; [by simplify_eq|by simplify_eq|by eapply IH].
Qed.

Lemma Broker_Publish_ok now newID e rk payload ttl (b : BR) r b' :
  Broker_Publish now newID e rk payload ttl b = Done (r, b') -> broker_ok b -> broker_ok b'.
Proof.
  unfold Broker_Publish. intros H Hok. go_inv H; try done. by eapply publish_loop_ok.
Qed.

Lemma Broker_Publish_resume_ok now newID payload ttl p rest (b : BR) r b' :
  Broker_Publish_resume now newID payload ttl p rest b = Done (r, b') -> broker_ok b -> broker_ok b'.
Proof.
  unfold Broker_Publish_resume. intros H Hok.
  destruct (on_runtime p _ b) as [[pr b1]| |] eqn:Er; try done. simpl in H.
  assert (broker_ok b1) as Hok1.
  { eapply on_runtime_ok; [|right|exact Er|done]; intros s x s' Hs;
      by destruct (Publish_resume_effect _ _ _ _ _ _ _ Hs). }
  destruct pr as [|[e|]]; [by simplify_eq|by simplify_eq|by eapply publish_loop_ok].
Qed.

Lemma Broker_Subscribe_ok q l (b : BR) err b' :
  Broker_Subscribe q l b = Done (err, b') -> broker_ok b -> broker_ok b'.
Proof.
  unfold Broker_Subscribe. intros H Hok. destruct (broker_queue q b) as [p|e] eqn:Eq; [|by go_inv H].
  eapply on_runtime_ok; [|left; by eapply broker_queue_inl|exact H|done].
  intros. by eapply Subscribe_effect.
Qed.

Lemma Broker_Unsubscribe_ok q id (b b' : BR) :
  Broker_Unsubscribe q id b = Done b' -> broker_ok b -> broker_ok b'.
Proof.
  unfold Broker_Unsubscribe. intros H Hok. destruct (broker_queue q b) as [p|e] eqn:Eq; [|by go_inv H].
  go_inv H. eapply on_runtime_ok; [|left; by eapply broker_queue_inl|exact E|done].
  intros s x s' Hs. go_inv Hs. by eapply Unsubscribe_effect.
Qed.

Lemma Broker_Ack_ok tok (b : BR) err b' :
  Broker_Ack tok b = Done (err, b') -> broker_ok b -> broker_ok b'.
Proof.
  unfold Broker_Ack. intros H Hok. destruct (_ !! tok) as [p|] eqn:Eq; [|by go_inv H].
  eapply on_runtime_ok; [|left; by eapply (po_owner _ _ _ (bk_ptrs _ Hok))|exact H|done].
  intros s x s' Hs. injection Hs as Hs. by eapply Ack_effect.
Qed.

(** ** Queues *)

Lemma push_all_name ms (q q' : QueueRuntime RingBufferQueue) :
  push_all ms q = Done q' -> name q' = name q.
Proof.
  revert q. induction ms as [|m ms IH]; intros q Hq; simpl in Hq; [by simplify_eq|].
  go_inv Hq. by rewrite (IH _ Hq).
Qed.

Lemma newQueueRuntime_inv n msgs (b : BR) p b' :
  newQueueRuntime n msgs b = Done (p, b') ->
  b_runtimes b !! p = None /\
  exists r, b' = set_b_runtimes (<[p := r]> (b_runtimes b)) b /\ name r = n.
Proof.
  unfold newQueueRuntime, NewQueueRuntime. intros H. go_inv H. split; [apply new_ptr_fresh|].
  eexists. split; [done|]. simpl.
  go_inv E0. simpl. by rewrite (push_all_name _ _ _ E1).
Qed.

Lemma ptrs_ok_new queues runtimes owners n p r :
  queues !! n = None -> runtimes !! p = None -> name r = n ->
  ptrs_ok queues runtimes owners ->
  ptrs_ok (<[n := p]> queues) (<[p := r]> runtimes) owners.
Proof.
  intros Hn Hp Hr [H1 H2 H3].
  assert (forall k q, queues !! k = Some q -> (<[n := p]> queues) !! k = Some q) as Hkeep.
  { intros k q Hk. rewrite lookup_insert_ne; [done|]. congruence. }
  split.
  - intros k q. rewrite lookup_insert. case_decide as Hk.
    + intros [= <-]. exists r. rewrite lookup_insert_eq. by subst.
    + intros Hq. destruct (H1 k q Hq) as (x & Hx & ?). exists x.
      rewrite lookup_insert_ne; [done|]. congruence.
  - intros tok q Hq. destruct (H2 tok q Hq); eauto.
  - intros q x. rewrite lookup_insert. case_decide as Hk.
    + intros _. right. exists n. by rewrite lookup_insert_eq, Hk.
    + intros Hx. destruct (H3 q x Hx) as [|[k ?]]; eauto.
Qed.

Lemma startQueue_ok p (b : BR) : broker_ok b -> broker_ok (startQueue p b).
Proof. intros []. by split. Qed.

Lemma CreateQueue_ok n (b : BR) err b' :
  CreateQueue n b = Done (err, b') -> broker_ok b -> broker_ok b'.
Proof.
  unfold CreateQueue. intros H Hok.
  destruct (validateQueueName n); [by simplify_eq|].
  destruct (b_closed b); [by simplify_eq|]. case_bool_decide as Hn; [by simplify_eq|].
  apply eq_None_not_Some in Hn.
  destruct (broker_append _ b) as [[e|] b1] eqn:Ea.
  { injection H as <- <-. eapply broker_append_ok; [done|auto with dsend|done]. }
  destruct (Hok) as [Hw Ht Hp].
  destruct (broker_append_spec _ _ _ _ Ea Hw ltac:(auto with dsend)) as (w & -> & Hw' & Hl & _).
  destruct (newQueueRuntime n [] _) as [[p b2]| |] eqn:En; simpl in H; try done.
  destruct (newQueueRuntime_inv _ _ _ _ _ En) as (Hfresh & r & -> & Hr). simpl in *.
  assert (broker_ok (set_b_queues (<[n := p]> (b_queues b)) (set_b_runtimes (<[p := r]> (b_runtimes b))
    (set_b_world (mkWorld w (w_sessions (b_world b)) (w_tokenOwners (b_world b))) b)))) as Hb2.
  { split; simpl; [done| |by apply ptrs_ok_new]. unfold logged. simpl. rewrite Hl.
    by apply topo_create_queue. }
  injection H as _ <-. destruct (b_started b); [by apply startQueue_ok|done].
Qed.

(** ** Bindings and exchanges *)

Lemma BindQueue_ok e q k (b : BR) err b' :
  BindQueue e q k b = (err, b') -> storage_error err = false -> broker_ok b -> broker_ok b'.
Proof.
  unfold BindQueue. intros H Hs Hok.
  destruct (validateBindingKey k) eqn:Ek; [by simplify_eq|].
  destruct (b_exchanges b !! e) as [ex|] eqn:Ee; [|by simplify_eq].
  destruct (b_queues b !! q) as [p|] eqn:Eq; [|by simplify_eq].
  destruct (Bind k q ex) as [[err1|] ex'] eqn:Eb.
  { injection H as <- <-. destruct (Bind_cases _ _ _ _ _ Eb) as [(_ & _ & ->)|(_ & ? & _)]; [|done].
    destruct Hok. by split; simpl; rewrite ?insert_id. }
  destruct (broker_append _ _) as [err2 b2] eqn:Ea. injection H as <- <-.
  destruct (Hok) as [Hw Ht Hp].
  destruct (broker_append_spec _ _ _ _ Ea Hw ltac:(auto with dsend)) as (w & -> & Hw' & Hl & He).
  destruct err2 as [e2|]; [by rewrite (He e2 eq_refl) in Hs|].
  split; simpl; [done| |done]. unfold logged. simpl. rewrite Hl.
  eapply topo_bind; [done|by apply elem_of_dom_2 in Eq|done|done|exact Ht].
Qed.

Lemma UnbindQueue_ok e q k (b : BR) err b' :
  UnbindQueue e q k b = (err, b') -> storage_error err = false -> broker_ok b -> broker_ok b'.
Proof.
  unfold UnbindQueue. intros H Hs Hok.
  destruct (b_exchanges b !! e) as [ex|] eqn:Ee; [|by simplify_eq].
  destruct (b_queues b !! q) as [p|] eqn:Eq; [|by simplify_eq].
  destruct (Unbind k q ex) as [[err1|] ex'] eqn:Eb.
  { injection H as <- <-. destruct (Unbind_cases _ _ _ _ _ Eb) as [(_ & _ & ->)|(_ & ? & _)]; [|done].
    destruct Hok. by split; simpl; rewrite ?insert_id. }
  destruct (broker_append _ _) as [err2 b2] eqn:Ea. injection H as <- <-.
  destruct (Hok) as [Hw Ht Hp].
  destruct (broker_append_spec _ _ _ _ Ea Hw ltac:(auto with dsend)) as (w & -> & Hw' & Hl & He).
  destruct err2 as [e2|]; [by rewrite (He e2 eq_refl) in Hs|].
  split; simpl; [done| |done]. unfold logged. simpl. rewrite Hl.
  by eapply topo_unbind.
Qed.

Lemma validateExchangeType_string s t :
  validateExchangeType s = inl t -> s = ExchangeType_string t.
Proof.
  unfold validateExchangeType. repeat case_bool_decide; intros [= <-]; done.
Qed.

Lemma validate_type_string t : validateExchangeType (ExchangeType_string t) = inl t.
Proof. by destruct t. Qed.

Lemma CreateExchange_ok e t (b : BR) err b' :
  CreateExchange e t b = (err, b') -> broker_ok b -> broker_ok b'.
Proof.
  unfold CreateExchange. intros H Hok.
  destruct (validateExchangeName e) eqn:Ev; [by simplify_eq|].
  destruct (validateExchangeType t) as [vt|] eqn:Et; [|by simplify_eq].
  destruct (b_exchanges b !! e) eqn:Ee; [by simplify_eq|].
  destruct (broker_append _ b) as [[e1|] b1] eqn:Ea; injection H as <- <-.
  { eapply broker_append_ok; [done|auto with dsend|done]. }
  destruct (Hok) as [Hw Ht Hp].
  destruct (broker_append_spec _ _ _ _ Ea Hw ltac:(auto with dsend)) as (w & -> & Hw' & Hl & _).
  split; simpl; [done| |done]. unfold logged. simpl. rewrite Hl.
  rewrite (validateExchangeType_string _ _ Et). by apply topo_create_exchange.
Qed.

Lemma validateExchangeName_default n : validateExchangeName n = None -> n <> DefaultExchangeName.
Proof. intros Hv ->. by vm_compute in Hv. Qed.

Lemma DeleteExchange_ok e (b : BR) err b' :
  DeleteExchange e b = (err, b') -> broker_ok b -> broker_ok b'.
Proof.
  unfold DeleteExchange. intros H Hok.
  destruct (validateExchangeName e) eqn:Ev; [by simplify_eq|].
  destruct (b_exchanges b !! e) eqn:Ee; [|by simplify_eq].
  case_bool_decide; [by simplify_eq|].
  destruct (broker_append _ b) as [[e1|] b1] eqn:Ea; injection H as <- <-.
  { eapply broker_append_ok; [done|auto with dsend|done]. }
  destruct (Hok) as [Hw Ht Hp].
  destruct (broker_append_spec _ _ _ _ Ea Hw ltac:(auto with dsend)) as (w & -> & Hw' & Hl & _).
  split; simpl; [done| |done]. unfold logged. simpl. rewrite Hl.
  apply topo_delete_exchange; [by apply validateExchangeName_default|done].
Qed.

(** ** Deleting a queue *)

(** The loop over the exchanges, when no append fails: it leaves the runtimes,
    the queues and the tokens, and no exchange it visited keeps a binding of
    the queue. *)
Lemma unbind_all_spec names entries n (b : BR) err b' :
  unbind_all entries n b = (err, b') -> storage_error err = false ->
  (forall k e, (k, e) ∈ entries -> b_exchanges b !! k = Some e) -> NoDup entries.*1 ->
  wal_ok (w_wal (b_world b)) -> topo names (b_queues b) (b_exchanges b) (logged b) ->
  err = None /\ wal_ok (w_wal (b_world b')) /\
  topo names (b_queues b') (b_exchanges b') (logged b') /\
  b_queues b' = b_queues b /\ b_runtimes b' = b_runtimes b /\
  w_tokenOwners (b_world b') = w_tokenOwners (b_world b) /\
  forall k e, b_exchanges b' !! k = Some e ->
    (k ∈ entries.*1 -> forall bd, bd ∈ bindings (base_of e) -> QueueName bd <> n) /\
    (k ∉ entries.*1 -> b_exchanges b !! k = Some e).
Proof.
  revert b. induction entries as [|[x ex] entries IH]; intros b H Hs Hcur Hnd Hw Ht; simpl in H.
  { injection H as <- <-. split_and!; try done. intros k e He. split; [by intros ?%elem_of_nil|done]. }
  simpl in Hnd. apply NoDup_cons in Hnd as [Hx Hnd].
  assert (b_exchanges b !! x = Some ex) as Hxe by (apply Hcur; left).
  destruct (Unbind "" n ex) as [err1 ex'] eqn:Eu.
  destruct (Unbind_cases _ _ _ _ _ Eu) as [(Hno & -> & ->)|(Hyes & -> & He')].
  - destruct (IH b H Hs) as (-> & Hw' & Ht' & Hq & Hr & Ho & Hex); try done.
    { intros k e Hk. apply Hcur. by right. }
    split_and!; try done. intros k e Hk. destruct (Hex k e Hk) as [Hin Hout]. split.
    + simpl. intros [->|Hk']%elem_of_cons; [|by apply Hin].
      destruct (decide (x ∈ entries.*1)) as [Hd|Hd]; [done|].
      assert (e = ex) as -> by (specialize (Hout Hd); congruence).
      intros bd Hbd Hqn. specialize (Hno bd Hbd). unfold unbind_matches in Hno.
      rewrite bool_decide_false in Hno by naive_solver. by apply bool_decide_eq_false in Hno.
    + simpl. intros Hk'. apply Hout. set_solver.
  - destruct (broker_append _ _) as [err2 b2] eqn:Ea.
    destruct (broker_append_spec _ _ _ _ Ea Hw ltac:(auto with dsend)) as (w & -> & Hw' & Hl & Herr).
    destruct err2 as [e2|]; [injection H as <- <-; by rewrite (Herr e2 eq_refl) in Hs|].
    destruct (IH _ H Hs) as (-> & Hw2 & Ht2 & Hq & Hr & Ho & Hex); simpl in *; try done.
    { intros k e Hk. rewrite lookup_insert_ne; [apply Hcur; by right|].
      intros <-. apply Hx. by eapply (list_elem_of_fmap_2 fst) in Hk. }
    { unfold logged. simpl. rewrite Hl. by eapply topo_unbind. }
    split_and!; try done. intros k e Hk. destruct (Hex k e Hk) as [Hin Hout]. split.
    + intros [->|Hk']%elem_of_cons; [|by apply Hin]. specialize (Hout Hx).
      rewrite lookup_insert_eq in Hout. injection Hout as <-. subst ex'. rewrite base_with_base. simpl.
      intros bd [Hbd _]%DeleteFunc_elem_of Hqn. unfold unbind_matches in Hbd.
      rewrite bool_decide_false in Hbd by naive_solver. by apply bool_decide_eq_false in Hbd.
    + intros Hk'. apply not_elem_of_cons in Hk' as [Hne Hk']. specialize (Hout Hk').
      by rewrite lookup_insert_ne in Hout.
Qed.

Lemma ptrs_ok_delete queues runtimes owners n p r :
  queues !! n = Some p -> runtimes !! p = Some r -> closed r = true ->
  ptrs_ok queues runtimes owners ->
  ptrs_ok (delete n queues) runtimes (filter (fun e => e.2 <> p) owners).
Proof.
  intros Hn Hr Hc [H1 H2 H3]. split.
  - intros k q. rewrite lookup_delete. case_decide; [done|]. apply H1.
  - intros tok q [Hq Hne]%map_lookup_filter_Some. destruct (H2 tok q Hq) as [k Hk].
    exists k. rewrite lookup_delete_ne; [done|]. intros <-. simpl in Hne. congruence.
  - intros q x Hx. destruct (decide (q = p)) as [->|Hne]; [left; congruence|].
    destruct (H3 q x Hx) as [|[k Hk]]; [by left|right]. exists k.
    rewrite lookup_delete_ne; [done|]. congruence.
Qed.

Lemma range_keys (ex : gmap string Exchange) k : k ∈ (range ex).*1 <-> is_Some (ex !! k).
Proof.
  rewrite range_perm. rewrite list_elem_of_fmap. split.
  - intros ([k' e] & -> & Hin%elem_of_map_to_list). eauto.
  - intros [e He]. exists (k, e). split; [done|]. by apply elem_of_map_to_list.
Qed.

Lemma DeleteQueue_ok n (b : BR) err b' :
  DeleteQueue n b = Done (err, b') -> storage_error err = false -> broker_ok b -> broker_ok b'.
Proof.
  unfold DeleteQueue. intros H Hs Hok. case_bool_decide as Hdef; [by simplify_eq|].
  destruct (b_queues b !! n) as [p|] eqn:Eq; [|by simplify_eq].
  destruct (on_runtime p CloseIfEmpty b) as [[emptied b1]| |] eqn:Ec; try done. simpl in H.
  destruct (on_runtime_ok p CloseIfEmpty b b1 emptied) as (Hok1 & Hq1 & Hx1); try done;
    [intros; by eapply CloseIfEmpty_effect|left; eauto|].
  destruct emptied; simpl in H; [|by simplify_eq].
  destruct (broker_append _ b1) as [[e|] b2] eqn:Ea.
  { injection H as <- <-. eapply broker_append_ok; [done|auto with dsend|done]. }
  destruct (Hok1) as [Hw1 Ht1 Hp1].
  destruct (broker_append_spec _ _ _ _ Ea Hw1 ltac:(auto with dsend)) as (w & -> & Hw2 & Hl2 & _).
  destruct (unbind_all _ n _) as [err3 b3] eqn:Eu.
  assert (storage_error err3 = false) as Hs3.
  { destruct err3; [|done]. injection H as <- _. done. }
  destruct (unbind_all_spec (dom (b_queues b1)) _ _ _ _ _ Eu Hs3)
    as (-> & Hw3 & Ht3 & Hq3 & Hr3 & Ho3 & Hex3); simpl in *.
  { intros k e Hk. apply elem_of_map_to_list. by rewrite <- range_perm. }
  { rewrite range_perm. apply NoDup_fst_map_to_list. }
  { done. }
  { unfold logged. simpl. rewrite Hl2. by apply topo_queue_deleted. }
  destruct (on_runtime p _ b3) as [[[] b4]| |] eqn:Esd; simpl in H; try done.
  injection H as _ <-. destruct (on_runtime_inv _ _ _ _ _ Esd) as (r3 & s4 & Hr4 & Hf4 & ->).
  simpl in Hf4. go_inv Hf4.
  destruct (close_effect _ _ E) as [[Hn4 _ Ho4 Hl4] Hc4]. destruct (Hl4 Hw3) as [Hw4 _].
  assert (wal_log (w_wal (wd s4)) = wal_log (w_wal (b_world b3))) as Hlog4.
  { unfold Shutdown, close_runtime in E. by go_inv E. }
  split; simpl; [done| |].
  - unfold logged. simpl. rewrite Hlog4. rewrite Hq3, dom_delete_L. rewrite Hq3 in Ht3.
    eapply topo_names; [|exact Ht3]. intros k e bd Hk Hbd Hin. apply elem_of_difference. split; [done|].
    rewrite elem_of_singleton. destruct (Hex3 k e Hk) as [Hin3 Hout3].
    destruct (decide (k ∈ (range (b_exchanges b1)).*1)) as [Hd|Hd]; [by apply (Hin3 Hd)|].
    specialize (Hout3 Hd). exfalso. apply Hd, range_keys. eauto.
  - rewrite Hq3, Hr3. rewrite Hr3 in Hr4.
    apply (ptrs_ok_delete (b_queues b1) _ _ n p (rt s4)); [by rewrite Hq1|by rewrite lookup_insert_eq|done|].
    eapply ptrs_ok_update; [done|done|by rewrite Hc4| |exact Hp1]. simpl. by rewrite <- Ho3.
Qed.

(** ** Life cycle *)

Lemma Broker_Start_ok (b : BR) : broker_ok b -> broker_ok (Broker_Start b).
Proof.
  unfold Broker_Start. intros Hok. case_match; [done|].
  assert (broker_ok (mkBroker true (b_closed b) (b_cfg b) (b_queues b) (b_exchanges b)
    (b_runtimes b) (b_world b) (b_running b) (b_cancelled b))) as Hok1 by (destruct Hok; by split).
  revert Hok1. simpl. generalize (mkBroker true (b_closed b) (b_cfg b) (b_queues b)
    (b_exchanges b) (b_runtimes b) (b_world b) (b_running b) (b_cancelled b)).
  induction (range (b_queues b)).*2 as [|p ps IH]; intros b1 Hb1; simpl; [done|].
  apply IH. by apply startQueue_ok.
Qed.

Lemma shutdown_loop_ok ps (b b' : BR) :
  shutdown_loop ps b = Done b' -> broker_ok b -> broker_ok b'.
Proof.
  revert b. induction ps as [|p ps IH]; intros b H Hok; simpl in H; [by simplify_eq|].
  destruct (on_runtime p _ b) as [[[] b1]| |] eqn:E; simpl in H; try done.
  apply (IH b1 H). eapply on_runtime_ok; [|right|exact E|done]; intros s x s' Hs; go_inv Hs.
  - by destruct (close_effect _ _ E0).
  - intros _. unfold Shutdown, close_runtime in E0. by go_inv E0.
Qed.

Lemma Broker_Shutdown_ok (b b' : BR) : Broker_Shutdown b = Done b' -> broker_ok b -> broker_ok b'.
Proof.
  unfold Broker_Shutdown. intros H Hok. destruct (b_closed b); [by simplify_eq|].
  go_inv H. apply shutdown_loop_ok in E; [|destruct Hok; by split].
  destruct E as [Hw Ht [H1 H2 H3]]. split; simpl; [done|done|]. by split.
Qed.

End BrokerInv.
