(* ===== verification/Recovery.v ===== *)
(** Recovery: [NewBroker] on the log of a broker whose topology the log follows
    makes a broker with the same queues, the pending messages of each, and the
    same exchanges and bindings, and leaves a log that replays to the same
    state. Only the bindings of the default exchange are not recovered. *)

From S2P Require Import Prelude GoStrings Model RingBuffer Inflight Exchange Wal QueueRuntime.
From S2P Require Import System QueueSpec QueueInv RoundRobin QueueRefine QueueDeliver.
From S2P Require Import Redelivery SystemInv QueueCases Broker Topology BrokerInv.

(** An exchange by type, name and bindings. *)
Definition ex_with (t : ExchangeType) (n : string) (bs : list Binding) : Exchange :=
  with_base (NewExchangeFactory n t) (mkBase n bs).

Lemma ex_with_self e : ex_with (type_of e) (Name (base_of e)) (bindings (base_of e)) = e.
Proof. by destruct e as [[]|[]|[]]. Qed.

Lemma base_ex_with t n bs : base_of (ex_with t n bs) = mkBase n bs.
Proof. by destruct t. Qed.

Lemma with_base_ex_with t n bs bs' : with_base (ex_with t n bs) (mkBase n bs') = ex_with t n bs'.
Proof. by destruct t. Qed.

(** A runtime just made for recovered messages. *)
Definition fresh_runtime (cfg : Config) (n : string) (msgs : list Message) (p : nat)
    (r : QueueRuntime RingBufferQueue) : Prop :=
  queue_ok (queue r) /\ contents (queue r) = msgs /\
  r = mkRuntime n cfg false (queue r) NewManager NewDLQ ∅ [] 0 true (mkCond 0 0) (Some p) 0
        (match msgs with [] => 0 | _ => wrap64 (Z.of_nat (length msgs)) end) 0 0 /\
  QueueSize cfg <= Capacity (queue r).

(** The default queue is there even when the log does not mention it. *)
Definition with_default (m : gmap string (list Message)) : gmap string (list Message) :=
  match m !! DefaultQueueName with Some _ => m | None => <[DefaultQueueName := []]> m end.

Section Recovery.
Context {W : Type} `{!WAL W} `{!WALLaws W} {Hrange : MapRange}.
Abbreviation BR := (InMemoryBroker W).

(** ** Queues *)

(** The queues made so far are those of [done], each with its messages. *)
Record recovered (done : gmap string (list Message)) (b : BR) : Prop := {
  rc_dom : dom (b_queues b) = dom done;
  rc_queue n msgs : done !! n = Some msgs -> exists p r, b_queues b !! n = Some p /\
    b_runtimes b !! p = Some r /\ fresh_runtime (b_cfg b) n msgs p r;
  rc_ptrs : ptrs_ok (b_queues b) (b_runtimes b) (w_tokenOwners (b_world b));
}.

(** The parts of the broker recovery of queues leaves alone. *)
Definition same_rest (b b' : BR) : Prop :=
  b_exchanges b' = b_exchanges b /\ b_world b' = b_world b /\ b_cfg b' = b_cfg b /\
  b_closed b' = b_closed b /\ b_started b' = b_started b.

Lemma newQueueRuntime_spec n msgs (b : BR) :
  0 <= QueueSize (b_cfg b) <= max_int -> Z.of_nat (length msgs) <= max_int ->
  exists p r, newQueueRuntime n msgs b = Done (p, set_b_runtimes (<[p := r]> (b_runtimes b)) b) /\
    b_runtimes b !! p = None /\ fresh_runtime (b_cfg b) n msgs p r.
Proof.
  intros Hs Hm. unfold newQueueRuntime.
  destruct (ring_new_ok (Z.max (QueueSize (b_cfg b)) (Z.of_nat (length msgs))))
    as (q & -> & Hq & Hc & Hcap); [lia|]. simpl.
  change (queue_ok q) in Hq. change (contents q = []) in Hc.
  destruct (NewQueueRuntime_spec n (b_cfg b) msgs q Hq Hc) as (q' & Hq' & Hc' & Hk & ->).
  { simpl. unfold ring_Capacity. rewrite Hcap. lia. }
  simpl. eexists _, _. split; [done|]. split; [apply new_ptr_fresh|]. split_and!; try done.
  simpl in *. unfold ring_Capacity in *. lia.
Qed.

Lemma recovered_add done n msgs (b : BR) :
  0 <= QueueSize (b_cfg b) <= max_int -> Z.of_nat (length msgs) <= max_int ->
  done !! n = None -> recovered done b ->
  exists p b1, newQueueRuntime n msgs b = Done (p, b1) /\
    recovered (<[n := msgs]> done) (set_b_queues (<[n := p]> (b_queues b1)) b1) /\
    same_rest b (set_b_queues (<[n := p]> (b_queues b1)) b1).
Proof.
  intros Hs Hm Hn [Hd Hq Hp].
  destruct (newQueueRuntime_spec n msgs b Hs Hm) as (p & r & Hrun & Hfresh & Hr).
  assert (b_queues b !! n = None) as Hqn.
  { apply not_elem_of_dom. rewrite Hd. by apply not_elem_of_dom. }
  eexists p, _. split; [exact Hrun|]. split; [|done]. split; simpl.
  - rewrite !dom_insert_L. by rewrite Hd.
  - intros k ms. rewrite lookup_insert. case_decide as Hk.
    + intros [= <-]. subst. exists p, r. by rewrite !lookup_insert_eq.
    + intros Hms. destruct (Hq k ms Hms) as (p' & r' & Hk' & Hr' & Hf). exists p', r'.
      rewrite !lookup_insert_ne; [done|congruence|done].
  - apply ptrs_ok_new; [done|done| |done]. destruct Hr as (_ & _ & -> & _). done.
Qed.

Lemma recover_queues_spec entries done (b : BR) :
  0 <= QueueSize (b_cfg b) <= max_int ->
  (forall n msgs, (n, msgs) ∈ entries -> Z.of_nat (length msgs) <= max_int) ->
  NoDup entries.*1 -> (forall n, n ∈ entries.*1 -> done !! n = None) -> recovered done b ->
  exists b', recover_queues entries b = Done b' /\ same_rest b b' /\
    recovered (list_to_map entries ∪ done) b'.
Proof.
  revert done b. induction entries as [|[n msgs] entries IH]; intros done b Hs Hm Hnd Hdj Hrec; simpl.
  { exists b. split; [done|]. split; [done|]. by rewrite (left_id_L ∅ (∪)). }
  simpl in Hnd. apply NoDup_cons in Hnd as [Hn Hnd].
  destruct (recovered_add done n msgs b Hs) as (p & b1 & -> & Hrec1 & Hsame1); [|apply Hdj; left|done|].
  { apply (Hm n). left. }
  simpl. destruct Hsame1 as (H1 & H2 & H3 & H4 & H5).
  destruct (IH (<[n := msgs]> done) (set_b_queues (<[n := p]> (b_queues b1)) b1)) as (b' & Hrun & Hsame & Hrec').
  - by rewrite H3.
  - intros k ms Hk. apply (Hm k). by right.
  - done.
  - intros k Hk. rewrite lookup_insert_ne by (by intros <-). apply Hdj. by right.
  - done.
  - exists b'. split; [done|]. destruct Hsame as (G1 & G2 & G3 & G4 & G5).
    split; [by split_and!; etrans|].
    by rewrite <- insert_union_r, insert_union_l in Hrec' by (by apply not_elem_of_list_to_map_1).
Qed.

Lemma recover_default_spec done (b : BR) :
  0 <= QueueSize (b_cfg b) <= max_int -> recovered done b ->
  exists b', recover_default b = Done b' /\ same_rest b b' /\ recovered (with_default done) b'.
Proof.
  intros Hs Hrec. unfold recover_default, with_default.
  destruct (done !! DefaultQueueName) as [ms|] eqn:Ed.
  - destruct (rc_queue _ _ Hrec _ _ Ed) as (p & r & -> & _). by exists b.
  - assert (b_queues b !! DefaultQueueName = None) as ->.
    { apply not_elem_of_dom. rewrite (rc_dom _ _ Hrec). by apply not_elem_of_dom. }
    destruct (recovered_add done DefaultQueueName [] b Hs) as (p & b1 & -> & Hrec1 & Hsame1);
      [by vm_compute|done|done|]. simpl. eauto.
Qed.

(** ** Bindings *)

(** What recovery of exchanges leaves alone. *)
Definition same_queues (b b' : BR) : Prop :=
  b_queues b' = b_queues b /\ b_runtimes b' = b_runtimes b /\ b_cfg b' = b_cfg b /\
  b_closed b' = b_closed b /\ w_tokenOwners (b_world b') = w_tokenOwners (b_world b).

Lemma recover_bindings_spec n t st bs rest (b : BR) err b' :
  recover_bindings n rest b = (err, b') -> storage_error err = false ->
  b_exchanges b !! n = Some (ex_with t n bs) -> wal_ok (w_wal (b_world b)) ->
  PendingExchanges (logged b) =
    <[n := mkExchangeState (ExchangeType_string t) bs]> (PendingExchanges st) ->
  NoDup (bs ++ rest) ->
  (forall bd, bd ∈ rest -> QueueName bd ∈ dom (b_queues b) /\ validateBindingKey (BindingKey bd) = None) ->
  err = None /\ wal_ok (w_wal (b_world b')) /\ same_queues b b' /\
  b_exchanges b' = <[n := ex_with t n (bs ++ rest)]> (b_exchanges b) /\
  PendingMessages (logged b') = PendingMessages (logged b) /\
  PendingExchanges (logged b') =
    <[n := mkExchangeState (ExchangeType_string t) (bs ++ rest)]> (PendingExchanges st).
Proof.
  revert bs b. induction rest as [|[q k] rest IH]; intros bs b H Hs Hn Hw Hl Hnd Hall; simpl in H.
  { injection H as <- <-. rewrite app_nil_r. split_and!; try done. by rewrite insert_id. }
  destruct (Hall (mkBinding q k) ltac:(left)) as [Hq Hk]. simpl in Hq, Hk.
  apply elem_of_dom in Hq as [p Hq].
  unfold BindQueue in H. rewrite Hk, Hn, Hq in H.
  destruct (Bind k q (ex_with t n bs)) as [err1 e1] eqn:Eb.
  destruct (Bind_cases _ _ _ _ _ Eb) as [(Hin & _ & _)|(_ & -> & He1)].
  { exfalso. rewrite base_ex_with in Hin. simpl in Hin. apply NoDup_app in Hnd as (_ & Hdj & _).
    apply (Hdj _ Hin). left. }
  rewrite base_ex_with in He1. simpl in He1. rewrite with_base_ex_with in He1. subst e1.
  destruct (broker_append _ _) as [err2 b2] eqn:Ea.
  destruct (broker_append_spec _ _ _ _ Ea Hw ltac:(auto with dsend)) as (w & -> & Hw2 & Hl2 & He2).
  destruct err2 as [e2|]; [injection H as <- _; by rewrite (He2 e2 eq_refl) in Hs|].
  assert (PendingExchanges (logged b) !! n =
    Some (mkExchangeState (ExchangeType_string t) bs)) as Hln by (by rewrite Hl, lookup_insert_eq).
  assert (logged (set_b_exchanges (<[n := ex_with t n (bs ++ [mkBinding q k])]> (b_exchanges b)) b)
    = logged b) as Hsame by done.
  rewrite Hsame in Hl2. unfold load_record in Hl2. simpl in Hl2. rewrite Hln in Hl2.
  destruct (IH (bs ++ [mkBinding q k]) _ H Hs) as (-> & Hw' & Hsq & Hx & Hpm & Hpe); simpl.
  - by rewrite lookup_insert_eq.
  - done.
  - unfold logged. simpl. rewrite Hl2. simpl. by rewrite Hl, insert_insert_eq.
  - by rewrite <- app_assoc.
  - intros bd Hbd. apply Hall. by right.
  - rewrite <- app_assoc in *. simpl in *. split_and!; try done.
    + by rewrite Hx, insert_insert_eq.
    + rewrite Hpm. unfold logged at 1. simpl. by rewrite Hl2.
Qed.

(** ** Exchanges *)

Lemma same_queues_trans (b1 b2 b3 : BR) : same_queues b1 b2 -> same_queues b2 b3 -> same_queues b1 b3.
Proof. intros (?&?&?&?&?) (?&?&?&?&?). by split_and!; etrans. Qed.

(** One exchange: created and bound, the log is back where it was. *)
Lemma recover_exchange_spec queues ex st n e (b : BR) err b1 b2 err2 :
  topo (dom queues) queues ex st -> n <> DefaultExchangeName -> ex !! n = Some e ->
  CreateExchange n (ExchangeType_string (type_of e)) b = (err, b1) -> storage_error err = false ->
  (err = None -> recover_bindings n (bindings (base_of e)) b1 = (err2, b2)) ->
  storage_error err2 = false ->
  b_exchanges b !! n = None -> dom queues ⊆ dom (b_queues b) -> wal_ok (w_wal (b_world b)) ->
  PendingExchanges (logged b) = PendingExchanges st ->
  err = None /\ err2 = None /\ wal_ok (w_wal (b_world b2)) /\ same_queues b b2 /\
  b_exchanges b2 = <[n := e]> (b_exchanges b) /\
  PendingMessages (logged b2) = PendingMessages (logged b) /\
  PendingExchanges (logged b2) = PendingExchanges st.
Proof.
  intros Ht Hd He Hc Hs Hrb Hs2 Hn Hsub Hw Hpe. unfold CreateExchange in Hc.
  rewrite (tp_names _ _ _ _ Ht n) in Hc by eauto. rewrite validate_type_string, Hn in Hc.
  destruct (broker_append _ b) as [err1 b0] eqn:Ea.
  destruct (broker_append_spec _ _ _ _ Ea Hw ltac:(auto with dsend)) as (w & -> & Hw1 & Hl1 & He1).
  destruct err1 as [e1|]; injection Hc as <- <-; [by rewrite (He1 e1 eq_refl) in Hs|].
  specialize (Hrb eq_refl).
  pose proof (tp_named _ _ _ _ Ht n e He) as Hname.
  destruct (recover_bindings_spec n (type_of e) st [] _ _ _ _ Hrb Hs2)
    as (-> & Hw2 & Hsq & Hx & Hpm & Hpe2); simpl.
  - rewrite lookup_insert_eq. by destruct (type_of e).
  - done.
  - unfold logged. simpl. rewrite Hl1. simpl. by rewrite Hpe.
  - by apply (tp_nodup _ _ _ _ Ht n).
  - intros bd Hbd. destruct (tp_bindings _ _ _ _ Ht n e bd He Hbd) as [Hq Hk]. split; [|done].
    by apply Hsub.
  - simpl in *. split_and!; try done.
    + rewrite Hx, insert_insert_eq. f_equal.
      etrans; [|apply ex_with_self]. by rewrite Hname.
    + rewrite Hpm. unfold logged at 1. simpl. by rewrite Hl1.
    + rewrite Hpe2. apply insert_id. rewrite (tp_exchanges _ _ _ _ Ht n Hd), He. done.
Qed.

Lemma recover_exchanges_spec queues ex st entries (b : BR) err b' :
  topo (dom queues) queues ex st ->
  recover_exchanges entries b = (err, b') -> storage_error err = false ->
  (forall n es, (n, es) ∈ entries -> PendingExchanges st !! n = Some es) -> NoDup entries.*1 ->
  (forall n, n <> DefaultExchangeName ->
     b_exchanges b !! n = if decide (n ∈ entries.*1) then None else ex !! n) ->
  dom queues ⊆ dom (b_queues b) -> wal_ok (w_wal (b_world b)) ->
  PendingExchanges (logged b) = PendingExchanges st ->
  err = None /\ wal_ok (w_wal (b_world b')) /\ same_queues b b' /\
  (forall n, n <> DefaultExchangeName -> b_exchanges b' !! n = ex !! n) /\
  b_exchanges b' !! DefaultExchangeName = b_exchanges b !! DefaultExchangeName /\
  PendingMessages (logged b') = PendingMessages (logged b) /\
  PendingExchanges (logged b') = PendingExchanges st.
Proof.
  intros Ht. revert b. induction entries as [|[n es] entries IH];
    intros b H Hs Hst Hnd Hcur Hsub Hw Hpe; simpl in H.
  { injection H as <- <-. by split_and!. }
  simpl in Hnd. apply NoDup_cons in Hnd as [Hnin Hnd].
  assert (PendingExchanges st !! n = Some es) as Hes by (apply Hst; left).
  assert (n <> DefaultExchangeName) as Hne.
  { intros ->. by rewrite (tp_unlogged _ _ _ _ Ht) in Hes. }
  rewrite (tp_exchanges _ _ _ _ Ht n Hne) in Hes.
  apply fmap_Some in Hes as (e & He & ->). simpl in H.
  destruct (CreateExchange _ _ b) as [err1 b1] eqn:Ec.
  assert (exists err2 b2, (err1 = None -> recover_bindings n (bindings (base_of e)) b1 = (err2, b2)) /\
    (err1 <> None -> err2 = None)) as (err2 & b2 & Hrb & Hz).
  { destruct err1; [by exists None, b1|]. destruct (recover_bindings _ _ b1) as [o b0]. by exists o, b0. }
  assert (storage_error err1 = false /\ storage_error err2 = false) as [Hs1 Hs2].
  { destruct err1 as [x|]; [injection H as <- _; by rewrite Hz|].
    rewrite Hrb in H by done. destruct err2; [by injection H as <- _|done]. }
  destruct (recover_exchange_spec queues ex st n e b err1 b1 b2 err2)
    as (-> & -> & Hw2 & Hsq & Hx & Hpm & Hpe2); try done.
  { rewrite Hcur by done. rewrite decide_True; [done|left]. }
  rewrite Hrb in H by done.
  destruct (IH b2 H Hs) as (-> & Hw3 & Hsq3 & Hx3 & Hd3 & Hpm3 & Hpe3); try done.
  - intros k es Hk. apply Hst. by right.
  - intros k Hk. rewrite Hx, lookup_insert. case_decide as Hkn; subst.
    + by rewrite decide_False.
    + rewrite (Hcur k Hk). simpl. do 2 case_decide; set_solver.
  - destruct Hsq as (-> & _). done.
  - split_and!; try done.
    + by eapply same_queues_trans.
    + rewrite Hd3, Hx. by rewrite lookup_insert_ne.
    + by rewrite Hpm3.
Qed.

(** ** The whole of [NewBroker] *)

Lemma range_list_to_map {A} (m : gmap string A) : list_to_map (range m) = m.
Proof.
  rewrite <- (list_to_map_to_list m) at 2. apply list_to_map_proper; [|apply range_perm].
  rewrite range_perm. apply NoDup_fst_map_to_list.
Qed.

Lemma range_elem {A} (m : gmap string A) n x : (n, x) ∈ range m <-> m !! n = Some x.
Proof. by rewrite range_perm, elem_of_map_to_list. Qed.

Lemma range_NoDup {A} (m : gmap string A) : NoDup (range m).*1.
Proof. rewrite range_perm. apply NoDup_fst_map_to_list. Qed.

Lemma dom_with_default m : dom (with_default m) = dom m ∪ {[DefaultQueueName]}.
Proof.
  unfold with_default. destruct (m !! DefaultQueueName) eqn:E.
  - apply elem_of_dom_2 in E. set_solver.
  - rewrite dom_insert_L. set_solver.
Qed.

(** The queues of a broker being recovered. *)
Lemma recover_all_queues cfg w sessions pending :
  0 <= QueueSize cfg <= max_int ->
  map_Forall (fun _ msgs => Z.of_nat (length msgs) <= max_int) pending ->
  exists b1 b2, recover_queues (range pending) (NewInMemoryBroker cfg w sessions) = Done b1 /\
    recover_default b1 = Done b2 /\ recovered (with_default pending) b2 /\
    same_rest (NewInMemoryBroker cfg w sessions) b2.
Proof.
  intros Hs Hm.
  destruct (recover_queues_spec (range pending) ∅ (NewInMemoryBroker cfg w sessions))
    as (b1 & H1 & Hsame1 & Hrec1); simpl; try done.
  - intros n msgs Hin. apply range_elem in Hin. by apply (Hm n).
  - apply range_NoDup.
  - rewrite range_list_to_map, (right_id_L ∅ (∪)) in Hrec1.
    destruct Hsame1 as (G1 & G2 & G3 & G4 & G5).
    destruct (recover_default_spec pending b1) as (b2 & H2 & (F1 & F2 & F3 & F4 & F5) & Hrec2);
      [by rewrite G3|done|].
    exists b1, b2. split_and!; try done. by split_and!; etrans.
Qed.

(** What a restart brings back. *)
Record restored (queues : gmap string nat) (ex : gmap string Exchange) (st : RecoveredState)
    (b : BR) : Prop := {
  rs_ok : broker_ok b;
  rs_queues : dom (b_queues b) = dom queues;
  rs_messages n : n ∈ dom queues -> exists p r, b_queues b !! n = Some p /\
    b_runtimes b !! p = Some r /\ fresh_runtime (b_cfg b) n (pending_of st n) p r;
  rs_exchanges n : n <> DefaultExchangeName -> b_exchanges b !! n = ex !! n;
  rs_default : b_exchanges b !! DefaultExchangeName =
    Some (Direct (mkBase DefaultExchangeName [mkBinding DefaultQueueName DefaultQueueName]));
  rs_log : logged b = st;
}.

Lemma topo_default queues ex st ex' queues' :
  topo (dom queues) queues ex st -> dom queues' = dom queues ->
  (forall n, n <> DefaultExchangeName -> ex' !! n = ex !! n) ->
  ex' !! DefaultExchangeName = Some (NewDirectExchange DefaultExchangeName) ->
  topo (dom queues') queues' ex' st.
Proof.
  intros [Hq Hx Hu Hd Hnm Hnd Hno Hb] Hdom Hex Hdef. split; try done.
  - by rewrite Hdom.
  - intros n Hn. rewrite Hex by done. by apply Hx.
  - by eexists.
  - intros n Hn Hne. rewrite Hex in Hn by done. by apply Hnm.
  - intros n e He. destruct (decide (n = DefaultExchangeName)) as [->|Hne].
    + rewrite Hdef in He. by injection He as <-.
    + rewrite Hex in He by done. by apply Hnd.
  - intros n e He. destruct (decide (n = DefaultExchangeName)) as [->|Hne].
    + rewrite Hdef in He. injection He as <-. apply NoDup_nil_2.
    + rewrite Hex in He by done. by eapply Hno.
  - intros n e bd He Hbd. destruct (decide (n = DefaultExchangeName)) as [->|Hne].
    + rewrite Hdef in He. injection He as <-. by apply elem_of_nil in Hbd.
    + rewrite Hex in He by done. rewrite Hdom. by eapply Hb.
Qed.

Lemma pending_with_default m n st :
  PendingMessages st = m -> n ∈ dom m ∪ {[DefaultQueueName]} ->
  with_default m !! n = Some (pending_of st n).
Proof.
  intros Hm Hn. unfold with_default, pending_of. rewrite Hm.
  destruct (m !! DefaultQueueName) as [ms|] eqn:E.
  - assert (is_Some (m !! n)) as [x ->]; [|done]. apply elem_of_dom.
    apply elem_of_dom_2 in E. set_solver.
  - rewrite lookup_insert. case_decide as Hd; [by subst; rewrite E|].
    assert (is_Some (m !! n)) as [x ->]; [|done]. apply elem_of_dom. set_solver.
Qed.

Lemma NewBroker_spec queues ex cfg w sessions :
  wal_ok w -> topo (dom queues) queues ex (replay (wal_log w)) ->
  0 <= QueueSize cfg <= max_int ->
  map_Forall (fun _ msgs => Z.of_nat (length msgs) <= max_int) (PendingMessages (replay (wal_log w))) ->
  exists ob err, NewBroker cfg w sessions = Done (ob, err) /\
    (storage_error err = false ->
     exists b, ob = Some b /\ err = None /\ restored queues ex (replay (wal_log w)) b).
Proof.
  intros Hw Ht Hs Hm. unfold NewBroker. rewrite (load_ok w Hw).
  set (st := replay (wal_log w)) in *.
  destruct (recover_all_queues cfg w sessions (PendingMessages st) Hs Hm)
    as (b1 & b2 & -> & H2 & Hrec & (F1 & F2 & F3 & F4 & F5)). simpl. rewrite H2. simpl.
  destruct (recover_exchanges _ b2) as [err3 b3] eqn:E3.
  assert (dom (b_queues b2) = dom queues) as Hdom2.
  { rewrite (rc_dom _ _ Hrec), dom_with_default. symmetry. apply Ht. }
  assert (storage_error err3 = false ->
    err3 = None /\ wal_ok (w_wal (b_world b3)) /\ same_queues b2 b3 /\
    (forall n, n <> DefaultExchangeName -> b_exchanges b3 !! n = ex !! n) /\
    b_exchanges b3 !! DefaultExchangeName = Some (NewDirectExchange DefaultExchangeName) /\
    logged b3 = st) as Hx.
  { intros Hs3. destruct (recover_exchanges_spec queues ex st _ b2 err3 b3 Ht E3 Hs3)
      as (-> & Hw3 & Hsq & Hex & Hdef & Hpm & Hpe).
    - intros n es. by rewrite range_elem.
    - apply range_NoDup.
    - intros n Hn. rewrite F1. simpl. rewrite lookup_singleton_ne by done.
      case_decide as Hd; [done|]. destruct (ex !! n) as [e|] eqn:E; [|done]. exfalso. apply Hd.
      apply list_elem_of_fmap. exists (n, exchange_state e). split; [done|]. apply range_elem.
      by rewrite (tp_exchanges _ _ _ _ Ht n Hn), E.
    - by rewrite Hdom2.
    - rewrite F2. done.
    - unfold logged. rewrite F2. done.
    - split_and!; try done; [by rewrite Hdef, F1; simpl; rewrite lookup_singleton_eq|].
      assert (logged b2 = st) as Hst by (unfold logged; by rewrite F2).
      rewrite Hst in Hpm. destruct (logged b3), st; simpl in *; by subst. }
  destruct err3 as [e3|]; [eexists _, _; split; [done|]; intros Hs3; by destruct (Hx Hs3)|].
  destruct (Hx eq_refl) as (_ & Hw3 & (Q1 & Q2 & Q3 & Q4 & Q5) & Hex & Hdef & Hst). clear Hx.
  assert (topo (dom (b_queues b3)) (b_queues b3) (b_exchanges b3) (logged b3)) as Ht3.
  { rewrite Hst. by apply (topo_default queues ex); [|rewrite Q1| |]. }
  assert (broker_ok b3) as Hok3.
  { split; [done|done|]. rewrite Q1, Q2, Q5. apply Hrec. }
  destruct (BindQueue _ _ _ b3) as [err4 b4] eqn:E4.
  assert (is_Some (b_queues b3 !! DefaultQueueName)) as [p4 Hp4].
  { apply elem_of_dom. rewrite Q1, (rc_dom _ _ Hrec), dom_with_default. set_solver. }
  pose proof E4 as E4'. unfold BindQueue in E4. rewrite Hdef, Hp4 in E4. simpl in E4.
  destruct (broker_append _ _) as [err5 b5] eqn:E5. injection E4 as <- <-.
  destruct (broker_append_spec _ _ _ _ E5 Hw3 ltac:(auto with dsend)) as (w5 & -> & Hw5 & Hl5 & He5).
  destruct err5 as [e5|].
  { specialize (He5 e5 eq_refl). eexists _, _.
    split; [by destruct e5|]. intros Hs5. by rewrite Hs5 in He5. }
  eexists _, _. split; [done|]. intros _. eexists. split; [done|]. split; [done|].
  assert (logged (set_b_exchanges
    (<[DefaultExchangeName := Direct (mkBase DefaultExchangeName
        [mkBinding DefaultQueueName DefaultQueueName])]> (b_exchanges b3)) b3) = st) as Hst3 by exact Hst.
  assert (replay (wal_log w5) = st) as Hst5.
  { rewrite Hl5, Hst3. unfold load_record. simpl. by rewrite (tp_unlogged _ _ _ _ Ht). }
  split; simpl.
  - eapply BindQueue_ok; [exact E4'|done|done].
  - by rewrite Q1.
  - intros n Hn. rewrite Q1, Q2, Q3. apply (rc_queue _ _ Hrec). apply pending_with_default; [done|].
    rewrite <- (tp_queues _ _ _ _ Ht). done.
  - intros n Hn. rewrite lookup_insert_ne by done. by apply Hex.
  - by rewrite lookup_insert_eq.
  - exact Hst5.
Qed.

End Recovery.
