(* ===== verification/BrokerTheorems.v ===== *)
(** What the broker guarantees: its topology is what its log replays to, every
    binding leads to a queue, a restart brings back queues, messages and
    exchanges, and the outcomes of the single methods. *)

From S2P Require Import Prelude GoStrings Model RingBuffer Inflight Exchange Wal QueueRuntime.
From S2P Require Import System QueueSpec QueueInv RoundRobin QueueRefine QueueDeliver.
From S2P Require Import Redelivery SystemInv QueueCases Broker Topology BrokerInv Recovery.

(** ** Binding keys *)

(** The segments a binding key may have at a position that is, or is not, the
    last one. *)
Definition valid_segment (is_last : bool) (s : string) : Prop :=
  s = "*" \/ (s = "#" /\ is_last = true) \/
  (s <> "" /\ forallb isValidBindingKeyChar (bytes_of s) = true).

Fixpoint valid_segments (l : list string) : Prop :=
  match l with
  | [] => True
  | s :: rest => valid_segment (bool_decide (rest = [])) s /\ valid_segments rest
  end.

Lemma valid_char_ascii r : 0x80 <= r -> isValidBindingKeyChar r = false.
Proof.
  intros Hr. unfold isValidBindingKeyChar.
  repeat first [rewrite (bool_decide_false (r <= _)) by lia | rewrite (bool_decide_false (r = _)) by lia].
  by rewrite !andb_false_r.
Qed.

Lemma validate_segments_iff l i last :
  last = i + Z.of_nat (length l) - 1 ->
  validate_segments last i l = None <-> valid_segments l.
Proof.
  revert i. induction l as [|s l IH]; intros i Hlast; simpl; [done|].
  assert (bool_decide (i <> last) = negb (bool_decide (l = []))) as Hl.
  { destruct l; simpl in *; [rewrite bool_decide_false by lia|rewrite bool_decide_true by lia]; done. }
  specialize (IH (i + 1) ltac:(simpl in Hlast; lia)). unfold valid_segment.
  rewrite <- (runes_ascii_test _ _ valid_char_ascii).
  destruct (decide (s = "")) as [->|Hne].
  { rewrite bool_decide_true by done. split; [done|]. naive_solver. }
  rewrite (bool_decide_false (s = "")) by done.
  destruct (decide (s = "#")) as [->|Hh].
  { rewrite bool_decide_true by done. rewrite Hl.
    assert (forallb isValidBindingKeyChar (runes "#") = false) as -> by by vm_compute.
    destruct (bool_decide (l = [])) eqn:E; simpl; [rewrite IH; naive_solver|naive_solver]. }
  rewrite (bool_decide_false (s = "#")) by done.
  destruct (decide (s = "*")) as [->|Hs].
  { rewrite bool_decide_true by done. rewrite IH. naive_solver. }
  rewrite (bool_decide_false (s = "*")) by done.
  destruct (forallb _ _); [rewrite IH; naive_solver|]. split; [done|naive_solver].
Qed.

(** [validateBindingKey] accepts exactly the keys of at most 255 bytes whose
    dot-separated segments are non-empty words over letters, digits, [_] and
    [-], or [*], or [#] in the last place; decoding the bytes as UTF-8 first
    makes no difference. *)
Theorem validate_binding_key_exact k :
  validateBindingKey k = None <->
  k <> "" /\ (String.length k <= 255)%nat /\ valid_segments (strings_Split dot k).
Proof.
  unfold validateBindingKey. case_bool_decide as Hk; simpl; [naive_solver|].
  case_bool_decide as Hlen; [split; [done|lia || intros (_ & ? & _); lia]|].
  rewrite validate_segments_iff by lia. split; [intros; split_and!; [done|lia|done]|tauto].
Qed.

Lemma valid_segments_hash_last l : valid_segments l -> hash_last l.
Proof.
  induction l as [|s l IH]; simpl; [done|]. intros [Hs Hl]. split; [|by apply IH].
  intros ->. destruct Hs as [?|[[_ Hb]|[_ Hc]]]; [done|by apply bool_decide_eq_true in Hb|].
  by vm_compute in Hc.
Qed.

Lemma valid_key_hash_last k : validateBindingKey k = None -> hash_last (strings_Split dot k).
Proof.
  unfold validateBindingKey. case_match; [done|]. rewrite validate_segments_iff by lia.
  apply valid_segments_hash_last.
Qed.

(** C22: On the binding keys [BindQueue] accepts and on routing keys none of whose
    segments is [#], the topic matcher returns and is the pattern language of the
    documentation: [*] matches exactly one segment, a final [#] any number of
    segments, anything else itself. A routing key with a segment [#], which
    publishers may use, is not always matched as documented:
    [hash_segment_not_matched]. *)
Theorem topic_match_correct bindingKey routingKey :
  validateBindingKey bindingKey = None -> "#" ∉ strings_Split dot routingKey ->
  exists b, topic_match bindingKey routingKey = Done b /\
    (b = true <-> pattern_matches (strings_Split dot bindingKey) (strings_Split dot routingKey)).
Proof.
  intros Hb Hr. unfold topic_match. rewrite match_parts_spec. eexists. split; [done|].
  split; [apply matchb_sound|]. apply matchb_complete; [by apply valid_key_hash_last|done].
Qed.

Lemma topic_match_correct_witness :
  exists b, topic_match "orders.*.#" "orders.eu.paid.late" = Done b /\
    (b = true <-> pattern_matches (strings_Split dot "orders.*.#")
                    (strings_Split dot "orders.eu.paid.late")).
Proof.
  apply topic_match_correct; [vm_compute; reflexivity|].
  apply (bool_decide_unpack _). vm_compute. exact I.
Defined.

Section Broker.
Context {W : Type} `{!WAL W} `{!WALLaws W} {Hrange : MapRange}.
Abbreviation BR := (InMemoryBroker W).

(** ** Runs of calls *)

(** A call of the broker's interface that reports no storage error, or that
    logs before it changes anything. *)
Inductive api_step (b b' : BR) : Prop :=
| api_CreateQueue n err : CreateQueue n b = Done (err, b') -> api_step b b'
| api_DeleteQueue n err : DeleteQueue n b = Done (err, b') -> storage_error err = false -> api_step b b'
| api_BindQueue e q k err : BindQueue e q k b = (err, b') -> storage_error err = false -> api_step b b'
| api_UnbindQueue e q k err : UnbindQueue e q k b = (err, b') -> storage_error err = false -> api_step b b'
| api_CreateExchange e t err : CreateExchange e t b = (err, b') -> api_step b b'
| api_DeleteExchange e err : DeleteExchange e b = (err, b') -> api_step b b'
| api_Publish now newID e rk m ttl r : Broker_Publish now newID e rk m ttl b = Done (r, b') -> api_step b b'
| api_Resume now newID m ttl p rest r :
    Broker_Publish_resume now newID m ttl p rest b = Done (r, b') -> api_step b b'
| api_Subscribe q l err : Broker_Subscribe q l b = Done (err, b') -> api_step b b'
| api_Unsubscribe q id : Broker_Unsubscribe q id b = Done b' -> api_step b b'
| api_Ack tok err : Broker_Ack tok b = Done (err, b') -> api_step b b'
| api_Start : b' = Broker_Start b -> api_step b b'
| api_Shutdown : Broker_Shutdown b = Done b' -> api_step b b'.

Lemma api_step_ok (b b' : BR) : api_step b b' -> broker_ok b -> broker_ok b'.
Proof.
  destruct 1; eauto using CreateQueue_ok, DeleteQueue_ok, BindQueue_ok, UnbindQueue_ok,
    CreateExchange_ok, DeleteExchange_ok, Broker_Publish_ok, Broker_Publish_resume_ok,
    Broker_Subscribe_ok, Broker_Unsubscribe_ok, Broker_Ack_ok, Broker_Shutdown_ok.
  subst. by apply Broker_Start_ok.
Qed.

Lemma api_run_ok (b b' : BR) : rtc api_step b b' -> broker_ok b -> broker_ok b'.
Proof. induction 1; eauto using api_step_ok. Qed.

(** C16: The log follows the topology. From a broker that [NewBroker] makes of a
    log that follows some topology (with a [QueueSize] that is not negative and at
    most [2^63 - 1] messages pending per queue), along every sequence of calls of the broker in
    which [DeleteQueue], [BindQueue] and [UnbindQueue] meet no storage error (all
    other calls may, and a failed append leaves no record), the log replays to the
    topology in memory: the queue names (the default queue is implicit), and for
    every exchange but the default one its type and its bindings in order. The
    default exchange is not in the log ([default_bindings_lost_on_restart]), and
    after a storage error in one of the three calls memory and log can differ
    ([failed_bind_still_routes]). *)
Theorem topology_follows_log cfg w sessions (b b' : BR) queues ex :
  wal_ok w -> topo (dom queues) queues ex (replay (wal_log w)) ->
  0 <= QueueSize cfg <= max_int ->
  map_Forall (fun _ msgs => Z.of_nat (length msgs) <= max_int) (PendingMessages (replay (wal_log w))) ->
  NewBroker cfg w sessions = Done (Some b, None) -> rtc api_step b b' ->
  dom (b_queues b') = dom (PendingMessages (logged b')) ∪ {[DefaultQueueName]} /\
  forall n, n <> DefaultExchangeName ->
    PendingExchanges (logged b') !! n = exchange_state <$> b_exchanges b' !! n.
Proof.
  intros Hw Ht Hs Hm Hnew Hr.
  destruct (NewBroker_spec queues ex cfg w sessions Hw Ht Hs Hm) as (ob & err & Hn & Hrs).
  rewrite Hnew in Hn. injection Hn as <- <-. destruct (Hrs eq_refl) as (b0 & [= <-] & _ & Hres).
  destruct (api_run_ok b b' Hr (rs_ok _ _ _ _ Hres)) as [_ Htp _].
  split; [apply Htp|]. intros n Hne. by apply (tp_exchanges _ _ _ _ Htp).
Qed.

(** C23: From a broker whose memory agrees with its log ([broker_ok], as
    [NewBroker] makes it), along every sequence of calls in which [DeleteQueue],
    [BindQueue] and [UnbindQueue] meet no storage error (other calls may, and a
    failed append leaves no record), every binding of every exchange leads to a queue that exists, under a key [validateBindingKey]
    accepts, and no exchange holds a binding twice. *)
Theorem bindings_lead_to_queues (b b' : BR) n e bd :
  broker_ok b -> rtc api_step b b' ->
  b_exchanges b' !! n = Some e -> bd ∈ bindings (base_of e) ->
  is_Some (b_queues b' !! QueueName bd) /\ validateBindingKey (BindingKey bd) = None /\
  exchange_ok e.
Proof.
  intros Hok Hr He Hbd. destruct (api_run_ok b b' Hr Hok) as [_ Ht _].
  destruct (tp_bindings _ _ _ _ Ht n e bd He Hbd) as [Hq Hk].
  split; [by apply elem_of_dom|]. split; [done|]. by apply (tp_nodup _ _ _ _ Ht n).
Qed.

(** C14: A restart restores a broker whose memory agrees with its log
    ([broker_ok]; kept by all calls but [DeleteQueue], [BindQueue] and
    [UnbindQueue] that end in a storage error, after which a restart can undo a
    binding, [failed_bind_still_routes]): [NewBroker] on its log, with a
    [QueueSize] that is not negative and at most [2^63 - 1] messages pending per
    queue, over a log in which a failed append leaves no record, returns without a
    panic, and unless the log fails during recovery it has the same queue
    names, each queue with exactly its pending messages in log order, the same
    exchanges (type and bindings in order) but for the default one, which is
    back to its one initial binding; and the new log replays to the same state,
    so restarts can be repeated. *)
Theorem restart_restores cfg sessions (b : BR) :
  broker_ok b -> 0 <= QueueSize cfg <= max_int ->
  map_Forall (fun _ msgs => Z.of_nat (length msgs) <= max_int) (PendingMessages (logged b)) ->
  exists ob err, NewBroker cfg (w_wal (b_world b)) sessions = Done (ob, err) /\
    (storage_error err = false ->
     exists b', ob = Some b' /\ err = None /\ restored (b_queues b) (b_exchanges b) (logged b) b').
Proof. intros [Hw Ht _] Hs Hm. by apply NewBroker_spec. Qed.

(** ** Publishing *)

Lemma runtime_Publish_errors now id m ttl (s : QState RingBufferQueue W) e s' :
  Publish now id m ttl s = Done (PubReturned (Some e), s') ->
  e = ErrBrokerClosed \/ storage_error (Some e) = true.
Proof.
  intros H. pose proof (Publish_cases _ _ _ _ _ _ _ H) as Hc.
  inversion Hc as [| |? w ? ? Ha|]; subst; [by left|].
  destruct (append_storage _ _ _ _ Ha) as [what ->]. by right.
Qed.

Lemma publish_loop_found now newID m ttl i names (b : BR) e b' :
  (forall n, n ∈ names -> is_Some (b_queues b !! n)) -> is_Some (b_queues b !! DefaultQueueName) ->
  broker_ok b ->
  publish_loop now newID m ttl i names b = Done (BReturned (Some e), b') ->
  e = ErrBrokerClosed \/ storage_error (Some e) = true.
Proof.
  revert i b. induction names as [|n names IH]; intros i b Hn Hd Hok H; simpl in H; [done|].
  destruct (broker_queue n b) as [p|e1] eqn:Eq.
  - destruct (on_runtime p _ b) as [[pr b1]| |] eqn:Er; try done. simpl in H.
    destruct (on_runtime_inv _ _ _ _ _ Er) as (r & s' & _ & Hf & _).
    destruct (queue_Publish_ok _ _ _ _ _ _ _ _ _ Er Eq Hok) as (Hok1 & Hq & _).
    destruct pr as [|[e2|]]; simplify_eq.
    + by eapply runtime_Publish_errors.
    + apply (IH (S i) b1); rewrite ?Hq; try done. intros k Hk. apply Hn. by right.
  - injection H as -> _. unfold broker_queue in Eq. destruct (b_closed b); [simplify_eq; by left|].
    case_bool_decide; [|destruct (Hn n ltac:(left)) as [? E]; by rewrite E in Eq].
    destruct Hd as [? E]. by rewrite E in Eq.
Qed.

(** [Publish] never fails because a routed queue is missing: the errors it
    can return are an unknown exchange, no route, a closed broker or a storage
    error. *)
Theorem publish_errors now newID en rk m ttl (b : BR) e b' :
  broker_ok b -> Broker_Publish now newID en rk m ttl b = Done (BReturned (Some e), b') ->
  e = ErrExchangeNotFound \/ e = ErrNoRoute \/ e = ErrBrokerClosed \/ storage_error (Some e) = true.
Proof.
  intros Hok H. unfold Broker_Publish in H.
  destruct (b_exchanges b !! en) as [ex|] eqn:Ee; [|simplify_eq; by left].
  rewrite Route_eq in H. simpl in H. case_bool_decide; [simplify_eq; by right; left|].
  right; right. eapply publish_loop_found; [| |done|exact H].
  - intros n Hn. unfold routed in Hn. apply list_elem_of_fmap in Hn as (bd & -> & Hbd).
    apply list_elem_of_filter in Hbd as [_ Hbd]. apply elem_of_dom.
    by apply (tp_bindings _ _ _ _ (bk_topo _ Hok) en ex bd).
  - apply elem_of_dom. rewrite (tp_queues _ _ _ _ (bk_topo _ Hok)). set_solver.
Qed.

(** ** Queues *)

(** [CreateQueue] returns in every case. An invalid name, a closed broker and
    an existing queue are refused and a failed append is reported, all without a
    change of the topology; otherwise the queue is there, empty and open, its
    goroutines started when the broker runs, and every other queue is as it
    was. *)
Theorem create_queue_outcomes n (b : BR) :
  broker_ok b -> 0 <= QueueSize (b_cfg b) <= max_int ->
  exists err b', CreateQueue n b = Done (err, b') /\ b_exchanges b' = b_exchanges b /\
    match err with
    | Some e => b_queues b' = b_queues b /\ b_runtimes b' = b_runtimes b /\
        (e = ErrInvalidQueue /\ validateQueueName n = Some e \/
         e = ErrBrokerClosed /\ b_closed b = true \/
         e = ErrQueueExists /\ is_Some (b_queues b !! n) \/ storage_error err = true)
    | None => exists p r, b_queues b !! n = None /\ b_closed b = false /\
        b_queues b' = <[n := p]> (b_queues b) /\ b_runtimes b' = <[p := r]> (b_runtimes b) /\
        b_runtimes b !! p = None /\ fresh_runtime (b_cfg b) n [] p r /\
        (b_started b = true -> p ∈ b_running b')
    end.
Proof.
  intros [Hw _ _] Hs. unfold CreateQueue. destruct (validateQueueName n) as [e|] eqn:Ev.
  { eexists _, _. split; [done|]. split_and!; try done. left. split; [|done].
    unfold validateQueueName in Ev. case_match; congruence. }
  destruct (b_closed b) eqn:Ec; [eexists _, _; split; [done|]; split_and!; try done; by right; left|].
  case_bool_decide as Hn; [eexists _, _; split; [done|]; split_and!; try done; by right; right; left|].
  destruct (broker_append _ b) as [err b1] eqn:Ea.
  destruct (broker_append_spec _ _ _ _ Ea Hw ltac:(auto with dsend)) as (w & -> & _ & _ & He).
  destruct err as [e|].
  { eexists _, _. split; [done|]. split_and!; try done. right; right; right. by eapply He. }
  set (b2 := set_b_world _ b).
  destruct (newQueueRuntime_spec n [] b2 Hs) as (p & r & -> & Hp & Hr); [by vm_compute|]. simpl.
  eexists _, _. split; [done|]. apply eq_None_not_Some in Hn.
  destruct (b_started b); simpl; split; try done; exists p, r; split_and!; try done.
  intros _. set_solver.
Qed.

Lemma unbind_all_queues entries n (b : BR) err b' :
  unbind_all entries n b = (err, b') -> b_queues b' = b_queues b.
Proof.
  revert b. induction entries as [|[x ex] entries IH]; intros b H; simpl in H; [by simplify_eq|].
  destruct (Unbind "" n ex) as [[e|] ex'].
  - destruct e; first [by injection H as _ <-|by apply IH].
  - unfold broker_append in H. destruct (Append _ _) as [[e|] w]; [by injection H as _ <-|].
    by rewrite (IH _ H).
Qed.

Lemma on_runtime_queues {A} p (f : QState RingBufferQueue W -> GoM (A * QState RingBufferQueue W))
    (b b' : BR) a :
  on_runtime p f b = Done (a, b') -> b_queues b' = b_queues b.
Proof. intros H. by destruct (on_runtime_inv _ _ _ _ _ H) as (r & s' & _ & _ & ->). Qed.

Lemma DeleteQueue_queues n (b b' : BR) :
  DeleteQueue n b = Done (None, b') ->
  n <> DefaultQueueName /\ b_queues b' = delete n (b_queues b).
Proof.
  unfold DeleteQueue. intros H. case_bool_decide; [done|]. split; [done|].
  destruct (b_queues b !! n) as [p|]; [|done].
  destruct (on_runtime p CloseIfEmpty b) as [[em b1]| |] eqn:E1; try done. simpl in H.
  destruct em; [|done]. simpl in H. unfold broker_append in H.
  destruct (Append _ _) as [[e|] w]; [done|]. destruct (unbind_all _ n _) as [err b3] eqn:E3.
  apply unbind_all_queues in E3. destruct err; [done|].
  destruct (on_runtime p _ b3) as [[[] b4]| |] eqn:E4; simpl in H; try done.
  injection H as <-. simpl. rewrite (on_runtime_queues _ _ _ _ _ E4), E3. simpl.
  by rewrite (on_runtime_queues _ _ _ _ _ E1).
Qed.

(** After a successful [DeleteQueue] nothing is left of the queue: its name
    is gone and the other queues stay, no exchange has a binding to it, and no
    acknowledgement token leads to its runtime. The default queue is never
    deleted. *)
Theorem delete_queue_complete n (b b' : BR) :
  broker_ok b -> DeleteQueue n b = Done (None, b') ->
  n <> DefaultQueueName /\ b_queues b' = delete n (b_queues b) /\
  (forall k e bd, b_exchanges b' !! k = Some e -> bd ∈ bindings (base_of e) -> QueueName bd <> n) /\
  (forall tok p, w_tokenOwners (b_world b') !! tok = Some p -> b_queues b !! n <> Some p).
Proof.
  intros Hok H. destruct (DeleteQueue_queues n b b' H) as [Hn Hq].
  destruct (DeleteQueue_ok n b None b' H eq_refl Hok) as [_ Ht [_ Ho _]].
  split_and!; try done.
  - intros k e bd He Hbd. destruct (tp_bindings _ _ _ _ Ht k e bd He Hbd) as [Hin _].
    rewrite Hq, dom_delete_L in Hin. set_solver.
  - intros tok p Hp Hnp. destruct (Ho tok p Hp) as [k Hk]. rewrite Hq in Hk.
    apply lookup_delete_Some in Hk as [Hne Hk].
    destruct (po_name _ _ _ (bk_ptrs _ Hok) n p Hnp) as (r & Hr & <-).
    destruct (po_name _ _ _ (bk_ptrs _ Hok) k p Hk) as (r' & Hr' & <-). congruence.
Qed.

(** [ListQueues] is the sorted list of the queue names, each once, whatever
    order the map is iterated in. *)
Theorem list_queues_sorted (b : BR) :
  Sorted String.le (ListQueues b) /\ NoDup (ListQueues b) /\
  forall n, n ∈ ListQueues b <-> is_Some (b_queues b !! n).
Proof.
  unfold ListQueues. split; [apply Sort_sorted|]. rewrite Sort_perm. split; [apply range_NoDup|].
  intros n. rewrite Sort_perm, list_elem_of_fmap. split.
  - intros ([k p] & -> & Hin%range_elem). eauto.
  - intros [p Hp]. exists (n, p). split; [done|]. by apply range_elem.
Qed.

(** ** Metrics *)

Definition metric_fields : list (Metric -> Z) :=
  [ProducedCount; AckedCount; DlqCount; InflightCount; RedeliveredCount; ConsumerSessionCount;
   QueueDepth].

Definition metric_sum (f : Metric -> Z) (l : list QueueMetric) : Z :=
  foldr (fun q z => f (qm_Metric q) + z) 0 l.

Lemma metric_sum_app f l k : metric_sum f (l ++ k) = metric_sum f l + metric_sum f k.
Proof. induction l as [|q l IH]; simpl; [done|]. rewrite IH. lia. Qed.

Lemma metric_sum_perm f l k : l ≡ₚ k -> metric_sum f l = metric_sum f k.
Proof. induction 1; simpl; lia. Qed.

Lemma add_metric_field f a m : f ∈ metric_fields -> f (add_metric a m) = wrap64 (f a + f m).
Proof. unfold metric_fields. rewrite !elem_of_cons, elem_of_nil. by intros [->|[->|[->|[->|[->|[->|[->|[]]]]]]]]. Qed.

(** The metric of a queue by name and pointer. *)
Definition queue_metric (b : BR) (e : string * nat) : QueueMetric :=
  mkQueueMetric e.1 (match b_runtimes b !! e.2 with Some r => Metrics r | None => zeroMetric end).

Lemma metrics_loop_spec entries (b : BR) queues total :
  (forall n p, (n, p) ∈ entries -> is_Some (b_runtimes b !! p)) ->
  (forall f, f ∈ metric_fields -> f total = wrap64 (metric_sum f queues)) ->
  exists total',
    metrics_loop entries b queues total = Done (queues ++ (queue_metric b <$> entries), total') /\
    forall f, f ∈ metric_fields ->
      f total' = wrap64 (metric_sum f (queues ++ (queue_metric b <$> entries))).
Proof.
  revert queues total. induction entries as [|[n p] entries IH]; intros queues total Hp Ht; simpl.
  { exists total. rewrite app_nil_r. done. }
  destruct (Hp n p ltac:(left)) as [r Hr]. rewrite Hr.
  destruct (IH (queues ++ [mkQueueMetric n (Metrics r)]) (add_metric total (Metrics r)))
    as (total' & -> & Ht').
  - intros k q Hk. eapply Hp. right. exact Hk.
  - intros f Hf. rewrite (add_metric_field f) by done. rewrite (Ht f Hf), metric_sum_app. simpl.
    rewrite wrap64_add_l. f_equal. lia.
  - exists total'. unfold queue_metric at 2 4. simpl. rewrite Hr. rewrite <- app_assoc in *. done.
Qed.

Lemma Broker_Metrics_sums (b : BR) :
  broker_ok b ->
  exists tot, Broker_Metrics b =
    Done (mkBrokerMetrics (merge_sort metric_le (queue_metric b <$> range (b_queues b))) tot) /\
    forall f, f ∈ metric_fields -> f tot = wrap64 (metric_sum f (queue_metric b <$> range (b_queues b))).
Proof.
  intros Hok. unfold Broker_Metrics.
  destruct (metrics_loop_spec (range (b_queues b)) b [] zeroMetric) as (tot & -> & Ht).
  - intros n p Hin%range_elem. destruct (po_name _ _ _ (bk_ptrs _ Hok) n p Hin) as (r & -> & _). done.
  - unfold metric_fields. intros f Hf. rewrite !elem_of_cons, elem_of_nil in Hf.
    by destruct Hf as [->|[->|[->|[->|[->|[->|[->|[]]]]]]]].
  - by exists tot.
Qed.

(** The broker's metrics list every queue once, sorted by name, with the
    queue's own counters, and each total is the sum of that counter over the
    queues, modulo the width of [int]; the order of the map iteration does not
    show. *)
Theorem broker_metrics_total (b : BR) :
  broker_ok b ->
  exists m, Broker_Metrics b = Done m /\ Sorted metric_le (Queues m) /\
    Queues m ≡ₚ (queue_metric b <$> map_to_list (b_queues b)) /\
    forall f, f ∈ metric_fields -> f (Total m) = wrap64 (metric_sum f (Queues m)).
Proof.
  intros Hok. destruct (Broker_Metrics_sums b Hok) as (tot & -> & Ht). eexists. split; [done|]. simpl.
  split; [apply Sorted_merge_sort; intros x y; apply (total String.le)|].
  split; [by rewrite merge_sort_Permutation, range_perm|].
  intros f Hf. rewrite (Ht f Hf). f_equal. apply metric_sum_perm. symmetry.
  apply merge_sort_Permutation.
Qed.

End Broker.

(** ** The theorems on a concrete broker *)

Abbreviation CB := (InMemoryBroker FileWAL).

Definition first_queues : gmap string nat := {[DefaultQueueName := 0%nat]}.
Definition first_exchanges : gmap string Exchange :=
  {[DefaultExchangeName := NewDirectExchange DefaultExchangeName]}.

(** The topology of an empty log. *)
Lemma first_topo : topo (dom first_queues) first_queues first_exchanges emptyRecovered.
Proof.
  split; unfold first_queues, first_exchanges.
  - by vm_compute.
  - intros n Hn. by rewrite lookup_singleton_ne.
  - done.
  - eexists. by rewrite lookup_singleton_eq.
  - intros n [e He] Hn. by rewrite lookup_singleton_ne in He.
  - intros n e [<- <-]%lookup_singleton_Some. done.
  - intros n e [<- <-]%lookup_singleton_Some. apply NoDup_nil_2.
  - intros n e b [<- <-]%lookup_singleton_Some. by intros ?%elem_of_nil.
Qed.

Definition empty_wal : FileWAL := NewFileWAL [] [].

Lemma empty_wal_ok : wal_ok empty_wal.
Proof. repeat split; constructor. Qed.

Definition first_broker : CB :=
  match NewBroker DefaultConfig empty_wal ∅ with
  | Done (Some b, None) => b
  | _ => NewInMemoryBroker DefaultConfig empty_wal ∅
  end.

Lemma first_broker_new : NewBroker DefaultConfig empty_wal ∅ = Done (Some first_broker, None).
Proof. by vm_compute. Qed.

Lemma first_broker_ok : broker_ok first_broker.
Proof.
  destruct (NewBroker_spec first_queues first_exchanges DefaultConfig empty_wal ∅ empty_wal_ok first_topo)
    as (ob & err & Hn & Hrs); [by vm_compute|apply map_Forall_empty|].
  rewrite first_broker_new in Hn. injection Hn as <- <-.
  destruct (Hrs eq_refl) as (b & [= <-] & _ & Hres). apply Hres.
Qed.

(** A queue [orders] bound to a topic exchange. *)
Definition with_orders : CB :=
  match CreateQueue "orders" first_broker with Done (_, b) => b | _ => first_broker end.
Definition with_topics : CB := (CreateExchange "topics" "topic" with_orders).2.
Definition with_binding : CB := (BindQueue "topics" "orders" "orders.*" with_topics).2.

Lemma with_binding_run : rtc api_step first_broker with_binding.
Proof.
  apply rtc_l with with_orders; [apply api_CreateQueue with "orders" None; by vm_compute|].
  apply rtc_l with with_topics; [apply api_CreateExchange with "topics" "topic" None; by vm_compute|].
  apply rtc_once. apply api_BindQueue with "topics" "orders" "orders.*" None; by vm_compute.
Qed.

Lemma with_binding_ok : broker_ok with_binding.
Proof. exact (api_run_ok _ _ with_binding_run first_broker_ok). Qed.

Lemma topology_follows_log_witness :
  PendingExchanges (logged with_binding) !! "topics" =
    exchange_state <$> b_exchanges with_binding !! "topics".
Proof.
  apply (topology_follows_log DefaultConfig empty_wal ∅ first_broker with_binding first_queues
    first_exchanges empty_wal_ok first_topo).
  - vm_compute. split; discriminate.
  - apply map_Forall_empty.
  - exact first_broker_new.
  - exact with_binding_run.
  - discriminate.
Defined.

Lemma bindings_lead_to_queues_witness :
  is_Some (b_queues with_binding !! "orders") /\ validateBindingKey "orders.*" = None.
Proof.
  destruct (bindings_lead_to_queues first_broker with_binding "topics"
    (Topic (mkBase "topics" [mkBinding "orders" "orders.*"])) (mkBinding "orders" "orders.*"))
    as (H1 & H2 & _).
  - exact first_broker_ok.
  - exact with_binding_run.
  - vm_compute. reflexivity.
  - apply list_elem_of_singleton. reflexivity.
  - split; [exact H1|exact H2].
Defined.

Lemma restart_restores_witness :
  exists ob err, NewBroker DefaultConfig (w_wal (b_world with_binding)) ∅ = Done (ob, err) /\
    (storage_error err = false ->
     exists b', ob = Some b' /\ err = None /\
       restored (b_queues with_binding) (b_exchanges with_binding) (logged with_binding) b').
Proof.
  apply (restart_restores DefaultConfig ∅ with_binding).
  - exact with_binding_ok.
  - vm_compute. split; discriminate.
  - apply (bool_decide_unpack _). vm_compute. exact I.
Defined.

Lemma publish_errors_witness :
  exists e, Broker_Publish (fun _ => 1) (fun _ => "m") "topics" "none" zeroMessage 0 with_binding =
    Done (BReturned (Some e), with_binding) /\
    (e = ErrExchangeNotFound \/ e = ErrNoRoute \/ e = ErrBrokerClosed \/ storage_error (Some e) = true).
Proof.
  exists ErrNoRoute. split; [vm_compute; reflexivity|].
  apply (publish_errors (fun _ => 1) (fun _ => "m") "topics" "none" zeroMessage 0 with_binding _
    with_binding); [exact with_binding_ok|vm_compute; reflexivity].
Defined.

Lemma create_queue_outcomes_witness :
  exists err b', CreateQueue "invoices" with_binding = Done (err, b') /\
    b_exchanges b' = b_exchanges with_binding.
Proof.
  destruct (create_queue_outcomes "invoices" with_binding with_binding_ok) as (err & b' & H & Hx & _).
  - vm_compute. split; discriminate.
  - exists err, b'. split; [exact H|exact Hx].
Defined.

Definition without_orders : CB :=
  match DeleteQueue "orders" with_binding with Done (_, b) => b | _ => with_binding end.

Lemma delete_queue_complete_witness :
  b_queues without_orders = delete "orders" (b_queues with_binding) /\
  forall k e bd, b_exchanges without_orders !! k = Some e -> bd ∈ bindings (base_of e) ->
    QueueName bd <> "orders".
Proof.
  destruct (delete_queue_complete "orders" with_binding without_orders) as (_ & H1 & H2 & _).
  - exact with_binding_ok.
  - vm_compute. reflexivity.
  - split; [exact H1|exact H2].
Defined.

Lemma broker_metrics_total_witness :
  exists m, Broker_Metrics with_binding = Done m /\ Sorted metric_le (Queues m).
Proof.
  destruct (broker_metrics_total with_binding with_binding_ok) as (m & H & Hs & _).
  exists m. split; [exact H|exact Hs].
Defined.

(** ** Where the broker and its log part

    Executions, each computed, that show why the theorems ask for the absence of
    storage errors. *)

(** A binding of the default exchange is logged but not replayed. *)
Theorem default_bindings_lost_on_restart :
  let b := (BindQueue DefaultExchangeName "orders" "orders" with_orders).2 in
  (fun e => bindings (base_of e)) <$> b_exchanges b !! DefaultExchangeName =
    Some [mkBinding "default" "default"; mkBinding "orders" "orders"] /\
  match NewBroker DefaultConfig (w_wal (b_world b)) ∅ with
  | Done (Some b', None) =>
      (fun e => bindings (base_of e)) <$> b_exchanges b' !! DefaultExchangeName =
        Some [mkBinding "default" "default"]
  | _ => False
  end.
Proof. vm_compute. split; reflexivity. Qed.

(** [DeleteQueue] logs the deletion before the unbindings: a log cut between
    the two cannot be recovered from. *)
Theorem cut_delete_blocks_restart :
  let log := [rec_queue QueueCreated "orders"; rec_exchange ExchangeCreated "topics" "topic";
              rec_binding QueueBinded "topics" "orders" "orders.*"; rec_queue QueueDeleted "orders"] in
  match NewBroker DefaultConfig (NewFileWAL (record_doc <$> log) []) ∅ with
  | Done (Some _, Some e) => e = ErrQueueNotFound
  | _ => False
  end.
Proof. vm_compute. reflexivity. Qed.

(** Recovery logs the creation of an exchange again before its bindings: a
    restart cut in between loses the bindings for good. *)
Theorem cut_recovery_loses_bindings :
  let log := [rec_queue QueueCreated "orders"; rec_exchange ExchangeCreated "topics" "topic";
              rec_binding QueueBinded "topics" "orders" "orders.*"] in
  match NewBroker DefaultConfig
    (NewFileWAL (record_doc <$> log) [IoOk; IoWriteErr FragNone]) ∅ with
  | Done (Some b, Some e) =>
      storage_error (Some e) = true /\
      es_Bindings <$> PendingExchanges (logged b) !! "topics" = Some []
  | _ => False
  end.
Proof. vm_compute. split; reflexivity. Qed.

(** The next appends of a broker fail. *)
Definition failing (b : CB) : CB :=
  let w := w_wal (b_world b) in
  set_b_world (mkWorld (mkFileWAL (fw_docs w) (fw_closed w) (fw_open w) [IoWriteErr FragNone])
    (w_sessions (b_world b)) (w_tokenOwners (b_world b))) b.

(** [BindQueue] changes the exchange before it logs: after the error the
    binding routes, and a restart forgets it. *)
Theorem failed_bind_still_routes :
  let (err, b) := BindQueue "topics" "orders" "orders.*" (failing with_topics) in
  storage_error err = true /\
  (fun e => bindings (base_of e)) <$> b_exchanges b !! "topics" = Some [mkBinding "orders" "orders.*"] /\
  es_Bindings <$> PendingExchanges (logged b) !! "topics" = Some [].
Proof. vm_compute. repeat split; reflexivity. Qed.

(** [DeleteQueue] closes the runtime before it logs: after the error the queue
    is still listed, and every publish to it fails. *)
Theorem failed_delete_leaves_closed_queue :
  match DeleteQueue "orders" (failing with_binding) with
  | Done (err, b) =>
      storage_error err = true /\ is_Some (b_queues b !! "orders") /\
      match Broker_Publish (fun _ => 1) (fun _ => "m") "topics" "orders.eu" zeroMessage 0 b with
      | Done (r, _) => r = BReturned (Some ErrBrokerClosed)
      | _ => False
      end
  | _ => False
  end.
Proof. vm_compute. split; [reflexivity|]. split; [eexists; reflexivity|reflexivity]. Qed.
