(* ===== verification/Frame.v ===== *)
(** What a step of one queue does to what all queues of a broker share: session
    objects keep their identifiers, the token table changes only at the queue's
    own tokens, and consumers are only added by [Subscribe]. *)

From S2P Require Import Prelude GoStrings Model RingBuffer Inflight Exchange Wal QueueRuntime.
From S2P Require Import System QueueSpec QueueInv RoundRobin QueueRefine QueueDeliver.
From S2P Require Import Redelivery SystemInv QueueCases.

(** ** The session heap *)

(** Every session is still there, with its identifier. *)
Definition heap_le (h h' : gmap nat ConsumerSession) : Prop :=
  forall l cs, h !! l = Some cs -> exists cs', h' !! l = Some cs' /\ sess_ID cs' = sess_ID cs.

#[export] Instance heap_le_preorder : PreOrder heap_le.
Proof.
  split; [by intros h l cs; eauto|]. intros h1 h2 h3 H12 H23 l cs Hl.
  destruct (H12 l cs Hl) as (cs2 & H2 & E2). destruct (H23 l cs2 H2) as (cs3 & H3 & E3).
  exists cs3. split; [done|congruence].
Qed.

Lemma heap_le_alter f l h : (forall cs, sess_ID (f cs) = sess_ID cs) -> heap_le h (alter f l h).
Proof.
  intros Hf l' cs Hl. destruct (decide (l = l')) as [->|Hne].
  - exists (f cs). by rewrite lookup_alter_eq, Hl.
  - exists cs. by rewrite lookup_alter_ne.
Qed.

Lemma heap_le_insert l cs cs' h :
  h !! l = Some cs -> sess_ID cs' = sess_ID cs -> heap_le h (<[l := cs']> h).
Proof.
  intros Hl Hid l' c Hc. rewrite lookup_insert. case_decide; [|eauto]. subst.
  exists cs'. split; [done|]. congruence.
Qed.

Lemma heap_le_alloc l cs h : h !! l = None -> heap_le h (<[l := cs]> h).
Proof.
  intros Hl l' c Hc. exists c. rewrite lookup_insert_ne; [done|]. naive_solver.
Qed.

Lemma heap_le_dec registry id h : heap_le h (heap_dec registry id h).
Proof. unfold heap_dec. case_match; [by apply heap_le_alter|done]. Qed.

Lemma Close_id cs cs' : Close cs = Done cs' -> sess_ID cs' = sess_ID cs.
Proof.
  unfold Close, close_chan. destruct (closeOnce cs); [by intros [= <-]|].
  destruct (Closed cs); [done|]. by intros [= <-].
Qed.

Lemma close_all_heap ls h h' : close_all ls h = Done h' -> heap_le h h'.
Proof.
  revert h. induction ls as [|l ls IH]; intros h H; simpl in H; [by injection H as <-|].
  destruct (h !! l) as [cs|] eqn:El; [|done]. destruct (Close cs) as [cs'| |] eqn:Ec; try done.
  simpl in H. etrans; [|by apply IH]. eapply heap_le_insert; [done|by apply Close_id].
Qed.

(** ** The token table *)

(** Entries of other runtimes are as they were. *)
Definition owner_frame (self : option nat) (o o' : gmap string nat) : Prop :=
  forall tok p, self <> Some p -> o' !! tok = Some p <-> o !! tok = Some p.

#[export] Instance owner_frame_preorder self : PreOrder (owner_frame self).
Proof.
  split; [done|]. intros o1 o2 o3 H12 H23 tok p Hp. by rewrite (H23 tok p Hp), (H12 tok p Hp).
Qed.

Lemma owner_frame_remove hooks tok o inflight :
  tok_wf hooks o inflight -> is_Some (inflight !! tok) ->
  owner_frame hooks o (owners_remove hooks tok o).
Proof.
  intros Ht Hin tok' p Hp. destruct hooks as [self|]; simpl; [|done].
  apply (Ht self eq_refl) in Hin. rewrite lookup_delete. case_decide; [|done].
  subst. split; [done|]. congruence.
Qed.

Lemma owner_frame_register hooks tok o :
  o !! tok = None -> owner_frame hooks o (owners_register hooks tok o).
Proof.
  intros Ho tok' p Hp. destruct hooks as [self|]; simpl; [|done].
  rewrite lookup_insert. case_decide; [|done]. subst. rewrite Ho. split; congruence.
Qed.

#[export] Hint Resolve heap_le_dec heap_le_alter owner_frame_remove owner_frame_register : dsend.

Section Effects.
Context {Q W : Type} `{!Queue Q} `{!QueueLaws Q} `{!WAL W} `{!WALLaws W}.
Abbreviation QS := (QState Q W).

(** A closed runtime has no consumers. *)
Definition shut_ok (r : QueueRuntime Q) : Prop := closed r = true -> consumerSessions r = ∅.

(** [new] is the consumer a step may add. *)
Record effect (new : option (string * nat)) (s s' : QS) : Prop := {
  ef_heap : heap_le (w_sessions (wd s)) (w_sessions (wd s'));
  ef_owner : owner_frame (tokenHooks (rt s)) (w_tokenOwners (wd s)) (w_tokenOwners (wd s'));
  ef_hooks : tokenHooks (rt s') = tokenHooks (rt s);
  ef_closed : closed (rt s) = true -> closed (rt s') = true;
  ef_reg id l : consumerSessions (rt s') !! id = Some l ->
    consumerSessions (rt s) !! id = Some l \/ new = Some (id, l) /\ closed (rt s') = false;
  ef_shut : shut_ok (rt s) -> shut_ok (rt s');
}.

Lemma effect_refl new (s : QS) : effect new s s.
Proof. split; auto; reflexivity. Qed.

#[export] Instance effect_preorder : PreOrder (effect None).
Proof.
  split; [intros s; apply effect_refl|].
  intros s1 s2 s3 [Hh Ho Hk Hc Hr Hs] [Hh' Ho' Hk' Hc' Hr' Hs']. split.
  - by etrans.
  - rewrite Hk in Ho'. by etrans.
  - congruence.
  - auto.
  - intros id l H. destruct (Hr' id l H) as [H2|[? _]]; [|done]. destruct (Hr id l H2) as [?|[? _]]; auto; done.
  - auto.
Qed.

(** A step on the parts no other queue sees. *)
Lemma effect_same (s s' : QS) :
  heap_le (w_sessions (wd s)) (w_sessions (wd s')) ->
  owner_frame (tokenHooks (rt s)) (w_tokenOwners (wd s)) (w_tokenOwners (wd s')) ->
  tokenHooks (rt s') = tokenHooks (rt s) -> closed (rt s') = closed (rt s) ->
  consumerSessions (rt s') = consumerSessions (rt s) -> effect None s s'.
Proof.
  intros Hh Ho Hk Hc Hr. unfold shut_ok. split; try done; rewrite ?Hc, ?Hr; unfold shut_ok; auto.
  by rewrite Hc, Hr.
Qed.

Lemma Publish_frame now id m ttl (s : QS) r s' :
  Publish now id m ttl s = Done (r, s') -> effect None s s'.
Proof. intros H. by destruct (Publish_cases _ _ _ _ _ _ _ H); apply effect_same. Qed.

Lemma Publish_resume_frame now id m ttl (s : QS) r s' :
  Publish_resume now id m ttl s = Done (r, s') -> effect None s s'.
Proof. intros H. etrans; [|by eapply Publish_frame]. by apply effect_same. Qed.

(** A delivery of this runtime leaves its in-flight table. *)
Lemma released_frame tok id f (s : QS) :
  rt_wf s -> is_Some (deliveries (inFlightManager (rt s)) !! tok) ->
  (forall r, tokenHooks (f r) = tokenHooks r /\ closed (f r) = closed r /\
     consumerSessions (f r) = consumerSessions r) ->
  effect None s (released tok id f s).
Proof.
  intros [_ _ _ Ht] Hin Hf. unfold released. apply effect_same; qsimpl;
    rewrite ?(proj1 (Hf _)), ?(proj1 (proj2 (Hf _))), ?(proj2 (proj2 (Hf _))); eauto with dsend.
Qed.

Lemma Ack_frame tok (s : QS) : rt_wf s -> effect None s (Ack tok s).2.
Proof.
  intros Hwf. destruct (Ack tok s) as [err s'] eqn:E.
  destruct (Ack_cases tok s err s' E) as [|im e w Hd Ha|im w Hd Ha]; simpl; [done|by apply effect_same|].
  destruct (Hwf) as [Hq Hw Hc Ht].
  transitivity (set_wal w s); [by apply effect_same|].
  etrans; [apply (released_frame tok (if_ConsumerID im) count_acked)|by apply effect_same].
  - split; simpl; try done. by eapply append_ok in Ha as [? _]; auto with dsend.
  - by eexists.
  - done.
Qed.

Lemma Subscribe_frame l (s : QS) err s' :
  Subscribe l s = Done (err, s') ->
  effect (match w_sessions (wd s) !! l with Some cs => Some (sess_ID cs, l) | None => None end) s s'.
Proof.
  unfold Subscribe. destruct (closed (rt s)) eqn:Ec; [intros [= <- <-]; apply effect_refl|].
  destruct (w_sessions (wd s) !! l) as [cs|]; [|done].
  destruct (consumerSessions (rt s) !! sess_ID cs) eqn:Er; intros [= <- <-]; [apply effect_refl|].
  split; simpl; try done; unfold shut_ok; simpl; [|congruence].
  intros id l'. rewrite lookup_insert. case_decide; [|auto].
  intros [= ->]. subst. auto.
Qed.

Lemma Unsubscribe_frame id (s s' : QS) :
  Unsubscribe id s = Done s' ->
  effect None s s' /\ consumerSessions (rt s') = delete id (consumerSessions (rt s)).
Proof.
  unfold Unsubscribe. destruct (consumerSessions (rt s) !! id) as [l|] eqn:El.
  - intros H. go_inv H. split; [|done]. split; simpl; try done.
    + eapply heap_le_insert; [done|by apply Close_id].
    + intros id' l'. rewrite lookup_delete. by case_decide; auto.
    + unfold shut_ok. simpl. intros Hs Hc. rewrite Hs by done. apply delete_empty.
  - intros [= <-]. by rewrite delete_id.
Qed.

Lemma close_frame (s s' : QS) :
  close_runtime s = Done s' -> effect None s s' /\ consumerSessions (rt s') = ∅.
Proof.
  unfold close_runtime. intros H. go_inv H. split; [|done].
  split; simpl; try done. by eapply close_all_heap.
Qed.

Lemma CloseIfEmpty_frame (s : QS) b s' :
  CloseIfEmpty s = Done (b, s') -> effect None s s'.
Proof.
  unfold CloseIfEmpty. intros H. go_inv H; [done|]. by apply close_frame.
Qed.

Lemma receive_frame l (s : QS) : effect None s (receive_delivery l s).
Proof. apply effect_same; try done. simpl. by apply heap_le_alter. Qed.

Lemma send_frame l d (s : QS) : effect None s (send_delivery l d s).
Proof. apply effect_same; try done. simpl. by apply heap_le_alter. Qed.

Lemma sweep_frame clock i k err (s s' : QS) : sweep clock i k err s s' -> effect None s s'.
Proof.
  intros H. destruct (sw_frame _ _ _ _ _ _ H) as (q & d & n & c & w & ->). by apply effect_same.
Qed.

Lemma reserved_frame now token r (s s' : QS) :
  w_tokenOwners (wd s) !! token = None -> reserved now token r s s' -> effect None s s'.
Proof.
  intros Ho (n & _ & Hr). destruct r as [[l d]|].
  - destruct Hr as (id & cs & m & rest & q & _ & _ & _ & _ & _ & _ & _ & ->).
    apply effect_same; qsimpl; eauto with dsend.
  - subst. by apply effect_same.
Qed.

Lemma reserve_frame clock now token (s : QS) r s' :
  rt_wf s -> w_tokenOwners (wd s) !! token = None ->
  reserveDelivery clock now token s = Done (r, s') -> effect None s s'.
Proof.
  intros Hwf Ho Hrun.
  destruct (reserveDelivery_spec (policy:=any_message) clock now token s Hwf)
    as (r' & s2 & s1 & err & k & Hrun' & _ & Hsw & Hr).
  rewrite Hrun in Hrun'. injection Hrun' as <- <-. pose proof (sweep_frame _ _ _ _ _ _ Hsw) as He.
  destruct err; [by destruct Hr as [_ ->]|]. destruct Hr as [Hr _]. etrans; [exact He|].
  eapply reserved_frame; [|done].
  destruct (sw_frame _ _ _ _ _ _ Hsw) as (q & d & n & c & w & ->). done.
Qed.

Lemma cancel_frame d (s s' : QS) :
  rt_wf s -> is_Some (deliveries (inFlightManager (rt s)) !! d_AckToken d) ->
  cancelReservation d s = Done s' -> effect None s s'.
Proof.
  intros [_ _ _ Ht] Hin H. destruct (cancel_cases d s s' H) as (q & _ & ->).
  destruct Hin as [im Him]. rewrite Him. apply effect_same; qsimpl; eauto with dsend.
Qed.

Lemma item_frame mr d (s s' : QS) :
  rt_wf s -> is_Some (deliveries (inFlightManager (rt s)) !! d_AckToken d) ->
  process_item mr d s = Done s' -> effect None s s'.
Proof.
  intros [_ _ _ Ht] Hin H. destruct (process_item_cases mr d s s' H) as [|w|w|w q];
    [done|by apply effect_same| |]; apply effect_same; unfold released; qsimpl; eauto with dsend.
Qed.

Lemma process_frame now items (s s' : QS) :
  rt_wf s -> Expired now (AckTimeout (config (rt s))) (inFlightManager (rt s)) items ->
  processExpiredMessages items s = Done s' -> effect None s s'.
Proof.
  intros Hwf He Hrun.
  refine (process_ind (fun x => effect None s x) (fun _ => True) now items s s' _ _ Hwf He Hrun _); [| |done].
  - intros d s1 s2 _ Hwf1 _ (im & Him & _) Hi Hp. etrans; [exact Hp|]. eapply item_frame; eauto.
  - by apply Forall_true.
Qed.

(** Every event of the queue and its goroutines. *)
Definition event_new (e : event) : option (string * nat) :=
  match e with ESubscribe l id => Some (id, l) | _ => None end.

Lemma call_step_frame e (s s' : Sys Q W) :
  is_call e = true -> sys_wf s -> env_ok e s -> sys_step e s = Some (Done s') ->
  effect (event_new e) (qs s) (qs s').
Proof.
  intros He [Hwf _] Henv H. destruct e; try done; simpl in Henv, H; unfold lift_qs in H.
  - destruct (Publish _ _ _ _ _) as [[r q]| |] eqn:E; simplify_eq/=. by eapply Publish_frame.
  - case_bool_decide; [done|].
    destruct (Publish_resume _ _ _ _ _) as [[r q]| |] eqn:E; simplify_eq/=.
    by eapply Publish_resume_frame.
  - simplify_eq/=. by apply Ack_frame.
  - destruct (Subscribe _ _) as [[r q]| |] eqn:E; simplify_eq/=.
    pose proof (Subscribe_frame _ _ _ _ E) as [Hh Ho Hk Hc Hr Hs]. simpl in *.
    rewrite lookup_insert_eq in Hr. split; try done.
    etrans; [apply heap_le_alloc, Henv|exact Hh].
  - destruct (Unsubscribe _ _) as [q| |] eqn:E; simplify_eq/=. by eapply Unsubscribe_frame.
  - destruct (Shutdown _) as [q| |] eqn:E; simplify_eq/=. by eapply close_frame.
  - destruct (CloseIfEmpty _) as [[r q]| |] eqn:E; simplify_eq/=. by eapply CloseIfEmpty_frame.
  - simplify_eq/=. apply effect_refl.
  - destruct (session_has_delivery _ _); simplify_eq/=. apply receive_frame.
Qed.

Lemma dist_step_frame e (s s' : Sys Q W) :
  is_dist e = true -> sys_wf s -> env_ok e s -> quiet_cancel e s ->
  sys_step e s = Some (Done s') -> effect None (qs s) (qs s').
Proof.
  intros He [Hwf _] Henv Hq H. unfold quiet_cancel in Hq.
  destruct e; try done; simpl in Henv, H; destruct (dist s) as [| | |l d|] eqn:Ed; try done.
  - simplify_eq/=. apply effect_refl.
  - destruct (notifyDistributor _); simplify_eq/=. by apply effect_same.
  - destruct (ctxDone s); simplify_eq/=. apply effect_refl.
  - destruct (reserveDelivery _ _ _ _) as [[r q]| |] eqn:E; simplify_eq/=.
    eapply reserve_frame; [exact Hwf|apply Henv|exact E].
  - destruct (session_has_room _ _); simplify_eq/=. apply send_frame.
  - destruct (session_closed _ _); [|done].
    destruct (cancelReservation _ _) as [q| |] eqn:E; simplify_eq/=. eapply cancel_frame; [exact Hwf|apply Hq|exact E].
  - destruct (session_closed _ _ || _); [done|].
    destruct (cancelReservation _ _) as [q| |] eqn:E; simplify_eq/=. eapply cancel_frame; [exact Hwf|apply Hq|exact E].
Qed.

Lemma worker_step_frame e (s s' : Sys Q W) :
  is_call e = false -> is_dist e = false -> sys_wf s -> env_ok e s ->
  sys_step e s = Some (Done s') -> effect None (qs s) (qs s').
Proof.
  intros Hc Hd [Hwf _] Henv H. destruct e; try done; simpl in Henv, H.
  - destruct (redel s); simplify_eq/=. apply effect_refl.
  - destruct (redel s), (ctxDone s); simplify_eq/=. apply effect_refl.
  - destruct (redel s); simplify_eq/=.
    destruct (processExpiredMessages _ _) as [q| |] eqn:E; simplify_eq/=. by eapply process_frame.
  - destruct (expiry s); simplify_eq/=. apply effect_refl.
  - destruct (expiry s), (ctxDone s); simplify_eq/=. apply effect_refl.
  - destruct (expiry s); simplify_eq/=.
    destruct (checkExpiredMessages _ _) as [[r q]| |] eqn:E; simplify_eq/=.
    destruct (deadLetterExpired_spec (policy:=any_message) clock (qs s) Hwf)
      as (err & q' & k & Hrun & _ & Hsw).
    unfold checkExpiredMessages in E. rewrite E in Hrun. injection Hrun as <- <-.
    by eapply sweep_frame.
Qed.

Lemma sys_step_frame e (s s' : Sys Q W) :
  sys_wf s -> env_ok e s -> quiet_cancel e s -> sys_step e s = Some (Done s') ->
  effect (event_new e) (qs s) (qs s').
Proof.
  destruct (is_call e) eqn:Ec; [intros; by apply call_step_frame|].
  intros Hwf He Hq Hs. replace (event_new e) with (@None (string * nat)) by by destruct e.
  destruct (is_dist e) eqn:Ed; [by eapply dist_step_frame|by eapply worker_step_frame].
Qed.

(** ** Frames seen from another queue *)

(** A runtime keeps its invariant when another one, with another pointer, has
    made a step in the same world. *)
Lemma rt_wf_frame new (s s' : QS) (r : QueueRuntime Q) p :
  effect new s s' -> rt_wf s' -> tokenHooks (rt s) <> Some p -> tokenHooks r = Some p ->
  rt_wf (mkQState r (wd s)) -> rt_wf (mkQState r (wd s')).
Proof.
  intros [Hh Ho _ _ _ _] [_ Hw' Hc' _] Hne Hp [Hq _ [Hnd Hdom Hptr _ Hn Hl] Ht].
  split; simpl in *; try done.
  - split; try done; [|apply Hc']. intros id l Hid. destruct (Hptr id l Hid) as (cs & Hcs & Hi).
    destruct (Hh l cs Hcs) as (cs' & Hcs' & Hi'). exists cs'. split; [done|congruence].
  - intros self Hself tok. rewrite Hp in Hself. injection Hself as <-.
    rewrite (Ho tok p Hne). by apply (Ht p).
Qed.

(** ** Runtimes that are done *)

(** Closed, with nothing left to deliver. *)
Definition gone (r : QueueRuntime Q) : Prop :=
  closed r = true /\ contents (queue r) = [] /\ deliveries (inFlightManager r) = ∅.

Definition no_message : PubPolicy := fun _ _ => False.

(** With nothing live and nothing published, the abstract queue cannot move. *)
Lemma empty_steps q mr a a' :
  a_ready a = [] -> a_flight a = ∅ -> rtc (astep (H:=no_message) q mr) a a' -> a' = a.
Proof.
  intros Hr Hf Hs. induction Hs as [|a a1 a' Hs _ IH]; [done|].
  exfalso. by destruct Hs; simpl in *; subst; rewrite ?lookup_empty in *.
Qed.

Lemma closed_publish_same now id m ttl (s : QS) r s' :
  closed (rt s) = true -> Publish now id m ttl s = Done (r, s') -> s' = s.
Proof.
  intros Hc H. by destruct (Publish_cases _ _ _ _ _ _ _ H); congruence.
Qed.

Lemma gone_stays e (s s' : Sys Q W) :
  sys_wf s -> env_ok e s -> quiet_cancel e s -> sys_step e s = Some (Done s') ->
  gone (rt (qs s)) ->
  gone (rt (qs s')) /\ wal_log (w_wal (wd (qs s'))) = wal_log (w_wal (wd (qs s))).
Proof.
  intros Hwf He Hq Hs (Hc & Hr & Hf).
  pose proof (ef_closed _ _ _ (sys_step_frame e s s' Hwf He Hq Hs) Hc) as Hc'.
  assert (abs (qs s') = abs (qs s)) as Ha; cycle 1.
  { split; [|exact (f_equal a_log Ha)]. split; [done|].
    split; [by rewrite <- Hr; apply (f_equal a_ready Ha)|].
    apply (f_equal a_flight) in Ha. simpl in Ha. rewrite Hf, fmap_empty in Ha.
    by apply fmap_empty_inv in Ha. }
  assert (publishes_ok no_message e s -> abs (qs s') = abs (qs s)) as Hsim.
  { intros Hp. destruct (sys_step_ok (policy:=no_message) e s _ Hwf He Hq Hp Hs)
      as (s1 & [= <-] & Hsim & _). eapply empty_steps; [exact Hr| |apply (sim_steps _ _ Hsim)].
    simpl. by rewrite Hf, fmap_empty. }
  destruct e; (try by apply Hsim); clear Hsim; simpl in Hs; unfold lift_qs in Hs.
  - destruct (Publish _ _ _ _ _) as [[r q]| |] eqn:E; simplify_eq/=.
    by rewrite (closed_publish_same _ _ _ _ _ _ _ Hc E).
  - case_bool_decide; [done|]. unfold Publish_resume in Hs.
    destruct (Publish _ _ _ _ _) as [[r q]| |] eqn:E; simplify_eq/=.
    apply closed_publish_same in E; [|done]. by subst.
Qed.

End Effects.
