(* ===== verification/Engine.v ===== *)
(** The whole engine: the broker of [Broker.v] with the goroutines of all its
    queues ([startQueue] of [mem_broker.go] starts three per queue), interleaved
    with the calls of connections. The queues share the log, the session objects
    and the token table, so a step of one is a step in the world of all. *)

From S2P Require Import Prelude GoStrings Model RingBuffer Inflight Exchange Wal QueueRuntime.
From S2P Require Import System QueueSpec QueueInv RoundRobin QueueRefine QueueDeliver.
From S2P Require Import Redelivery SystemInv QueueCases Broker.

(** The program points of the three goroutines of a queue. *)
Record Procs := mkProcs { pr_dist : DistPC; pr_redel : WorkerPC; pr_expiry : WorkerPC }.

(** Where [startQueue] starts them. *)
Definition startProcs : Procs := mkProcs DTop WSelect WSelect.

Record Engine {W : Type} := mkEngine {
  en_broker : InMemoryBroker W;
  en_procs : gmap nat Procs;
}.
Arguments Engine W : clear implicits.
Arguments mkEngine {W}.

Section Engine.
Context {W : Type} `{!WAL W} {Hrange : MapRange}.
Abbreviation BR := (InMemoryBroker W).
Abbreviation SYS := (Sys RingBufferQueue W).

Definition procs_of (p : nat) (procs : gmap nat Procs) : Procs := default startProcs (procs !! p).

(** The runtime [r] at pointer [p] with its goroutines and the shared world. *)
Definition view (p : nat) (r : QueueRuntime RingBufferQueue) (en : Engine W) : SYS :=
  let b := en_broker en in
  let ps := procs_of p (en_procs en) in
  mkSys (mkQState r (b_world b)) (pr_dist ps) (pr_redel ps) (pr_expiry ps) (b_cancelled b).

Definition put_broker (p : nat) (q : QState RingBufferQueue W) (b : BR) : BR :=
  set_b_world (wd q) (set_b_runtimes (<[p := rt q]> (b_runtimes b)) b).

Definition put_view (p : nat) (s : SYS) (en : Engine W) : Engine W :=
  mkEngine (put_broker p (qs s) (en_broker en))
    (<[p := mkProcs (dist s) (redel s) (expiry s)]> (en_procs en)).

(** A step of a goroutine of the queue at [p]; only started queues have any. *)
Definition queue_step (p : nat) (e : event) (en : Engine W) : option (GoM (Engine W)) :=
  if is_call e || negb (bool_decide (p ∈ b_running (en_broker en))) then None
  else match b_runtimes (en_broker en) !! p with
  | None => None
  | Some r =>
      match sys_step e (view p r en) with
      | None => None
      | Some c => Some (let! s := c in Done (put_view p s en))
      end
  end.

(** A call of the broker's interface by a connection: the goroutines stay where
    they are. *)
Definition set_broker (b : BR) (en : Engine W) : Engine W := mkEngine b (en_procs en).

(** A new session object, as a connection makes it before it subscribes. *)
Definition broker_alloc (l : nat) (id : string) (b : BR) : BR :=
  let wd := b_world b in
  set_b_world (mkWorld (w_wal wd) (<[l := NewConsumerSession id]> (w_sessions wd)) (w_tokenOwners wd)) b.

(** A connection takes the first delivery of the session at [l]. *)
Definition broker_receive (l : nat) (b : BR) : BR :=
  let wd := b_world b in
  set_b_world (mkWorld (w_wal wd)
    (alter (fun cs => set_Deliveries (List.tl (Deliveries cs)) cs) l (w_sessions wd))
    (w_tokenOwners wd)) b.

(** The end of the context [Start] was given: the goroutines see it. *)
Definition cancel_context (b : BR) : BR :=
  mkBroker (b_started b) (b_closed b) (b_cfg b) (b_queues b) (b_exchanges b) (b_runtimes b)
    (b_world b) (b_running b) (b_started b || b_cancelled b).

End Engine.
