(* ===== verification/Steady.v ===== *)
(** What keeps the broker from panicking, with nothing promised: not by clients
    (they may choose identifiers), not by the log (an append may fail and still
    leave a record), not by the order of the goroutines (a cancelled reservation
    may find its token gone or its queue full). Messages may then be lost or
    doubled, but every ring has its indices in range, every registered consumer
    has its session, and every pointer leads to a runtime; so every call of the
    broker's interface and every step of a goroutine returns. *)

From S2P Require Import Prelude GoStrings Model RingBuffer Inflight Exchange Wal QueueRuntime.
From S2P Require Import System QueueSpec QueueInv RoundRobin QueueRefine QueueDeliver.
From S2P Require Import Redelivery SystemInv QueueCases Broker Topology BrokerInv Recovery.
From S2P Require Import Frame Engine.

(** ** A ring that may have overflowed

    The indices stay in range whatever is pushed, so no operation of a ring with
    a slot panics, even when a push has overwritten a message and the size
    counts more messages than there are slots. *)

Record ring_safe (q : RingBufferQueue) : Prop := {
  sf_len : Z.of_nat (length (rb_items q)) = rb_cap q;
  sf_cap : 0 < rb_cap q <= max_int;
  sf_head : 0 <= rb_head q < rb_cap q;
  sf_tail : 0 <= rb_tail q < rb_cap q;
  sf_size : min_int <= rb_size q <= max_int;
}.

Lemma ring_ok_safe q : ring_ok q -> 0 < rb_cap q -> ring_safe q.
Proof.
  intros [Hl Hc [Hh1 Hh2] Hs Ht] Hp. split; try done; try lia.
  - rewrite Ht by done. by apply Z.mod_pos_bound.
  - unfold min_int. lia.
Qed.

(** The successor of an index. *)
Lemma next_index i c : 0 <= i < c -> c <= max_int -> exists j, go_rem (i ⊕ 1) c = Done j /\ 0 <= j < c.
Proof.
  intros Hi Hc. rewrite int_add_id by (unfold min_int in *; lia). rewrite go_rem_pos by lia.
  eexists. split; [done|]. apply Z.mod_pos_bound. lia.
Qed.

Lemma ring_push_safe m q : ring_safe q -> exists q', ring_Push m q = Done q' /\ ring_safe q'.
Proof.
  intros [Hl Hc Hh Ht Hs]. destruct (next_index (rb_tail q) (rb_cap q)) as (j & Hj & Hb); [done|lia|].
  unfold ring_Push. rewrite go_store_in by lia. simpl. rewrite Hj. simpl. eexists. split; [done|].
  split; simpl; try done; [by rewrite length_insert|apply wrap64_range].
Qed.

Lemma ring_peek_safe q : ring_safe q -> exists m, ring_Peek q = Done m.
Proof.
  intros [Hl Hc Hh Ht Hs]. destruct (lookup_lt_is_Some_2 (rb_items q) (Z.to_nat (rb_head q))) as [m Hm]; [lia|].
  unfold ring_Peek. rewrite (go_index_Some _ _ m) by (lia || done). by exists m.
Qed.

Lemma ring_pop_safe q :
  ring_safe q ->
  exists m q', ring_Pop q = Done (m, q') /\ ring_safe q' /\ (0 < rb_size q -> rb_size q' = rb_size q - 1).
Proof.
  intros [Hl Hc Hh Ht Hs]. destruct (next_index (rb_head q) (rb_cap q)) as (j & Hj & Hb); [done|lia|].
  destruct (lookup_lt_is_Some_2 (rb_items q) (Z.to_nat (rb_head q))) as [m Hm]; [lia|].
  unfold ring_Pop. rewrite (go_index_Some _ _ m) by (lia || done). simpl.
  rewrite go_store_in by lia. simpl. rewrite Hj. simpl.
  eexists _, _. split; [done|]. split; [|intros Hp; apply int_sub_id; unfold min_int in *; lia].
  split; simpl; try done; [by rewrite length_insert|apply wrap64_range].
Qed.

(** ** One queue *)

Section Queue.
Context {W : Type} `{!WAL W}.
Abbreviation QS := (QState RingBufferQueue W).
Implicit Types (s : QS).

Record rt_safe s : Prop := {
  sa_ring : ring_safe (queue (rt s));
  sa_cons : cons_wf (consumerSessions (rt s)) (consumerOrder (rt s)) (nextConsumer (rt s))
              (w_sessions (wd s));
  sa_shut : closed (rt s) = true -> consumerSessions (rt s) = ∅;
}.

(** What a step of the queue keeps of what it shares with the others. *)
Record kept s s' : Prop := {
  kp_safe : rt_safe s';
  kp_heap : heap_le (w_sessions (wd s)) (w_sessions (wd s'));
  kp_hooks : tokenHooks (rt s') = tokenHooks (rt s);
  kp_owners tok p : w_tokenOwners (wd s') !! tok = Some p ->
    w_tokenOwners (wd s) !! tok = Some p \/ tokenHooks (rt s) = Some p;
  kp_closed : closed (rt s) = true -> closed (rt s') = true;
}.

Lemma kept_refl s : rt_safe s -> kept s s.
Proof. split; auto; done. Qed.

Lemma kept_trans s1 s2 s3 : kept s1 s2 -> kept s2 s3 -> kept s1 s3.
Proof.
  intros [_ Hh Hk Ho Hc] [Hs Hh' Hk' Ho' Hc']. split; [done|by etrans|congruence| |auto].
  intros tok p Hp. destruct (Ho' tok p Hp) as [?|?]; [auto|right; congruence].
Qed.

(** A step that leaves the registry of consumers and the hooks alone. *)
Lemma kept_intro s s' :
  rt_safe s -> ring_safe (queue (rt s')) ->
  (consumerSessions (rt s'), consumerOrder (rt s'), nextConsumer (rt s'), closed (rt s'), tokenHooks (rt s')) =
  (consumerSessions (rt s), consumerOrder (rt s), nextConsumer (rt s), closed (rt s), tokenHooks (rt s)) ->
  cons_wf (consumerSessions (rt s)) (consumerOrder (rt s)) (nextConsumer (rt s)) (w_sessions (wd s')) ->
  heap_le (w_sessions (wd s)) (w_sessions (wd s')) ->
  (forall tok p, w_tokenOwners (wd s') !! tok = Some p ->
     w_tokenOwners (wd s) !! tok = Some p \/ tokenHooks (rt s) = Some p) ->
  kept s s'.
Proof.
  intros [Hr Hc Hs] Hr' [= E1 E2 E3 E4 E5] Hc' Hh Ho. split; try done; [|by rewrite E4].
  split; [done| |]; rewrite ?E1, ?E2, ?E3, ?E4; done.
Qed.

Lemma owners_removed hooks tok (o : gmap string nat) t p :
  owners_remove hooks tok o !! t = Some p -> o !! t = Some p.
Proof. unfold owners_remove. destruct hooks; [|done]. by intros [_ ?]%lookup_delete_Some. Qed.

Lemma owners_registered hooks tok (o : gmap string nat) t p :
  owners_register hooks tok o !! t = Some p -> o !! t = Some p \/ hooks = Some p.
Proof.
  unfold owners_register. destruct hooks; [|by left].
  intros [[_ ->]|[_ ?]]%lookup_insert_Some; [by right|by left].
Qed.

Local Ltac keep :=
  apply kept_intro; qsimpl; eauto using sa_ring, sa_cons, cons_wf_dec, heap_le_dec, owners_removed; try done.

Lemma append_kept r s err s' : wal_append r s = (err, s') -> rt_safe s -> kept s s'.
Proof.
  unfold wal_append. destruct (Append _ _) as [e w]. intros [= _ <-] Hs. by keep.
Qed.

Lemma push_safe m s : rt_safe s -> exists s', push_queue m s = Done s' /\ kept s s'.
Proof.
  intros Hs. destruct (ring_push_safe m _ (sa_ring _ Hs)) as (q & Hq & Hq').
  unfold push_queue. change (Push m (queue (rt s))) with (ring_Push m (queue (rt s))). rewrite Hq. simpl.
  eexists. split; [done|]. by keep.
Qed.

Lemma pop_safe s :
  rt_safe s ->
  exists m s', pop_queue s = Done (m, s') /\ kept s s' /\
    (0 < Size (queue (rt s)) -> Size (queue (rt s')) = Size (queue (rt s)) - 1).
Proof.
  intros Hs. destruct (ring_pop_safe _ (sa_ring _ Hs)) as (m & q & Hq & Hq' & Hsz).
  unfold pop_queue. change (Pop (queue (rt s))) with (ring_Pop (queue (rt s))). rewrite Hq. simpl.
  eexists _, _. split; [done|]. split; [by keep|done].
Qed.

Lemma Publish_safe now id m ttl s :
  rt_safe s -> exists r s', Publish now id m ttl s = Done (r, s') /\ kept s s'.
Proof.
  intros Hs. unfold Publish. destruct (_ && _); [eexists _, _; split; [done|]; by keep|].
  destruct (closed (rt s)); [eexists _, _; split; [done|]; by apply kept_refl|].
  destruct (wal_append _ s) as [[e|] s1] eqn:Ea; pose proof (append_kept _ _ _ _ Ea Hs) as Hk.
  { by eexists _, _. }
  destruct (push_safe (stamp now id m ttl) s1 (kp_safe _ _ Hk)) as (s2 & -> & Hk2). simpl.
  eexists _, _. split; [done|]. eapply kept_trans; [exact Hk|]. eapply kept_trans; [exact Hk2|].
  pose proof (kp_safe _ _ Hk2). by keep.
Qed.

Lemma Publish_resume_safe now id m ttl s :
  rt_safe s -> exists r s', Publish_resume now id m ttl s = Done (r, s') /\ kept s s'.
Proof.
  intros Hs. unfold Publish_resume. set (s1 := upd_rt _ s).
  assert (kept s s1) as Hk by (unfold s1; by keep).
  destruct (Publish_safe now id m ttl s1 (kp_safe _ _ Hk)) as (r & s' & -> & Hk').
  eexists _, _. split; [done|]. by eapply kept_trans.
Qed.

Lemma Ack_safe tok s : rt_safe s -> kept s (Ack tok s).2.
Proof.
  intros Hs. unfold Ack. destruct (Get tok _) as [im|]; [|by apply kept_refl].
  destruct (wal_append _ s) as [[e|] s1] eqn:Ea; pose proof (append_kept _ _ _ _ Ea Hs) as Hk; simpl; [done|].
  eapply kept_trans; [exact Hk|]. pose proof (kp_safe _ _ Hk). by keep.
Qed.

(** The session at [l] subscribes. *)
Lemma Subscribe_safe l s :
  rt_safe s -> is_Some (w_sessions (wd s) !! l) ->
  Z.of_nat (length (consumerOrder (rt s))) < max_int ->
  exists err s', Subscribe l s = Done (err, s') /\ kept s s'.
Proof.
  intros Hs [cs Hl] Hlen. unfold Subscribe.
  destruct (closed (rt s)) eqn:Hcl; [eexists _, _; split; [done|]; by apply kept_refl|]. rewrite Hl.
  destruct (consumerSessions (rt s) !! sess_ID cs) eqn:Er; (eexists _, _; split; [done|]); [by apply kept_refl|].
  split; simpl; try done; [|auto]. split; simpl; [apply Hs| |by rewrite Hcl].
  apply cons_wf_subscribe; try done. apply Hs.
Qed.

Lemma Unsubscribe_safe id s : rt_safe s -> exists s', Unsubscribe id s = Done s' /\ kept s s'.
Proof.
  intros Hs. pose proof (sa_cons _ Hs) as Hc. unfold Unsubscribe.
  destruct (consumerSessions (rt s) !! id) as [l|] eqn:Hr; [|eexists; split; [done|by apply kept_refl]].
  destruct (cw_ptr _ _ _ _ Hc _ _ Hr) as (cs & Hcs & Hid).
  destruct (Close_ok cs) as (cs' & Hcl & Hok & _ & Hid' & _); [by eapply (cw_ok _ _ _ _ Hc)|].
  set (order := slices_DeleteFunc _ (consumerOrder (rt s))).
  assert (exists n, (if bool_decide (order = []) then Done 0
                     else go_rem (nextConsumer (rt s)) (Z.of_nat (length order))) = Done n /\
                    0 <= n <= Z.of_nat (length order)) as (n & Hn & Hnb).
  { pose proof (cw_next _ _ _ _ Hc). case_bool_decide as Ho; [exists 0; split; [done|lia]|].
    pose proof (length_pos order Ho). rewrite go_rem_pos by lia.
    pose proof (Z.mod_pos_bound (nextConsumer (rt s)) (Z.of_nat (length order)) ltac:(lia)).
    eexists; split; [done|lia]. }
  simpl. rewrite Hn. simpl. rewrite Hcs, Hcl. simpl. eexists. split; [done|]. split; simpl; auto.
  - split; simpl; [apply Hs| |].
    + eapply cons_wf_close; [exact Hcs|done|done|]. by eapply cons_wf_unsubscribe.
    + intros Hx. by rewrite (sa_shut _ Hs Hx), delete_empty.
  - eapply heap_le_insert; [exact Hcs|done].
Qed.

Lemma close_safe s :
  rt_safe s -> exists s', close_runtime s = Done s' /\ kept s s' /\ closed (rt s') = true.
Proof.
  intros Hs. pose proof (sa_cons _ Hs) as Hc. unfold close_runtime. simpl.
  destruct (close_all_spec _ _ _ (map_to_list (consumerSessions (rt s))).*2 _ Hc) as (h & Hh & Hc' & _).
  { intros l. by eapply registry_ptrs. }
  rewrite Hh. simpl. eexists. split; [done|]. split; [|done]. split; simpl; auto; try done.
  - split; simpl; [apply Hs| |done]. apply new_cons_wf, Hc'.
  - by eapply close_all_heap.
Qed.

Lemma CloseIfEmpty_safe s :
  rt_safe s -> exists e s', CloseIfEmpty s = Done (e, s') /\ kept s s' /\ (e = true -> closed (rt s') = true).
Proof.
  intros Hs. unfold CloseIfEmpty. destruct (_ || _); [eexists _, _; split; [done|]; split; [by apply kept_refl|done]|].
  destruct (close_safe s Hs) as (s' & -> & Hk & Hcl). simpl. by eexists _, _.
Qed.

Lemma cancel_safe d s : rt_safe s -> exists s', cancelReservation d s = Done s' /\ kept s s'.
Proof.
  intros Hs. unfold cancelReservation. destruct (Remove _ _) as [im mgr].
  set (s1 := removeToken _ _).
  assert (kept s s1) as Hk by (unfold s1; destruct im; by keep).
  destruct (push_safe (d_Message d) s1 (kp_safe _ _ Hk)) as (s2 & -> & Hk2). simpl.
  eexists. split; [done|]. eapply kept_trans; [exact Hk|]. eapply kept_trans; [exact Hk2|].
  pose proof (kp_safe _ _ Hk2). by keep.
Qed.

Lemma sweep_safe fuel clock i s :
  rt_safe s -> (Z.to_nat (Size (queue (rt s))) < fuel)%nat ->
  exists e s', deadLetter_loop fuel clock i s = Done (e, s') /\ kept s s'.
Proof.
  revert i s. induction fuel as [|fuel IH]; intros i s Hs Hf; [lia|]. cbn [deadLetter_loop].
  case_bool_decide as Hp; [|eexists _, _; split; [done|by apply kept_refl]].
  destruct (ring_peek_safe _ (sa_ring _ Hs)) as [m Hm]. change (Peek (queue (rt s))) with (ring_Peek (queue (rt s))).
  rewrite Hm. cbn [go_bind]. destruct (negb (isExpired (clock i) m)); [eexists _, _; split; [done|by apply kept_refl]|].
  destruct (wal_append _ s) as [[e|] s1] eqn:Ea; pose proof (append_kept _ _ _ _ Ea Hs) as Hk; [by eexists _, _|].
  apply append_rt in Ea.
  destruct (pop_safe s1 (kp_safe _ _ Hk)) as (m' & s2 & -> & Hk2 & Hsz). cbn [go_bind].
  set (s3 := signal _). assert (kept s2 s3) as Hk3 by (pose proof (kp_safe _ _ Hk2); by keep).
  destruct (IH (S i) s3 (kp_safe _ _ Hk3)) as (e & s' & -> & Hk').
  { change (queue (rt s3)) with (queue (rt s2)). rewrite Ea in Hsz. rewrite Hsz; lia. }
  eexists _, _. split; [done|]. eauto using kept_trans.
Qed.

Lemma deadLetter_safe clock s :
  rt_safe s -> exists e s', deadLetterExpiredMessages clock s = Done (e, s') /\ kept s s'.
Proof. intros Hs. apply sweep_safe; [done|lia]. Qed.

Lemma reserve_safe clock now token s :
  rt_safe s -> exists r s', reserveDelivery clock now token s = Done (r, s') /\ kept s s'.
Proof.
  intros Hs. unfold reserveDelivery. destruct (deadLetter_safe clock s Hs) as (e & s1 & -> & Hk1). cbn [go_bind].
  destruct e; [by eexists _, _|]. pose proof (kp_safe _ _ Hk1) as Hs1. unfold reserve_next.
  destruct (_ || _); [by eexists _, _|].
  destruct (nextSession_found s1 (sa_cons _ Hs1)) as (f & n & -> & Hn & Hf). cbn [go_bind].
  set (s2 := upd_rt _ s1).
  assert (kept s1 s2) as Hk2.
  { split; try done; [|by left]. split; simpl; [apply Hs1| |apply Hs1]. eapply cons_wf_next; [exact Hn|apply Hs1]. }
  destruct f as [l|]; [|eexists _, _; split; [done|by eapply kept_trans]].
  destruct Hf as (id & cs & _ & Hl & _). change (wd s2) with (wd s1). rewrite Hl.
  destruct (pop_safe s2 (kp_safe _ _ Hk2)) as (m & s3 & -> & Hk3 & _). cbn [go_bind].
  eexists _, _. split; [done|]. eapply kept_trans; [exact Hk1|]. eapply kept_trans; [exact Hk2|].
  eapply kept_trans; [exact Hk3|]. pose proof (kp_safe _ _ Hk3) as Hs3.
  apply kept_intro; qsimpl; eauto using sa_ring, owners_registered, heap_le_alter; try done.
  apply cons_wf_alter; [done|done|apply Hs3].
Qed.

Lemma item_safe mr d s : rt_safe s -> exists s', process_item mr d s = Done s' /\ kept s s'.
Proof.
  intros Hs. unfold process_item. case_bool_decide; [eexists; split; [done|by apply kept_refl]|].
  case_bool_decide; destruct (wal_append _ s) as [[e|] s1] eqn:Ea;
    pose proof (append_kept _ _ _ _ Ea Hs) as Hk; pose proof (kp_safe _ _ Hk) as Hs1; try by eexists.
  - eexists. split; [done|]. eapply kept_trans; [exact Hk|]. by keep.
  - cbv zeta.
    match goal with |- context [push_queue ?m s1] => destruct (push_safe m s1 Hs1) as (s2 & -> & Hk2) end.
    simpl. eexists. split; [done|]. eapply kept_trans; [exact Hk|]. eapply kept_trans; [exact Hk2|].
    pose proof (kp_safe _ _ Hk2). by keep.
Qed.

Lemma process_safe items s : rt_safe s -> exists s', processExpiredMessages items s = Done s' /\ kept s s'.
Proof.
  intros Hs. unfold processExpiredMessages. destruct (closed (rt s)); [eexists; split; [done|by apply kept_refl]|].
  generalize (MaxRetries (config (rt s))) as mr. intros mr. revert s Hs.
  induction items as [|d items IH]; intros s Hs; simpl; [eexists; split; [done|by apply kept_refl]|].
  destruct (item_safe mr d s Hs) as (s1 & -> & Hk). simpl.
  destruct (IH s1 (kp_safe _ _ Hk)) as (s' & -> & Hk'). eexists. split; [done|by eapply kept_trans].
Qed.

Lemma send_safe l d s : rt_safe s -> session_has_room l s = true -> kept s (send_delivery l d s).
Proof.
  intros Hs Hr. apply kept_intro; simpl; auto using sa_ring, heap_le_alter.
  apply cons_wf_alter; [done| |apply Hs]. unfold session_has_room in Hr. intros cs Hl [H1 H2]. rewrite Hl in Hr.
  apply bool_decide_eq_true in Hr. split; simpl; [done|]. rewrite length_app. simpl. lia.
Qed.

(** Every step of a goroutine returns. *)
Lemma goroutine_safe e (s : Sys RingBufferQueue W) c :
  is_call e = false -> rt_safe (qs s) -> sys_step e s = Some c ->
  exists s' : Sys RingBufferQueue W, c = Done s' /\ kept (qs s) (qs s').
Proof.
  intros Hcall Hok Hs. pose proof (kept_refl _ Hok) as Hrefl.
  destruct e; try done; cbn [sys_step] in Hs.
  1-7: cbn [RunDistributor_step] in Hs; destruct (dist s) as [| | |l d|] eqn:Ed; try done.
  8-10: cbn [RedeliveryWorker_step] in Hs; destruct (redel s); try done.
  11-13: cbn [ExpiryWorker_step] in Hs; destruct (expiry s); try done.
  - injection Hs as <-. by eexists.
  - destruct (notifyDistributor _); [|done]. injection Hs as <-. eexists. split; [done|]. by keep.
  - destruct (ctxDone s); [|done]. injection Hs as <-. by eexists.
  - injection Hs as <-. destruct (reserve_safe clock now token _ Hok) as (r & q & -> & Hq). by eexists.
  - destruct (session_has_room l (qs s)) eqn:Er; [|done]. injection Hs as <-. eexists. split; [done|]. by apply send_safe.
  - destruct (session_closed l (qs s)); [|done]. injection Hs as <-.
    destruct (cancel_safe d _ Hok) as (q & -> & Hq). by eexists.
  - destruct (_ || _); [done|]. injection Hs as <-. destruct (cancel_safe d _ Hok) as (q & -> & Hq). by eexists.
  - injection Hs as <-. by eexists.
  - destruct (ctxDone s); [|done]. injection Hs as <-. by eexists.
  - injection Hs as <-. destruct (process_safe items _ Hok) as (q & -> & Hq). by eexists.
  - injection Hs as <-. by eexists.
  - destruct (ctxDone s); [|done]. injection Hs as <-. by eexists.
  - injection Hs as <-. unfold checkExpiredMessages.
    destruct (deadLetter_safe clock _ Hok) as (e & q & -> & Hq). by eexists.
Qed.

End Queue.

(** ** The broker *)

Lemma cons_wf_heap registry order next h h' :
  cons_wf registry order next h -> heap_le h h' -> map_Forall (fun _ cs => session_ok cs) h' ->
  cons_wf registry order next h'.
Proof.
  intros [Hnd Hdom Hptr _ Hn Hl] Hh Hok. split; try done. intros id l Hid.
  destruct (Hptr id l Hid) as (cs & Hcs & Hi). destruct (Hh l cs Hcs) as (cs' & Hcs' & Hi').
  exists cs'. split; [done|congruence].
Qed.

Section Broker.
Context {W : Type} `{!WAL W} {Hrange : MapRange}.
Abbreviation BR := (InMemoryBroker W).
Abbreviation QS := (QState RingBufferQueue W).
Implicit Types (b : BR).

(** Whether the broker is started and whether it is closed, which no call but
    [Start] and [Shutdown] changes. *)
Variable flags : bool * bool.

Record steady b : Prop := {
  sd_flags : (b_started b, b_closed b) = flags;
  sd_cfg : 0 < QueueSize (b_cfg b) <= max_int;
  sd_heap : map_Forall (fun _ cs => session_ok cs) (w_sessions (b_world b));
  sd_rt p r : b_runtimes b !! p = Some r -> rt_safe (mkQState r (b_world b)) /\ tokenHooks r = Some p;
  sd_name n p : b_queues b !! n = Some p -> is_Some (b_runtimes b !! p);
  sd_owner tok p : w_tokenOwners (b_world b) !! tok = Some p -> is_Some (b_runtimes b !! p);
  sd_gone p r : b_runtimes b !! p = Some r -> closed r = true \/ exists n, b_queues b !! n = Some p;
}.

(** The runtime at [p] is now [q]. *)
Lemma steady_put p r (q : QS) b :
  steady b -> b_runtimes b !! p = Some r -> kept (mkQState r (b_world b)) q -> steady (put_broker p q b).
Proof.
  intros [Hfl Hcfg Hh Hrt Hn Ho Hg] Hr [Hs Hheap Hk How Hcl]. simpl in *.
  destruct (Hrt p r Hr) as [_ Hp].
  assert (forall x, is_Some (b_runtimes b !! x) -> is_Some (<[p := rt q]> (b_runtimes b) !! x)) as Hdom.
  { intros x Hx. rewrite lookup_insert. by case_decide. }
  split; simpl; try done.
  - apply (cw_ok _ _ _ _ (sa_cons _ Hs)).
  - intros x y. rewrite lookup_insert. case_decide as Hx.
    + intros [= <-]. subst x. split; [by destruct q|congruence].
    + intros Hy. destruct (Hrt x y Hy) as [[Hr' Hc' Hs'] Hkx]. split; [|done]. split; simpl; [done| |done].
      eapply cons_wf_heap; [exact Hc'|done|]. apply (cw_ok _ _ _ _ (sa_cons _ Hs)).
  - intros n x Hx. apply Hdom. by eapply Hn.
  - intros tok x Hx. apply Hdom. destruct (How tok x Hx) as [?|?]; [by eapply Ho|].
    assert (x = p) as -> by congruence. by eexists.
  - intros x y. rewrite lookup_insert. case_decide as Hx; [|apply Hg].
    intros [= <-]. subst x. destruct (Hg p r Hr) as [?|?]; [left; auto|by right].
Qed.

(** A method of a runtime that is there returns. *)
Lemma on_runtime_safe {A} p (f : QS -> GoM (A * QS)) b :
  steady b -> is_Some (b_runtimes b !! p) ->
  (forall r, b_runtimes b !! p = Some r -> rt_safe (mkQState r (b_world b)) ->
     exists a q, f (mkQState r (b_world b)) = Done (a, q) /\ kept (mkQState r (b_world b)) q) ->
  exists a q, on_runtime p f b = Done (a, put_broker p q b) /\ steady (put_broker p q b) /\
    exists r, b_runtimes b !! p = Some r /\ f (mkQState r (b_world b)) = Done (a, q).
Proof.
  intros Hb [r Hr] Hf. destruct (Hf r Hr (proj1 (sd_rt _ Hb p r Hr))) as (a & q & Hq & Hk).
  exists a, q. unfold on_runtime. rewrite Hr, Hq. simpl. split; [done|].
  split; [by apply (steady_put p r)|]. by exists r.
Qed.

Lemma broker_queue_steady n p b : steady b -> broker_queue n b = inl p -> is_Some (b_runtimes b !! p).
Proof.
  unfold broker_queue. intros Hb H. destruct (b_closed b); [done|].
  destruct (b_queues b !! _) eqn:E; [|done]. injection H as <-. by eapply sd_name.
Qed.

Lemma publish_loop_safe now newID m ttl i names b :
  steady b -> exists r b', publish_loop now newID m ttl i names b = Done (r, b') /\ steady b'.
Proof.
  revert i b. induction names as [|n names IH]; intros i b Hb; simpl; [by eexists _, _|].
  destruct (broker_queue n b) as [p|e] eqn:E; [|by eexists _, _].
  destruct (on_runtime_safe p (Publish (now i) (newID i) m ttl) b Hb) as (r & q & -> & Hb1 & _).
  { by eapply broker_queue_steady. }
  { intros r _. apply Publish_safe. }
  simpl. destruct r as [|[e|]]; try by eexists _, _. by apply IH.
Qed.

Lemma Broker_Publish_safe now newID xn rk m ttl b :
  steady b -> exists r b', Broker_Publish now newID xn rk m ttl b = Done (r, b') /\ steady b'.
Proof.
  intros Hb. unfold Broker_Publish. destruct (b_exchanges b !! xn); [|by eexists _, _].
  rewrite Route_eq. simpl. case_bool_decide; [by eexists _, _|]. by apply publish_loop_safe.
Qed.

Lemma Broker_Publish_resume_safe now newID m ttl p rest b :
  steady b -> is_Some (b_runtimes b !! p) ->
  exists r b', Broker_Publish_resume now newID m ttl p rest b = Done (r, b') /\ steady b'.
Proof.
  intros Hb Hp. unfold Broker_Publish_resume.
  destruct (on_runtime_safe p (Publish_resume (now 0%nat) (newID 0%nat) m ttl) b Hb Hp) as (r & q & -> & Hb1 & _).
  { intros r _. apply Publish_resume_safe. }
  simpl. destruct r as [|[e|]]; try by eexists _, _. by apply publish_loop_safe.
Qed.

Lemma Broker_Ack_safe tok b : steady b -> exists err b', Broker_Ack tok b = Done (err, b') /\ steady b'.
Proof.
  intros Hb. unfold Broker_Ack. destruct (_ !! tok) as [p|] eqn:E; [|by eexists _, _].
  destruct (on_runtime_safe p (fun s => Done (Ack tok s)) b Hb) as (r & q & -> & Hb1 & _); [by eapply sd_owner| |by eexists _, _].
  intros r _ Hs. pose proof (Ack_safe tok _ Hs) as Hk. destruct (Ack tok _) as [e q]. by eexists _, _.
Qed.

Lemma Broker_Unsubscribe_safe n id b : steady b -> exists b', Broker_Unsubscribe n id b = Done b' /\ steady b'.
Proof.
  intros Hb. unfold Broker_Unsubscribe. destruct (broker_queue n b) as [p|e] eqn:E; [|by eexists].
  destruct (on_runtime_safe p (fun s => let! s := Unsubscribe id s in Done (tt, s)) b Hb) as (r & q & -> & Hb1 & _);
    [by eapply broker_queue_steady| |by eexists].
  intros r _ Hs. destruct (Unsubscribe_safe id _ Hs) as (q & -> & Hk). by eexists _, _.
Qed.

(** There is room for a consumer more in every queue. *)
Definition room b : Prop :=
  map_Forall (fun _ r => Z.of_nat (length (consumerOrder r)) < max_int) (b_runtimes b).

Lemma alloc_steady l id b : steady b -> w_sessions (b_world b) !! l = None -> steady (broker_alloc l id b).
Proof.
  intros [Hfl Hcfg Hh Hrt Hn Ho Hg] Hl. split; simpl; try done.
  - apply map_Forall_insert_2; [|done]. split; [done|]. simpl. unfold deliveries_cap. lia.
  - intros p r Hr. destruct (Hrt p r Hr) as [[H1 H2 H3] Hk]. split; [|done]. split; simpl; [done| |done].
    by apply cons_wf_alloc.
Qed.

Lemma Broker_Subscribe_safe n l id b :
  steady b -> room b -> w_sessions (b_world b) !! l = None ->
  exists err b', Broker_Subscribe n l (broker_alloc l id b) = Done (err, b') /\ steady b'.
Proof.
  intros Hb Hroom Hl. pose proof (alloc_steady l id b Hb Hl) as Hb1. unfold Broker_Subscribe.
  destruct (broker_queue n _) as [p|e] eqn:E; [|by eexists _, _].
  destruct (on_runtime_safe p (Subscribe l) _ Hb1) as (r & q & -> & Hb2 & _);
    [by eapply broker_queue_steady| |by eexists _, _].
  intros r Hr Hs. apply Subscribe_safe; [done|simpl; by rewrite lookup_insert_eq|]. by apply (Hroom p).
Qed.

(** *** Topology *)

(** Queues, runtimes, sessions and tokens are as they were. *)
Definition aside b b' : Prop :=
  (b_cfg b', b_queues b', b_runtimes b', b_started b', b_closed b') =
  (b_cfg b, b_queues b, b_runtimes b, b_started b, b_closed b) /\
  (w_sessions (b_world b'), w_tokenOwners (b_world b')) = (w_sessions (b_world b), w_tokenOwners (b_world b)).

Lemma aside_steady b b' : aside b b' -> steady b -> steady b'.
Proof.
  intros [[= H1 H2 H3 H6 H7] [= H4 H5]] [Hfl Hcfg Hh Hrt Hn Ho Hg].
  split; rewrite ?H1, ?H2, ?H3, ?H4, ?H5, ?H6, ?H7; try done.
  intros p r Hr. destruct (Hrt p r Hr) as [[S1 S2 S3] Hk]. split; [|done].
  split; simpl in *; rewrite ?H4; done.
Qed.

Lemma aside_trans b1 b2 b3 : aside b1 b2 -> aside b2 b3 -> aside b1 b3.
Proof. unfold aside. intros [-> ->] [-> ->]. done. Qed.

Lemma append_aside r b err b' : broker_append r b = (err, b') -> aside b b'.
Proof. unfold broker_append. destruct (Append _ _). by intros [= _ <-]. Qed.

Local Ltac aside_cases H :=
  repeat (case_match; simplify_eq/=; try done);
  repeat match goal with E : broker_append _ _ = _ |- _ => apply append_aside in E end; simplify_eq/=; try done.

Lemma BindQueue_aside e q k b err b' : BindQueue e q k b = (err, b') -> aside b b'.
Proof. unfold BindQueue. intros H. aside_cases H. Qed.

Lemma UnbindQueue_aside e q k b err b' : UnbindQueue e q k b = (err, b') -> aside b b'.
Proof. unfold UnbindQueue. intros H. aside_cases H. Qed.

Lemma CreateExchange_aside e t b err b' : CreateExchange e t b = (err, b') -> aside b b'.
Proof. unfold CreateExchange. intros H. aside_cases H. Qed.

Lemma DeleteExchange_aside e b err b' : DeleteExchange e b = (err, b') -> aside b b'.
Proof. unfold DeleteExchange. intros H. aside_cases H. Qed.

Lemma unbind_all_aside entries n b err b' : unbind_all entries n b = (err, b') -> aside b b'.
Proof.
  revert b. induction entries as [|[x ex] entries IH]; intros b H; simpl in H; [by injection H as _ <-|].
  destruct (Unbind "" n ex) as [[e|] ex'].
  - destruct e; first [by injection H as _ <-|by apply IH].
  - destruct (broker_append _ _) as [[e|] b1] eqn:Ea; apply append_aside in Ea; [by injection H as _ <-|].
    apply IH in H. by apply (aside_trans _ b1).
Qed.

(** *** Queues *)

Lemma new_runtime_safe cfg n msgs p r (w : World W) :
  fresh_runtime cfg n msgs p r -> 0 < QueueSize cfg ->
  map_Forall (fun _ cs => session_ok cs) (w_sessions w) -> rt_safe (mkQState r w) /\ tokenHooks r = Some p /\ closed r = false.
Proof.
  intros (Hq & _ & Hr & Hcap) Hpos Hh. split; [|by rewrite Hr]. split; simpl.
  - simpl in Hcap. unfold ring_Capacity in Hcap. apply ring_ok_safe; [done|lia].
  - rewrite Hr. simpl. by apply new_cons_wf.
  - by rewrite Hr.
Qed.

Lemma newQueueRuntime_safe n msgs b :
  steady b -> Z.of_nat (length msgs) <= max_int -> b_queues b !! n = None ->
  exists p b', newQueueRuntime n msgs b = Done (p, b') /\
    steady (set_b_queues (<[n := p]> (b_queues b')) b') /\ b_queues b' = b_queues b.
Proof.
  intros Hb Hm Hnone. pose proof (sd_cfg _ Hb) as Hcfg.
  destruct (newQueueRuntime_spec n msgs b) as (p & r & -> & Hp & Hfr); [lia|done|].
  destruct (new_runtime_safe _ _ _ _ _ (b_world b) Hfr) as (Hs & Hk & Hcl); [lia|apply Hb|].
  eexists _, _. split; [done|]. split; [|done]. destruct Hb as [Hfl _ Hh Hrt Hn Ho Hg].
  assert (forall x, is_Some (b_runtimes b !! x) -> is_Some (<[p := r]> (b_runtimes b) !! x)) as Hdom.
  { intros x Hx. rewrite lookup_insert. by case_decide. }
  split; simpl; try done.
  - intros x y. rewrite lookup_insert. case_decide; [|apply Hrt]. intros [= <-]. by subst x.
  - intros k x. rewrite lookup_insert. case_decide; [|intros Hx; by eapply Hdom, Hn].
    intros [= <-]. rewrite lookup_insert_eq. by eexists.
  - intros tok x Hx. by eapply Hdom, Ho.
  - intros x y. rewrite lookup_insert. case_decide as Hx.
    + intros [= <-]. subst x. right. exists n. by rewrite lookup_insert_eq.
    + intros Hy. destruct (Hg x y Hy) as [|[k Hk']]; [by left|right]. exists k.
      rewrite lookup_insert_ne; [done|]. congruence.
Qed.

Lemma CreateQueue_safe n b : steady b -> exists err b', CreateQueue n b = Done (err, b') /\ steady b'.
Proof.
  intros Hb. unfold CreateQueue. destruct (validateQueueName n); [by eexists _, _|].
  destruct (b_closed b); [by eexists _, _|]. case_bool_decide as Hn; [by eexists _, _|].
  apply eq_None_not_Some in Hn. destruct (broker_append _ b) as [err b1] eqn:Ea. apply append_aside in Ea.
  pose proof (aside_steady _ _ Ea Hb) as Hb1. destruct err as [e|]; [by eexists _, _|].
  destruct (newQueueRuntime_safe n [] b1 Hb1) as (p & b2 & -> & Hb2 & _); [by vm_compute| |].
  { destruct Ea as [[= _ -> _ _ _] _]. done. }
  simpl. eexists _, _. split; [done|]. destruct (b_started b2); [|done]. by apply (aside_steady (set_b_queues (<[n := p]> (b_queues b2)) b2)).
Qed.

(** A closed queue may lose its name. *)
Lemma unname_steady n p b :
  steady b -> b_queues b !! n = Some p -> (forall r, b_runtimes b !! p = Some r -> closed r = true) ->
  steady (set_b_queues (delete n (b_queues b)) b).
Proof.
  intros [Hfl Hcfg Hh Hrt Hn Ho Hg] Hp Hcl. split; simpl; try done.
  - intros k x [_ Hx]%lookup_delete_Some. by eapply Hn.
  - intros x y Hy. destruct (Hg x y Hy) as [|[k Hk]]; [by left|].
    destruct (decide (k = n)) as [->|Hne]; [left; apply Hcl; congruence|].
    right. exists k. by rewrite lookup_delete_ne.
Qed.

Lemma shut_runtime_safe p b :
  steady b -> is_Some (b_runtimes b !! p) ->
  exists q, on_runtime p (fun s => let! s := Shutdown s in Done (tt, s)) b = Done (tt, put_broker p q b) /\
    steady (put_broker p q b) /\ closed (rt q) = true.
Proof.
  intros Hb Hp.
  destruct (on_runtime_safe p (fun s => let! s := Shutdown s in Done (tt, s)) b Hb Hp) as ([] & q & -> & Hb1 & r & Hr & Hq).
  { intros r _ Hs. destruct (close_safe _ Hs) as (q & Hq & Hk & _). unfold Shutdown. rewrite Hq. by eexists _, _. }
  exists q. split; [done|]. split; [done|].
  destruct (close_safe _ (proj1 (sd_rt _ Hb p r Hr))) as (q' & Hq' & _ & Hcl). unfold Shutdown in Hq.
  rewrite Hq' in Hq. by injection Hq as <-.
Qed.

Lemma DeleteQueue_safe n b : steady b -> exists err b', DeleteQueue n b = Done (err, b') /\ steady b'.
Proof.
  intros Hb. unfold DeleteQueue. case_bool_decide; [by eexists _, _|].
  destruct (b_queues b !! n) as [p|] eqn:Hn; [|by eexists _, _].
  destruct (on_runtime_safe p CloseIfEmpty b Hb) as (emptied & q & -> & Hb1 & r & Hr & Hq); [by eapply sd_name| |].
  { intros r _ Hs. destruct (CloseIfEmpty_safe _ Hs) as (e & q & Hq & Hk & _). by eexists _, _. }
  simpl. destruct emptied; simpl; [|by eexists _, _].
  assert (closed (rt q) = true) as Hcl.
  { destruct (CloseIfEmpty_safe _ (proj1 (sd_rt _ Hb p r Hr))) as (e & q' & Hq' & _ & Hcl).
    rewrite Hq' in Hq. injection Hq as -> <-. by apply Hcl. }
  set (b1 := put_broker p q b) in *.
  destruct (broker_append _ b1) as [err b2] eqn:Ea. apply append_aside in Ea.
  pose proof (aside_steady _ _ Ea Hb1) as Hb2. destruct err as [e|]; [by eexists _, _|].
  assert (b_runtimes b2 = <[p := rt q]> (b_runtimes b) /\ b_queues b2 = b_queues b) as [Hr2 Hq2].
  { by destruct Ea as [[= _ -> -> _ _] _]. }
  assert (steady (set_b_queues (delete n (b_queues b2)) b2)) as Hb3.
  { apply (unname_steady n p); [done|by rewrite Hq2|]. intros x. rewrite Hr2, lookup_insert_eq. by intros [= <-]. }
  destruct (unbind_all _ n _) as [[e|] b4] eqn:Eu; apply unbind_all_aside in Eu;
    pose proof (aside_steady _ _ Eu Hb3) as Hb4; [by eexists _, _|].
  destruct (shut_runtime_safe p b4 Hb4) as (q5 & -> & Hb5 & _).
  { destruct Eu as [[= _ _ -> _ _] _]. simpl. rewrite Hr2, lookup_insert_eq. by eexists. }
  simpl. eexists _, _. split; [done|]. destruct Hb5 as [S0 S1 S2 S3 S4 S5 S6]. split; try done.
  - intros x y Hy. destruct (S3 x y Hy) as [[] ?]. done.
  - intros tok x. simpl. intros [Hx _]%map_lookup_filter_Some. by apply (S5 tok).
Qed.

(** *** Metrics, deliveries, life cycle *)

Lemma QueueMetrics_safe n b : steady b -> exists r, QueueMetrics n b = Done r.
Proof.
  intros Hb. unfold QueueMetrics. destruct (broker_queue n b) as [p|] eqn:E; [|by eexists].
  destruct (broker_queue_steady _ _ _ Hb E) as [r ->]. by eexists.
Qed.

Lemma Broker_Metrics_safe b : steady b -> exists r, Broker_Metrics b = Done r.
Proof.
  intros Hb. unfold Broker_Metrics.
  assert (forall entries qs tot, (forall n p, (n, p) ∈ entries -> is_Some (b_runtimes b !! p)) ->
    exists x, metrics_loop entries b qs tot = Done x) as Hloop.
  { induction entries as [|[n p] entries IH]; intros qs tot He; simpl; [by eexists|].
    destruct (He n p) as [r ->]; [left|]. apply IH. intros k x Hx. apply (He k). by right. }
  destruct (Hloop (range (b_queues b)) [] zeroMetric) as [[qs tot] ->]; [|by eexists].
  intros n p Hin. rewrite range_perm in Hin. apply elem_of_map_to_list in Hin. by eapply sd_name.
Qed.

Lemma receive_steady l b : steady b -> steady (broker_receive l b).
Proof.
  intros [Hfl Hcfg Hh Hrt Hn Ho Hg].
  assert (forall cs : ConsumerSession, session_ok cs -> session_ok (set_Deliveries (List.tl (Deliveries cs)) cs)) as Htl.
  { intros cs [H1 H2]. split; [done|]. simpl. destruct (Deliveries cs); simpl in *; lia. }
  split; simpl; try done.
  - intros x cs. rewrite lookup_alter_Some. intros [(_ & y & Hy & ->)|[_ Hx]]; [apply Htl|]; by eapply Hh.
  - intros p r Hr. destruct (Hrt p r Hr) as [[S1 S2 S3] Hk]. split; [|done]. split; simpl; [done| |done].
    apply cons_wf_alter; auto.
Qed.

Lemma cancel_steady b : steady b -> steady (cancel_context b).
Proof. by apply aside_steady. Qed.

(** [Shutdown] returns and closes every queue. *)
Lemma shutdown_loop_safe ps b :
  steady b -> (forall p, p ∈ ps -> is_Some (b_runtimes b !! p)) ->
  exists b', shutdown_loop ps b = Done b' /\ steady b' /\ b_queues b' = b_queues b /\
    (forall p r, b_runtimes b' !! p = Some r -> p ∈ ps -> closed r = true) /\
    (forall p r', b_runtimes b' !! p = Some r' -> p ∉ ps -> b_runtimes b !! p = Some r').
Proof.
  revert b. induction ps as [|p ps IH]; intros b Hb Hps; simpl.
  { exists b. split_and!; try done. by intros p r _ ?%elem_of_nil. }
  destruct (shut_runtime_safe p b Hb) as (q & -> & Hb1 & Hcl); [apply Hps; left|]. simpl.
  destruct (IH (put_broker p q b) Hb1) as (b' & -> & Hb' & H1 & H5 & H6).
  { intros x Hx. simpl. rewrite lookup_insert. case_decide; [done|]. apply Hps. by right. }
  exists b'. split_and!; try done.
  - intros x r Hx Hin. destruct (decide (x ∈ ps)) as [|Hnin]; [by eapply H5|].
    assert (x = p) as -> by set_solver. apply H6 in Hx; [|done]. simpl in Hx. rewrite lookup_insert_eq in Hx.
    by injection Hx as <-.
  - intros x r Hx Hnin. apply H6 in Hx; [|set_solver]. simpl in Hx. rewrite lookup_insert_ne in Hx; [done|set_solver].
Qed.

(** *** [NewBroker] *)

Lemma recover_queues_safe entries b :
  steady b -> Forall (fun e => Z.of_nat (length e.2) <= max_int) entries -> NoDup entries.*1 ->
  (forall n, n ∈ entries.*1 -> b_queues b !! n = None) ->
  exists b', recover_queues entries b = Done b' /\ steady b'.
Proof.
  intros Hb Hl. revert b Hb. induction Hl as [|[n msgs] entries Hm _ IH]; intros b Hb Hnd Hno; simpl; [by eexists|].
  simpl in Hnd. apply NoDup_cons in Hnd as [Hn Hnd].
  destruct (newQueueRuntime_safe n msgs b Hb Hm) as (p & b1 & -> & Hb1 & Hq); [apply Hno; left|]. simpl.
  apply IH; [done|done|]. intros k Hk. simpl. rewrite Hq, lookup_insert_ne by (by intros ->). apply Hno. by right.
Qed.

Lemma recover_bindings_aside e bs b err b' : recover_bindings e bs b = (err, b') -> aside b b'.
Proof.
  revert b. induction bs as [|x bs IH]; intros b H; simpl in H; [by injection H as _ <-|].
  destruct (BindQueue _ _ _ b) as [[er|] b1] eqn:E; apply BindQueue_aside in E; [by injection H as _ <-|].
  apply IH in H. by eapply aside_trans.
Qed.

Lemma recover_exchanges_aside entries b err b' : recover_exchanges entries b = (err, b') -> aside b b'.
Proof.
  revert b. induction entries as [|[n es] entries IH]; intros b H; simpl in H; [by injection H as _ <-|].
  destruct (CreateExchange _ _ b) as [[er|] b1] eqn:E; apply CreateExchange_aside in E; [by injection H as _ <-|].
  destruct (recover_bindings _ _ b1) as [[er|] b2] eqn:E2; apply recover_bindings_aside in E2.
  - injection H as _ <-. by eapply aside_trans.
  - apply IH in H. eapply aside_trans; [exact E|]. eapply aside_trans; [exact E2|done].
Qed.

(** *** The engine *)

Lemma queue_step_safe p e (en : Engine W) c :
  steady (en_broker en) -> queue_step p e en = Some c ->
  exists en', c = Done en' /\ steady (en_broker en').
Proof.
  intros Hb H. unfold queue_step in H. destruct (is_call e) eqn:Ec; [done|].
  case_bool_decide as Hrun; [|done]. simpl in H.
  destruct (b_runtimes (en_broker en) !! p) as [r|] eqn:Hr; [|done].
  destruct (sys_step e (view p r en)) as [c'|] eqn:Es; [|done]. injection H as <-.
  destruct (goroutine_safe e (view p r en) c' Ec (proj1 (sd_rt _ Hb p r Hr)) Es) as (s' & -> & Hk).
  eexists. split; [done|]. by apply (steady_put p r).
Qed.

End Broker.

Section LifeCycle.
Context {W : Type} `{!WAL W} {Hrange : MapRange}.
Implicit Types (b : InMemoryBroker W).

Lemma start_steady b : steady (false, false) b -> steady (true, false) (Broker_Start b).
Proof.
  intros Hb. pose proof (sd_flags _ _ Hb) as [= Hst Hcl]. unfold Broker_Start. rewrite Hst, Hcl. simpl.
  set (b1 := mkBroker true _ _ _ _ _ _ _ _).
  assert (steady (true, false) b1) as Hb1 by by destruct Hb; split.
  clearbody b1. generalize ((range (b_queues b)).*2) as ps. intros ps. revert b1 Hb1.
  induction ps as [|p ps IH]; intros b1 Hb1; simpl; [done|]. apply IH. by apply (aside_steady _ b1).
Qed.

Lemma Broker_Shutdown_safe b :
  steady (true, false) b ->
  exists b', Broker_Shutdown b = Done b' /\ steady (true, true) b' /\ b_cancelled b' = true /\
    map_Forall (fun _ r => closed r = true) (b_runtimes b').
Proof.
  intros Hb. pose proof (sd_flags _ _ Hb) as [= Hs Hc]. unfold Broker_Shutdown. rewrite Hc. simpl.
  set (b0 := mkBroker _ true _ _ _ _ _ _ _).
  assert (steady (true, true) b0) as Hb0 by (destruct Hb; split; try done; simpl; by rewrite Hs).
  destruct (shutdown_loop_safe _ (range (b_queues b)).*2 b0 Hb0) as (b1 & -> & Hb1 & Hq & Hin & Hout).
  { intros p ([n x] & -> & Hnx)%list_elem_of_fmap. rewrite range_perm in Hnx.
    apply elem_of_map_to_list in Hnx. by eapply (sd_name _ _ Hb0). }
  simpl. eexists. split; [done|]. split_and!; try done.
  - destruct Hb1 as [S0 S1 S2 S3 S4 S5 S6]. split; try done. intros x y Hy. by destruct (S3 x y Hy) as [[] ?].
  - simpl. by pose proof (sd_flags _ _ Hb1) as [= -> _].
  - intros p r Hr. simpl in Hr. destruct (decide (p ∈ (range (b_queues b)).*2)) as [|Hnin]; [by eapply Hin|].
    destruct (sd_gone _ _ Hb1 p r Hr) as [|[n Hn]]; [done|]. exfalso. apply Hnin.
    rewrite Hq in Hn. apply list_elem_of_fmap. exists (n, p). split; [done|].
    rewrite range_perm. by apply elem_of_map_to_list.
Qed.

(** What [NewBroker] makes of a log, whatever the log is. *)
Lemma NewBroker_safe cfg w sessions ob err :
  0 < QueueSize cfg <= max_int -> map_Forall (fun _ cs => session_ok cs) sessions ->
  (forall st, Load w = inl st ->
     map_Forall (fun _ msgs => Z.of_nat (length msgs) <= max_int) (PendingMessages st)) ->
  NewBroker cfg w sessions = Done (ob, err) -> forall b, ob = Some b -> steady (false, false) b.
Proof.
  intros Hcfg Hses Hsm H b ->. unfold NewBroker in H. destruct (Load w) as [st|e] eqn:El; [|done].
  assert (steady (false, false) (NewInMemoryBroker cfg w sessions)) as Hb0 by by split.
  destruct (recover_queues_safe _ (range (PendingMessages st)) _ Hb0) as (b1 & E1 & Hb1).
  { apply Forall_forall. intros [n msgs] Hin. rewrite range_perm in Hin. apply elem_of_map_to_list in Hin.
    by apply (Hsm st eq_refl n). }
  { rewrite range_perm. apply NoDup_fst_map_to_list. }
  { intros n _. apply lookup_empty. }
  rewrite E1 in H. simpl in H.
  destruct (recover_default b1) as [b2| |] eqn:E2; simpl in H; try done.
  assert (steady (false, false) b2) as Hb2.
  { unfold recover_default in E2. destruct (b_queues b1 !! _) eqn:Ed; [by injection E2 as <-|].
    destruct (newQueueRuntime_safe _ DefaultQueueName [] b1 Hb1) as (p & b3 & E & Hb3 & _); [by vm_compute|done|].
    rewrite E in E2. by injection E2 as <-. }
  destruct (recover_exchanges _ b2) as [er3 b3] eqn:E3. apply recover_exchanges_aside in E3.
  apply (aside_steady _ _ _ E3) in Hb2. destruct er3; [by injection H as <- _|].
  destruct (BindQueue _ _ _ b3) as [er4 b4] eqn:E4. apply BindQueue_aside in E4.
  apply (aside_steady _ _ _ E4) in Hb2. repeat case_match; by simplify_eq.
Qed.

End LifeCycle.
