(* ===== verification/EngineInv.v ===== *)
(** The invariant of the engine. Every queue keeps its own invariant although
    all of them work on one log, one session heap and one token table, and the
    log replays to exactly the live messages of every queue. *)

From S2P Require Import Prelude GoStrings Model RingBuffer Inflight Exchange Wal QueueRuntime.
From S2P Require Import System QueueSpec QueueInv RoundRobin QueueRefine QueueDeliver.
From S2P Require Import Redelivery SystemInv QueueCases Broker Topology BrokerInv Recovery.
From S2P Require Import Frame Engine.

(** What a queue owes its consumers: its ready and its in-flight messages. *)
Definition live (r : QueueRuntime RingBufferQueue) : list Message :=
  contents (queue r) ++ flight_msgs (flight_of <$> deliveries (inFlightManager r)).

(** While the token of the delivery a distributor holds is in flight, the entry
    is that delivery. *)
Definition dist_at (pc : DistPC) (r : QueueRuntime RingBufferQueue) : Prop :=
  match pc with
  | DSend _ d => forall im, deliveries (inFlightManager r) !! d_AckToken d = Some im ->
      if_Message im = d_Message d /\ if_ConsumerID im = d_ConsumerID d
  | _ => True
  end.

Section EngineInv.
Context {W : Type} `{!WAL W} `{!WALLaws W} {Hrange : MapRange}.
Abbreviation BR := (InMemoryBroker W).

Lemma live_abs r (w : World W) : live r = a_live (abs (mkQState r w)).
Proof. done. Qed.

Record engine_ok (en : Engine W) : Prop := {
  eo_broker : broker_ok (en_broker en);
  eo_open : b_closed (en_broker en) = false;
  eo_cfg : 0 <= QueueSize (b_cfg (en_broker en)) <= max_int;
  eo_heap : map_Forall (fun _ cs => session_ok cs) (w_sessions (b_world (en_broker en)));
  eo_wf p r : b_runtimes (en_broker en) !! p = Some r ->
    rt_wf (mkQState r (b_world (en_broker en))) /\ tokenHooks r = Some p /\ shut_ok r /\
    dist_at (pr_dist (procs_of p (en_procs en))) r;
  eo_gone p r : b_runtimes (en_broker en) !! p = Some r ->
    gone r \/ exists n, b_queues (en_broker en) !! n = Some p;
  eo_live n p r : b_queues (en_broker en) !! n = Some p ->
    b_runtimes (en_broker en) !! p = Some r ->
    pending_of (logged (en_broker en)) n ≡ₚ live r /\ NoDup (ID <$> live r);
}.

Lemma dist_at_wf (s : Sys RingBufferQueue W) : dist_wf s <-> dist_at (dist s) (rt (qs s)).
Proof.
  unfold dist_wf, dist_at. destruct (dist s) as [| | |l d|]; try done. split.
  - intros H im Him. destruct H as (im' & Him' & Hrec); [eauto|]. congruence.
  - intros H [im Him]. exists im. split; [done|]. by apply H.
Qed.

Lemma view_wf en p r :
  engine_ok en -> b_runtimes (en_broker en) !! p = Some r -> sys_wf (view p r en).
Proof.
  intros Hok Hr. destruct (eo_wf _ Hok p r Hr) as (Hwf & _ & _ & Hd).
  split; [done|]. by apply dist_at_wf.
Qed.

(** ** The log of a step *)

(** Records of messages of queue [n]. *)
Definition message_records (n : string) (rs : list WalRecord) : Prop :=
  Forall (fun r => exists t m id, message_type t /\ r = rec_message t n m id) rs.

Lemma steps_log {policy : PubPolicy} n mr a a' :
  rtc (astep n mr) a a' -> exists rs, a_log a' = a_log a ++ rs /\ message_records n rs.
Proof.
  unfold message_records, message_type.
  induction 1 as [a|a a1 a' Hs _ (rs & Hl & Hrs)]; [exists []; by rewrite app_nil_r|].
  rewrite Hl. destruct Hs; simpl.
  1, 3, 5, 6, 7: eexists (_ :: rs); rewrite <- app_assoc; split; [done|]; constructor; eauto 10.
  all: by exists rs.
Qed.

Lemma replay_app l1 l2 : replay (l1 ++ l2) = foldl load_record (replay l1) l2.
Proof. apply foldl_app. Qed.

Lemma message_records_other n m st rs :
  message_records n rs -> n <> m -> pending_of (foldl load_record st rs) m = pending_of st m.
Proof.
  intros Hrs Hne. revert st. induction Hrs as [|r rs (t & x & id & _ & ->) _ IH]; intros st; simpl; [done|].
  rewrite IH. unfold pending_of. by rewrite load_record_other_queue.
Qed.

Lemma message_records_topo names queues ex n st rs :
  message_records n rs -> n ∈ dom queues -> topo names queues ex st ->
  topo names queues ex (foldl load_record st rs).
Proof.
  intros Hrs Hn. revert st. induction Hrs as [|r rs (t & x & id & Ht & ->) _ IH]; intros st Hst; simpl; [done|].
  apply IH. by apply topo_message.
Qed.

(** ** A step of one queue *)

(** The engine after the queue at [p] has moved to [s']; the goroutines of the
    other queues are where they were. *)
Record moved (p : nat) (s' : Sys RingBufferQueue W) (en en' : Engine W) : Prop := {
  mv_broker : en_broker en' = put_broker p (qs s') (en_broker en);
  mv_self : pr_dist (procs_of p (en_procs en')) = dist s';
  mv_other q : q <> p -> procs_of q (en_procs en') = procs_of q (en_procs en);
}.

Section Step.
Variables (en en' : Engine W) (p : nat) (r : QueueRuntime RingBufferQueue) (e : event)
  (s' : Sys RingBufferQueue W).
Hypotheses (Hok : engine_ok en) (Hr : b_runtimes (en_broker en) !! p = Some r)
  (Henv : env_ok e (view p r en)) (Hquiet : quiet_cancel e (view p r en))
  (Hpub : publishes_ok fresh_id e (view p r en))
  (Hstep : sys_step e (view p r en) = Some (Done s')) (Hmv : moved p s' en en').

Abbreviation b := (en_broker en).

Lemma step_sim : sim (policy:=fresh_id) (qs (view p r en)) (qs s') /\ dist_wf s'.
Proof.
  destruct (sys_step_ok (policy:=fresh_id) e _ _ (view_wf _ _ _ Hok Hr) Henv Hquiet Hpub Hstep)
    as (s1 & [= <-] & H1 & H2). done.
Qed.

Lemma step_effect : effect (event_new e) (qs (view p r en)) (qs s').
Proof. apply sys_step_frame; try done. by apply view_wf. Qed.

(** The log grows by records of this queue; of a queue that is gone, not at all. *)
Lemma step_log :
  exists rs, wal_log (w_wal (wd (qs s'))) = wal_log (w_wal (b_world b)) ++ rs /\
    message_records (name r) rs /\ ((exists n, b_queues b !! n = Some p) \/ rs = [] /\ gone (rt (qs s'))).
Proof.
  destruct step_sim as [[_ Hs _] _].
  destruct (steps_log _ _ _ _ Hs) as (rs & Hl & Hrs). simpl in Hl, Hrs. exists rs.
  split; [done|]. split; [done|]. destruct (eo_gone _ Hok p r Hr) as [Hg|Hn]; [right|by left].
  destruct (gone_stays e _ _ (view_wf _ _ _ Hok Hr) Henv Hquiet Hstep Hg) as [Hg' Hl'].
  split; [|done]. simpl in Hl'. rewrite Hl in Hl'. apply (f_equal length) in Hl'. rewrite length_app in Hl'.
  destruct rs; [done|]. simpl in Hl'. lia.
Qed.

Lemma step_ptrs :
  ptrs_ok (b_queues b) (<[p := rt (qs s')]> (b_runtimes b)) (w_tokenOwners (wd (qs s'))).
Proof.
  destruct step_sim as [[[_ _ _ Ht'] _ (Hn & _ & Hk & _)] _]. destruct step_effect as [_ Ho _ Hc _ _].
  destruct (eo_wf _ Hok p r Hr) as (_ & Hp & _). simpl in *.
  destruct (eo_broker _ Hok) as [_ _ [H1 H2 H3]]. split.
  - intros n q Hq. destruct (H1 n q Hq) as (x & Hx & Hxn). rewrite lookup_insert.
    case_decide; [subst q|eauto]. exists (rt (qs s')). split; [done|]. congruence.
  - intros tok q Hq. destruct (decide (q = p)) as [->|Hne].
    + rewrite Hp in Hk. apply (Ht' p Hk) in Hq.
      destruct step_log as (rs & _ & _ & [?|[_ (_ & _ & Hf)]]); [done|].
      rewrite Hf in Hq. by destruct Hq.
    + apply (H2 tok). apply Ho; [congruence|done].
  - intros q x. rewrite lookup_insert. case_decide; [|by apply H3].
    intros [= <-]. subst q. destruct (H3 p r Hr) as [Hcl|]; [left|by right]. by apply Hc.
Qed.

Lemma step_broker : broker_ok (en_broker en').
Proof.
  rewrite (mv_broker _ _ _ _ Hmv). destruct step_sim as [[Hwf' _ _] _].
  destruct (eo_broker _ Hok) as [Hw Ht Hp].
  split; simpl; [apply Hwf'| |apply step_ptrs]. unfold logged. simpl.
  destruct step_log as (rs & -> & Hrs & [[n Hn]|[-> _]]); rewrite replay_app; [|done].
  eapply message_records_topo; [exact Hrs| |exact Ht].
  destruct (po_name _ _ _ Hp n p Hn) as (x & Hx & <-). assert (x = r) as -> by congruence. by eapply elem_of_dom_2.
Qed.

Lemma step_wf q x :
  b_runtimes (en_broker en') !! q = Some x ->
  rt_wf (mkQState x (b_world (en_broker en'))) /\ tokenHooks x = Some q /\ shut_ok x /\
  dist_at (pr_dist (procs_of q (en_procs en'))) x.
Proof.
  rewrite (mv_broker _ _ _ _ Hmv). simpl. destruct step_sim as [[Hwf' _ (_ & _ & Hk & _)] Hd'].
  destruct (eo_wf _ Hok p r Hr) as (_ & Hp & Hs & _). simpl in *.
  rewrite lookup_insert. case_decide as Hq.
  - intros [= <-]. subst q. rewrite (mv_self _ _ _ _ Hmv). split_and!.
    + by destruct (qs s').
    + congruence.
    + by apply (ef_shut _ _ _ step_effect).
    + by apply dist_at_wf.
  - intros Hx. destruct (eo_wf _ Hok q x Hx) as (Hwf & Hpq & Hsq & Hdq).
    rewrite (mv_other _ _ _ _ Hmv) by done. split_and!; try done.
    refine (rt_wf_frame _ _ _ x q step_effect Hwf' _ Hpq Hwf). simpl. congruence.
Qed.

Lemma step_live n q x :
  b_queues (en_broker en') !! n = Some q -> b_runtimes (en_broker en') !! q = Some x ->
  pending_of (logged (en_broker en')) n ≡ₚ live x /\ NoDup (ID <$> live x).
Proof.
  rewrite (mv_broker _ _ _ _ Hmv). simpl. intros Hn. unfold logged. simpl.
  destruct (po_name _ _ _ (bk_ptrs _ (eo_broker _ Hok)) n q Hn) as (y & Hy & Hyn).
  rewrite lookup_insert. case_decide as Hq.
  - intros [= <-]. subst q. assert (y = r) as -> by congruence.
    destruct (eo_live _ Hok n p r Hn Hr) as [Hl Hnd]. destruct step_sim as [[_ Hs _] _].
    apply (steps_invariant (policy:=fresh_id) _ _
             (fun a => durable n a /\ ids_unique a) _ _) in Hs; [by destruct Hs| |done].
    intros a1 a2 Ha [Hdur Hids]. simpl in Ha. rewrite Hyn in Ha. apply astep_live in Ha.
    split; [by eapply live_step_durable|by eapply live_step_ids].
  - intros Hx. destruct (eo_live _ Hok n q x Hn Hx) as [Hl Hnd]. split; [|done].
    rewrite <- Hl. destruct step_log as (rs & -> & Hrs & Hcase). rewrite replay_app.
    destruct Hcase as [[k Hk]|[-> _]]; [|done].
    rewrite (message_records_other (name r) n _ rs Hrs); [done|]. intros <-.
    destruct (po_name _ _ _ (bk_ptrs _ (eo_broker _ Hok)) k p Hk) as (z & Hz & Hzk).
    congruence.
Qed.

(** The engine keeps its invariant when one of its queues makes a step. *)
Lemma step_engine_ok : engine_ok en'.
Proof.
  split.
  - apply step_broker.
  - rewrite (mv_broker _ _ _ _ Hmv). apply (eo_open _ Hok).
  - rewrite (mv_broker _ _ _ _ Hmv). apply (eo_cfg _ Hok).
  - rewrite (mv_broker _ _ _ _ Hmv). simpl. destruct step_sim as [[[_ _ Hc _] _ _] _]. apply Hc.
  - apply step_wf.
  - intros q x. rewrite (mv_broker _ _ _ _ Hmv). simpl. rewrite lookup_insert. case_decide as Hq.
    + intros [= <-]. subst q. destruct step_log as (rs & _ & _ & [?|[_ ?]]); [by right|by left].
    + apply (eo_gone _ Hok).
  - apply step_live.
Qed.

End Step.

(** ** Changes of the topology *)

(** Only exchanges and their records differ. *)
Record exchange_change (b b' : BR) : Prop := {
  xc_queues : b_queues b' = b_queues b;
  xc_runtimes : b_runtimes b' = b_runtimes b;
  xc_closed : b_closed b' = b_closed b;
  xc_cfg : b_cfg b' = b_cfg b;
  xc_sessions : w_sessions (b_world b') = w_sessions (b_world b);
  xc_owners : w_tokenOwners (b_world b') = w_tokenOwners (b_world b);
  xc_wal : wal_ok (w_wal (b_world b'));
  xc_pending : PendingMessages (logged b') = PendingMessages (logged b);
}.

Lemma exchange_change_refl (b : BR) : wal_ok (w_wal (b_world b)) -> exchange_change b b.
Proof. by split. Qed.

Lemma exchange_change_trans (b b1 b2 : BR) :
  exchange_change b b1 -> exchange_change b1 b2 -> exchange_change b b2.
Proof. intros [] []. split; congruence. Qed.

Lemma exchange_change_set v (b : BR) :
  wal_ok (w_wal (b_world b)) -> exchange_change b (set_b_exchanges v b).
Proof. by split. Qed.

Definition exchange_record (r : WalRecord) : Prop :=
  match r_Type r with
  | ExchangeCreated | ExchangeDeleted | QueueBinded | QueueUnbinded => True
  | _ => False
  end.

Lemma exchange_append_change r (b : BR) err b' :
  broker_append r b = (err, b') -> wal_ok (w_wal (b_world b)) -> exchange_record r ->
  exchange_change b b'.
Proof.
  intros Ha Hw Hr.
  assert (typed r) as Ht by (unfold exchange_record in Hr; unfold typed; by destruct (r_Type r)).
  destruct (broker_append_spec _ _ _ _ Ha Hw Ht) as (w & -> & Hw' & Hl & _).
  split; try done. unfold logged. simpl. rewrite Hl. destruct err; [done|].
  unfold exchange_record in Hr. unfold load_record. destruct (r_Type r); try done; by repeat case_match.
Qed.

Lemma BindQueue_change e q k (b : BR) err b' :
  BindQueue e q k b = (err, b') -> wal_ok (w_wal (b_world b)) -> exchange_change b b'.
Proof.
  unfold BindQueue. intros H Hw.
  destruct (validateBindingKey k); [injection H as _ <-; by apply exchange_change_refl|].
  destruct (b_exchanges b !! e) as [x|]; [|injection H as _ <-; by apply exchange_change_refl].
  destruct (b_queues b !! q); [|injection H as _ <-; by apply exchange_change_refl].
  destruct (Bind k q x) as [[e1|] x'].
  - injection H as _ <-. by apply exchange_change_set.
  - destruct (broker_append _ _) as [err1 b1] eqn:Ea. injection H as _ <-.
    eapply exchange_change_trans; [by apply exchange_change_set|].
    by eapply exchange_append_change.
Qed.

Lemma UnbindQueue_change e q k (b : BR) err b' :
  UnbindQueue e q k b = (err, b') -> wal_ok (w_wal (b_world b)) -> exchange_change b b'.
Proof.
  unfold UnbindQueue. intros H Hw.
  destruct (b_exchanges b !! e) as [x|]; [|injection H as _ <-; by apply exchange_change_refl].
  destruct (b_queues b !! q); [|injection H as _ <-; by apply exchange_change_refl].
  destruct (Unbind k q x) as [[e1|] x'].
  - injection H as _ <-. by apply exchange_change_set.
  - destruct (broker_append _ _) as [err1 b1] eqn:Ea. injection H as _ <-.
    eapply exchange_change_trans; [by apply exchange_change_set|].
    by eapply exchange_append_change.
Qed.

Lemma CreateExchange_change e t (b : BR) err b' :
  CreateExchange e t b = (err, b') -> wal_ok (w_wal (b_world b)) -> exchange_change b b'.
Proof.
  unfold CreateExchange. intros H Hw.
  destruct (validateExchangeName e); [injection H as _ <-; by apply exchange_change_refl|].
  destruct (validateExchangeType t) as [vt|]; [|injection H as _ <-; by apply exchange_change_refl].
  destruct (b_exchanges b !! e); [injection H as _ <-; by apply exchange_change_refl|].
  destruct (broker_append _ b) as [err1 b1] eqn:Ea.
  apply exchange_append_change in Ea; [|done|done].
  destruct err1; injection H as _ <-; [done|].
  eapply exchange_change_trans; [done|]. apply exchange_change_set, Ea.
Qed.

Lemma DeleteExchange_change e (b : BR) err b' :
  DeleteExchange e b = (err, b') -> wal_ok (w_wal (b_world b)) -> exchange_change b b'.
Proof.
  unfold DeleteExchange. intros H Hw.
  destruct (validateExchangeName e); [injection H as _ <-; by apply exchange_change_refl|].
  destruct (b_exchanges b !! e) as [x|]; [|injection H as _ <-; by apply exchange_change_refl].
  case_bool_decide; [injection H as _ <-; by apply exchange_change_refl|].
  destruct (broker_append _ b) as [err1 b1] eqn:Ea.
  apply exchange_append_change in Ea; [|done|done].
  destruct err1; injection H as _ <-; [done|].
  eapply exchange_change_trans; [done|]. apply exchange_change_set, Ea.
Qed.

Lemma unbind_all_change entries n (b : BR) err b' :
  unbind_all entries n b = (err, b') -> wal_ok (w_wal (b_world b)) -> exchange_change b b'.
Proof.
  revert b. induction entries as [|[x ex] entries IH]; intros b H Hw; simpl in H.
  { injection H as _ <-. by apply exchange_change_refl. }
  destruct (Unbind "" n ex) as [[e|] ex'].
  - destruct e; first [injection H as _ <-; by apply exchange_change_refl|by apply IH].
  - destruct (broker_append _ _) as [[e|] b2] eqn:Ea;
      (apply exchange_append_change in Ea; [|done|done]).
    + injection H as _ <-. eapply exchange_change_trans; [by apply exchange_change_set|done].
    + eapply exchange_change_trans; [by apply exchange_change_set|].
      eapply exchange_change_trans; [done|]. apply (IH _ H), Ea.
Qed.

(** The invariants of the runtimes survive any change of the log that stays
    good and of the sessions that keeps them. *)
Lemma rt_wf_world r (w w' : World W) :
  wal_ok (w_wal w') -> heap_le (w_sessions w) (w_sessions w') ->
  map_Forall (fun _ cs => session_ok cs) (w_sessions w') ->
  (forall tok p, tokenHooks r = Some p ->
     w_tokenOwners w' !! tok = Some p <-> w_tokenOwners w !! tok = Some p) ->
  rt_wf (mkQState r w) -> rt_wf (mkQState r w').
Proof.
  intros Hw Hh Hs Ho [Hq _ [Hnd Hdom Hptr _ Hn Hl] Ht]. split; simpl in *; try done.
  - split; try done. intros id l Hid. destruct (Hptr id l Hid) as (cs & Hcs & Hi).
    destruct (Hh l cs Hcs) as (cs' & Hcs' & Hi'). exists cs'. split; [done|congruence].
  - intros self Hself tok. rewrite (Ho tok self Hself). by apply Ht.
Qed.

Lemma exchange_change_engine en b' :
  exchange_change (en_broker en) b' -> broker_ok b' -> engine_ok en -> engine_ok (set_broker b' en).
Proof.
  intros [Hq Hr Hc Hcf Hs Ho Hw Hp] Hb [_ Hop Hcfg Hh Hwf Hg Hl].
  split; simpl; rewrite ?Hq, ?Hr, ?Hc, ?Hcf, ?Hs; try done.
  - intros p r Hpr. destruct (Hwf p r Hpr) as (Hwfr & ? & ? & ?). split_and!; try done.
    refine (rt_wf_world r _ _ Hw _ _ _ Hwfr); rewrite ?Hs, ?Ho; done.
  - intros n p r Hn Hpr. unfold pending_of. rewrite Hp. by apply (Hl n p r).
Qed.

End EngineInv.
