(* ===== verification/EngineCalls.v ===== *)
(** Every call of the broker's interface keeps the invariant of the engine. *)

From S2P Require Import Prelude GoStrings Model RingBuffer Inflight Exchange Wal QueueRuntime.
From S2P Require Import System QueueSpec QueueInv RoundRobin QueueRefine QueueDeliver.
From S2P Require Import Redelivery SystemInv QueueCases Broker Topology BrokerInv Recovery.
From S2P Require Import Frame Engine EngineInv.

Section EngineCalls.
Context {W : Type} `{!WAL W} `{!WALLaws W} {Hrange : MapRange}.
Abbreviation BR := (InMemoryBroker W).
Implicit Types (en : Engine W) (b : BR).

(** ** Methods of one runtime *)

Lemma moved_call p q en r :
  moved p (set_qs q (view p r en)) en (set_broker (put_broker p q (en_broker en)) en).
Proof. by split. Qed.

(** A method of the runtime at [p] that is the event [e] of its queue. *)
Lemma on_runtime_engine {A} p (f : QState RingBufferQueue W -> GoM (A * QState RingBufferQueue W))
    e en a b' :
  on_runtime p f (en_broker en) = Done (a, b') -> engine_ok en ->
  (forall r q, b_runtimes (en_broker en) !! p = Some r ->
     f (mkQState r (b_world (en_broker en))) = Done (a, q) ->
     env_ok e (view p r en) /\ quiet_cancel e (view p r en) /\
     publishes_ok fresh_id e (view p r en) /\
     sys_step e (view p r en) = Some (Done (set_qs q (view p r en)))) ->
  engine_ok (set_broker b' en).
Proof.
  intros Hrun Hok Hf. destruct (on_runtime_inv _ _ _ _ _ Hrun) as (r & q & Hr & Hq & ->).
  destruct (Hf r q Hr Hq) as (He & Hqu & Hp & Hs).
  exact (step_engine_ok _ _ p r e _ Hok Hr He Hqu Hp Hs (moved_call p q en r)).
Qed.

Lemma Broker_Ack_engine tok en err b' :
  Broker_Ack tok (en_broker en) = Done (err, b') -> engine_ok en -> engine_ok (set_broker b' en).
Proof.
  unfold Broker_Ack. intros H Hok. destruct (w_tokenOwners _ !! tok) as [p|].
  - eapply (on_runtime_engine _ _ (EAck tok)); [exact H|done|].
    intros r q _ [= Hq]. split_and!; try done. simpl. unfold lift_qs. simpl. by rewrite Hq.
  - injection H as _ <-. by destruct en.
Qed.

Lemma Broker_Unsubscribe_engine qn id en b' :
  Broker_Unsubscribe qn id (en_broker en) = Done b' -> engine_ok en -> engine_ok (set_broker b' en).
Proof.
  unfold Broker_Unsubscribe. intros H Hok. destruct (broker_queue qn _) as [p|].
  - destruct (on_runtime p _ _) as [[[] b1]| |] eqn:E; simplify_eq/=.
    eapply (on_runtime_engine _ _ (EUnsubscribe id)); [exact E|done|].
    intros r q _ Hq. simpl in Hq. go_inv Hq. split_and!; done.
  - injection H as <-. by destruct en.
Qed.

(** A session object of its own, then [Subscribe]. *)
Lemma alloc_engine l id en :
  w_sessions (b_world (en_broker en)) !! l = None -> engine_ok en ->
  engine_ok (set_broker (broker_alloc l id (en_broker en)) en).
Proof.
  intros Hl [Hb Hop Hcfg Hh Hwf Hg Hlv]. split; simpl; try done.
  - destruct Hb. by split.
  - apply map_Forall_insert_2; [|done]. split; [done|]. simpl. unfold deliveries_cap. lia.
  - intros p r Hr. destruct (Hwf p r Hr) as (Hr1 & ? & ? & ?). split_and!; try done.
    refine (rt_wf_world r _ _ _ _ _ _ Hr1); simpl; try done; [apply Hb|by apply heap_le_alloc|].
    apply map_Forall_insert_2; [|done]. split; [done|]. simpl. unfold deliveries_cap. lia.
Qed.

Lemma Broker_Subscribe_engine qn l id en err b' :
  Broker_Subscribe qn l (broker_alloc l id (en_broker en)) = Done (err, b') ->
  w_sessions (b_world (en_broker en)) !! l = None ->
  (forall p r, b_runtimes (en_broker en) !! p = Some r ->
     Z.of_nat (length (consumerOrder r)) < max_int) ->
  engine_ok en -> engine_ok (set_broker b' en).
Proof.
  unfold Broker_Subscribe. intros H Hl Hlen Hok.
  change (broker_queue qn (broker_alloc l id (en_broker en))) with (broker_queue qn (en_broker en)) in H.
  destruct (broker_queue qn _) as [p|]; [|injection H as _ <-; by apply alloc_engine].
  destruct (on_runtime_inv _ _ _ _ _ H) as (r & q & Hr & Hq & ->). simpl in Hr.
  refine (step_engine_ok en _ p r (ESubscribe l id) (set_qs q (view p r en)) Hok Hr _ _ _ _ _).
  - split; [done|]. by apply (Hlen p).
  - done.
  - done.
  - simpl. unfold lift_qs. change (alloc_session l id _) with
      (mkQState r (b_world (broker_alloc l id (en_broker en)))). by rewrite Hq.
  - by split.
Qed.

Lemma receive_engine l en :
  engine_ok en -> engine_ok (set_broker (broker_receive l (en_broker en)) en).
Proof.
  intros [Hb Hop Hcfg Hh Hwf Hg Hlv].
  assert (map_Forall (fun _ cs => session_ok cs) (w_sessions (b_world
    (broker_receive l (en_broker en))))) as Hh'.
  { intros l' cs. simpl. rewrite lookup_alter. case_decide; [|by apply Hh].
    intros (c & Hc & ->)%fmap_Some. destruct (Hh _ _ Hc) as [? Hlen]. split; [done|]. simpl.
    destruct (Deliveries c); simpl in *; lia. }
  split; simpl; try done; [destruct Hb; by split|].
  intros p r Hr. destruct (Hwf p r Hr) as (Hr1 & ? & ? & ?). split_and!; try done.
  refine (rt_wf_world r _ _ _ _ Hh' _ Hr1); simpl; try done; [apply Hb|by apply heap_le_alter].
Qed.

(** ** [Publish] *)

(** The identifiers a call of [Publish] draws from [i] on: distinct, not empty
    and not in use. *)
Definition fresh_from (i : nat) (newID : nat -> string) (b : BR) : Prop :=
  (forall j, newID j <> "") /\ (forall j k, newID j = newID k -> j = k) /\
  forall j p r, (i <= j)%nat -> b_runtimes b !! p = Some r -> newID j ∉ ID <$> live r.

Lemma Publish_live now id m ttl (s : QState RingBufferQueue W) r s' :
  rt_wf s -> Publish now id m ttl s = Done (r, s') ->
  live (rt s') = live (rt s) \/ live (rt s') ≡ₚ stamp now id m ttl :: live (rt s).
Proof.
  intros Hwf H. destruct (Publish_cases _ _ _ _ _ _ _ H) as [| |e w|w q Hc Hs Ha Hp]; [by left..|].
  right. destruct (push_spec (stamp now id m ttl) _ (wf_queue _ Hwf) (size_full _ Hwf Hs))
    as (q' & Hp' & _ & Hct & _).
  rewrite Hp in Hp'. injection Hp' as <-.
  change (contents q ++ flight_msgs (flight_of <$> deliveries (inFlightManager (rt s)))
    ≡ₚ stamp now id m ttl :: live (rt s)).
  rewrite Hct. unfold live. rewrite <- app_assoc. symmetry. apply Permutation_middle.
Qed.

Lemma stamp_ID now id m ttl : ID m = "" -> ID (stamp now id m ttl) = id.
Proof. intros Hm. simpl. by rewrite bool_decide_true. Qed.

Lemma Publish_resume_live now id m ttl (s : QState RingBufferQueue W) r s' :
  rt_wf s -> Publish_resume now id m ttl s = Done (r, s') ->
  live (rt s') = live (rt s) \/ live (rt s') ≡ₚ stamp now id m ttl :: live (rt s).
Proof.
  intros Hwf H. unfold Publish_resume in H. set (s1 := upd_rt _ s) in H.
  assert (rt_wf s1) as Hwf1 by (destruct Hwf; by split). exact (Publish_live _ _ _ _ _ _ _ Hwf1 H).
Qed.

(** A round uses up one identifier. *)
Lemma fresh_next now newID m ttl i p b x (q : QState RingBufferQueue W) :
  ID m = "" -> fresh_from i newID b -> b_runtimes b !! p = Some x ->
  live (rt q) = live x \/ live (rt q) ≡ₚ stamp now (newID i) m ttl :: live x ->
  fresh_from (S i) newID (put_broker p q b).
Proof.
  intros Hm (Hne & Hinj & Hfr) Hx Hl. split_and!; try done.
  intros j p' r' Hj. simpl. rewrite lookup_insert.
  case_decide as Hp; [|by intros; apply (Hfr j p' r'); [lia|]]. intros [= <-].
  destruct Hl as [->|Hperm]; [by apply (Hfr j p x); [lia|]|].
  rewrite Hperm, fmap_cons, not_elem_of_cons, stamp_ID by done. split.
  - intros ?%Hinj. lia.
  - apply (Hfr j p x); [lia|done].
Qed.

(** One round of the loop. *)
Lemma publish_round now newID m ttl i p en r b1 :
  ID m = "" -> fresh_from i newID (en_broker en) -> engine_ok en ->
  on_runtime p (Publish now (newID i) m ttl) (en_broker en) = Done (r, b1) ->
  engine_ok (set_broker b1 en) /\ fresh_from (S i) newID b1.
Proof.
  intros Hm Hfr Hok H. split.
  - eapply (on_runtime_engine _ _ (EPublish now (newID i) m ttl)); [exact H|done|].
    intros x q Hx Hq. split_and!; try done.
    + simpl. unfold fresh_id. rewrite stamp_ID by done. by apply (proj2 (proj2 Hfr) i p x).
    + simpl. unfold lift_qs. simpl. by rewrite Hq.
  - destruct (on_runtime_inv _ _ _ _ _ H) as (x & q & Hx & Hq & ->).
    destruct (eo_wf _ Hok p x Hx) as (Hwf & _).
    eapply fresh_next; [done|done|done|]. by eapply Publish_live in Hq.
Qed.

Lemma publish_loop_engine now newID m ttl i names en r b' :
  ID m = "" -> fresh_from i newID (en_broker en) -> engine_ok en ->
  publish_loop now newID m ttl i names (en_broker en) = Done (r, b') -> engine_ok (set_broker b' en).
Proof.
  intros Hm. revert i en. induction names as [|n names IH]; intros i en Hfr Hok H; simpl in H.
  { injection H as _ <-. by destruct en. }
  destruct (broker_queue n _) as [p|]; [|injection H as _ <-; by destruct en].
  destruct (on_runtime p _ _) as [[pr b1]| |] eqn:E; simpl in H; try done.
  destruct (publish_round (now i) newID m ttl i p en pr b1 Hm Hfr Hok E) as [Hok1 Hfr1].
  destruct pr as [|[e|]]; try by injection H as _ <-.
  by apply (IH (S i) (set_broker b1 en)).
Qed.

Lemma Broker_Publish_engine now newID xn rk m ttl en r b' :
  ID m = "" -> fresh_from 0 newID (en_broker en) ->
  Broker_Publish now newID xn rk m ttl (en_broker en) = Done (r, b') ->
  engine_ok en -> engine_ok (set_broker b' en).
Proof.
  unfold Broker_Publish. intros Hm Hfr H Hok.
  destruct (b_exchanges _ !! xn) as [ex|]; [|injection H as _ <-; by destruct en].
  destruct (Route ex rk) as [names| |]; simpl in H; try done.
  case_bool_decide; [injection H as _ <-; by destruct en|]. by eapply publish_loop_engine.
Qed.

(** A woken publisher goes on. *)
Lemma resume_round (now : nat -> Z) newID m ttl p en pr b1 :
  ID m = "" -> fresh_from 0 newID (en_broker en) ->
  (forall x, b_runtimes (en_broker en) !! p = Some x -> woken (condProd x) <> 0%nat) ->
  on_runtime p (Publish_resume (now 0%nat) (newID 0%nat) m ttl) (en_broker en) = Done (pr, b1) ->
  engine_ok en -> engine_ok (set_broker b1 en) /\ fresh_from 1 newID b1.
Proof.
  intros Hm Hfr Hwk E Hok. split.
  - eapply (on_runtime_engine _ _ (EResume (now 0%nat) (newID 0%nat) m ttl)); [exact E|done|].
    intros x q Hx Hq. split_and!; try done.
    + simpl. unfold fresh_id. rewrite stamp_ID by done. by apply (proj2 (proj2 Hfr) 0%nat p x).
    + simpl. rewrite bool_decide_false by by apply Hwk. unfold lift_qs. simpl. by rewrite Hq.
  - destruct (on_runtime_inv _ _ _ _ _ E) as (x & q & Hx & Hq & ->).
    destruct (eo_wf _ Hok p x Hx) as (Hwf & _).
    eapply fresh_next; [done|done|done|]. by eapply Publish_resume_live in Hq.
Qed.

Lemma Broker_Publish_resume_engine now newID m ttl p rest en r b' :
  ID m = "" -> fresh_from 0 newID (en_broker en) ->
  (forall x, b_runtimes (en_broker en) !! p = Some x -> woken (condProd x) <> 0%nat) ->
  Broker_Publish_resume now newID m ttl p rest (en_broker en) = Done (r, b') ->
  engine_ok en -> engine_ok (set_broker b' en).
Proof.
  unfold Broker_Publish_resume. intros Hm Hfr Hwk H Hok.
  destruct (on_runtime p _ _) as [[pr b1]| |] eqn:E; simpl in H; try done.
  destruct (resume_round _ _ _ _ _ _ _ _ Hm Hfr Hwk E Hok) as [Hok1 Hfr1].
  destruct pr as [|[e|]]; try by injection H as _ <-.
  by eapply (publish_loop_engine now newID m ttl 1 rest (set_broker b1 en)).
Qed.

(** ** Queues *)

Lemma fresh_runtime_wf cfg n msgs p r (w : World W) :
  fresh_runtime cfg n msgs p r -> wal_ok (w_wal w) ->
  map_Forall (fun _ cs => session_ok cs) (w_sessions w) ->
  (forall tok, w_tokenOwners w !! tok <> Some p) ->
  rt_wf (mkQState r w) /\ tokenHooks r = Some p /\ shut_ok r /\ live r = msgs /\ name r = n /\
  deliveries (inFlightManager r) = ∅.
Proof.
  intros (Hq & Hc & Hr & _) Hw Hs Ho. unfold live. rewrite Hc, Hr. simpl.
  split_and!; try done.
  - split; simpl; try done; [by apply new_cons_wf|].
    intros self [= <-] tok. rewrite lookup_empty. split; [by intros ?%Ho|by intros []].
  - by rewrite fmap_empty, app_nil_r.
Qed.

(** No token leads to a pointer that is not in use. *)
Lemma owner_in_use p b :
  broker_ok b -> b_runtimes b !! p = None -> forall tok, w_tokenOwners (b_world b) !! tok <> Some p.
Proof.
  intros [_ _ [Hn Ho _]] Hp tok Htok. destruct (Ho tok p Htok) as [n Hnp].
  destruct (Hn n p Hnp) as (r & Hr & _). congruence.
Qed.

Lemma dist_at_empty pc r : deliveries (inFlightManager r) = ∅ -> dist_at pc r.
Proof. unfold dist_at. intros ->. by destruct pc. Qed.

Lemma unnamed_not_pending n b :
  broker_ok b -> b_queues b !! n = None -> PendingMessages (logged b) !! n = None.
Proof.
  intros Hb Hn. apply not_elem_of_dom. apply not_elem_of_dom in Hn.
  rewrite (tp_queues _ _ _ _ (bk_topo _ Hb)) in Hn. set_solver.
Qed.

(** The log of a queue record: only that queue's pending messages change. *)
Lemma queue_append_pending t n m b b' :
  t = QueueCreated \/ t = QueueDeleted -> broker_append (rec_queue t n) b = (None, b') ->
  broker_ok b -> m <> n -> pending_of (logged b') m = pending_of (logged b) m.
Proof.
  intros Ht Ha Hb Hne.
  destruct (broker_append_spec _ _ _ _ Ha (bk_wal _ Hb)) as (w & -> & _ & Hl & _).
  { destruct Ht as [-> | ->]; by auto with dsend. }
  unfold logged, pending_of. simpl. rewrite Hl. by rewrite load_record_other_queue.
Qed.

(** A queue more, fresh and empty, under a new name and at a new pointer. *)
Lemma add_queue_engine n p r en b' :
  engine_ok en -> broker_ok b' -> b_queues (en_broker en) !! n = None ->
  b_runtimes (en_broker en) !! p = None -> fresh_runtime (b_cfg (en_broker en)) n [] p r ->
  b_queues b' = <[n := p]> (b_queues (en_broker en)) ->
  b_runtimes b' = <[p := r]> (b_runtimes (en_broker en)) ->
  b_closed b' = false -> b_cfg b' = b_cfg (en_broker en) ->
  w_sessions (b_world b') = w_sessions (b_world (en_broker en)) ->
  w_tokenOwners (b_world b') = w_tokenOwners (b_world (en_broker en)) ->
  pending_of (logged b') n = [] ->
  (forall m, m <> n -> pending_of (logged b') m = pending_of (logged (en_broker en)) m) ->
  engine_ok (set_broker b' en).
Proof.
  intros [Hb Hop Hcfg Hh Hwf Hg Hlv] Hb' Hn Hp Hfr Hqs Hrs Hc Hcf Hse How Hpn Hpo.
  destruct (fresh_runtime_wf _ _ _ _ _ (b_world b') Hfr) as (Hwfr & Hk & Hsh & Hl & _ & Hfl);
    [apply Hb'|by rewrite Hse|rewrite How; by apply owner_in_use|].
  split; simpl; rewrite ?Hqs, ?Hrs, ?Hcf, ?Hse; try done.
  - intros q x. rewrite lookup_insert. case_decide as Hq.
    + intros [= <-]. subst q. split_and!; try done. by apply dist_at_empty.
    + intros Hx. destruct (Hwf q x Hx) as (Hwfx & ? & ? & ?). split_and!; try done.
      refine (rt_wf_world x _ _ (bk_wal _ Hb') _ _ _ Hwfx); rewrite ?Hse, ?How; done.
  - intros q x. rewrite lookup_insert. case_decide as Hq.
    + intros _. right. exists n. subst. by rewrite lookup_insert_eq.
    + intros Hx. destruct (Hg q x Hx) as [|[k Hk']]; [by left|right]. exists k.
      rewrite lookup_insert_ne; [done|]. congruence.
  - intros k q x. rewrite !lookup_insert. case_decide as Hk'.
    + intros [= <-]. rewrite decide_True by done. intros [= <-]. subst k. rewrite Hpn, Hl.
      split; [done|constructor].
    + intros Hq Hx. case_decide as Hqp.
      { subst q. destruct (po_name _ _ _ (bk_ptrs _ Hb) k p Hq) as (? & ? & _). congruence. }
      rewrite Hpo by done. by apply (Hlv k q x).
Qed.

Lemma CreateQueue_engine n en err b' :
  CreateQueue n (en_broker en) = Done (err, b') -> engine_ok en -> engine_ok (set_broker b' en).
Proof.
  intros H Hok. pose proof (CreateQueue_ok n _ _ _ H (eo_broker _ Hok)) as Hb'.
  unfold CreateQueue in H.
  destruct (validateQueueName n); [injection H as _ <-; by destruct en|].
  rewrite (eo_open _ Hok) in H. case_bool_decide as Hn; [injection H as _ <-; by destruct en|].
  apply eq_None_not_Some in Hn. destruct (broker_append _ _) as [e b1] eqn:Ea.
  destruct (broker_append_spec _ _ _ _ Ea (bk_wal _ (eo_broker _ Hok)) ltac:(auto with dsend))
    as (w & Hb1 & Hw & Hl & _). destruct e as [e|].
  { injection H as <- <-. apply exchange_change_engine; [|done|done]. subst b1.
    split; try done. unfold logged. simpl. by rewrite Hl. }
  destruct (newQueueRuntime_spec n [] b1) as (p & r & Hnew & Hp & Hfr);
    [subst b1; apply (eo_cfg _ Hok)|by vm_compute|].
  rewrite Hnew in H. simpl in H.
  assert (forall m, m <> n -> pending_of (logged b1) m = pending_of (logged (en_broker en)) m) as Hpo.
  { intros m Hm. eapply queue_append_pending; [by left|exact Ea|apply Hok|done]. }
  assert (pending_of (logged b1) n = []) as Hpn.
  { subst b1. unfold logged, pending_of. simpl. rewrite Hl. simpl. unfold load_record. simpl.
    rewrite (unnamed_not_pending n _ (eo_broker _ Hok) Hn). simpl. by rewrite lookup_insert_eq. }
  assert (logged b' = logged b1) as Hlog by (injection H as _ <-; by destruct (b_started b1)).
  rewrite <- Hlog in Hpo, Hpn. clear Hlog. subst b1.
  apply (add_queue_engine n p r); try done; injection H as _ <-; destruct (b_started _); try done;
    apply (eo_open _ Hok).
Qed.

(** The loop of [DeleteQueue] and the rest of the deletion, once the queue is
    closed and empty. *)
Lemma remove_queue_engine n p r en b' :
  engine_ok en -> broker_ok b' -> b_queues (en_broker en) !! n = Some p ->
  b_runtimes (en_broker en) !! p = Some r -> gone r ->
  b_queues b' = delete n (b_queues (en_broker en)) -> b_runtimes b' = b_runtimes (en_broker en) ->
  b_closed b' = false -> b_cfg b' = b_cfg (en_broker en) ->
  w_sessions (b_world b') = w_sessions (b_world (en_broker en)) ->
  w_tokenOwners (b_world b') =
    filter (fun e => e.2 <> p) (w_tokenOwners (b_world (en_broker en))) ->
  (forall m, m <> n -> pending_of (logged b') m = pending_of (logged (en_broker en)) m) ->
  engine_ok (set_broker b' en).
Proof.
  intros [Hb Hop Hcfg Hh Hwf Hg Hlv] Hb' Hn Hr Hgone Hqs Hrs Hc Hcf Hse How Hpo.
  split; simpl; rewrite ?Hqs, ?Hrs, ?Hcf, ?Hse; try done.
  - intros q x Hx. destruct (Hwf q x Hx) as (Hwfx & Hk & ? & ?). split_and!; try done.
    refine (rt_wf_world x _ _ (bk_wal _ Hb') _ _ _ Hwfx); rewrite ?Hse, ?How; try done.
    intros tok q'. rewrite Hk. intros [= <-]. rewrite map_lookup_filter_Some. simpl.
    split; [by intros []|]. intros Ho. split; [done|]. intros ->.
    apply (wf_tok _ Hwfx p Hk) in Ho. simpl in Ho.
    assert (x = r) as -> by congruence. destruct Hgone as (_ & _ & Hf). rewrite Hf in Ho.
    by destruct Ho.
  - intros q x Hx. destruct (Hg q x Hx) as [|[k Hk]]; [by left|].
    destruct (decide (k = n)) as [->|Hne]; [left; congruence|right].
    exists k. by rewrite lookup_delete_ne.
  - intros k q x. rewrite lookup_delete. case_decide; [done|]. intros Hq Hx.
    rewrite Hpo by done. by apply (Hlv k q x).
Qed.

(** Closing a runtime that has no consumers touches nothing but the runtime. *)
Definition reclosed (r : QueueRuntime RingBufferQueue) : QueueRuntime RingBufferQueue :=
  set_condProd (Broadcast (condProd r))
    (set_nextConsumer 0 (set_consumerOrder [] (set_consumerSessions ∅ (set_closed true r)))).

Lemma close_again (s : QState RingBufferQueue W) :
  consumerSessions (rt s) = ∅ -> Shutdown s = Done (mkQState (reclosed (rt s)) (wd s)).
Proof.
  intros Hc. unfold Shutdown, close_runtime. simpl. rewrite Hc, map_to_list_empty. simpl.
  by destruct s as [r [w h o]].
Qed.

Lemma CloseIfEmpty_gone (s s' : QState RingBufferQueue W) :
  rt_wf s -> CloseIfEmpty s = Done (true, s') ->
  gone (rt s') /\ consumerSessions (rt s') = ∅ /\
  wal_log (w_wal (wd s')) = wal_log (w_wal (wd s)).
Proof.
  intros Hwf H. destruct (CloseIfEmpty_effect s true s' H) as (_ & Hc & Hl).
  unfold CloseIfEmpty in H.
  destruct (bool_decide (Size (queue (rt s)) <> 0)) eqn:Es; [done|].
  destruct (bool_decide (mgr_Size (inFlightManager (rt s)) <> 0)) eqn:Ef; [done|]. simpl in H.
  apply bool_decide_eq_false, dec_stable in Es, Ef.
  rewrite (size_contents _ (wf_queue _ Hwf)) in Es.
  assert (contents (queue (rt s)) = []) as Hnil by (apply length_zero_iff_nil; lia). clear Es.
  destruct (close_runtime s) as [s1| |] eqn:E; simplify_eq/=.
  split_and!; [split_and!; [by apply Hc| |]|by apply (close_frame s)|done].
  - unfold close_runtime in E. go_inv E. done.
  - rewrite (close_flight _ _ E). unfold mgr_Size in Ef.
    apply map_size_empty_inv. lia.
Qed.

Lemma DeleteQueue_engine n en err b' :
  DeleteQueue n (en_broker en) = Done (err, b') -> storage_error err = false ->
  engine_ok en -> engine_ok (set_broker b' en).
Proof.
  intros H Hs Hok. pose proof (DeleteQueue_ok n _ _ _ H Hs (eo_broker _ Hok)) as Hb'.
  unfold DeleteQueue in H. case_bool_decide; [injection H as _ <-; by destruct en|].
  destruct (b_queues (en_broker en) !! n) as [p|] eqn:En; [|injection H as _ <-; by destruct en].
  destruct (on_runtime p CloseIfEmpty _) as [[emptied b1]| |] eqn:Ec; simpl in H; try done.
  assert (engine_ok (set_broker b1 en)) as Hok1.
  { eapply (on_runtime_engine _ _ ECloseIfEmpty); [exact Ec|done|].
    intros r q _ Hq. split_and!; try done. simpl. unfold lift_qs. simpl. by rewrite Hq. }
  destruct emptied; simpl in H; [|by injection H as _ <-].
  destruct (on_runtime_inv _ _ _ _ _ Ec) as (r & q & Hr & Hq & Hb1).
  destruct (CloseIfEmpty_gone _ _ (proj1 (eo_wf _ Hok p r Hr)) Hq) as (Hg & Hcs & _).
  set (en1 := set_broker b1 en) in *.
  assert (b_runtimes b1 !! p = Some (rt q)) as Hr1 by (subst b1; simpl; apply lookup_insert_eq).
  assert (b_queues b1 !! n = Some p) as Hn1 by by subst b1.
  clear Ec Hb1 Hq Hr En.
  (* the runtime shut down once more *)
  set (b2 := put_broker p (mkQState (reclosed (rt q)) (b_world b1)) b1).
  assert (engine_ok (set_broker b2 en)) as Hok2.
  { refine (step_engine_ok en1 _ p (rt q) EShutdown
      (set_qs (mkQState (reclosed (rt q)) (b_world b1)) (view p (rt q) en1)) Hok1 Hr1 I I I _ _).
    - simpl. unfold lift_qs. by rewrite close_again.
    - by split. }
  (* the record, the bindings and the tokens *)
  destruct (broker_append _ b1) as [[e|] b3] eqn:Ea.
  { destruct (broker_append_spec _ _ _ _ Ea (bk_wal _ (eo_broker _ Hok1)) ltac:(auto with dsend))
      as (w & _ & _ & _ & Herr). injection H as <- _. by rewrite (Herr e eq_refl) in Hs. }
  destruct (broker_append_spec _ _ _ _ Ea (bk_wal _ (eo_broker _ Hok1)) ltac:(auto with dsend))
    as (w & Hb3 & Hw3 & Hl3 & _).
  destruct (unbind_all _ n _) as [err4 b4] eqn:Eu.
  assert (err4 = None) as ->.
  { eapply (unbind_all_spec (dom (b_queues b1))); [exact Eu| | | | |]; subst b3; simpl; try done.
    - destruct err4; [|done]. by injection H as <- _.
    - intros k e Hk. apply elem_of_map_to_list. by rewrite <- range_perm.
    - rewrite range_perm. apply NoDup_fst_map_to_list.
    - unfold logged. simpl. rewrite Hl3. apply topo_queue_deleted; [done|].
      apply (eo_broker _ Hok1). }
  apply unbind_all_change in Eu; [|by subst b3].
  destruct Eu as [Q4 R4 C4 F4 S4 O4 W4 P4].
  destruct (on_runtime p _ b4) as [[[] b5]| |] eqn:Esd; simpl in H; try done.
  destruct (on_runtime_inv _ _ _ _ _ Esd) as (r4 & q4 & Hr4 & Hq4 & ->).
  assert (r4 = rt q) as -> by (rewrite R4 in Hr4; subst b3; simpl in Hr4; congruence).
  simpl in Hq4. rewrite close_again in Hq4 by done. simpl in Hq4. injection Hq4 as <-.
  injection H as <- <-. rewrite Hb3 in Q4, R4, C4, F4, S4, O4. simpl in *.
  refine (remove_queue_engine n p (reclosed (rt q)) (set_broker b2 en) _ Hok2 Hb' Hn1 _ _ _ _ _ _ _ _ _);
    simpl; try done.
  - apply lookup_insert_eq.
  - by destruct Hg as (_ & ? & ?).
  - by rewrite R4.
  - rewrite C4. apply (eo_open _ Hok1).
  - by rewrite O4.
  - intros m Hm. transitivity (pending_of (logged b4) m); [done|]. unfold pending_of. rewrite P4.
    change (pending_of (logged b3) m = pending_of (logged b1) m).
    eapply queue_append_pending; [by right|exact Ea|apply Hok1|done].
Qed.

End EngineCalls.
