(* ===== verification/EngineTheorems.v ===== *)
(** What the engine guarantees as a whole: all calls and all goroutine steps
    return without a panic, the log replays to exactly the undelivered and
    unacknowledged messages of every queue at every moment, and a token leads to
    the one queue that has it in flight. *)

From stdpp Require Import pretty.
From S2P Require Import Prelude GoStrings Model RingBuffer Inflight Exchange Wal QueueRuntime.
From S2P Require Import System QueueSpec QueueInv RoundRobin QueueRefine QueueDeliver.
From S2P Require Import Redelivery SystemInv QueueCases Broker Topology BrokerInv Recovery.
From S2P Require Import BrokerTheorems Frame Engine EngineInv EngineCalls.

Section EngineTheorems.
Context {W : Type} `{!WAL W} `{!WALLaws W} {Hrange : MapRange}.
Abbreviation BR := (InMemoryBroker W).
Implicit Types (en : Engine W) (b : BR).

(** ** Runs *)

(** A call by a connection or by [runServer]. Identifiers drawn by [Publish] are
    new, clients leave the identifier of a message to the broker, a new session
    has a new pointer, and the three calls that change memory before they log
    report no storage error. *)
Inductive broker_call (b b' : BR) : Prop :=
| bc_CreateQueue n err : CreateQueue n b = Done (err, b') -> broker_call b b'
| bc_DeleteQueue n err :
    DeleteQueue n b = Done (err, b') -> storage_error err = false -> broker_call b b'
| bc_BindQueue e q k err :
    BindQueue e q k b = (err, b') -> storage_error err = false -> broker_call b b'
| bc_UnbindQueue e q k err :
    UnbindQueue e q k b = (err, b') -> storage_error err = false -> broker_call b b'
| bc_CreateExchange e t err : CreateExchange e t b = (err, b') -> broker_call b b'
| bc_DeleteExchange e err : DeleteExchange e b = (err, b') -> broker_call b b'
| bc_Publish now newID e rk m ttl r :
    ID m = "" -> fresh_from 0 newID b ->
    Broker_Publish now newID e rk m ttl b = Done (r, b') -> broker_call b b'
| bc_Resume now newID m ttl p rest r :
    ID m = "" -> fresh_from 0 newID b ->
    (forall x, b_runtimes b !! p = Some x -> woken (condProd x) <> 0%nat) ->
    Broker_Publish_resume now newID m ttl p rest b = Done (r, b') -> broker_call b b'
| bc_Subscribe q l id err :
    w_sessions (b_world b) !! l = None ->
    (forall p r, b_runtimes b !! p = Some r -> Z.of_nat (length (consumerOrder r)) < max_int) ->
    Broker_Subscribe q l (broker_alloc l id b) = Done (err, b') -> broker_call b b'
| bc_Unsubscribe q id : Broker_Unsubscribe q id b = Done b' -> broker_call b b'
| bc_Ack tok err : Broker_Ack tok b = Done (err, b') -> broker_call b b'
| bc_Receive l : b' = broker_receive l b -> broker_call b b'
| bc_Start : b' = Broker_Start b -> broker_call b b'
| bc_Cancel : b' = cancel_context b -> broker_call b b'.

(** A step of the engine: of a goroutine of some queue, or a call. *)
Inductive engine_step (en en' : Engine W) : Prop :=
| es_queue p e :
    (forall r, b_runtimes (en_broker en) !! p = Some r ->
       env_ok e (view p r en) /\ quiet_cancel e (view p r en)) ->
    queue_step p e en = Some (Done en') -> engine_step en en'
| es_call b' : broker_call (en_broker en) b' -> en' = set_broker b' en -> engine_step en en'.

Lemma Broker_Start_change b : wal_ok (w_wal (b_world b)) -> exchange_change b (Broker_Start b).
Proof.
  intros Hw. unfold Broker_Start. case_match; [by apply exchange_change_refl|].
  assert (forall ps b1, exchange_change b b1 ->
    exchange_change b (foldl (fun b p => startQueue p b) b1 ps)) as Hf; [|apply Hf; by split].
  induction ps as [|p ps IH]; intros b1 H1; simpl; [done|]. apply IH. by destruct H1.
Qed.

Lemma broker_call_engine en b' :
  engine_ok en -> broker_call (en_broker en) b' -> engine_ok (set_broker b' en).
Proof.
  intros Hok Hc. pose proof (eo_broker _ Hok) as Hb. pose proof (bk_wal _ Hb) as Hw. destruct Hc.
  - by eapply CreateQueue_engine.
  - by eapply DeleteQueue_engine.
  - apply exchange_change_engine; [by eapply BindQueue_change|by eapply BindQueue_ok|done].
  - apply exchange_change_engine; [by eapply UnbindQueue_change|by eapply UnbindQueue_ok|done].
  - apply exchange_change_engine; [by eapply CreateExchange_change|by eapply CreateExchange_ok|done].
  - apply exchange_change_engine; [by eapply DeleteExchange_change|by eapply DeleteExchange_ok|done].
  - by eapply Broker_Publish_engine.
  - by eapply Broker_Publish_resume_engine.
  - by eapply Broker_Subscribe_engine.
  - by eapply Broker_Unsubscribe_engine.
  - by eapply Broker_Ack_engine.
  - subst. by apply receive_engine.
  - subst. apply exchange_change_engine; [by apply Broker_Start_change|by apply Broker_Start_ok|done].
  - subst. apply exchange_change_engine; [by split|by destruct Hb|done].
Qed.

Lemma not_call_publishes policy e (s : Sys RingBufferQueue W) :
  is_call e = false -> publishes_ok policy e s.
Proof. by destruct e. Qed.

Lemma queue_step_engine p e en en' :
  engine_ok en ->
  (forall r, b_runtimes (en_broker en) !! p = Some r ->
     env_ok e (view p r en) /\ quiet_cancel e (view p r en)) ->
  queue_step p e en = Some (Done en') -> engine_ok en'.
Proof.
  unfold queue_step. intros Hok He H. destruct (is_call e) eqn:Ec; [done|].
  case_bool_decide; [|done]. simpl in H.
  destruct (b_runtimes (en_broker en) !! p) as [r|] eqn:Hr; [|done].
  destruct (He r eq_refl) as [Henv Hq].
  destruct (sys_step e (view p r en)) as [[s'| |]|] eqn:Es; simplify_eq/=.
  refine (step_engine_ok en _ p r e s' Hok Hr Henv Hq (not_call_publishes _ _ _ Ec) Es _).
  split; simpl; try done; unfold procs_of.
  - by rewrite lookup_insert_eq.
  - intros q Hne. by rewrite lookup_insert_ne.
Qed.

Lemma engine_step_ok en en' : engine_ok en -> engine_step en en' -> engine_ok en'.
Proof.
  intros Hok [p e He Hs|b' Hc ->]; [by eapply queue_step_engine|by apply broker_call_engine].
Qed.

Lemma engine_run_ok en en' : engine_ok en -> rtc engine_step en en' -> engine_ok en'.
Proof. intros Hok Hr. induction Hr; eauto using engine_step_ok. Qed.

(** ** The engine after [NewBroker] *)

(** A broker that has only made runtimes so far. *)
Record starting (cfg : Config) (sessions : gmap nat ConsumerSession) (b : BR) : Prop := {
  st_closed : b_closed b = false;
  st_cfg : b_cfg b = cfg;
  st_sessions : w_sessions (b_world b) = sessions;
  st_owners : w_tokenOwners (b_world b) = ∅;
  st_wal : wal_ok (w_wal (b_world b));
  st_open : map_Forall (fun _ r => closed r = false) (b_runtimes b);
  st_idle : map_Forall (fun _ r => consumerSessions r = ∅) (b_runtimes b);
}.

Lemma starting_new cfg sessions n msgs b p b' :
  0 <= QueueSize cfg <= max_int -> Z.of_nat (length msgs) <= max_int ->
  starting cfg sessions b -> newQueueRuntime n msgs b = Done (p, b') ->
  starting cfg sessions (set_b_queues (<[n := p]> (b_queues b')) b').
Proof.
  intros Hs Hm [Hc Hf Hse Ho Hw Hop Hid] H.
  destruct (newQueueRuntime_spec n msgs b) as (p' & r & Hrun & _ & (_ & _ & Hr & _)); [by rewrite Hf|done|].
  rewrite H in Hrun. injection Hrun as <- ->. split; try done; simpl;
    (apply map_Forall_insert_2; [by rewrite Hr|done]).
Qed.

Lemma starting_queues cfg sessions entries b b' :
  0 <= QueueSize cfg <= max_int ->
  Forall (fun e => Z.of_nat (length e.2) <= max_int) entries ->
  starting cfg sessions b -> recover_queues entries b = Done b' -> starting cfg sessions b'.
Proof.
  intros Hs Hl. revert b. induction Hl as [|[n msgs] entries Hm _ IH]; intros b Hst H; simpl in H.
  { by injection H as <-. }
  destruct (newQueueRuntime n msgs b) as [[p b1]| |] eqn:E; simpl in H; try done.
  apply (IH _ (starting_new _ _ _ _ _ _ _ Hs Hm Hst E) H).
Qed.

Lemma starting_change cfg sessions b b' :
  exchange_change b b' -> starting cfg sessions b -> starting cfg sessions b'.
Proof.
  intros [Hq Hr Hc Hcf Hs Ho Hw Hp] []. split; rewrite ?Hr, ?Hc, ?Hcf, ?Hs, ?Ho; done.
Qed.

Lemma recover_bindings_change e bs b err b' :
  recover_bindings e bs b = (err, b') -> wal_ok (w_wal (b_world b)) -> exchange_change b b'.
Proof.
  revert b. induction bs as [|x bs IH]; intros b H Hw; simpl in H.
  { injection H as _ <-. by apply exchange_change_refl. }
  destruct (BindQueue _ _ _ b) as [[er|] b1] eqn:E; apply BindQueue_change in E; try done.
  - by injection H as _ <-.
  - eapply exchange_change_trans; [done|]. apply IH; [done|]. apply E.
Qed.

Lemma recover_exchanges_change entries b err b' :
  recover_exchanges entries b = (err, b') -> wal_ok (w_wal (b_world b)) -> exchange_change b b'.
Proof.
  revert b. induction entries as [|[n es] entries IH]; intros b H Hw; simpl in H.
  { injection H as _ <-. by apply exchange_change_refl. }
  destruct (CreateExchange _ _ b) as [[er|] b1] eqn:E; apply CreateExchange_change in E; try done.
  { by injection H as _ <-. }
  eapply exchange_change_trans; [done|].
  destruct (recover_bindings _ _ b1) as [[er|] b2] eqn:E2;
    apply recover_bindings_change in E2; try apply E.
  - by injection H as _ <-.
  - eapply exchange_change_trans; [done|]. apply IH; [done|]. apply E2.
Qed.

Lemma NewBroker_starting cfg w sessions b :
  wal_ok w -> 0 <= QueueSize cfg <= max_int ->
  map_Forall (fun _ msgs => Z.of_nat (length msgs) <= max_int)
    (PendingMessages (replay (wal_log w))) ->
  NewBroker cfg w sessions = Done (Some b, None) -> starting cfg sessions b.
Proof.
  intros Hw Hs Hm H. unfold NewBroker in H. rewrite (load_ok w Hw) in H.
  assert (starting cfg sessions (NewInMemoryBroker cfg w sessions)) as H0 by by split.
  destruct (recover_queues _ _) as [b1| |] eqn:E1; simpl in H; try done.
  assert (starting cfg sessions b1) as H1.
  { eapply starting_queues; [done| |exact H0|exact E1]. apply Forall_forall. intros [n msgs] Hin.
    rewrite range_perm in Hin. apply elem_of_map_to_list in Hin. by apply (Hm n). }
  destruct (recover_default b1) as [b2| |] eqn:E2; simpl in H; try done.
  assert (starting cfg sessions b2) as H2.
  { unfold recover_default in E2. destruct (b_queues b1 !! _); [by injection E2 as <-|].
    destruct (newQueueRuntime _ _ b1) as [[p b3]| |] eqn:E; simpl in E2; try done.
    injection E2 as <-. eapply starting_new; [done| |done|exact E]. by vm_compute. }
  destruct (recover_exchanges _ b2) as [[e|] b3] eqn:E3; [done|].
  apply recover_exchanges_change in E3; [|apply H2].
  apply (starting_change _ _ _ _ E3) in H2. 
  destruct (BindQueue _ _ _ b3) as [err4 b4] eqn:E4. apply BindQueue_change in E4; [|apply H2].
  apply (starting_change _ _ _ _ E4) in H2.
  destruct err4 as [e|]; [destruct e; try done|]; by injection H as <-.
Qed.

(** The identifiers of the messages a log leaves pending are distinct in every
    queue. *)
Definition pending_unique (st : RecoveredState) : Prop :=
  map_Forall (fun _ msgs => NoDup (ID <$> msgs)) (PendingMessages st).

Lemma NewBroker_engine queues ex cfg w sessions b :
  wal_ok w -> topo (dom queues) queues ex (replay (wal_log w)) ->
  0 <= QueueSize cfg <= max_int ->
  map_Forall (fun _ msgs => Z.of_nat (length msgs) <= max_int)
    (PendingMessages (replay (wal_log w))) ->
  pending_unique (replay (wal_log w)) ->
  map_Forall (fun _ cs => session_ok cs) sessions ->
  NewBroker cfg w sessions = Done (Some b, None) -> engine_ok (mkEngine b ∅).
Proof.
  intros Hw Ht Hs Hm Hu Hses Hnew.
  destruct (NewBroker_starting cfg w sessions b Hw Hs Hm Hnew) as [Hc Hcf Hse Ho _ Hop _].
  destruct (NewBroker_spec queues ex cfg w sessions Hw Ht Hs Hm) as (ob & err & Hn & Hrs).
  rewrite Hnew in Hn. injection Hn as <- <-. destruct (Hrs eq_refl) as (b0 & [= <-] & _ & [Hb Hq Hmsg _ _ Hl]).
  assert (forall n p r, b_queues b !! n = Some p -> b_runtimes b !! p = Some r ->
    fresh_runtime (b_cfg b) n (pending_of (replay (wal_log w)) n) p r) as Hfresh.
  { intros n p r Hn Hr. destruct (Hmsg n) as (p' & r' & Hp' & Hr' & Hf).
    { rewrite <- Hq. by apply elem_of_dom_2 in Hn. }
    congruence. }
  assert (forall p r, b_runtimes b !! p = Some r -> exists n, b_queues b !! n = Some p) as Hnamed.
  { intros p r Hr. destruct (po_gone _ _ _ (bk_ptrs _ Hb) p r Hr) as [Hcl|]; [|done].
    by rewrite (Hop p r Hr) in Hcl. }
  split; simpl; try done; rewrite ?Hcf, ?Hse; try done.
  - intros p r Hr. destruct (Hnamed p r Hr) as [n Hn].
    destruct (fresh_runtime_wf _ _ _ _ _ (b_world b) (Hfresh n p r Hn Hr)) as (H1 & H2 & H3 & _ & _ & Hf);
      [apply Hb|by rewrite Hse|intros tok; by rewrite Ho|]. split_and!; auto using dist_at_empty.
  - intros p r Hr. right. by apply (Hnamed p r).
  - intros n p r Hn Hr.
    destruct (fresh_runtime_wf _ _ _ _ _ (b_world b) (Hfresh n p r Hn Hr)) as (_ & _ & _ & -> & _ & _);
      [apply Hb|by rewrite Hse|intros tok; by rewrite Ho|]. rewrite Hl. split; [done|].
    unfold pending_of. destruct (PendingMessages _ !! n) eqn:E; simpl; [by apply (Hu n)|constructor].
Qed.

(** The engine of a broker that [NewBroker] has just made of a good log: one
    that follows some topology, with distinct identifiers pending and room for
    the pending messages. *)
Definition fresh_engine (en : Engine W) : Prop :=
  exists cfg w sessions (b : BR) queues ex,
    wal_ok w /\ topo (dom queues) queues ex (replay (wal_log w)) /\
    0 <= QueueSize cfg <= max_int /\
    map_Forall (fun _ msgs => Z.of_nat (length msgs) <= max_int)
      (PendingMessages (replay (wal_log w))) /\
    pending_unique (replay (wal_log w)) /\
    map_Forall (fun _ cs => session_ok cs) sessions /\
    NewBroker cfg w sessions = Done (Some b, None) /\ en = mkEngine b ∅.

(** An engine that some run leads to: calls and goroutines have made any number
    of steps since. *)
Definition reachable (en : Engine W) : Prop :=
  exists en0, fresh_engine en0 /\ rtc engine_step en0 en.

Lemma fresh_engine_ok en : fresh_engine en -> engine_ok en.
Proof.
  intros (cfg & w & sessions & b & queues & ex & Hw & Ht & Hs & Hm & Hu & Hses & Hnew & ->).
  by eapply NewBroker_engine.
Qed.

Lemma fresh_engine_idle en :
  fresh_engine en -> map_Forall (fun _ r => consumerSessions r = ∅) (b_runtimes (en_broker en)).
Proof.
  intros (cfg & w & sessions & b & queues & ex & Hw & Ht & Hs & Hm & Hu & Hses & Hnew & ->).
  by eapply st_idle, NewBroker_starting.
Qed.

Lemma reachable_ok en : reachable en -> engine_ok en.
Proof. intros (en0 & H0 & Hrun). eapply engine_run_ok; [by apply fresh_engine_ok|done]. Qed.

(** ** The theorems *)

(** [NewBroker] on the log of an engine with its invariant. *)
Lemma engine_ok_recovers en cfg sessions :
  engine_ok en -> 0 <= QueueSize cfg <= max_int ->
  map_Forall (fun _ msgs => Z.of_nat (length msgs) <= max_int)
    (PendingMessages (logged (en_broker en))) ->
  exists ob err, NewBroker cfg (w_wal (b_world (en_broker en))) sessions = Done (ob, err) /\
    (storage_error err = false ->
     exists b', ob = Some b' /\ err = None /\ dom (b_queues b') = dom (b_queues (en_broker en)) /\
       forall n p r, b_queues (en_broker en) !! n = Some p ->
         b_runtimes (en_broker en) !! p = Some r ->
         exists p' r', b_queues b' !! n = Some p' /\ b_runtimes b' !! p' = Some r' /\
           contents (queue r') ≡ₚ live r /\ NoDup (ID <$> contents (queue r'))).
Proof.
  intros Hok Hs Hm.
  destruct (eo_broker _ Hok) as [Hw Ht _].
  destruct (NewBroker_spec _ _ cfg _ sessions Hw Ht Hs Hm) as (ob & err & Hn & Hrs).
  exists ob, err. split; [done|]. intros He. destruct (Hrs He) as (b' & -> & -> & [_ Hq Hmsg _ _ _]).
  exists b'. split_and!; try done. intros n p r Hnp Hr.
  destruct (Hmsg n) as (p' & r' & Hp' & Hr' & (_ & Hc & _)); [by apply elem_of_dom_2 in Hnp|].
  exists p', r'. split_and!; try done; destruct (eo_live _ Hok n p r Hnp Hr) as [Hl Hnd];
    rewrite Hc; [exact Hl|]. unfold logged in Hl. by rewrite Hl.
Qed.

(** C1: Crash recovery of the whole broker, with all its queues, connections and
    goroutines, in the runs [reachable] admits: a failed append leaves no record
    (the laws of the log), publishers leave the identifier to the broker, which
    draws fresh ones, [DeleteQueue], [BindQueue] and [UnbindQueue] meet no storage
    error, and no distributor cancels a reservation whose token is gone or whose
    queue is full ([quiet_cancel]). At any moment of such a run between two steps,
    a call of the broker being one step (a crash inside [DeleteQueue] or inside
    recovery is another matter, [cut_delete_blocks_restart] and
    [cut_recovery_loses_bindings]), starting [NewBroker] on the log as it is at
    that moment, with a [QueueSize] that is not negative and at most [2^63 - 1]
    messages pending per queue, returns without a panic, and unless the log fails
    during recovery gives a broker with the same queues, each
    holding exactly the messages that queue had ready or in flight, no message
    lost and none twice. Without the conditions it fails:
    [sync_error_keeps_record], [same_id_lost_on_restart],
    [failed_bind_still_routes] and [cancel_overflows_ring] are runs of the code. *)
Theorem engine_crash_recovery en cfg sessions :
  reachable en -> 0 <= QueueSize cfg <= max_int ->
  map_Forall (fun _ msgs => Z.of_nat (length msgs) <= max_int)
    (PendingMessages (logged (en_broker en))) ->
  exists ob err, NewBroker cfg (w_wal (b_world (en_broker en))) sessions = Done (ob, err) /\
    (storage_error err = false ->
     exists b', ob = Some b' /\ err = None /\ dom (b_queues b') = dom (b_queues (en_broker en)) /\
       forall n p r, b_queues (en_broker en) !! n = Some p ->
         b_runtimes (en_broker en) !! p = Some r ->
         exists p' r', b_queues b' !! n = Some p' /\ b_runtimes b' !! p' = Some r' /\
           contents (queue r') ≡ₚ live r /\ NoDup (ID <$> contents (queue r'))).
Proof. intros Hre. by apply engine_ok_recovers, reachable_ok. Qed.

(** C30: A token is in flight in exactly one queue, the one the token table names:
    two queues never share a token, and a token the table knows is in flight. *)
Theorem engine_tokens_routed en tok p :
  reachable en ->
  w_tokenOwners (b_world (en_broker en)) !! tok = Some p <->
  exists n r im, b_queues (en_broker en) !! n = Some p /\ b_runtimes (en_broker en) !! p = Some r /\
    deliveries (inFlightManager r) !! tok = Some im.
Proof.
  intros Hre. pose proof (reachable_ok _ Hre) as Hok. destruct (eo_broker _ Hok) as [_ _ [Hn Ho _]].
  split.
  - intros Htok. destruct (Ho tok p Htok) as [n Hnp]. destruct (Hn n p Hnp) as (r & Hr & _).
    destruct (eo_wf _ Hok p r Hr) as ([_ _ _ Ht] & Hk & _).
    destruct (proj1 (Ht p Hk tok) Htok) as [im Him]. by exists n, r, im.
  - intros (n & r & im & _ & Hr & Him). destruct (eo_wf _ Hok p r Hr) as ([_ _ _ Ht] & Hk & _).
    apply (Ht p Hk tok). by eexists.
Qed.

(** ** Calls return *)

Definition returns {A} (c : GoM A) : Prop := exists x, c = Done x.

Lemma on_runtime_returns {A} p (f : QState RingBufferQueue W -> GoM (A * QState RingBufferQueue W)) b r :
  b_runtimes b !! p = Some r -> returns (f (mkQState r (b_world b))) -> returns (on_runtime p f b).
Proof.
  intros Hr [[a q] Hf]. unfold on_runtime. rewrite Hr, Hf. by eexists.
Qed.

Lemma named_runtime en n p :
  engine_ok en -> b_queues (en_broker en) !! n = Some p ->
  exists r, b_runtimes (en_broker en) !! p = Some r /\ rt_wf (mkQState r (b_world (en_broker en))).
Proof.
  intros Hok Hn. destruct (po_name _ _ _ (bk_ptrs _ (eo_broker _ Hok)) n p Hn) as (r & Hr & _).
  exists r. split; [done|]. apply (eo_wf _ Hok p r Hr).
Qed.

Lemma Broker_Ack_returns tok en : engine_ok en -> returns (Broker_Ack tok (en_broker en)).
Proof.
  intros Hok. unfold Broker_Ack. destruct (w_tokenOwners _ !! tok) as [p|] eqn:E; [|by eexists].
  destruct (po_owner _ _ _ (bk_ptrs _ (eo_broker _ Hok)) tok p E) as [n Hn].
  destruct (named_runtime en n p Hok Hn) as (r & Hr & _).
  eapply on_runtime_returns; [done|]. simpl. destruct (Ack tok _). by eexists.
Qed.

Lemma Broker_Unsubscribe_returns q id en : engine_ok en -> returns (Broker_Unsubscribe q id (en_broker en)).
Proof.
  intros Hok. unfold Broker_Unsubscribe. destruct (broker_queue q _) as [p|] eqn:E; [|by eexists].
  destruct (broker_queue_inl _ _ _ E) as [n Hn]. destruct (named_runtime en n p Hok Hn) as (r & Hr & Hwf).
  destruct (Unsubscribe_sim (policy:=any_message) id _ Hwf) as (s' & Hs & _).
  unfold on_runtime. rewrite Hr. simpl. rewrite Hs. by eexists.
Qed.

Lemma Broker_Subscribe_returns q l id en :
  engine_ok en -> w_sessions (b_world (en_broker en)) !! l = None ->
  (forall p r, b_runtimes (en_broker en) !! p = Some r -> Z.of_nat (length (consumerOrder r)) < max_int) ->
  returns (Broker_Subscribe q l (broker_alloc l id (en_broker en))).
Proof.
  intros Hok Hl Hlen. unfold Broker_Subscribe.
  change (broker_queue q (broker_alloc l id (en_broker en))) with (broker_queue q (en_broker en)).
  destruct (broker_queue q _) as [p|] eqn:E; [|by eexists].
  destruct (broker_queue_inl _ _ _ E) as [n Hn]. destruct (named_runtime en n p Hok Hn) as (r & Hr & Hwf).
  destruct (Subscribe_sim (policy:=any_message) l id _ Hwf Hl (Hlen p r Hr)) as (err & s' & Hs & _).
  eapply on_runtime_returns; [exact Hr|]. by exists (err, s').
Qed.

Lemma publish_loop_returns now newID m ttl i names en :
  ID m = "" -> fresh_from i newID (en_broker en) -> engine_ok en ->
  returns (publish_loop now newID m ttl i names (en_broker en)).
Proof.
  intros Hm. revert i en. induction names as [|n names IH]; intros i en Hfr Hok; simpl; [by eexists|].
  destruct (broker_queue n _) as [p|] eqn:E; [|by eexists].
  destruct (broker_queue_inl _ _ _ E) as [k Hk]. destruct (named_runtime en k p Hok Hk) as (r & Hr & Hwf).
  destruct (Publish_sim (policy:=any_message) (now i) (newID i) m ttl _ Hwf I) as (pr & s' & Hs & _).
  destruct (on_runtime_returns p (Publish (now i) (newID i) m ttl) _ r Hr) as [[pr' b1] Hrun];
    [by exists (pr, s')|]. rewrite Hrun. simpl.
  destruct (publish_round (now i) newID m ttl i p en pr' b1 Hm Hfr Hok Hrun) as [Hok1 Hfr1].
  destruct pr' as [|[e|]]; [by eexists..|]. by apply (IH (S i) (set_broker b1 en)).
Qed.

Lemma Broker_Publish_returns now newID xn rk m ttl en :
  ID m = "" -> fresh_from 0 newID (en_broker en) -> engine_ok en ->
  returns (Broker_Publish now newID xn rk m ttl (en_broker en)).
Proof.
  intros Hm Hfr Hok. unfold Broker_Publish. destruct (b_exchanges _ !! xn) as [ex|]; [|by eexists].
  rewrite Route_eq. simpl. case_bool_decide; [by eexists|]. by apply publish_loop_returns.
Qed.

Lemma Broker_Publish_resume_returns now newID m ttl p rest en r :
  ID m = "" -> fresh_from 0 newID (en_broker en) ->
  b_runtimes (en_broker en) !! p = Some r -> woken (condProd r) <> 0%nat -> engine_ok en ->
  returns (Broker_Publish_resume now newID m ttl p rest (en_broker en)).
Proof.
  intros Hm Hfr Hr Hwk Hok. unfold Broker_Publish_resume. destruct (eo_wf _ Hok p r Hr) as (Hwf & _).
  destruct (Publish_resume_sim (policy:=any_message) (now 0%nat) (newID 0%nat) m ttl _ Hwf I)
    as (pr & s' & Hs & _).
  destruct (on_runtime_returns p (Publish_resume (now 0%nat) (newID 0%nat) m ttl) _ r Hr)
    as [[pr' b1] Hrun]; [by exists (pr, s')|]. rewrite Hrun. simpl.
  destruct (resume_round now newID m ttl p en pr' b1 Hm Hfr) as [Hok1 Hfr1]; [congruence|done..|].
  destruct pr' as [|[e|]]; [by eexists..|]. by apply (publish_loop_returns _ _ _ _ 1 _ (set_broker b1 en)).
Qed.

Lemma CreateQueue_returns n en : engine_ok en -> returns (CreateQueue n (en_broker en)).
Proof.
  intros Hok. unfold CreateQueue. destruct (validateQueueName n); [by eexists|].
  rewrite (eo_open _ Hok). case_bool_decide; [by eexists|].
  destruct (broker_append _ _) as [e b1] eqn:Ea.
  destruct (broker_append_spec _ _ _ _ Ea (bk_wal _ (eo_broker _ Hok)) ltac:(auto with dsend))
    as (w & -> & _). destruct e; [by eexists|].
  destruct (newQueueRuntime_spec n [] (set_b_world (mkWorld w (w_sessions (b_world (en_broker en)))
    (w_tokenOwners (b_world (en_broker en)))) (en_broker en)) (eo_cfg _ Hok) ltac:(by vm_compute))
    as (p & r & -> & _). by eexists.
Qed.

Lemma DeleteQueue_returns n en : engine_ok en -> returns (DeleteQueue n (en_broker en)).
Proof.
  intros Hok. unfold DeleteQueue. case_bool_decide; [by eexists|].
  destruct (b_queues _ !! n) as [p|] eqn:En; [|by eexists].
  destruct (named_runtime en n p Hok En) as (r & Hr & Hwf).
  destruct (CloseIfEmpty_sim (policy:=any_message) _ Hwf) as (emptied & q & Hq & Hsim).
  destruct (on_runtime p CloseIfEmpty _) as [[x b1]| |] eqn:E1;
    try (unfold on_runtime in E1; rewrite Hr, Hq in E1; done).
  destruct (on_runtime_inv _ _ _ _ _ E1) as (r' & q' & Hr' & Hq' & Hb1). simpl.
  assert (r' = r) as -> by congruence. rewrite Hq in Hq'. injection Hq' as <- <-.
  destruct emptied; simpl; [|by eexists].
  destruct (CloseIfEmpty_gone _ _ Hwf Hq) as (_ & Hcs & _).
  destruct (broker_append _ b1) as [e b2] eqn:Ea.
  destruct (broker_append_spec _ _ _ _ Ea) as (w & Hb2 & Hw2 & _);
    [subst b1; apply (wf_wal _ (sim_wf _ _ Hsim))|auto with dsend|].
  destruct e; [by eexists|].
  destruct (unbind_all _ n _) as [err4 b4] eqn:Eu.
  apply unbind_all_change in Eu; [|by subst b2]. destruct err4; [by eexists|].
  assert (b_runtimes b4 !! p = Some (rt q)) as Hr4.
  { rewrite (xc_runtimes _ _ Eu). subst b2 b1. simpl. apply lookup_insert_eq. }
  unfold on_runtime. rewrite Hr4. simpl. rewrite close_again by done. by eexists.
Qed.

Lemma queue_step_returns p e en c :
  engine_ok en ->
  (forall r, b_runtimes (en_broker en) !! p = Some r ->
     env_ok e (view p r en) /\ quiet_cancel e (view p r en)) ->
  queue_step p e en = Some c -> returns c.
Proof.
  unfold queue_step. intros Hok He H. destruct (is_call e) eqn:Ec; [done|].
  case_bool_decide; [|done]. simpl in H.
  destruct (b_runtimes (en_broker en) !! p) as [r|] eqn:Hr; [|done].
  destruct (He r eq_refl) as [Henv Hq].
  destruct (sys_step e (view p r en)) as [x|] eqn:Es; [|done]. injection H as <-.
  destruct (sys_step_ok (policy:=any_message) e _ _ (view_wf _ _ _ Hok Hr) Henv Hq
    (not_call_publishes _ _ _ Ec) Es) as (s' & -> & _). by eexists.
Qed.

(** [Shutdown] of the runtimes one after the other. *)
Lemma shutdown_loop_engine ps en :
  engine_ok en -> (forall p, p ∈ ps -> exists n, b_queues (en_broker en) !! n = Some p) ->
  exists b', shutdown_loop ps (en_broker en) = Done b' /\ engine_ok (set_broker b' en) /\
    b_queues b' = b_queues (en_broker en) /\ w_wal (b_world b') = w_wal (b_world (en_broker en)) /\
    forall q r, b_runtimes (en_broker en) !! q = Some r ->
      exists r', b_runtimes b' !! q = Some r' /\ live r' = live r /\
        (q ∉ ps -> r' = r) /\ (q ∈ ps -> closed r' = true /\ consumerSessions r' = ∅ /\ waiting (condProd r') = 0%nat).
Proof.
  revert en. induction ps as [|p ps IH]; intros en Hok Hps; simpl.
  { exists (en_broker en). split_and!; try done; [by destruct en|].
    intros q r Hr. exists r. split_and!; try done. by intros ?%elem_of_nil. }
  destruct (Hps p ltac:(left)) as [n Hn]. destruct (named_runtime en n p Hok Hn) as (r & Hr & Hwf).
  destruct (Shutdown_sim (policy:=any_message) _ Hwf) as (q & Hq & _).
  unfold on_runtime at 1. rewrite Hr. simpl. rewrite Hq. simpl.
  set (b1 := set_b_world (wd q) _).
  assert (engine_ok (set_broker b1 en)) as Hok1.
  { refine (step_engine_ok en _ p r EShutdown (set_qs q (view p r en)) Hok Hr I I I _ (moved_call p q en r)).
    simpl. unfold lift_qs. simpl. by rewrite Hq. }
  destruct (IH (set_broker b1 en) Hok1) as (b' & Hrun & Hok' & Hqs & Hw & Hrt).
  { intros p' Hp'. apply Hps. by right. }
  simpl in *. exists b'. rewrite Hrun. split_and!; try done.
  { rewrite Hw. simpl. unfold Shutdown, close_runtime in Hq. by go_inv Hq. }
  intros p' x Hx. destruct (decide (p' = p)) as [->|Hne].
  - assert (x = r) as -> by congruence.
    destruct (Hrt p (rt q)) as (r' & Hr' & Hl & Hout & Hin); [apply lookup_insert_eq|].
    assert (closed (rt q) = true /\ consumerSessions (rt q) = ∅ /\ waiting (condProd (rt q)) = 0%nat /\
      live (rt q) = live r) as (Hc & Hcs & Hwt & Hlq).
    { unfold Shutdown, close_runtime in Hq. by go_inv Hq. }
    exists r'. split_and!; [done|congruence| |].
    + intros Hp. exfalso. apply Hp. left.
    + intros _. destruct (decide (p ∈ ps)) as [Hd|Hd]; [by apply Hin|]. by rewrite (Hout Hd).
  - destruct (Hrt p' x) as (r' & Hr' & Hl & Hout & Hin); [by rewrite lookup_insert_ne|].
    exists r'. split_and!; try done.
    + intros Hp. apply Hout. by intros ?; apply Hp; right.
    + intros [->|Hp]%elem_of_cons; [done|]. by apply Hin.
Qed.

(** [Shutdown] marks the broker closed first; the loop does not look at it. *)
Definition set_b_closed (b : BR) : BR :=
  mkBroker (b_started b) true (b_cfg b) (b_queues b) (b_exchanges b) (b_runtimes b)
    (b_world b) (b_running b) (b_cancelled b).

Lemma shutdown_loop_closed ps b b' :
  shutdown_loop ps b = Done b' -> shutdown_loop ps (set_b_closed b) = Done (set_b_closed b').
Proof.
  revert b. induction ps as [|p ps IH]; intros b H; simpl in *; [by injection H as ->|].
  unfold on_runtime in *. simpl. destruct (b_runtimes b !! p) as [r|]; [|done].
  destruct (Shutdown _) as [q| |]; simpl in *; try done. by rewrite <- (IH _ H).
Qed.

Lemma shutdown_loop_started ps b b' :
  shutdown_loop ps b = Done b' -> b_started b' = b_started b /\ b_cfg b' = b_cfg b.
Proof.
  revert b. induction ps as [|p ps IH]; intros b H; simpl in *; [by injection H as ->|].
  destruct (on_runtime p _ b) as [[[] b1]| |] eqn:E; simpl in H; try done.
  destruct (IH _ H) as [-> ->]. by destruct (on_runtime_inv _ _ _ _ _ E) as (r & q & _ & _ & ->).
Qed.

Lemma Broker_Shutdown_engine en :
  engine_ok en ->
  exists b', Broker_Shutdown (en_broker en) = Done b' /\ b_closed b' = true /\
    w_wal (b_world b') = w_wal (b_world (en_broker en)) /\ w_tokenOwners (b_world b') = ∅ /\
    (b_started (en_broker en) = true -> b_cancelled b' = true) /\
    b_queues b' = b_queues (en_broker en) /\
    forall n p r, b_queues (en_broker en) !! n = Some p -> b_runtimes (en_broker en) !! p = Some r ->
      exists r', b_runtimes b' !! p = Some r' /\ live r' = live r /\ closed r' = true /\
        consumerSessions r' = ∅ /\ waiting (condProd r') = 0%nat.
Proof.
  intros Hok. unfold Broker_Shutdown. rewrite (eo_open _ Hok).
  destruct (shutdown_loop_engine (range (b_queues (en_broker en))).*2 en Hok)
    as (b' & Hrun & _ & Hqs & Hw & Hrt).
  { intros p Hp. apply list_elem_of_fmap in Hp as ([n q] & -> & Hin). exists n.
    rewrite range_perm in Hin. by apply elem_of_map_to_list in Hin. }
  destruct (shutdown_loop_started _ _ _ Hrun) as [Hst _].
  apply shutdown_loop_closed in Hrun. unfold set_b_closed in Hrun at 1. simpl. rewrite Hrun. simpl.
  eexists. split; [done|]. simpl. split_and!; try done.
  { intros Hs. by rewrite Hst, Hs. }
  intros n p r Hn Hr. destruct (Hrt p r Hr) as (r' & Hr' & Hl & _ & Hin). exists r'.
  split_and!; try done; apply Hin; apply list_elem_of_fmap; exists (n, p); (split; [done|]);
    rewrite range_perm; by apply elem_of_map_to_list.
Qed.

(** [Shutdown] returns, from every state a run can reach, and afterwards every
    queue is closed, without consumers and without a waiting publisher, the
    token table is empty and the context of the goroutines has ended; the log is
    untouched and no queue has lost a message, so the next start has them all. *)
Theorem engine_shutdown en :
  reachable en ->
  exists b', Broker_Shutdown (en_broker en) = Done b' /\ b_closed b' = true /\
    w_wal (b_world b') = w_wal (b_world (en_broker en)) /\ w_tokenOwners (b_world b') = ∅ /\
    (b_started (en_broker en) = true -> b_cancelled b' = true) /\
    b_queues b' = b_queues (en_broker en) /\
    forall n p r, b_queues (en_broker en) !! n = Some p -> b_runtimes (en_broker en) !! p = Some r ->
      exists r', b_runtimes b' !! p = Some r' /\ live r' = live r /\ closed r' = true /\
        consumerSessions r' = ∅ /\ waiting (condProd r') = 0%nat.
Proof. intros Hre%reachable_ok. by apply Broker_Shutdown_engine. Qed.

(** Every call of the broker's interface returns, and no goroutine of any
    queue panics or runs out of fuel, from every state a run can reach: all
    loops terminate and no index, pointer or channel operation goes wrong. *)
Theorem engine_calls_return en :
  reachable en ->
  (forall n, returns (CreateQueue n (en_broker en)) /\ returns (DeleteQueue n (en_broker en))) /\
  (forall now newID xn rk m ttl, ID m = "" -> fresh_from 0 newID (en_broker en) ->
     returns (Broker_Publish now newID xn rk m ttl (en_broker en))) /\
  (forall q l id, w_sessions (b_world (en_broker en)) !! l = None ->
     (forall p r, b_runtimes (en_broker en) !! p = Some r ->
        Z.of_nat (length (consumerOrder r)) < max_int) ->
     returns (Broker_Subscribe q l (broker_alloc l id (en_broker en)))) /\
  (forall q id, returns (Broker_Unsubscribe q id (en_broker en))) /\
  (forall tok, returns (Broker_Ack tok (en_broker en))) /\
  returns (Broker_Metrics (en_broker en)) /\
  (forall p e c, (forall r, b_runtimes (en_broker en) !! p = Some r ->
       env_ok e (view p r en) /\ quiet_cancel e (view p r en)) ->
     queue_step p e en = Some c -> returns c).
Proof.
  intros Hre. pose proof (reachable_ok _ Hre) as Hok. split_and!.
  - intros n. split; [by apply CreateQueue_returns|by apply DeleteQueue_returns].
  - intros. by apply Broker_Publish_returns.
  - intros. by apply Broker_Subscribe_returns.
  - intros. by apply Broker_Unsubscribe_returns.
  - intros. by apply Broker_Ack_returns.
  - destruct (Broker_Metrics_sums _ (eo_broker _ Hok)) as (tot & Hm & _). by eexists.
  - intros. by eapply queue_step_returns.
Qed.

(** C31: An acknowledgement goes to the queue that has the token in flight, removes
    exactly that message from what the queue owes and from what its log replays
    to, leaves every other queue as it was, and the token is spent. *)
Theorem engine_ack_exact en tok p r im b' :
  reachable en -> b_runtimes (en_broker en) !! p = Some r ->
  deliveries (inFlightManager r) !! tok = Some im ->
  Broker_Ack tok (en_broker en) = Done (None, b') ->
  exists r', b_runtimes b' = <[p := r']> (b_runtimes (en_broker en)) /\
    b_queues b' = b_queues (en_broker en) /\ live r ≡ₚ if_Message im :: live r' /\
    (forall n, b_queues b' !! n = Some p -> pending_of (logged b') n ≡ₚ live r') /\
    w_tokenOwners (b_world b') !! tok = None.
Proof.
  intros Hre Hr Him H. pose proof (reachable_ok _ Hre) as Hok.
  destruct (eo_wf _ Hok p r Hr) as (Hwf & Hk & _).
  assert (w_tokenOwners (b_world (en_broker en)) !! tok = Some p) as Ho.
  { apply (wf_tok _ Hwf p Hk). by eexists. }
  pose proof (Broker_Ack_engine tok en _ _ H Hok) as Hok'. unfold Broker_Ack in H. rewrite Ho in H.
  destruct (on_runtime_inv _ _ _ _ _ H) as (x & q & Hx & Hq & ->).
  assert (x = r) as -> by congruence. injection Hq as Hq. exists (rt q). simpl in *.
  pose proof (Ack_cases _ _ _ _ Hq) as Ack_case.
  assert (queue (rt q) = queue r /\ w_tokenOwners (wd q) !! tok = None /\
    deliveries (inFlightManager (rt q)) = delete tok (deliveries (inFlightManager r))) as (Hqu & How & Hdl).
  { inversion Ack_case as [|?|im' w Hd Ha]; subst. unfold released. qsimpl. rewrite Hk. simpl.
    split_and!; try done. apply lookup_delete_eq. }
  split_and!; try done.
  - unfold live. rewrite Hqu, Hdl, fmap_delete.
    rewrite (flight_msgs_delete tok (flight_of im)); [|by rewrite lookup_fmap, Him].
    simpl. symmetry. apply Permutation_middle.
  - intros n Hn. apply (eo_live _ Hok' n p (rt q) Hn). simpl. apply lookup_insert_eq.
Qed.

End EngineTheorems.

(** ** The theorems on a concrete engine *)

(** A goroutine step whose conditions a computation checks. *)
Definition queue_step_okb {W} `{!WAL W} (p : nat) (e : event) (en : Engine W) : bool :=
  match b_runtimes (en_broker en) !! p with
  | Some r => env_okb e (view p r en) && quiet_cancelb e (view p r en)
  | None => true
  end.

Lemma queue_step_run {W} `{!WAL W} `{!WALLaws W} {Hrange : MapRange} p e (en en' : Engine W) :
  queue_step_okb p e en = true -> queue_step p e en = Some (Done en') -> engine_step en en'.
Proof.
  intros Hb Hs. apply es_queue with p e; [|done]. intros r Hr. unfold queue_step_okb in Hb.
  rewrite Hr in Hb. apply andb_true_iff in Hb as [H1 H2].
  split; [by apply env_okb_ok|by apply quiet_cancelb_ok].
Qed.

Abbreviation CE := (Engine FileWAL).

Definition after (r : option (GoM CE)) (en : CE) : CE :=
  match r with Some (Done en') => en' | _ => en end.

(** Distinct identifiers, as [uuid.NewString] draws them. *)
Definition demo_id (i : nat) : string := "m" +:+ pretty i.

Definition engine0 : CE := mkEngine first_broker ∅.
Definition engine1 : CE := set_broker (Broker_Start first_broker) engine0.
Definition engine2 : CE := set_broker
  (match Broker_Publish (fun _ => 10) demo_id "default" "default" (mkMessage "" "hello" 0 0 None) 0
           (en_broker engine1) with Done (_, b) => b | _ => en_broker engine1 end) engine1.
Definition engine3 : CE := set_broker
  (match Broker_Subscribe "default" 7 (broker_alloc 7 "c1" (en_broker engine2)) with
   | Done (_, b) => b | _ => en_broker engine2 end) engine2.
Definition engine4 : CE := after (queue_step 0 DCheck engine3) engine3.
Definition engine5 : CE := after (queue_step 0 DNotified engine4) engine4.
Definition engine6 : CE := after (queue_step 0 (DReserve (fun _ => 12) 12 "t1") engine5) engine5.

Lemma engine2_run : engine_step engine1 engine2.
Proof.
  eapply es_call; [|reflexivity].
  apply (bc_Publish _ _ (fun _ => 10) demo_id "default" "default" (mkMessage "" "hello" 0 0 None) 0
    (BReturned None)); [done| |by vm_compute].
  split_and!; [by intros j; unfold demo_id|intros j k Hjk; by apply (inj (String.app _)), (inj pretty) in Hjk|].
  intros j p r _ Hr.
  assert (map_Forall (fun _ r => live r = []) (b_runtimes (en_broker engine1))) as Hl.
  { apply (bool_decide_unpack _). by vm_compute. }
  rewrite (Hl p r Hr). apply not_elem_of_nil.
Qed.

Lemma engine3_run : engine_step engine2 engine3.
Proof.
  eapply es_call; [|reflexivity]. apply (bc_Subscribe _ _ "default" 7 "c1" None); [done| |by vm_compute].
  change (map_Forall (fun _ r => Z.of_nat (length (consumerOrder r)) < max_int)
    (b_runtimes (en_broker engine2))).
  apply (bool_decide_unpack _). by vm_compute.
Qed.

Lemma engine0_fresh : fresh_engine engine0.
Proof.
  exists DefaultConfig, empty_wal, ∅, first_broker, first_queues, first_exchanges.
  split; [apply empty_wal_ok|]. split; [apply first_topo|].
  split; [vm_compute; split; discriminate|]. split; [apply map_Forall_empty|].
  split; [apply map_Forall_empty|]. split; [apply map_Forall_empty|].
  split; [apply first_broker_new|done].
Qed.

Lemma engine6_reachable : reachable engine6.
Proof.
  exists engine0. split; [apply engine0_fresh|].
  apply rtc_l with engine1; [eapply es_call; [by apply bc_Start|done]|].
  apply rtc_l with engine2; [apply engine2_run|].
  apply rtc_l with engine3; [apply engine3_run|].
  apply rtc_l with engine4; [apply queue_step_run with 0%nat DCheck; by vm_compute|].
  apply rtc_l with engine5; [apply queue_step_run with 0%nat DNotified; by vm_compute|].
  apply rtc_once. apply queue_step_run with 0%nat (DReserve (fun _ => 12) 12 "t1"); by vm_compute.
Qed.

(** The message is in flight: a restart has it ready again. *)
Lemma engine_crash_recovery_witness :
  exists ob err, NewBroker DefaultConfig (w_wal (b_world (en_broker engine6))) ∅ = Done (ob, err) /\
    (storage_error err = false ->
     exists b', ob = Some b' /\ err = None /\ dom (b_queues b') = dom (b_queues (en_broker engine6)) /\
       forall n p r, b_queues (en_broker engine6) !! n = Some p ->
         b_runtimes (en_broker engine6) !! p = Some r ->
         exists p' r', b_queues b' !! n = Some p' /\ b_runtimes b' !! p' = Some r' /\
           contents (queue r') ≡ₚ live r /\ NoDup (ID <$> contents (queue r'))).
Proof.
  apply (engine_crash_recovery engine6 DefaultConfig ∅ engine6_reachable).
  - vm_compute. split; discriminate.
  - apply (bool_decide_unpack _). vm_compute. exact I.
Defined.

Lemma engine_tokens_routed_witness :
  exists n r im, b_queues (en_broker engine6) !! n = Some 0%nat /\
    b_runtimes (en_broker engine6) !! 0%nat = Some r /\
    deliveries (inFlightManager r) !! "t1" = Some im.
Proof.
  apply (engine_tokens_routed engine6 "t1" 0%nat engine6_reachable). vm_compute. reflexivity.
Defined.

Lemma engine_shutdown_witness :
  exists b', Broker_Shutdown (en_broker engine6) = Done b' /\ b_closed b' = true /\
    w_wal (b_world b') = w_wal (b_world (en_broker engine6)).
Proof.
  destruct (engine_shutdown engine6 engine6_reachable) as (b' & H1 & H2 & H3 & _).
  exists b'. split; [exact H1|]. split; [exact H2|exact H3].
Defined.

Lemma engine_calls_return_witness :
  returns (DeleteQueue "orders" (en_broker engine6)) /\ returns (Broker_Metrics (en_broker engine6)).
Proof.
  destruct (engine_calls_return engine6 engine6_reachable) as (H1 & _ & _ & _ & _ & H6 & _).
  split; [apply H1|exact H6].
Defined.

Definition runtime6 : QueueRuntime RingBufferQueue :=
  match b_runtimes (en_broker engine6) !! 0%nat with
  | Some r => r
  | None => mkRuntime "" DefaultConfig true (mkRing [] 0 0 0 0) NewManager NewDLQ ∅ [] 0 false
              (mkCond 0 0) None 0 0 0 0
  end.

Definition acked6 : InMemoryBroker FileWAL :=
  match Broker_Ack "t1" (en_broker engine6) with Done (_, b) => b | _ => en_broker engine6 end.

Lemma engine_ack_exact_witness :
  exists r', b_runtimes acked6 = <[0%nat := r']> (b_runtimes (en_broker engine6)) /\
    w_tokenOwners (b_world acked6) !! "t1" = None.
Proof.
  destruct (engine_ack_exact engine6 "t1" 0%nat runtime6
    (mkInFlightMessage (mkMessage "m0" "hello" 10 0 None) "c1" 12) acked6 engine6_reachable)
    as (r' & H1 & _ & _ & _ & H5).
  - vm_compute. reflexivity.
  - vm_compute. reflexivity.
  - vm_compute. reflexivity.
  - exists r'. split; [exact H1|exact H5].
Defined.
