(* ===== verification/Drain.v ===== *)
(** The end of [Shutdown]: [b.wg.Wait()]. When [Shutdown] has closed the queues
    and cancelled the context, the goroutines of all queues ([startQueue] counts
    three per queue) still make their last steps. They come to their end after a
    bounded number of steps, whatever their order ([steady_drains], with nothing
    promised), and with the promises of [EngineInv.v] the log replays until then
    and after to the messages the queues hold. *)

From S2P Require Import Prelude GoStrings Model RingBuffer Inflight Exchange Wal QueueRuntime.
From S2P Require Import System QueueSpec QueueInv RoundRobin QueueRefine QueueDeliver.
From S2P Require Import Redelivery SystemInv QueueCases Broker Topology BrokerInv Recovery.
From S2P Require Import BrokerTheorems Frame Engine Steady EngineInv EngineCalls.
From S2P Require Import EngineTheorems.

(** ** The steps a goroutine has left *)

Definition dist_left (pc : DistPC) : nat :=
  match pc with DStopped => 0 | DTop => 1 | DLoop => 2 | DSelect => 3 | DSend _ _ => 3 end.

Definition worker_left (pc : WorkerPC) : nat :=
  match pc with WStopped => 0 | WSelect => 1 | WReady => 2 end.

Definition procs_left (ps : Procs) : nat :=
  dist_left (pr_dist ps) + worker_left (pr_redel ps) + worker_left (pr_expiry ps).

(** The counter of [b.wg] is zero. *)
Definition procs_done (ps : Procs) : Prop :=
  pr_dist ps = DStopped /\ pr_redel ps = WStopped /\ pr_expiry ps = WStopped.

Section Owners.
Context {Q W : Type} `{!Queue Q} `{!WAL W}.
Abbreviation QS := (QState Q W).
Abbreviation SYS := (Sys Q W).

(** ** The token table is write-only for the goroutines *)

Lemma wal_append_owners r o (s : QS) :
  wal_append r (set_tokenOwners o s) = ((wal_append r s).1, set_tokenOwners o (wal_append r s).2).
Proof. unfold wal_append. simpl. by destruct (Append r (w_wal (wd s))). Qed.

Lemma pop_queue_owners o (s : QS) :
  pop_queue (set_tokenOwners o s) = let! (m, s') := pop_queue s in Done (m, set_tokenOwners o s').
Proof. unfold pop_queue. simpl. by destruct (Pop (queue (rt s))) as [[m q]| |]. Qed.

Lemma deadLetter_loop_owners fuel clock i o (s : QS) :
  deadLetter_loop fuel clock i (set_tokenOwners o s) =
  let! (e, s') := deadLetter_loop fuel clock i s in Done (e, set_tokenOwners o s').
Proof.
  revert i s. induction fuel as [|fuel IH]; intros i s; [done|]. cbn [deadLetter_loop].
  change (rt (set_tokenOwners o s)) with (rt s).
  case_bool_decide; [|done]. destruct (Peek (queue (rt s))) as [m| |]; [|done..]. cbn [go_bind].
  destruct (negb (isExpired (clock i) m)); [done|]. rewrite wal_append_owners.
  destruct (wal_append _ s) as [[e|] s1]; [done|]. cbn [fst snd]. rewrite pop_queue_owners.
  destruct (pop_queue s1) as [[m' s2]| |]; [|done..]. cbn [go_bind].
  exact (IH _ (signal (upd_rt (fun q => set_deadletteredCount (deadletteredCount q ⊕ 1) q) (push_dlq m s2)))).
Qed.

Lemma sweep_owners clock o (s : QS) :
  deadLetterExpiredMessages clock (set_tokenOwners o s) =
  let! (e, s') := deadLetterExpiredMessages clock s in Done (e, set_tokenOwners o s').
Proof. apply deadLetter_loop_owners. Qed.

Lemma cancelReservation_owners d o (s : QS) : exists o',
  cancelReservation d (set_tokenOwners o s) =
  let! s' := cancelReservation d s in Done (set_tokenOwners o' s').
Proof.
  exists (owners_remove (tokenHooks (rt s)) (d_AckToken d) o). unfold cancelReservation.
  change (rt (set_tokenOwners o s)) with (rt s).
  destruct (Remove (d_AckToken d) (inFlightManager (rt s))) as [[im|] mgr];
    unfold dec_unacked, removeToken, push_queue; simpl.
  - destruct (consumerSessions (rt s) !! d_ConsumerID d); simpl;
      destruct (tokenHooks (rt s)); simpl; by destruct (Push _ (queue (rt s))).
  - destruct (tokenHooks (rt s)); simpl; by destruct (Push _ (queue (rt s))).
Qed.

(** Without consumers nothing is reserved: only the sweep is done. *)
Lemma reserve_without_consumers clock now token (s : QS) :
  consumerSessions (rt s) = ∅ ->
  (forall e s', deadLetterExpiredMessages clock s = Done (e, s') -> consumerSessions (rt s') = ∅) ->
  reserveDelivery clock now token s =
  let! (e, s') := deadLetterExpiredMessages clock s in Done (None, s').
Proof.
  intros Hc Hk. unfold reserveDelivery.
  destruct (deadLetterExpiredMessages clock s) as [[[e|] s']| |] eqn:E; [done| |done..].
  cbn [go_bind]. unfold reserve_next. rewrite (Hk _ _ eq_refl).
  by rewrite (bool_decide_true (size _ = _)), orb_true_r by apply map_size_empty.
Qed.

Lemma sweep_consumers fuel clock i (s : QS) e s' :
  deadLetter_loop fuel clock i s = Done (e, s') -> consumerSessions (rt s') = consumerSessions (rt s).
Proof.
  revert i s. induction fuel as [|fuel IH]; intros i s H; [done|]. cbn [deadLetter_loop] in H.
  case_bool_decide; [|by simplify_eq]. destruct (Peek (queue (rt s))) as [m| |]; [|done..]. cbn [go_bind] in H.
  destruct (negb (isExpired (clock i) m)); [by simplify_eq|].
  destruct (wal_append _ s) as [[e1|] s1] eqn:Ea; apply append_rt in Ea; [by simplify_eq; rewrite Ea|].
  unfold pop_queue in H. destruct (Pop (queue (rt s1))) as [[m' q]| |]; [|done..]. cbn [go_bind] in H.
  apply IH in H. rewrite H. simpl. by rewrite Ea.
Qed.

Definition with_owners (o : gmap string nat) (s : SYS) : SYS := set_qs (set_tokenOwners o (qs s)) s.

(** The identifier of a reservation replaced. *)
Definition retoken (tok : string) (e : event) : event :=
  match e with DReserve clock now _ => DReserve clock now tok | e => e end.

(** A step of a goroutine of a closed queue is the same step with another token
    table and another fresh identifier. *)
Lemma closed_step_owners e tok o (s : SYS) c :
  is_call e = false -> closed (rt (qs s)) = true -> consumerSessions (rt (qs s)) = ∅ ->
  sys_step e s = Some c ->
  exists o', sys_step (retoken tok e) (with_owners o s) = Some (let! s' := c in Done (with_owners o' s')).
Proof.
  intros Hcall Hcl Hcs Hs. destruct e; try done; cbn [sys_step retoken] in *.
  1-7: cbn [RunDistributor_step] in *; change (dist (with_owners o s)) with (dist s);
    destruct (dist s) as [| | |l d|] eqn:Ed; try done.
  - injection Hs as <-. by exists o.
  - change (notifyDistributor (rt (qs (with_owners o s)))) with (notifyDistributor (rt (qs s))).
    destruct (notifyDistributor (rt (qs s))); [|done]. injection Hs as <-. by exists o.
  - change (ctxDone (with_owners o s)) with (ctxDone s).
    destruct (ctxDone s); [|done]. injection Hs as <-. by exists o.
  - injection Hs as <-. exists o. f_equal.
    rewrite !reserve_without_consumers; try done.
    + change (qs (with_owners o s)) with (set_tokenOwners o (qs s)). rewrite sweep_owners.
      by destruct (deadLetterExpiredMessages clock (qs s)) as [[e s']| |].
    + intros e s' He. apply sweep_consumers in He. by rewrite He.
    + intros e s' He. apply sweep_consumers in He. by rewrite He.
  - change (session_has_room l (qs (with_owners o s))) with (session_has_room l (qs s)).
    destruct (session_has_room l (qs s)); [|done]. injection Hs as <-. by exists o.
  - change (session_closed l (qs (with_owners o s))) with (session_closed l (qs s)).
    destruct (session_closed l (qs s)); [|done]. injection Hs as <-.
    destruct (cancelReservation_owners d o (qs s)) as [o' Ho]. exists o'. f_equal.
    change (qs (with_owners o s)) with (set_tokenOwners o (qs s)). rewrite Ho.
    by destruct (cancelReservation d (qs s)).
  - change (session_closed l (qs (with_owners o s))) with (session_closed l (qs s)).
    change (session_has_room l (qs (with_owners o s))) with (session_has_room l (qs s)).
    destruct (session_closed l (qs s) || session_has_room l (qs s)); [done|]. injection Hs as <-.
    destruct (cancelReservation_owners d o (qs s)) as [o' Ho]. exists o'. f_equal.
    change (qs (with_owners o s)) with (set_tokenOwners o (qs s)). rewrite Ho.
    by destruct (cancelReservation d (qs s)).
  - cbn [RedeliveryWorker_step] in *. change (redel (with_owners o s)) with (redel s).
    destruct (redel s); try done. injection Hs as <-. by exists o.
  - cbn [RedeliveryWorker_step] in *. change (redel (with_owners o s)) with (redel s).
    destruct (redel s); try done. change (ctxDone (with_owners o s)) with (ctxDone s).
    destruct (ctxDone s); [|done]. injection Hs as <-. by exists o.
  - cbn [RedeliveryWorker_step] in *. change (redel (with_owners o s)) with (redel s).
    destruct (redel s); try done. injection Hs as <-. exists o. unfold processExpiredMessages.
    change (rt (qs (with_owners o s))) with (rt (qs s)). by rewrite Hcl.
  - cbn [ExpiryWorker_step] in *. change (expiry (with_owners o s)) with (expiry s).
    destruct (expiry s); try done. injection Hs as <-. by exists o.
  - cbn [ExpiryWorker_step] in *. change (expiry (with_owners o s)) with (expiry s).
    destruct (expiry s); try done. change (ctxDone (with_owners o s)) with (ctxDone s).
    destruct (ctxDone s); [|done]. injection Hs as <-. by exists o.
  - cbn [ExpiryWorker_step] in *. change (expiry (with_owners o s)) with (expiry s).
    destruct (expiry s); try done. injection Hs as <-. exists o. unfold checkExpiredMessages.
    change (qs (with_owners o s)) with (set_tokenOwners o (qs s)). rewrite sweep_owners.
    by destruct (deadLetterExpiredMessages clock (qs s)) as [[e s']| |].
Qed.

End Owners.

Section Drain.
Context {W : Type} `{!WAL W} `{!WALLaws W} {Hrange : MapRange}.
Implicit Types (en : Engine W).

(** The promises of the environment for a step of the queue at [p]. *)
Definition promises (p : nat) (e : event) en : Prop :=
  forall r, b_runtimes (en_broker en) !! p = Some r ->
    env_ok e (view p r en) /\ quiet_cancel e (view p r en).

(** A step of one of the goroutines [b.wg] counts. *)
Inductive drain_step en en' : Prop :=
| drain_event p e : promises p e en -> queue_step p e en = Some (Done en') -> drain_step en en'.

(** The same without any promise: whatever delivery a distributor still holds,
    whatever list a redelivery round works on. *)
Definition wait_step en en' : Prop := exists p e, queue_step p e en = Some (Done en').

Definition drained en : Prop :=
  forall p r, p ∈ b_running (en_broker en) -> b_runtimes (en_broker en) !! p = Some r ->
    procs_done (procs_of p (en_procs en)).

Definition drain_left en : nat :=
  sum_list ((fun p => procs_left (procs_of p (en_procs en))) <$> elements (b_running (en_broker en))).

(** ** The engine behind a broker that was shut down

    [Shutdown] empties the token table, which the goroutines only write. With
    the table as it was, and the broker not marked closed, the engine still has
    its invariant. *)

Definition ghost (o : gmap string nat) en : Engine W :=
  let b := en_broker en in
  mkEngine (mkBroker (b_started b) false (b_cfg b) (b_queues b) (b_exchanges b) (b_runtimes b)
              (mkWorld (w_wal (b_world b)) (w_sessions (b_world b)) o) (b_running b) (b_cancelled b))
    (en_procs en).

Record drain_ok en : Prop := {
  do_ghost : exists o, engine_ok (ghost o en);
  do_closed p r : b_runtimes (en_broker en) !! p = Some r -> closed r = true;
  do_cancelled : b_cancelled (en_broker en) = true;
}.

Lemma drain_no_consumers en p r :
  drain_ok en -> b_runtimes (en_broker en) !! p = Some r -> consumerSessions r = ∅.
Proof.
  intros [[o Ho] Hc _] Hr. destruct (eo_wf _ Ho p r Hr) as (_ & _ & Hs & _). by apply Hs, (Hc p).
Qed.

Lemma view_ghost o p r en : view p r (ghost o en) = with_owners o (view p r en).
Proof. done. Qed.

Lemma put_view_ghost o o' p s en : put_view p (with_owners o' s) (ghost o en) = ghost o' (put_view p s en).
Proof. done. Qed.

Lemma is_call_retoken tok e : is_call (retoken tok e) = is_call e.
Proof. by destruct e. Qed.

(** The promises hold of the ghost, with another fresh identifier. *)
Lemma ghost_promises o p r e en :
  b_runtimes (en_broker en) !! p = Some r -> is_call e = false -> promises p e en ->
  exists tok, env_ok (retoken tok e) (view p r (ghost o en)) /\
    quiet_cancel (retoken tok e) (view p r (ghost o en)).
Proof.
  intros Hr Hcall Hp. destruct (Hp r Hr) as [He Hq].
  set (X := dom (deliveries (inFlightManager r)) ∪ dom o : gset string).
  exists (fresh X). pose proof (is_fresh X) as Hf. split; destruct e; try done.
  simpl. split; apply not_elem_of_dom; set_solver.
Qed.

(** A kept promise: the step returns, and the invariant holds afterwards. *)
Lemma drain_step_ok p e en c :
  drain_ok en -> promises p e en -> queue_step p e en = Some c ->
  exists r s', b_runtimes (en_broker en) !! p = Some r /\ p ∈ b_running (en_broker en) /\
    is_call e = false /\ sys_step e (view p r en) = Some (Done s') /\
    c = Done (put_view p s' en) /\ drain_ok (put_view p s' en).
Proof.
  intros Hok Hpr H. unfold queue_step in H. destruct (is_call e) eqn:Ec; [done|].
  case_bool_decide as Hrun; [|done]. simpl in H.
  destruct (b_runtimes (en_broker en) !! p) as [r|] eqn:Hr; [|done].
  destruct (sys_step e (view p r en)) as [c'|] eqn:Es; [|done]. injection H as <-.
  destruct (do_ghost _ Hok) as [o Ho].
  destruct (ghost_promises o p r e en Hr Ec Hpr) as (tok & He & Hq).
  destruct (closed_step_owners e tok o (view p r en) c' Ec (do_closed _ Hok p r Hr)
    (drain_no_consumers en p r Hok Hr) Es) as [o' Hs'].
  pose proof (not_call_publishes fresh_id (retoken tok e) (view p r (ghost o en))
    ltac:(by rewrite is_call_retoken)) as Hpub.
  destruct (sys_step_ok (policy:=fresh_id) _ _ _ (view_wf _ _ _ Ho Hr) He Hq Hpub Hs') as (s'' & Hd & _).
  destruct c' as [s'| |]; [|done..]. cbn [go_bind] in Hd, Hs'. injection Hd as <-.
  exists r, s'. split_and!; try done.
  assert (moved p (with_owners o' s') (ghost o en) (put_view p (with_owners o' s') (ghost o en))) as Hmv.
  { split; simpl; try done; unfold procs_of; [by rewrite lookup_insert_eq|].
    intros q Hne. by rewrite lookup_insert_ne. }
  split.
  - exists o'. rewrite <- (put_view_ghost o).
    exact (step_engine_ok _ _ p r _ _ Ho Hr He Hq Hpub Hs' Hmv).
  - pose proof (step_effect _ p r _ _ Ho Hr He Hq Hs') as Heff.
    intros q x. simpl. rewrite lookup_insert. case_decide; [|apply (do_closed _ Hok)].
    intros [= <-]. apply (ef_closed _ _ _ Heff). by apply (do_closed _ Hok p r).
  - apply (do_cancelled _ Hok).
Qed.

(** ** Every step is one less *)

Lemma closed_step_left e (s s' : Sys RingBufferQueue W) :
  is_call e = false -> closed (rt (qs s)) = true -> consumerSessions (rt (qs s)) = ∅ ->
  sys_step e s = Some (Done s') ->
  (procs_left (mkProcs (dist s') (redel s') (expiry s')) <
   procs_left (mkProcs (dist s) (redel s) (expiry s)))%nat.
Proof.
  intros Hcall Hcl Hcs Hs. unfold procs_left. cbn [pr_dist pr_redel pr_expiry].
  destruct e; try done; cbn [sys_step] in Hs.
  1-7: cbn [RunDistributor_step] in Hs; destruct (dist s) as [| | |l d|] eqn:Ed; try done.
  - injection Hs as <-. rewrite Hcl. simpl. lia.
  - destruct (notifyDistributor (rt (qs s))); [|done]. injection Hs as <-. simpl. lia.
  - destruct (ctxDone s); [|done]. injection Hs as <-. simpl. lia.
  - rewrite reserve_without_consumers in Hs by (try done; intros e0 s0 He0; apply sweep_consumers in He0; by rewrite He0).
    destruct (deadLetterExpiredMessages clock (qs s)) as [[e q]| |]; [|done..].
    injection Hs as <-. simpl. lia.
  - destruct (session_has_room l (qs s)); [|done]. injection Hs as <-. simpl. lia.
  - destruct (session_closed l (qs s)); [|done].
    destruct (cancelReservation d (qs s)); [|done..]. injection Hs as <-. simpl. lia.
  - destruct (session_closed l (qs s) || session_has_room l (qs s)); [done|].
    destruct (cancelReservation d (qs s)); [|done..]. injection Hs as <-. simpl. lia.
  - cbn [RedeliveryWorker_step] in Hs. destruct (redel s); try done. injection Hs as <-. rewrite Hcl. simpl. lia.
  - cbn [RedeliveryWorker_step] in Hs. destruct (redel s); try done. destruct (ctxDone s); [|done].
    injection Hs as <-. simpl. lia.
  - cbn [RedeliveryWorker_step] in Hs. destruct (redel s); try done.
    destruct (processExpiredMessages items (qs s)); [|done..]. injection Hs as <-. simpl. lia.
  - cbn [ExpiryWorker_step] in Hs. destruct (expiry s); try done. injection Hs as <-. rewrite Hcl. simpl. lia.
  - cbn [ExpiryWorker_step] in Hs. destruct (expiry s); try done. destruct (ctxDone s); [|done].
    injection Hs as <-. simpl. lia.
  - cbn [ExpiryWorker_step] in Hs. destruct (expiry s); try done.
    destruct (checkExpiredMessages clock (qs s)) as [[e q]| |]; [|done..]. injection Hs as <-. simpl. lia.
Qed.

Lemma put_view_left p s' en :
  p ∈ b_running (en_broker en) ->
  (procs_left (mkProcs (dist s') (redel s') (expiry s')) < procs_left (procs_of p (en_procs en)))%nat ->
  (drain_left (put_view p s' en) < drain_left en)%nat.
Proof.
  intros Hrun Hlt. unfold drain_left. simpl.
  apply (sum_list_less _ _ p); [by apply elem_of_elements| | |apply NoDup_elements].
  - unfold procs_of at 1. by rewrite lookup_insert_eq.
  - intros q Hne. unfold procs_of. by rewrite lookup_insert_ne.
Qed.

Lemma drain_step_left p e en c :
  drain_ok en -> promises p e en -> queue_step p e en = Some c ->
  exists en', c = Done en' /\ drain_ok en' /\ (drain_left en' < drain_left en)%nat /\
    b_queues (en_broker en') = b_queues (en_broker en).
Proof.
  intros Hok Hpr Hq.
  destruct (drain_step_ok p e en c Hok Hpr Hq) as (r & s' & Hr & Hrun & Hcall & Hs & -> & Hok').
  eexists. split; [done|]. split; [done|]. split; [|done]. apply put_view_left; [done|].
  exact (closed_step_left e (view p r en) s' Hcall (do_closed _ Hok p r Hr) (drain_no_consumers _ _ _ Hok Hr) Hs).
Qed.

(** ** A goroutine that has not stopped can make a step *)

Lemma drain_progress en p r :
  b_cancelled (en_broker en) = true -> p ∈ b_running (en_broker en) -> b_runtimes (en_broker en) !! p = Some r ->
  procs_done (procs_of p (en_procs en)) \/
  exists e, env_ok e (view p r en) /\ queue_step p e en <> None.
Proof.
  intros Hctx Hrun Hr.
  assert (forall e, is_call e = false -> sys_step e (view p r en) <> None -> queue_step p e en <> None) as Hq.
  { intros e He Hs. unfold queue_step. rewrite He, bool_decide_true, Hr by done. simpl.
    by destruct (sys_step e (view p r en)). }
  set (ps := procs_of p (en_procs en)). destruct (pr_dist ps) as [| | |l d|] eqn:Ed.
  - right. exists DCheck. split; [done|]. apply Hq; [done|]. simpl. fold ps. by rewrite Ed.
  - right. exists DCtxDone. split; [done|]. apply Hq; [done|]. simpl. fold ps. by rewrite Ed, Hctx.
  - right. set (X := dom (deliveries (inFlightManager r)) ∪ dom (w_tokenOwners (b_world (en_broker en))) : gset string).
    exists (DReserve (fun _ => 0) 0 (fresh X)). pose proof (is_fresh X) as Hf. split.
    + simpl. split; apply not_elem_of_dom; set_solver.
    + apply Hq; [done|]. simpl. fold ps. by rewrite Ed.
  - right. destruct (session_has_room l (qs (view p r en))) eqn:Er.
    { exists DSent. split; [done|]. apply Hq; [done|]. cbn [sys_step RunDistributor_step].
      simpl dist. fold ps. by rewrite Ed, Er. }
    destruct (session_closed l (qs (view p r en))) eqn:Ec.
    { exists DSawClosed. split; [done|]. apply Hq; [done|]. cbn [sys_step RunDistributor_step].
      simpl dist. fold ps. by rewrite Ed, Ec. }
    exists DDefault. split; [done|]. apply Hq; [done|]. cbn [sys_step RunDistributor_step].
    simpl dist. fold ps. by rewrite Ed, Ec, Er.
  - destruct (pr_redel ps) eqn:E1; [right; exists RCtxDone|right|].
    + split; [done|]. apply Hq; [done|]. simpl. fold ps. by rewrite E1, Hctx.
    + exists (RProcess 0 (Expired_one 0 (AckTimeout (config r)) (inFlightManager r))). split.
      * simpl. apply Expired_one_ok.
      * apply Hq; [done|]. simpl. fold ps. by rewrite E1.
    + destruct (pr_expiry ps) eqn:E2; [right; exists XCtxDone|right; exists (XProcess (fun _ => 0))|by left];
        (split; [done|]); (apply Hq; [done|]); simpl; fold ps; by rewrite E2, ?Hctx.
Qed.

(** ** After [Shutdown] *)

Lemma shutdown_drain_ok en :
  engine_ok en -> b_started (en_broker en) = true ->
  exists b', Broker_Shutdown (en_broker en) = Done b' /\ drain_ok (set_broker b' en) /\
    b_queues b' = b_queues (en_broker en) /\ b_cfg b' = b_cfg (en_broker en).
Proof.
  intros Hok Hst. unfold Broker_Shutdown. rewrite (eo_open _ Hok).
  destruct (shutdown_loop_engine (range (b_queues (en_broker en))).*2 en Hok)
    as (b1 & Hrun & Hok1 & Hqs & _ & Hrt).
  { intros p Hp. apply list_elem_of_fmap in Hp as ([n q] & -> & Hin). exists n.
    rewrite range_perm in Hin. by apply elem_of_map_to_list in Hin. }
  destruct (shutdown_loop_started _ _ _ Hrun) as [Hst1 Hcfg].
  apply shutdown_loop_closed in Hrun. unfold set_b_closed in Hrun at 1. simpl. rewrite Hrun. simpl.
  eexists. split; [done|]. split_and!; [|done|done]. split.
  - exists (w_tokenOwners (b_world b1)). destruct (eo_broker _ Hok1) as [Hw Ht Hp].
    pose proof (eo_open _ Hok1) as Hcl. simpl in Hcl.
    refine (exchange_change_engine (set_broker b1 en) _ _ _ Hok1).
    + by split.
    + by split.
  - simpl. intros p r Hr. destruct (eo_gone _ Hok1 p r Hr) as [(Hcl & _)|[n Hn]]; [done|].
    simpl in Hn. rewrite Hqs in Hn. destruct (named_runtime en n p Hok Hn) as (r0 & Hr0 & _).
    destruct (Hrt p r0 Hr0) as (r' & Hr' & _ & _ & Hin).
    assert (r' = r) as -> by congruence. apply Hin, list_elem_of_fmap. exists (n, p). split; [done|].
    rewrite range_perm. by apply elem_of_map_to_list.
  - simpl. by rewrite Hst1, Hst.
Qed.

Lemma drain_run_ok en en' :
  drain_ok en -> rtc drain_step en en' ->
  drain_ok en' /\ b_queues (en_broker en') = b_queues (en_broker en).
Proof.
  intros Hok Hr. induction Hr as [|en en1 en' [p e Hp Hs] _ IH]; [done|].
  destruct (drain_step_left p e en _ Hok Hp Hs) as (en2 & [= <-] & Hok1 & _ & Hq).
  destruct (IH Hok1) as [H1 H2]. by rewrite H2, Hq.
Qed.

(** ** Without promises *)

(** Every queue is closed and the context is cancelled. *)
Record halting en : Prop := {
  ht_steady : steady (true, true) (en_broker en);
  ht_closed p r : b_runtimes (en_broker en) !! p = Some r -> closed r = true;
  ht_cancelled : b_cancelled (en_broker en) = true;
}.

Lemma wait_step_left p e en c :
  halting en -> queue_step p e en = Some c ->
  exists en', c = Done en' /\ halting en' /\ (drain_left en' < drain_left en)%nat.
Proof.
  intros [Hst Hcl Hctx] H. unfold queue_step in H. destruct (is_call e) eqn:Ec; [done|].
  case_bool_decide as Hrun; [|done]. simpl in H.
  destruct (b_runtimes (en_broker en) !! p) as [r|] eqn:Hr; [|done].
  destruct (sys_step e (view p r en)) as [c'|] eqn:Es; [|done]. injection H as <-.
  pose proof (proj1 (sd_rt _ _ Hst p r Hr)) as Hs. pose proof (Hcl p r Hr) as Hc.
  destruct (goroutine_safe e (view p r en) c' Ec Hs Es) as (s' & -> & Hk).
  eexists. split; [done|]. split; [split; [by apply (steady_put _ p r)| |done]|].
  - intros q x. simpl. rewrite lookup_insert. case_decide; [|apply Hcl]. intros [= <-]. by apply (kp_closed _ _ Hk).
  - apply put_view_left; [done|].
    exact (closed_step_left e (view p r en) s' Ec Hc (sa_shut _ Hs Hc) Es).
Qed.

Lemma wait_run_left n en en' :
  halting en -> nsteps wait_step n en en' ->
  halting en' /\ (n + drain_left en' <= drain_left en)%nat.
Proof.
  intros Hok Hr. revert Hok. induction Hr as [en|n en en1 en' (p & e & Hs) _ IH]; intros Hok; [done|].
  destruct (wait_step_left p e en _ Hok Hs) as (en2 & [= <-] & Hok1 & Hlt).
  destruct (IH Hok1) as [H1 H2]. split; [done|lia].
Qed.

Lemma stuck_drained en : halting en -> (forall p e, queue_step p e en = None) -> drained en.
Proof.
  intros Hok Hno p r Hrun Hr.
  destruct (drain_progress en p r (ht_cancelled _ Hok) Hrun Hr) as [|(e & _ & He)]; [done|].
  by rewrite Hno in He.
Qed.

Lemma drain_left_bound en : (drain_left en <= 7 * size (b_running (en_broker en)))%nat.
Proof.
  unfold drain_left, size, set_size. simpl. induction (elements _) as [|p l IH]; [done|].
  rewrite fmap_cons. simpl in *. unfold procs_left at 1.
  destruct (procs_of p (en_procs en)) as [[] [] []]; simpl; lia.
Qed.

(** [Shutdown] of a started broker returns from its part before [wg.Wait], and
    from there on the goroutines stop. *)
Lemma steady_drains en :
  steady (true, false) (en_broker en) ->
  exists b', Broker_Shutdown (en_broker en) = Done b' /\
    forall n en', nsteps wait_step n (set_broker b' en) en' ->
      (n + drain_left en' <= 7 * size (b_running b'))%nat /\
      (forall p e c, queue_step p e en' = Some c ->
         exists en2, c = Done en2 /\ (drain_left en2 < drain_left en')%nat) /\
      ((forall p e, queue_step p e en' = None) -> drained en').
Proof.
  intros Hst. destruct (Broker_Shutdown_safe _ Hst) as (b' & Hsh & Hst' & Hca & Hcl).
  exists b'. split; [done|]. intros n en' Hrun. assert (halting (set_broker b' en)) as Hok0 by by split.
  destruct (wait_run_left n _ _ Hok0 Hrun) as [Hok Hle]. split_and!.
  - pose proof (drain_left_bound (set_broker b' en)) as Hb. simpl in Hb. lia.
  - intros p e c Hq. destruct (wait_step_left p e en' c Hok Hq) as (en2 & -> & _ & Hl). eauto.
  - by apply stuck_drained.
Qed.

(** A graceful stop loses nothing: after [Shutdown], while the goroutines make
    their last steps and after them, the log replays to exactly the messages the
    queues hold, and [NewBroker] on it returns and, unless the log fails, has the
    same queues with exactly these messages, none twice. *)
Theorem restart_after_shutdown en b' en' cfg sessions :
  reachable en -> b_started (en_broker en) = true -> Broker_Shutdown (en_broker en) = Done b' ->
  rtc drain_step (set_broker b' en) en' ->
  0 <= QueueSize cfg <= max_int ->
  map_Forall (fun _ msgs => Z.of_nat (length msgs) <= max_int) (PendingMessages (logged (en_broker en'))) ->
  exists ob err, NewBroker cfg (w_wal (b_world (en_broker en'))) sessions = Done (ob, err) /\
    (storage_error err = false ->
     exists b2, ob = Some b2 /\ err = None /\ dom (b_queues b2) = dom (b_queues (en_broker en)) /\
       forall n p r, b_queues (en_broker en) !! n = Some p -> b_runtimes (en_broker en') !! p = Some r ->
         exists p' r', b_queues b2 !! n = Some p' /\ b_runtimes b2 !! p' = Some r' /\
           contents (queue r') ≡ₚ live r /\ NoDup (ID <$> contents (queue r'))).
Proof.
  intros Hre Hst Hsh Hrun Hs Hm. apply reachable_ok in Hre.
  destruct (shutdown_drain_ok en Hre Hst) as (b1 & Hsh1 & Hok0 & Hq0 & _).
  rewrite Hsh in Hsh1. injection Hsh1 as <-.
  destruct (drain_run_ok _ _ Hok0 Hrun) as [[[o Ho] _ _] Hq]. simpl in Hq. rewrite Hq0 in Hq.
  destruct (engine_ok_recovers (ghost o en') cfg sessions Ho Hs Hm) as (ob & err & Hn & Hrs).
  exists ob, err. split; [done|]. intros He. destruct (Hrs He) as (b2 & -> & -> & Hd & Hmsg).
  simpl in Hd, Hmsg. rewrite Hq in Hd, Hmsg. by exists b2.
Qed.

End Drain.

(** ** A run *)

Definition stopped6 : InMemoryBroker FileWAL :=
  match Broker_Shutdown (en_broker engine6) with Done b => b | _ => en_broker engine6 end.
Definition drain0 : CE := set_broker stopped6 engine6.
Definition drain1 : CE := after (queue_step 0 RCtxDone drain0) drain0.
Definition drain2 : CE := after (queue_step 0 DSawClosed drain1) drain1.

Lemma drain_step_run p e (en en' : CE) :
  queue_step_okb p e en = true -> queue_step p e en = Some (Done en') -> drain_step en en'.
Proof.
  intros Hb Hs. apply drain_event with p e; [|done]. intros r Hr. unfold queue_step_okb in Hb.
  rewrite Hr in Hb. apply andb_true_iff in Hb as [H1 H2].
  split; [by apply env_okb_ok|by apply quiet_cancelb_ok].
Qed.

Lemma drain2_run : rtc drain_step drain0 drain2.
Proof.
  apply rtc_l with drain1; [apply drain_step_run with 0%nat RCtxDone; by vm_compute|].
  apply rtc_once. apply drain_step_run with 0%nat DSawClosed; by vm_compute.
Qed.

Lemma restart_after_shutdown_witness :
  exists ob err, NewBroker DefaultConfig (w_wal (b_world (en_broker drain2))) ∅ = Done (ob, err) /\
    (storage_error err = false ->
     exists b2, ob = Some b2 /\ err = None /\ dom (b_queues b2) = dom (b_queues (en_broker engine6)) /\
       forall n p r, b_queues (en_broker engine6) !! n = Some p -> b_runtimes (en_broker drain2) !! p = Some r ->
         exists p' r', b_queues b2 !! n = Some p' /\ b_runtimes b2 !! p' = Some r' /\
           contents (queue r') ≡ₚ live r /\ NoDup (ID <$> contents (queue r'))).
Proof.
  apply (restart_after_shutdown engine6 stopped6 drain2 DefaultConfig ∅ engine6_reachable).
  - vm_compute; reflexivity.
  - vm_compute; reflexivity.
  - apply drain2_run.
  - vm_compute. split; discriminate.
  - apply (bool_decide_unpack _). vm_compute. exact I.
Defined.
