(* ===== verification/Utf8.v ===== *)
(** UTF-8 as the Go packages [unicode/utf8] and [unicode/utf16] define it:
    encoding of runes, the coercion of a byte string to well-formed UTF-8, and
    the facts that tie encoding and decoding together. Bytes are integers from
    0 to 255. *)

From Stdlib Require Import Ascii.
From S2P Require Import Prelude GoStrings.

(** A text is a sequence of bytes. *)
Abbreviation text := (list Z).

Definition is_digit (b : Z) : bool := (48 <=? b) && (b <=? 57).

(** [utf8.EncodeRune]. *)
Definition encode_rune (r : Z) : list Z :=
  if bool_decide (r < 0x80) then [r]
  else if bool_decide (r < 0x800) then [0xC0 + r / 0x40; 0x80 + r mod 0x40]
  else if bool_decide (r < 0x10000)
  then [0xE0 + r / 0x1000; 0x80 + r / 0x40 mod 0x40; 0x80 + r mod 0x40]
  else [0xF0 + r / 0x40000; 0x80 + r / 0x1000 mod 0x40; 0x80 + r / 0x40 mod 0x40; 0x80 + r mod 0x40].

Fixpoint string_of_bytes (bs : list Z) : string :=
  match bs with
  | [] => ""
  | b :: rest => String (Ascii.ascii_of_N (Z.to_N b)) (string_of_bytes rest)
  end.

(** Bytes with everything that is not valid UTF-8 replaced by U+FFFD. *)
Definition valid_bytes (bs : list Z) : list Z := mjoin (encode_rune <$> runes_from 0 bs).

(** A string as [encoding/json] reads and writes it. *)
Definition to_valid_utf8 (s : string) : string := string_of_bytes (valid_bytes (bytes_of s)).

Definition is_byte (b : Z) : Prop := 0 <= b <= 255.

(** [utf16.IsSurrogate], and the rune of a surrogate pair. *)
Definition IsSurrogate (r : Z) : bool := in_range 0xD800 r 0xDFFF.

Definition DecodeRune16 (r1 r2 : Z) : Z :=
  if in_range 0xD800 r1 0xDBFF && in_range 0xDC00 r2 0xDFFF
  then (r1 - 0xD800) * 0x400 + (r2 - 0xDC00) + 0x10000
  else RuneError.

(** The runes UTF-8 can carry. *)
Definition scalar (r : Z) : Prop := 0 <= r < 0xD800 \/ 0xDFFF < r <= 0x10FFFF.

(** ** Bytes and strings *)

Lemma bytes_of_app s t : bytes_of (s +:+ t) = bytes_of s ++ bytes_of t.
Proof. induction s as [|c s IH]; simpl; [done|]. by rewrite IH. Qed.

Lemma string_of_bytes_app l k : string_of_bytes (l ++ k) = string_of_bytes l +:+ string_of_bytes k.
Proof. induction l as [|b l IH]; simpl; [done|]. by rewrite IH. Qed.

Lemma string_of_bytes_of s : string_of_bytes (bytes_of s) = s.
Proof.
  induction s as [|c s IH]; simpl; [done|]. by rewrite N2Z.id, ascii_N_embedding, IH.
Qed.

Lemma bytes_of_bytes s : Forall is_byte (bytes_of s).
Proof.
  induction s as [|c s IH]; simpl; constructor; [|done].
  pose proof (N_ascii_bounded c). unfold is_byte. lia.
Qed.

Lemma bytes_of_string_of bs : Forall is_byte bs -> bytes_of (string_of_bytes bs) = bs.
Proof.
  induction 1 as [|b bs Hb _ IH]; simpl; [done|]. unfold is_byte in Hb.
  rewrite N_ascii_embedding by lia. rewrite Z2N.id, IH by lia. done.
Qed.

(** ** Encoding and decoding *)

(** Turns the boolean tests of the decoder into inequalities. *)
Ltac byte_tests :=
  repeat match goal with
  | H : _ && _ = true |- _ => apply andb_true_iff in H as [? ?]
  | H : in_range _ _ _ = true |- _ => apply in_range_true in H
  | H : bool_decide _ = true |- _ => apply bool_decide_eq_true in H
  | H : bool_decide _ = false |- _ => apply bool_decide_eq_false in H
  end.

#[local] Ltac Zify.zify_post_hook ::= Z.div_mod_to_equations.

Lemma in_range_intro lo b hi : lo <= b <= hi -> in_range lo b hi = true.
Proof. apply in_range_true. Qed.

Lemma in_range_low lo b hi : b < lo -> in_range lo b hi = false.
Proof. intros H. unfold in_range. by rewrite bool_decide_false by lia. Qed.

Lemma in_range_high lo b hi : hi < b -> in_range lo b hi = false.
Proof. intros H. unfold in_range. rewrite andb_comm. by rewrite bool_decide_false by lia. Qed.

(** Decoding undoes encoding, whatever follows. *)
Lemma decode_encode_rune r k :
  scalar r -> decode_rune (encode_rune r ++ k) = (r, length (encode_rune r)).
Proof.
  intros Hr. unfold scalar in Hr. unfold encode_rune.
  repeat case_bool_decide; simpl.
  - by rewrite bool_decide_true.
  - rewrite bool_decide_false by lia. rewrite !in_range_intro by lia. f_equal. lia.
  - rewrite bool_decide_false by lia. rewrite in_range_high by lia.
    rewrite in_range_intro by lia. rewrite (in_range_intro 0x80 (0x80 + r mod 0x40)) by lia.
    rewrite andb_true_r. repeat case_bool_decide; rewrite in_range_intro by lia; f_equal; lia.
  - rewrite bool_decide_false by lia. rewrite !(in_range_high _ (0xF0 + r / 0x40000)) by lia.
    rewrite in_range_intro by lia.
    rewrite (in_range_intro 0x80 (0x80 + r mod 0x40)), (in_range_intro 0x80 (0x80 + r / 0x40 mod 0x40)) by lia.
    rewrite !andb_true_r. repeat case_bool_decide; rewrite in_range_intro by lia; f_equal; lia.
Qed.

(** What [DecodeRune] can answer: nothing at the end, the error of width 1, or a
    scalar whose encoding is in front. *)
Lemma decode_rune_cases b bs r w :
  0 <= b -> decode_rune (b :: bs) = (r, w) ->
  (r = RuneError /\ w = 1%nat) \/
  (scalar r /\ w = length (encode_rune r) /\ exists k, b :: bs = encode_rune r ++ k).
Proof.
  intros Hb. unfold decode_rune.
  repeat case_match; intros [= <- <-]; try (by left); right; byte_tests; simplify_eq/=.
  all: unfold scalar, encode_rune; repeat (case_bool_decide; try lia).
  all: (split; [lia|split; [done|]]; eexists; simpl; repeat (f_equal; [lia|..]); reflexivity).
Qed.

Lemma encode_rune_length r : (1 <= length (encode_rune r) <= 4)%nat.
Proof. unfold encode_rune. repeat case_bool_decide; simpl; lia. Qed.

Lemma RuneError_scalar : scalar RuneError.
Proof. unfold scalar, RuneError. lia. Qed.

Lemma decode_rune_scalar b bs r w : 0 <= b -> decode_rune (b :: bs) = (r, w) -> scalar r.
Proof.
  intros Hb H. destruct (decode_rune_cases b bs r w Hb H) as [[-> _]|[? _]]; [|done].
  apply RuneError_scalar.
Qed.

Lemma encode_rune_bytes r : scalar r -> Forall is_byte (encode_rune r).
Proof.
  intros Hr. unfold scalar in Hr. unfold encode_rune, is_byte.
  repeat case_bool_decide; repeat constructor; lia.
Qed.

(** ** The runes of a byte sequence *)

Lemma runes_from_skip n bs : runes_from n bs = runes_from 0 (drop n bs).
Proof.
  revert n. induction bs as [|b bs IH]; intros [|n]; [done..|]. simpl. by rewrite IH.
Qed.

(** The loop over the runes takes one encoded rune at a time. *)
Lemma runes_from_encode r k : scalar r -> runes_from 0 (encode_rune r ++ k) = r :: runes_from 0 k.
Proof.
  intros Hr. pose proof (decode_encode_rune r k Hr) as Hd.
  pose proof (encode_rune_length r) as Hl.
  destruct (encode_rune r) as [|b e] eqn:E; simpl in Hl; [lia|]. simpl app in *.
  cbn [runes_from]. rewrite Hd. f_equal. rewrite runes_from_skip. simpl.
  by rewrite drop_app_length.
Qed.

Lemma valid_bytes_encode r k : scalar r -> valid_bytes (encode_rune r ++ k) = encode_rune r ++ valid_bytes k.
Proof. intros Hr. unfold valid_bytes. by rewrite runes_from_encode. Qed.

(** Induction on a byte sequence the way [range] walks it. *)
Lemma runes_ind (P : list Z -> Prop) :
  P [] ->
  (forall b bs, decode_rune (b :: bs) = (RuneError, 1%nat) -> P bs -> P (b :: bs)) ->
  (forall r bs, scalar r -> P bs -> P (encode_rune r ++ bs)) ->
  forall bs, Forall is_byte bs -> P bs.
Proof.
  intros Hnil Herr Hrune bs. remember (length bs) as n eqn:Hn. revert bs Hn.
  induction (lt_wf n) as [n _ IH]; intros bs Hn Hb.
  destruct bs as [|b bs]; [done|]. apply Forall_cons in Hb as Hb'. destruct Hb' as [H0 Hbs].
  destruct (decode_rune (b :: bs)) as [r w] eqn:E.
  destruct (decode_rune_cases b bs r w) as [[-> ->]|(Hs & _ & k & Hk)]; [by destruct H0|done| |].
  - apply Herr; [done|]. eapply IH; [|done|done]. simpl in Hn. lia.
  - rewrite Hk in *. apply Forall_app in Hb as [_ Hk'].
    apply Hrune; [done|]. eapply IH; [|done|done].
    rewrite length_app in Hn. pose proof (encode_rune_length r). lia.
Qed.

Lemma valid_bytes_error b bs :
  decode_rune (b :: bs) = (RuneError, 1%nat) -> valid_bytes (b :: bs) = encode_rune RuneError ++ valid_bytes bs.
Proof. intros H. unfold valid_bytes. cbn [runes_from]. by rewrite H. Qed.

Lemma valid_bytes_idemp bs : Forall is_byte bs -> valid_bytes (valid_bytes bs) = valid_bytes bs.
Proof.
  revert bs. apply runes_ind; [done| |].
  - intros b bs H IH. rewrite (valid_bytes_error b bs H).
    rewrite valid_bytes_encode by apply RuneError_scalar. by rewrite IH.
  - intros r bs Hr IH. by rewrite !valid_bytes_encode, IH.
Qed.

Lemma valid_bytes_bytes bs : Forall is_byte bs -> Forall is_byte (valid_bytes bs).
Proof.
  revert bs. apply runes_ind; [constructor| |].
  - intros b bs H IH. rewrite (valid_bytes_error b bs H). apply Forall_app. split; [|done].
    apply encode_rune_bytes, RuneError_scalar.
  - intros r bs Hr IH. rewrite valid_bytes_encode by done. apply Forall_app.
    split; [by apply encode_rune_bytes|done].
Qed.

Lemma bytes_of_to_valid s : bytes_of (to_valid_utf8 s) = valid_bytes (bytes_of s).
Proof. unfold to_valid_utf8. apply bytes_of_string_of, valid_bytes_bytes, bytes_of_bytes. Qed.

Lemma to_valid_idemp s : to_valid_utf8 (to_valid_utf8 s) = to_valid_utf8 s.
Proof.
  unfold to_valid_utf8 at 1. rewrite bytes_of_to_valid. by rewrite valid_bytes_idemp by apply bytes_of_bytes.
Qed.
