(* ===== verification/Rfc3339.v ===== *)
(** The text of an instant. [time.Time] marshals to RFC 3339 with as many digits
    of the second as it needs, and is read back by [parseStrictRFC3339]. An
    instant is a number of nanoseconds since January 1 of year 1, UTC, the zero
    of [time.Time]. The class [TimeText] is what the codecs rely on; the
    instance [utc_time] is a process whose local zone is UTC. *)

From Stdlib Require Import Ascii.
From S2P Require Import Prelude GoStrings Model Utf8.

(** ** The calendar *)

(** [Marshal] refuses instants outside the years 0 to 9999. *)
Definition in_years (t : Z) : bool :=
  bool_decide (-31622400 * second <= t) && bool_decide (t < 315537897600 * second).

(** Days between the start of an era of 400 years, March 1 of year 0, and
    January 1 of year 1. *)
Definition epoch_offset : Z := 306.

Definition days_per_era : Z := 146097.

Record civil := mkCivil { c_year : Z; c_month : Z; c_day : Z }.

(** The date of a day of an era, counted from March 1: the year of the era, the
    day of that year, the month from March. *)
Definition civil_of_doe (doe : Z) : civil :=
  let yoe := (doe - doe / 1460 + doe / 36524 - doe / 146096) / 365 in
  let doy := doe - (365 * yoe + yoe / 4 - yoe / 100) in
  let mp := (5 * doy + 2) / 153 in
  let m := if mp <? 10 then mp + 3 else mp - 9 in
  mkCivil (if m <=? 2 then yoe + 1 else yoe) m (doy - (153 * mp + 2) / 5 + 1).

Definition civil_of_days (days : Z) : civil :=
  let z := days + epoch_offset in
  let c := civil_of_doe (z mod days_per_era) in
  mkCivil (c_year c + 400 * (z / days_per_era)) (c_month c) (c_day c).

Definition is_leap (y : Z) : bool := (y mod 4 =? 0) && (negb (y mod 100 =? 0) || (y mod 400 =? 0)).

Definition daysIn (m y : Z) : Z :=
  if m =? 2 then (if is_leap y then 29 else 28)
  else if (m =? 4) || (m =? 6) || (m =? 9) || (m =? 11) then 30 else 31.

Definition days_of_civil (c : civil) : Z :=
  let y := if c_month c <=? 2 then c_year c - 1 else c_year c in
  let mp := if 2 <? c_month c then c_month c - 3 else c_month c + 9 in
  let yoe := y mod 400 in
  let doy := (153 * mp + 2) / 5 + c_day c - 1 in
  y / 400 * days_per_era + (yoe * 365 + yoe / 4 - yoe / 100 + doy) - epoch_offset.

(** ** Writing *)

(** The last [k] decimal digits of a number. *)
Fixpoint dec (k : nat) (n : Z) : text :=
  match k with O => [] | S k => dec k (n / 10) ++ [48 + n mod 10] end.

Fixpoint trim_zeros (ds : text) : text :=
  match ds with
  | [] => []
  | b :: ds => match trim_zeros ds with [] => if b =? 48 then [] else [b] | t => b :: t end
  end.

Definition nano_text (ns : Z) : text := if ns =? 0 then [] else 46 :: trim_zeros (dec 9 ns).

Definition rfc3339_text (t : Z) : text :=
  let secs := t / second in
  let c := civil_of_days (secs / 86400) in
  let sod := secs mod 86400 in
  dec 4 (c_year c) ++ [45] ++ dec 2 (c_month c) ++ [45] ++ dec 2 (c_day c) ++ [84] ++
  dec 2 (sod / 3600) ++ [58] ++ dec 2 (sod / 60 mod 60) ++ [58] ++ dec 2 (sod mod 60) ++
  nano_text (t mod second) ++ [90].

(** ** Reading *)

Fixpoint undec (acc : Z) (ds : text) : option Z :=
  match ds with
  | [] => Some acc
  | b :: ds => if is_digit b then undec (acc * 10 + (b - 48)) ds else None
  end.

(** [parseUint] with its bounds. *)
Definition uint_in (lo hi : Z) (ds : text) : option Z :=
  n ← undec 0 ds; if (lo <=? n) && (n <=? hi) then Some n else None.

Fixpoint span_digits (s : text) : text * text :=
  match s with
  | b :: rest => if is_digit b then let (ds, r) := span_digits rest in (b :: ds, r) else ([], s)
  | [] => ([], [])
  end.

(** [parseNanoseconds]: nine digits count. *)
Definition nanos (ds : text) : Z := default 0 (undec 0 (firstn 9 (ds ++ replicate 9 48))).

(** The fraction of the second, if at least one digit follows the point. *)
Definition opt_nanos (s : text) : Z * text :=
  match s with
  | p :: b :: rest =>
      if (p =? 46) && is_digit b
      then let (ds, r) := span_digits (b :: rest) in (nanos ds, r) else (0, s)
  | _ => (0, s)
  end.

(** The offset of the zone in seconds. *)
Definition zone (s : text) : option Z :=
  match s with
  | [z] => if z =? 90 then Some 0 else None
  | [sg; h1; h2; c; m1; m2] =>
      hr ← uint_in 0 23 [h1; h2];
      mm ← uint_in 0 59 [m1; m2];
      if ((sg =? 45) || (sg =? 43)) && (c =? 58)
      then Some ((hr * 60 + mm) * 60 * (if sg =? 45 then -1 else 1)) else None
  | _ => None
  end.

Definition parse_rfc3339 (s : text) : option Z :=
  match s with
  | y1 :: y2 :: y3 :: y4 :: p1 :: m1 :: m2 :: p2 :: d1 :: d2 :: p3 ::
      h1 :: h2 :: p4 :: n1 :: n2 :: p5 :: s1 :: s2 :: rest =>
      year ← uint_in 0 9999 [y1; y2; y3; y4];
      month ← uint_in 1 12 [m1; m2];
      day ← uint_in 1 (daysIn month year) [d1; d2];
      hour ← uint_in 0 23 [h1; h2];
      min ← uint_in 0 59 [n1; n2];
      sec ← uint_in 0 59 [s1; s2];
      if (p1 =? 45) && (p2 =? 45) && (p3 =? 84) && (p4 =? 58) && (p5 =? 58) then
        let (ns, rest) := opt_nanos rest in
        off ← zone rest;
        Some ((days_of_civil (mkCivil year month day) * 86400 + hour * 3600 + min * 60 + sec - off)
                * second + ns)
      else None
  | _ => None
  end.

(** ** The interface *)

(** What the codecs rely on: an instant of the years 0 to 9999 is read back, and
    a text that is not UTF-8 is no instant, also after its repair. *)
Class TimeText := {
  time_text : Z -> string;
  parse_time : string -> option Z;
  parse_time_text t : in_years t = true -> parse_time (time_text t) = Some t;
  parse_time_valid s : parse_time (to_valid_utf8 s) = parse_time s;
}.

(** ** The calendar is a bijection *)

#[local] Ltac Zify.zify_post_hook ::= Z.div_mod_to_equations.

Definition year_of_era (doe : Z) : Z := (doe - doe / 1460 + doe / 36524 - doe / 146096) / 365.
Definition day_of_year (doe : Z) : Z :=
  let yoe := year_of_era doe in doe - (365 * yoe + yoe / 4 - yoe / 100).

Lemma year_of_era_bound doe : 0 <= doe < days_per_era -> 0 <= year_of_era doe < 400.
Proof. unfold year_of_era, days_per_era. lia. Qed.

Lemma day_of_year_bound doe : 0 <= doe < days_per_era -> 0 <= day_of_year doe <= 365.
Proof. unfold day_of_year, year_of_era, days_per_era. lia. Qed.

(** The 366th day from March 1 is February 29 of a leap year. *)
Lemma last_day_leap doe :
  0 <= doe < days_per_era -> day_of_year doe = 365 -> is_leap (year_of_era doe + 1) = true.
Proof.
  intros Hd Hy. unfold day_of_year in Hy. unfold is_leap.
  assert ((year_of_era doe + 1) mod 4 = 0 /\
    ((year_of_era doe + 1) mod 100 <> 0 \/ (year_of_era doe + 1) mod 400 = 0)) as [H1 H2].
  { unfold year_of_era, days_per_era in *. lia. }
  rewrite H1, Z.eqb_refl. simpl. apply orb_true_iff.
  destruct H2 as [H2|H2]; [left; by apply negb_true_iff, Z.eqb_neq|right; by apply Z.eqb_eq].
Qed.

Lemma civil_of_doe_eq doe :
  let mp := (5 * day_of_year doe + 2) / 153 in
  let m := if mp <? 10 then mp + 3 else mp - 9 in
  civil_of_doe doe =
  mkCivil (if m <=? 2 then year_of_era doe + 1 else year_of_era doe) m
    (day_of_year doe - (153 * mp + 2) / 5 + 1).
Proof. done. Qed.

Lemma is_leap_era y e : is_leap (y + 400 * e) = is_leap y.
Proof.
  unfold is_leap.
  replace ((y + 400 * e) mod 4) with (y mod 4) by lia.
  replace ((y + 400 * e) mod 100) with (y mod 100) by lia.
  by replace ((y + 400 * e) mod 400) with (y mod 400) by lia.
Qed.

Lemma civil_of_doe_ranges doe :
  0 <= doe < days_per_era ->
  let c := civil_of_doe doe in
  1 <= c_month c <= 12 /\ 1 <= c_day c <= daysIn (c_month c) (c_year c).
Proof.
  intros Hd. rewrite civil_of_doe_eq. pose proof (day_of_year_bound doe Hd) as Hy.
  pose proof (last_day_leap doe Hd) as Hleap.
  set (y := year_of_era doe) in *. set (doy := day_of_year doe) in *.
  set (mp := (5 * doy + 2) / 153). cbn zeta. cbn [c_month c_day c_year].
  assert (0 <= mp <= 11) as Hmp by (subst mp; lia).
  assert (153 * mp <= 5 * doy + 2 < 153 * mp + 153) as Hdoy by (subst mp; lia).
  clearbody y doy mp. clear Hd.
  assert (mp = 0 \/ mp = 1 \/ mp = 2 \/ mp = 3 \/ mp = 4 \/ mp = 5 \/ mp = 6 \/ mp = 7 \/ mp = 8 \/
    mp = 9 \/ mp = 10 \/ mp = 11) as Hcases by lia.
  repeat destruct Hcases as [->|Hcases]; [..|subst mp];
    match goal with |- context [daysIn ?e _] => let v := eval vm_compute in e in change e with v end;
    cbn -[is_leap]; try lia.
  destruct (decide (doy = 365)) as [->|Hn]; [rewrite Hleap by done; lia|].
  destruct (is_leap (y + 1)); lia.
Qed.

Lemma days_of_civil_doe doe e :
  0 <= doe < days_per_era ->
  let c := civil_of_doe doe in
  days_of_civil (mkCivil (c_year c + 400 * e) (c_month c) (c_day c)) = e * days_per_era + doe - epoch_offset.
Proof.
  intros Hd. rewrite civil_of_doe_eq. pose proof (day_of_year_bound doe Hd) as Hy.
  pose proof (year_of_era_bound doe Hd) as Hyoe.
  assert (doe = year_of_era doe * 365 + year_of_era doe / 4 - year_of_era doe / 100 + day_of_year doe)
    as Hdoe by (unfold day_of_year; lia).
  set (y := year_of_era doe) in *. set (doy := day_of_year doe) in *.
  set (mp := (5 * doy + 2) / 153). cbn zeta. unfold days_of_civil. cbn [c_month c_day c_year].
  assert (0 <= mp <= 11) as Hmp by (subst mp; lia). clearbody mp.
  set (m := if mp <? 10 then mp + 3 else mp - 9).
  assert ((if 2 <? m then m - 3 else m + 9) = mp) as ->.
  { subst m. destruct (mp <? 10) eqn:E; [rewrite (proj2 (Z.ltb_lt 2 _)) by lia; lia|].
    rewrite (proj2 (Z.ltb_ge 2 _)) by lia. lia. }
  assert ((if m <=? 2 then (if m <=? 2 then y + 1 else y) + 400 * e - 1
           else (if m <=? 2 then y + 1 else y) + 400 * e) = y + 400 * e) as ->.
  { destruct (m <=? 2); lia. }
  replace ((y + 400 * e) mod 400) with y by lia.
  replace ((y + 400 * e) / 400) with e by lia. lia.
Qed.

Lemma days_of_civil_of n : days_of_civil (civil_of_days n) = n.
Proof.
  unfold civil_of_days. rewrite days_of_civil_doe; [|apply Z.mod_pos_bound; done].
  pose proof (Z.div_mod (n + epoch_offset) days_per_era). unfold days_per_era, epoch_offset in *. lia.
Qed.

Lemma civil_of_days_ranges n :
  let c := civil_of_days n in
  1 <= c_month c <= 12 /\ 1 <= c_day c <= daysIn (c_month c) (c_year c).
Proof.
  pose proof (civil_of_doe_ranges ((n + epoch_offset) mod days_per_era)
    ltac:(apply Z.mod_pos_bound; done)) as Hr.
  unfold civil_of_days. cbn zeta in *. cbn [c_month c_day c_year].
  unfold daysIn in *. by rewrite is_leap_era.
Qed.

Lemma civil_of_days_year n : -366 <= n <= 3652058 -> 0 <= c_year (civil_of_days n) <= 9999.
Proof.
  intros Hn. unfold civil_of_days. cbn [c_year]. rewrite civil_of_doe_eq. cbn zeta. cbn [c_year].
  set (z := n + epoch_offset) in *. assert (-60 <= z <= 3652364) as Hz by (subst z; unfold epoch_offset; lia).
  clearbody z. set (doe := z mod days_per_era).
  assert (0 <= doe < days_per_era) as Hd by (subst doe; apply Z.mod_pos_bound; done).
  assert (z = days_per_era * (z / days_per_era) + doe) as He by (subst doe; apply Z.div_mod; done).
  set (e := z / days_per_era) in *. clearbody doe e.
  pose proof (year_of_era_bound doe Hd). pose proof (day_of_year_bound doe Hd).
  assert (doe = year_of_era doe * 365 + year_of_era doe / 4 - year_of_era doe / 100 + day_of_year doe)
    as Hdoe by (unfold day_of_year; lia).
  set (y := year_of_era doe) in *. set (doy := day_of_year doe) in *. clearbody y doy.
  unfold days_per_era in *.
  set (mp := (5 * doy + 2) / 153). assert (153 * mp <= 5 * doy + 2 < 153 * mp + 153) as Hmp by (subst mp; lia).
  clearbody mp. destruct (mp <? 10) eqn:E1.
  - destruct (mp + 3 <=? 2) eqn:E2; lia.
  - destruct (mp - 9 <=? 2) eqn:E2; lia.
Qed.

(** ** Digits *)

Lemma dec_length k n : length (dec k n) = k.
Proof. revert n. induction k as [|k IH]; intros n; simpl; [done|]. rewrite length_app, IH. simpl. lia. Qed.

Lemma dec_digits k n : Forall (fun b => is_digit b = true) (dec k n).
Proof.
  revert n. induction k as [|k IH]; intros n; simpl; [constructor|].
  apply Forall_app. split; [apply IH|]. constructor; [|constructor]. unfold is_digit. lia.
Qed.

Lemma undec_app acc l k : undec acc (l ++ k) = a ← undec acc l; undec a k.
Proof.
  revert acc. induction l as [|b l IH]; intros acc; simpl; [done|]. destruct (is_digit b); [apply IH|done].
Qed.

Lemma undec_dec k n acc : undec acc (dec k n) = Some (acc * 10 ^ Z.of_nat k + n mod 10 ^ Z.of_nat k).
Proof.
  revert n acc. induction k as [|k IH]; intros n acc.
  - cbn -[Z.modulo]. f_equal. lia.
  - cbn [dec]. rewrite undec_app, IH. cbn [mbind option_bind undec].
    assert (is_digit (48 + n mod 10) = true) as -> by (unfold is_digit; lia). f_equal.
    rewrite Nat2Z.inj_succ, Z.pow_succ_r by lia.
    rewrite (Z.rem_mul_r n 10 (10 ^ Z.of_nat k)) by lia. lia.
Qed.

Lemma uint_in_dec lo hi k n :
  lo <= n <= hi -> 0 <= n < 10 ^ Z.of_nat k -> uint_in lo hi (dec k n) = Some n.
Proof.
  intros Hr Hn. unfold uint_in. rewrite undec_dec. cbn [mbind option_bind].
  rewrite Z.mod_small, Z.mul_0_l, Z.add_0_l by done.
  by rewrite (proj2 (Z.leb_le lo n)), (proj2 (Z.leb_le n hi)) by lia.
Qed.

(** Zeros cut off at the end come back as padding. *)
Lemma trim_pad ds : exists n, ds = trim_zeros ds ++ replicate n 48.
Proof.
  induction ds as [|b ds [n IH]]; [by exists 0%nat|]. simpl.
  destruct (trim_zeros ds) as [|t ts]; simpl in *.
  - destruct (b =? 48) eqn:E; [|by exists n; rewrite IH at 1].
    apply Z.eqb_eq in E. subst b. exists (S n). simpl. by rewrite <- IH.
  - exists n. by rewrite IH at 1.
Qed.

Lemma nanos_trim ds n :
  length ds = 9%nat -> undec 0 ds = Some n -> nanos (trim_zeros ds) = n.
Proof.
  intros Hl Hu. unfold nanos. destruct (trim_pad ds) as [k Hk].
  assert (firstn 9 (trim_zeros ds ++ replicate 9 48) = ds) as ->; [|by rewrite Hu].
  assert (length (trim_zeros ds) + k = 9)%nat as Hlen.
  { rewrite Hk, length_app, length_replicate in Hl. done. }
  rewrite firstn_app, firstn_all2 by lia.
  rewrite Hk at 3. f_equal. replace (9 - length (trim_zeros ds))%nat with k by lia.
  rewrite take_replicate. f_equal. lia.
Qed.

Lemma trim_digits ds : Forall (fun b => is_digit b = true) ds -> Forall (fun b => is_digit b = true) (trim_zeros ds).
Proof.
  intros H. destruct (trim_pad ds) as [k Hk]. rewrite Hk in H. by apply Forall_app in H as [H _].
Qed.

Lemma span_digits_app ds k :
  Forall (fun b => is_digit b = true) ds -> (forall b r, k = b :: r -> is_digit b = false) ->
  span_digits (ds ++ k) = (ds, k).
Proof.
  intros Hd Hk. induction Hd as [|b ds Hb _ IH]; simpl.
  - destruct k as [|b r]; [done|]. simpl. by rewrite (Hk b r eq_refl).
  - by rewrite Hb, IH.
Qed.

Lemma trim_nonzero ds n : undec 0 ds = Some n -> n <> 0 -> trim_zeros ds <> [].
Proof.
  intros Hu Hn Ht. destruct (trim_pad ds) as [k Hk]. rewrite Ht in Hk. simpl in Hk. subst ds.
  assert (undec 0 (replicate k 48) = Some 0) as H0 by (clear; by induction k).
  rewrite H0 in Hu. congruence.
Qed.

Lemma opt_nanos_text ns : 0 <= ns < second -> opt_nanos (nano_text ns ++ [90]) = (ns, [90]).
Proof.
  intros Hns. unfold nano_text. destruct (ns =? 0) eqn:E; [apply Z.eqb_eq in E; by subst|].
  apply Z.eqb_neq in E.
  assert (undec 0 (dec 9 ns) = Some ns) as Hu.
  { rewrite undec_dec. f_equal. unfold second in Hns. change (Z.of_nat 9) with 9. rewrite Z.mod_small; lia. }
  pose proof (trim_nonzero _ _ Hu E) as Hne. pose proof (trim_digits _ (dec_digits 9 ns)) as Hd.
  pose proof (nanos_trim _ _ (dec_length 9 ns) Hu) as Hn.
  destruct (trim_zeros (dec 9 ns)) as [|b ds]; [done|].
  rewrite <- !app_comm_cons. unfold opt_nanos. destruct (proj1 (Forall_cons _ _ _) Hd) as [Hb _].
  rewrite Z.eqb_refl, Hb. simpl andb. cbv iota.
  rewrite app_comm_cons, span_digits_app; [by rewrite Hn|done|]. by intros ? ? [= <- <-].
Qed.

(** ** The text is read back *)

Lemma parse_rfc3339_text t : in_years t = true -> parse_rfc3339 (rfc3339_text t) = Some t.
Proof.
  intros Hy. unfold in_years in Hy. apply andb_true_iff in Hy as [H1%bool_decide_eq_true H2%bool_decide_eq_true].
  set (days := t / second / 86400). set (sod := t / second mod 86400).
  assert (-366 <= days <= 3652058) as Hdays by (subst days; unfold second in *; lia).
  pose proof (civil_of_days_year days Hdays) as Hyear.
  destruct (civil_of_days_ranges days) as [Hmonth Hday].
  pose proof (days_of_civil_of days) as Hback.
  assert (0 <= sod < 86400) as Hsod by (subst sod; lia).
  assert (0 <= t mod second < second) as Hns by (apply Z.mod_pos_bound; done).
  assert (t = (days * 86400 + sod) * second + t mod second) as Ht.
  { subst days sod. unfold second in *. lia. }
  unfold rfc3339_text. fold days sod. cbn zeta.
  destruct (civil_of_days days) as [y m d]. cbn [c_year c_month c_day] in *.
  assert (c_day (mkCivil y m d) <= 31) as Hd31.
  { cbn [c_day]. revert Hday. unfold daysIn. repeat case_match; lia. }
  cbn [c_day] in Hd31.
  pose proof (opt_nanos_text (t mod second) Hns) as Hnano.
  pose proof (uint_in_dec 0 9999 4 y ltac:(lia) ltac:(lia)) as Ey.
  pose proof (uint_in_dec 1 12 2 m ltac:(lia) ltac:(lia)) as Em.
  pose proof (uint_in_dec 1 (daysIn m y) 2 d ltac:(lia) ltac:(lia)) as Ed.
  pose proof (uint_in_dec 0 23 2 (sod / 3600) ltac:(lia) ltac:(lia)) as Eh.
  pose proof (uint_in_dec 0 59 2 (sod / 60 mod 60) ltac:(lia) ltac:(lia)) as En.
  pose proof (uint_in_dec 0 59 2 (sod mod 60) ltac:(lia) ltac:(lia)) as Es.
  cbn [dec app] in *. unfold parse_rfc3339.
  rewrite Ey. cbn [mbind option_bind]. rewrite Em. cbn [mbind option_bind].
  rewrite Ed. cbn [mbind option_bind]. rewrite Eh. cbn [mbind option_bind].
  rewrite En. cbn [mbind option_bind]. rewrite Es. cbn [mbind option_bind].
  rewrite !Z.eqb_refl. simpl andb. cbv iota. rewrite Hnano. simpl zone. cbn [mbind option_bind].
  apply f_equal. rewrite Hback. etransitivity; [|symmetry; exact Ht].
  clear Ht Hns Hnano H1 H2 Hback. clearbody sod days. f_equal. f_equal. lia.
Qed.

(** ** The instance *)

Lemma digit_ascii b : is_digit b = true -> 0 <= b < 0x80.
Proof. unfold is_digit. lia. Qed.

Definition is_ascii (b : Z) : bool := (0 <=? b) && (b <? 0x80).

Lemma valid_ascii bs : forallb is_ascii bs = true -> valid_bytes bs = bs.
Proof.
  induction bs as [|b bs IH]; [done|]. simpl. intros [Hb Hbs]%andb_true_iff. unfold is_ascii in Hb.
  assert (encode_rune b = [b]) as He by (unfold encode_rune; by rewrite bool_decide_true by lia).
  change (b :: bs) with ([b] ++ bs). rewrite <- He at 1.
  rewrite valid_bytes_encode by (unfold scalar; lia). by rewrite He, IH.
Qed.

Lemma valid_ascii_iff bs : Forall is_byte bs -> forallb is_ascii (valid_bytes bs) = forallb is_ascii bs.
Proof.
  revert bs. apply runes_ind; [done| |].
  - intros b bs H IH. rewrite (valid_bytes_error b bs H). simpl.
    destruct (is_ascii b) eqn:E; [|done]. exfalso. unfold is_ascii in E. revert H. unfold decode_rune.
    rewrite bool_decide_true by lia. intros [= ->]. by vm_compute in E.
  - intros r bs Hr IH. rewrite valid_bytes_encode by done. by rewrite !forallb_app, IH.
Qed.

Lemma undec_ascii ds acc n : undec acc ds = Some n -> forallb is_ascii ds = true.
Proof.
  revert acc. induction ds as [|b ds IH]; intros acc; simpl; [done|].
  destruct (is_digit b) eqn:E; [|done]. intros H. rewrite (IH _ H), andb_true_r.
  apply digit_ascii in E. unfold is_ascii. lia.
Qed.

Lemma uint_ascii lo hi ds n : uint_in lo hi ds = Some n -> forallb is_ascii ds = true.
Proof.
  unfold uint_in. destruct (undec 0 ds) eqn:E; [|done]. intros _. by eapply undec_ascii.
Qed.

Lemma span_digits_ascii s ds r :
  span_digits s = (ds, r) -> forallb is_ascii r = true -> forallb is_ascii s = true.
Proof.
  revert ds. induction s as [|b s IH]; intros ds; simpl; [done|].
  destruct (is_digit b) eqn:E; [|by intros [= <- <-]].
  destruct (span_digits s) as [ds' r'] eqn:Es. intros [= <- ->] Hr. rewrite (IH _ eq_refl Hr), andb_true_r.
  apply digit_ascii in E. unfold is_ascii. lia.
Qed.

Lemma opt_nanos_ascii s ns r :
  opt_nanos s = (ns, r) -> forallb is_ascii r = true -> forallb is_ascii s = true.
Proof.
  destruct s as [|p [|b s]]; [by intros [= <- <-]..|]. unfold opt_nanos.
  destruct ((p =? 46) && is_digit b) eqn:E; [|by intros [= <- <-]].
  destruct (span_digits (b :: s)) as [ds r'] eqn:Es. intros [= <- <-] Hr.
  apply andb_true_iff in E as [->%Z.eqb_eq _]. apply (span_digits_ascii _ _ _ Es Hr).
Qed.

Lemma zone_ascii s off : zone s = Some off -> forallb is_ascii s = true.
Proof.
  destruct s as [|z [|h1 [|h2 [|c [|m1 [|m2 [|? ?]]]]]]]; try done; cbn [zone].
  - destruct (z =? 90) eqn:E; [|done]. by apply Z.eqb_eq in E as ->.
  - destruct (uint_in 0 23 [h1; h2]) eqn:Eh; [|done]. destruct (uint_in 0 59 [m1; m2]) eqn:Em; [|done].
    cbn [mbind option_bind]. case_match eqn:E; [|done]. intros _.
    apply uint_ascii in Eh. apply uint_ascii in Em. simpl in *.
    apply andb_true_iff in E as [E ->%Z.eqb_eq].
    assert (is_ascii z = true) as -> by (by apply orb_true_iff in E as [->%Z.eqb_eq| ->%Z.eqb_eq]).
    destruct (is_ascii h1), (is_ascii h2), (is_ascii m1), (is_ascii m2); done.
Qed.

Lemma parse_rfc3339_ascii s t : parse_rfc3339 s = Some t -> forallb is_ascii s = true.
Proof.
  do 19 (destruct s as [|? s]; [done|]). unfold parse_rfc3339.
  do 6 (match goal with |- (?c ≫= _) = _ -> _ =>
          let E := fresh "E" in destruct c eqn:E; [apply uint_ascii in E|done]; cbn [mbind option_bind]
        end).
  case_match eqn:E7; [|done].
  destruct (opt_nanos s) as [ns rest] eqn:E8. destruct (zone rest) eqn:E9; [|done]. intros _.
  apply zone_ascii in E9. apply (opt_nanos_ascii _ _ _ E8) in E9.
  repeat match goal with
  | H : _ && _ = true |- _ => apply andb_true_iff in H as [? ?]
  | H : (_ =? _) = true |- _ => apply Z.eqb_eq in H as ->
  | H : forallb is_ascii (_ :: _) = true |- _ => cbn [forallb] in H
  end.
  cbn [forallb]. rewrite E9.
  repeat match goal with H : is_ascii _ = true |- _ => rewrite H; clear H end. done.
Qed.

#[export] Program Instance utc_time : TimeText := {
  time_text t := string_of_bytes (rfc3339_text t);
  parse_time s := parse_rfc3339 (bytes_of s);
}.
Next Obligation.
  intros t Ht. cbv beta. pose proof (parse_rfc3339_text t Ht) as Hp.
  rewrite bytes_of_string_of; [done|]. apply parse_rfc3339_ascii in Hp.
  apply Forall_forall. intros b Hb. apply forallb_forall with (x := b) in Hp; [|by apply list_elem_of_In].
  unfold is_ascii, is_byte in *. lia.
Qed.
Next Obligation.
  intros s. cbv beta. rewrite bytes_of_to_valid. pose proof (valid_ascii_iff _ (bytes_of_bytes s)) as Hv.
  destruct (forallb is_ascii (bytes_of s)) eqn:E; [by rewrite valid_ascii|].
  destruct (parse_rfc3339 (bytes_of s)) eqn:E1; [by apply parse_rfc3339_ascii in E1; rewrite E1 in E|].
  destruct (parse_rfc3339 (valid_bytes _)) eqn:E2; [|done].
  by apply parse_rfc3339_ascii in E2; rewrite E2 in Hv.
Qed.
