(* ===== verification/Protocol.v ===== *)
(** The wire protocol of [internal/protocol]: requests and responses, and their
    JSON documents as [encoding/json] reads and writes them under the struct
    tags of the source. A document is a tree of JSON values; keys are compared
    without regard to case, unknown keys are skipped and repeated keys overwrite,
    as [Unmarshal] does. The text of an instant is that of the class [TimeText]. *)

From Stdlib Require Import Ascii.
From S2P Require Import Prelude GoStrings Model Utf8 Rfc3339.

#[local] Set Warnings "-register-all".

(** ** Messages of the protocol *)

Definition PublishRequest : string := "publish".
Definition ConsumeRequest : string := "consume".
Definition AckRequest : string := "ack".
Definition MetricsRequest : string := "metrics".
Definition SubscribeRequest : string := "subscribe".
Definition UnsubscribeRequest : string := "unsubscribe".
Definition CreateQueueRequest : string := "create_queue".
Definition DeleteQueueRequest : string := "delete_queue".
Definition ListQueuesRequest : string := "list_queues".
Definition BindQueueRequest : string := "bind_queue".
Definition UnbindQueueRequest : string := "unbind_queue".
Definition CreateExchangeRequest : string := "create_exchange".
Definition DeleteExchangeRequest : string := "delete_exchange".
Definition ListExchangesRequest : string := "list_exchanges".
Definition CurrentVersion : Z := 1.

Record Request := mkRequest {
  q_ID : string;
  q_Type : string;
  q_Queue : string;
  q_Payload : Message;
  q_TTL : Z;
  q_AckToken : string;
  q_Exchange : string;
  q_ExchangeType : string;
  q_RoutingKey : string;
  q_BindingKey : string;
  q_Version : Z;
}.

Definition zeroRequest : Request := mkRequest "" "" "" zeroMessage 0 "" "" "" "" "" 0.

(** [p_Queues] keeps the difference between a nil and an empty slice, which
    [omitzero] puts on the wire. *)
Record Response := mkResponse {
  p_Success : bool;
  p_Error : string;
  p_Queue : string;
  p_Exchange : string;
  p_Exchanges : list string;
  p_Message : Message;
  p_AckToken : string;
  p_Metrics : BrokerMetrics;
  p_Queues : option (list QueueMetric);
  p_Version : Z;
}.

Definition zeroMetrics : BrokerMetrics := mkBrokerMetrics [] zeroMetric.

Definition zeroResponse : Response :=
  mkResponse false "" "" "" [] zeroMessage "" zeroMetrics None 0.

(** The composite literals of the handler. *)
Definition resp_status (success : bool) (err : string) : Response :=
  mkResponse success err "" "" [] zeroMessage "" zeroMetrics None 0.
Definition resp_metrics (success : bool) (err : string) (m : BrokerMetrics) : Response :=
  mkResponse success err "" "" [] zeroMessage "" m None 0.
Definition resp_delivery (d : Delivery) : Response :=
  mkResponse true "" "" "" [] (d_Message d) (d_AckToken d) zeroMetrics None 0.
Definition resp_queues (queues : list QueueMetric) : Response :=
  mkResponse true "" "" "" [] zeroMessage "" zeroMetrics (Some queues) 0.
Definition resp_exchanges (exchanges : list string) : Response :=
  mkResponse true "" "" "" exchanges zeroMessage "" zeroMetrics None 0.

Definition set_p_Version (v : Z) (r : Response) : Response :=
  mkResponse (p_Success r) (p_Error r) (p_Queue r) (p_Exchange r) (p_Exchanges r) (p_Message r)
    (p_AckToken r) (p_Metrics r) (p_Queues r) v.

Definition set_q_Version (v : Z) (r : Request) : Request :=
  mkRequest (q_ID r) (q_Type r) (q_Queue r) (q_Payload r) (q_TTL r) (q_AckToken r) (q_Exchange r)
    (q_ExchangeType r) (q_RoutingKey r) (q_BindingKey r) v.

#[export] Instance Metric_eq_dec : EqDecision Metric.
Proof. solve_decision. Defined.
#[export] Instance QueueMetric_eq_dec : EqDecision QueueMetric.
Proof. solve_decision. Defined.
#[export] Instance BrokerMetrics_eq_dec : EqDecision BrokerMetrics.
Proof. solve_decision. Defined.
#[export] Instance Request_eq_dec : EqDecision Request.
Proof. solve_decision. Defined.
#[export] Instance Response_eq_dec : EqDecision Response.
Proof. solve_decision. Defined.

(** ** Error texts *)

(** [err.Error()] of the errors the broker returns. *)
Definition Err_Error (e : Err) : string :=
  match e with
  | ErrQueueExists => "queue already exists"
  | ErrQueueNotEmpty => "queue is not empty"
  | ErrQueueNotFound => "queue does not exist"
  | ErrInvalidQueue => "queue name is invalid"
  | ErrBrokerClosed => "broker closed"
  | ErrInvalidAckToken => "invalid ack token"
  | ErrExchangeNotFound => "exchange does not exist"
  | ErrInvalidExchange => "exchange is invalid"
  | ErrInvalidExchangeType => "exchange type is invalid"
  | ErrDefaultExchange => "default exchange name is reserved"
  | ErrExchangeExists => "exchange already exists"
  | ErrExchangeNotEmpty => "exchange has existing bindings"
  | ErrNoRoute => "no route found"
  | ErrInvalidBindingKey => "binding key is invalid"
  | ErrBindingNotExist => "binding does not exist"
  | ErrBindingAlreadyExist => "binding already exists"
  | ErrStorage what => what
  end.

Definition errorString (err : option Err) : string :=
  match err with None => "" | Some e => Err_Error e end.

(** [err == nil] *)
Definition ok_err (err : option Err) : bool := match err with None => true | Some _ => false end.

(** ** JSON values

    An integer literal is a number; a literal with a fraction or an exponent,
    which no field of the protocol accepts, is kept as its text. The text of
    values is in [JsonText.v]. *)

Inductive json :=
| JNull
| JBool (b : bool)
| JNum (n : Z)
| JReal (literal : list Z)
| JStr (s : string)
| JArr (l : list json)
| JObj (fields : list (string * json)).

(** ** Writing *)

Abbreviation fields := (list (string * json)).

Definition put (k : string) (v : json) : fields := [(k, v)].
(** [omitempty] and [omitzero]. *)
Definition put_unless (omit : bool) (k : string) (v : json) : fields := if omit then [] else [(k, v)].

Definition w_string (s : string) : json := JStr s.

Section Codec.
Context {Htime : TimeText}.

Definition w_time (t : Z) : option json := if in_years t then Some (JStr (time_text t)) else None.

Definition w_message (m : Message) : option json :=
  ts ← w_time (Timestamp m);
  ex ← match ExpiryAt m with None => Some JNull | Some t => w_time t end;
  Some (JObj (put "id" (w_string (ID m)) ++ put "payload" (w_string (Payload m)) ++
              put "timestamp" ts ++ put "retry" (JNum (Retry m)) ++ put "expiry_at" ex)).

(** The fields of [model.Metric] have no tags. *)
Definition metric_entries (m : Metric) : fields :=
  put "ProducedCount" (JNum (ProducedCount m)) ++ put "AckedCount" (JNum (AckedCount m)) ++
  put "DlqCount" (JNum (DlqCount m)) ++ put "InflightCount" (JNum (InflightCount m)) ++
  put "RedeliveredCount" (JNum (RedeliveredCount m)) ++
  put "ConsumerSessionCount" (JNum (ConsumerSessionCount m)) ++
  put "QueueDepth" (JNum (QueueDepth m)).

(** [model.QueueMetric] embeds a metric, so its fields are flattened. *)
Definition w_queue_metric (m : QueueMetric) : json :=
  JObj (put "name" (w_string (qm_Name m)) ++ metric_entries (qm_Metric m)).

Definition w_broker_metrics (m : BrokerMetrics) : json :=
  JObj (put "queues" (JArr (w_queue_metric <$> Queues m)) ++
        put "total" (JObj (metric_entries (Total m)))).

Definition empty (s : string) : bool := bool_decide (s = "").

Definition Request_MarshalJSON (r : Request) : option json :=
  msg ← w_message (q_Payload r);
  Some (JObj (put_unless (empty (q_ID r)) "id" (w_string (q_ID r)) ++
              put "type" (w_string (q_Type r)) ++
              put_unless (empty (q_Queue r)) "queue" (w_string (q_Queue r)) ++
              put_unless (bool_decide (q_Payload r = zeroMessage)) "message" msg ++
              put_unless (bool_decide (q_TTL r = 0)) "ttl" (JNum (q_TTL r)) ++
              put_unless (empty (q_AckToken r)) "ack_token" (w_string (q_AckToken r)) ++
              put_unless (empty (q_Exchange r)) "exchange" (w_string (q_Exchange r)) ++
              put_unless (empty (q_ExchangeType r)) "exchange_type" (w_string (q_ExchangeType r)) ++
              put_unless (empty (q_RoutingKey r)) "routing_key" (w_string (q_RoutingKey r)) ++
              put_unless (empty (q_BindingKey r)) "binding_key" (w_string (q_BindingKey r)) ++
              put_unless (bool_decide (q_Version r = 0)) "version" (JNum (q_Version r)))).

Definition Response_MarshalJSON (r : Response) : option json :=
  msg ← w_message (p_Message r);
  Some (JObj (put "success" (JBool (p_Success r)) ++
              put_unless (empty (p_Error r)) "error" (w_string (p_Error r)) ++
              put_unless (empty (p_Queue r)) "queue" (w_string (p_Queue r)) ++
              put_unless (empty (p_Exchange r)) "exchange" (w_string (p_Exchange r)) ++
              put_unless (bool_decide (p_Exchanges r = [])) "exchanges"
                (JArr (w_string <$> p_Exchanges r)) ++
              put_unless (bool_decide (p_Message r = zeroMessage)) "message" msg ++
              put_unless (empty (p_AckToken r)) "ack_token" (w_string (p_AckToken r)) ++
              put_unless (bool_decide (p_Metrics r = zeroMetrics)) "broker_metrics"
                (w_broker_metrics (p_Metrics r)) ++
              put_unless (bool_decide (p_Queues r = None)) "queues"
                (JArr (w_queue_metric <$> default [] (p_Queues r))) ++
              put_unless (bool_decide (p_Version r = 0)) "version" (JNum (p_Version r)))).

(** ** Reading *)

(** [Unmarshal] of a value over the current one; JSON [null] changes nothing
    but a pointer. [None]: a value of the wrong kind. *)
Definition u_string (v : json) (cur : string) : option string :=
  match v with JNull => Some cur | JStr s => Some (to_valid_utf8 s) | _ => None end.
Definition u_bool (v : json) (cur : bool) : option bool :=
  match v with JNull => Some cur | JBool b => Some b | _ => None end.
Definition u_int (v : json) (cur : Z) : option Z :=
  match v with
  | JNull => Some cur
  | JNum n => if bool_decide (min_int <= n) && bool_decide (n <= max_int) then Some n else None
  | _ => None
  end.
Definition u_time (v : json) (cur : Z) : option Z :=
  match v with JNull => Some cur | JStr s => parse_time s | _ => None end.
Definition u_time_ptr (v : json) (cur : option Z) : option (option Z) :=
  match v with JNull => Some None | _ => Some <$> u_time v (default 0 cur) end.
(** A slice is emptied and filled anew; a nil slice comes from [null]. *)
Definition u_slice {A} (elem : json -> option A) (v : json) (cur : option (list A))
    : option (option (list A)) :=
  match v with JNull => Some None | JArr l => Some <$> mapM elem l | _ => None end.

(** Case folding of keys: ASCII letters, and the two runes outside ASCII whose
    simple folding is an ASCII letter, U+017F (s) and U+212A (k). *)
Definition folds_to (r : Z) : Z :=
  if in_range 65 r 90 then r + 32
  else if bool_decide (r = 0x17F) then 115
  else if bool_decide (r = 0x212A) then 107
  else r.

Definition fold_case (s : string) : list Z := folds_to <$> runes s.

Definition key_is (tag k : string) : bool := bool_decide (fold_case k = fold_case tag).

(** The value of the field with a tag after all entries of an object. *)
Fixpoint field {A} (tag : string) (read : json -> A -> option A) (o : fields) (cur : A) : option A :=
  match o with
  | [] => Some cur
  | (k, v) :: rest =>
      if key_is tag k then cur' ← read v cur; field tag read rest cur' else field tag read rest cur
  end.

(** A struct: [null] changes nothing. *)
Definition u_struct {A} (read : fields -> A -> option A) (v : json) (cur : A) : option A :=
  match v with JNull => Some cur | JObj o => read o cur | _ => None end.

Definition message_of (o : fields) (m : Message) : option Message :=
  i ← field "id" u_string o (ID m);
  p ← field "payload" u_string o (Payload m);
  t ← field "timestamp" u_time o (Timestamp m);
  r ← field "retry" u_int o (Retry m);
  e ← field "expiry_at" u_time_ptr o (ExpiryAt m);
  Some (mkMessage i p t r e).

Definition metric_of (o : fields) (m : Metric) : option Metric :=
  a ← field "ProducedCount" u_int o (ProducedCount m);
  b ← field "AckedCount" u_int o (AckedCount m);
  c ← field "DlqCount" u_int o (DlqCount m);
  d ← field "InflightCount" u_int o (InflightCount m);
  e ← field "RedeliveredCount" u_int o (RedeliveredCount m);
  f ← field "ConsumerSessionCount" u_int o (ConsumerSessionCount m);
  g ← field "QueueDepth" u_int o (QueueDepth m);
  Some (mkMetric a b c d e f g).

Definition queue_metric_of (o : fields) (m : QueueMetric) : option QueueMetric :=
  n ← field "name" u_string o (qm_Name m);
  x ← metric_of o (qm_Metric m);
  Some (mkQueueMetric n x).

Definition zeroQueueMetric : QueueMetric := mkQueueMetric "" zeroMetric.

Definition u_queue_metric (v : json) : option QueueMetric :=
  u_struct queue_metric_of v zeroQueueMetric.

(** The slice of a [BrokerMetrics] is a list here: nil and empty are one. *)
Definition u_queue_metrics (v : json) (cur : list QueueMetric) : option (list QueueMetric) :=
  default [] <$> u_slice u_queue_metric v (Some cur).

Definition broker_metrics_of (o : fields) (m : BrokerMetrics) : option BrokerMetrics :=
  q ← field "queues" u_queue_metrics o (Queues m);
  t ← field "total" (u_struct metric_of) o (Total m);
  Some (mkBrokerMetrics q t).

Definition u_strings (v : json) (cur : list string) : option (list string) :=
  default [] <$> u_slice (fun v => u_string v "") v (Some cur).

Definition request_of (o : fields) (r : Request) : option Request :=
  i ← field "id" u_string o (q_ID r);
  t ← field "type" u_string o (q_Type r);
  q ← field "queue" u_string o (q_Queue r);
  m ← field "message" (u_struct message_of) o (q_Payload r);
  l ← field "ttl" u_int o (q_TTL r);
  a ← field "ack_token" u_string o (q_AckToken r);
  e ← field "exchange" u_string o (q_Exchange r);
  et ← field "exchange_type" u_string o (q_ExchangeType r);
  rk ← field "routing_key" u_string o (q_RoutingKey r);
  bk ← field "binding_key" u_string o (q_BindingKey r);
  v ← field "version" u_int o (q_Version r);
  Some (mkRequest i t q m l a e et rk bk v).

Definition response_of (o : fields) (r : Response) : option Response :=
  s ← field "success" u_bool o (p_Success r);
  er ← field "error" u_string o (p_Error r);
  q ← field "queue" u_string o (p_Queue r);
  e ← field "exchange" u_string o (p_Exchange r);
  es ← field "exchanges" u_strings o (p_Exchanges r);
  m ← field "message" (u_struct message_of) o (p_Message r);
  a ← field "ack_token" u_string o (p_AckToken r);
  bm ← field "broker_metrics" (u_struct broker_metrics_of) o (p_Metrics r);
  qs ← field "queues" (u_slice u_queue_metric) o (p_Queues r);
  v ← field "version" u_int o (p_Version r);
  Some (mkResponse s er q e es m a bm qs v).

(** [Decode(&req)] and [Decode(&resp)] into a fresh variable. *)
Definition Request_UnmarshalJSON (v : json) : option Request := u_struct request_of v zeroRequest.
Definition Response_UnmarshalJSON (v : json) : option Response := u_struct response_of v zeroResponse.

End Codec.

(** ** What the wire carries unchanged *)

(** A string of valid UTF-8, a 64-bit number, an instant with a text. *)
Definition valid_utf8 (s : string) : Prop := to_valid_utf8 s = s.
Definition is_int (n : Z) : Prop := min_int <= n <= max_int.
Definition has_text (t : Z) : Prop := in_years t = true.

Record message_wire (m : Message) : Prop := {
  mw_id : valid_utf8 (ID m);
  mw_payload : valid_utf8 (Payload m);
  mw_timestamp : has_text (Timestamp m);
  mw_retry : is_int (Retry m);
  mw_expiry t : ExpiryAt m = Some t -> has_text t;
}.

Record request_wire (r : Request) : Prop := {
  qw_id : valid_utf8 (q_ID r);
  qw_type : valid_utf8 (q_Type r);
  qw_queue : valid_utf8 (q_Queue r);
  qw_payload : message_wire (q_Payload r);
  qw_ttl : is_int (q_TTL r);
  qw_token : valid_utf8 (q_AckToken r);
  qw_exchange : valid_utf8 (q_Exchange r);
  qw_exchange_type : valid_utf8 (q_ExchangeType r);
  qw_routing_key : valid_utf8 (q_RoutingKey r);
  qw_binding_key : valid_utf8 (q_BindingKey r);
  qw_version : is_int (q_Version r);
}.

Definition metric_wire (m : Metric) : Prop :=
  is_int (ProducedCount m) /\ is_int (AckedCount m) /\ is_int (DlqCount m) /\
  is_int (InflightCount m) /\ is_int (RedeliveredCount m) /\ is_int (ConsumerSessionCount m) /\
  is_int (QueueDepth m).

Definition queue_metric_wire (m : QueueMetric) : Prop :=
  valid_utf8 (qm_Name m) /\ metric_wire (qm_Metric m).

Record response_wire (r : Response) : Prop := {
  pw_error : valid_utf8 (p_Error r);
  pw_queue : valid_utf8 (p_Queue r);
  pw_exchange : valid_utf8 (p_Exchange r);
  pw_exchanges : Forall valid_utf8 (p_Exchanges r);
  pw_message : message_wire (p_Message r);
  pw_token : valid_utf8 (p_AckToken r);
  pw_metrics : Forall queue_metric_wire (Queues (p_Metrics r));
  pw_total : metric_wire (Total (p_Metrics r));
  pw_queues : Forall queue_metric_wire (default [] (p_Queues r));
  pw_version : is_int (p_Version r);
}.

(** ** Lemmas *)

Lemma field_app {A} tag (read : json -> A -> option A) o1 o2 cur y x :
  field tag read o1 cur = Some y -> field tag read o2 y = Some x ->
  field tag read (o1 ++ o2) cur = Some x.
Proof.
  revert cur. induction o1 as [|[k v] o1 IH]; intros cur; simpl; [by intros [= ->]|].
  case_match; [|apply IH]. destruct (read v cur); simpl; [apply IH|done].
Qed.

(** An entry of another field. *)
Lemma field_skip {A} tag (read : json -> A -> option A) k v cur :
  key_is tag k = false -> field tag read (put k v) cur = Some cur.
Proof. simpl. by intros ->. Qed.

Lemma field_skip_unless {A} tag (read : json -> A -> option A) omit k v cur :
  key_is tag k = false -> field tag read (put_unless omit k v) cur = Some cur.
Proof. intros H. destruct omit; simpl; [done|]. by rewrite H. Qed.

(** The entry of the field: a written value is read back, an omitted one is
    the zero value the target has. *)
Lemma field_hit {A} tag (read : json -> A -> option A) k v cur x :
  key_is tag k = true -> read v cur = Some x -> field tag read (put k v) cur = Some x.
Proof. simpl. by intros -> ->. Qed.

Lemma field_hit_unless {A} tag (read : json -> A -> option A) (omit : bool) k v cur x :
  key_is tag k = true -> read v cur = Some x -> (omit = true -> x = cur) ->
  field tag read (put_unless omit k v) cur = Some x.
Proof. intros H Hr Hz. destruct omit; simpl; [by rewrite Hz|]. by rewrite H, Hr. Qed.

Lemma field_omitted {A} tag (read : json -> A -> option A) (omit : bool) k v cur :
  omit = true -> field tag read (put_unless omit k v) cur = Some cur.
Proof. by intros ->. Qed.

Lemma bind_done {A B} (m : option A) x (f : A -> option B) y :
  m = Some x -> f x = y -> m ≫= f = y.
Proof. by intros -> <-. Qed.

Lemma empty_zero s : empty s = true -> s = "".
Proof. apply bool_decide_eq_true. Qed.

Lemma zero_int n : bool_decide (n = 0) = true -> n = 0.
Proof. apply bool_decide_eq_true. Qed.

Lemma u_string_w s cur : valid_utf8 s -> u_string (w_string s) cur = Some s.
Proof. unfold valid_utf8. intros H. simpl. by rewrite H. Qed.

Lemma u_int_w n cur : is_int n -> u_int (JNum n) cur = Some n.
Proof. intros [H1 H2]. simpl. by rewrite !bool_decide_true by done. Qed.

Lemma u_bool_w b cur : u_bool (JBool b) cur = Some b.
Proof. done. Qed.

Create HintDb wire.
#[export] Hint Resolve u_string_w u_int_w u_bool_w empty_zero zero_int : wire.

#[local] Opaque put put_unless w_string u_string u_int u_bool.

(** Reads one field of a written object; the goals left are those the
    database [wire] does not close. *)
Ltac read_field :=
  eapply bind_done;
  [ repeat first
      [ eapply field_skip; [reflexivity]
      | eapply field_skip_unless; [reflexivity]
      | eapply field_hit; [reflexivity|solve [eauto with wire nocore]]
      | eapply field_hit_unless; [reflexivity|solve [eauto with wire nocore]|solve [eauto with wire nocore]]
      | eapply field_app ]
  | cbv beta ].

Section RoundTrip.
Context {Htime : TimeText}.

Lemma w_time_some t : has_text t -> w_time t = Some (JStr (time_text t)).
Proof. unfold w_time, has_text. by intros ->. Qed.

Lemma u_time_w t cur : has_text t -> u_time (JStr (time_text t)) cur = Some t.
Proof. apply parse_time_text. Qed.

Lemma u_time_ptr_w t cur : has_text t -> u_time_ptr (JStr (time_text t)) cur = Some (Some t).
Proof. intros H. unfold u_time_ptr. by rewrite u_time_w. Qed.

Lemma u_time_ptr_null cur : u_time_ptr JNull cur = Some None.
Proof. done. Qed.

#[local] Opaque u_time u_time_ptr.
#[local] Hint Resolve u_time_w u_time_ptr_w u_time_ptr_null : wire.

Lemma message_roundtrip m :
  message_wire m -> exists v, w_message m = Some v /\ u_struct message_of v zeroMessage = Some m.
Proof.
  intros [Hi Hp Ht Hr He]. unfold w_message. rewrite w_time_some by done. simpl.
  destruct m as [i p t r [e|]]; simpl in *.
  - specialize (He e eq_refl). rewrite w_time_some by auto. simpl. eexists. split; [done|]. cbn [u_struct].
    unfold message_of. do 5 read_field. done.
  - eexists. split; [done|]. cbn [u_struct]. unfold message_of. do 5 read_field. done.
Qed.

Lemma metric_roundtrip m cur : metric_wire m -> metric_of (metric_entries m) cur = Some m.
Proof.
  intros (Ha & Hb & Hc & Hd & He & Hf & Hg). unfold metric_of, metric_entries.
  do 7 read_field. by destruct m.
Qed.

Lemma queue_metric_roundtrip m : queue_metric_wire m -> u_queue_metric (w_queue_metric m) = Some m.
Proof.
  intros [Hn (Ha & Hb & Hc & Hd & He & Hf & Hg)]. unfold u_queue_metric, w_queue_metric.
  cbn [u_struct]. unfold queue_metric_of, metric_of, metric_entries. destruct m as [n []]; simpl in *.
  read_field. eapply bind_done; [do 7 read_field; reflexivity|]. done.
Qed.

Lemma slice_roundtrip {A} (w : A -> json) (u : json -> option A) (P : A -> Prop) l cur :
  (forall x, P x -> u (w x) = Some x) -> Forall P l ->
  u_slice u (JArr (w <$> l)) cur = Some (Some l).
Proof.
  intros Hu Hl. cbn [u_slice]. rewrite mapM_fmap_Forall_Some; [done|].
  by eapply Forall_impl.
Qed.

Lemma queue_metrics_roundtrip l cur :
  Forall queue_metric_wire l -> u_queue_metrics (JArr (w_queue_metric <$> l)) cur = Some l.
Proof.
  intros Hl. unfold u_queue_metrics.
  by rewrite (slice_roundtrip _ _ _ l _ queue_metric_roundtrip Hl).
Qed.

Lemma strings_roundtrip l cur :
  Forall valid_utf8 l -> u_strings (JArr (w_string <$> l)) cur = Some l.
Proof.
  intros Hl. unfold u_strings. rewrite (slice_roundtrip w_string _ valid_utf8 l); [done| |done].
  intros x. apply u_string_w.
Qed.

Lemma total_roundtrip m cur :
  metric_wire m -> u_struct metric_of (JObj (metric_entries m)) cur = Some m.
Proof. apply metric_roundtrip. Qed.

#[local] Hint Resolve queue_metrics_roundtrip strings_roundtrip total_roundtrip : wire.

Lemma broker_metrics_roundtrip m cur :
  Forall queue_metric_wire (Queues m) -> metric_wire (Total m) ->
  u_struct broker_metrics_of (w_broker_metrics m) cur = Some m.
Proof.
  intros Hq Ht. unfold w_broker_metrics. cbn [u_struct]. unfold broker_metrics_of.
  do 2 read_field. by destruct m.
Qed.

Lemma omit_zero {A} (x z : A) `{!Decision (x = z)} : bool_decide (x = z) = true -> x = z.
Proof. apply bool_decide_eq_true. Qed.

#[local] Hint Resolve broker_metrics_roundtrip omit_zero : wire.

Lemma request_travels r :
  request_wire r ->
  exists v, Request_MarshalJSON r = Some v /\ Request_UnmarshalJSON v = Some r.
Proof.
  intros [H1 H2 H3 H4 H5 H6 H7 H8 H9 H10 H11]. unfold Request_MarshalJSON.
  destruct (message_roundtrip _ H4) as (msg & -> & Hmsg). simpl. eexists. split; [done|].
  unfold Request_UnmarshalJSON. cbn [u_struct]. unfold request_of.
  destruct r; simpl in *. do 11 read_field. done.
Qed.

Lemma response_travels r :
  response_wire r ->
  exists v, Response_MarshalJSON r = Some v /\ Response_UnmarshalJSON v = Some r.
Proof.
  intros [H1 H2 H3 H4 H5 H6 H7 H8 H9 H10]. unfold Response_MarshalJSON.
  destruct (message_roundtrip _ H5) as (msg & -> & Hmsg). simpl. eexists. split; [done|].
  unfold Response_UnmarshalJSON. cbn [u_struct]. unfold response_of.
  destruct r as [? ? ? ? ? ? ? ? qs ?]; simpl in *.
  do 8 read_field. destruct qs as [l|]; simpl in *.
  - pose proof (slice_roundtrip w_queue_metric _ _ l None queue_metric_roundtrip H9). by do 2 read_field.
  - eapply (bind_done _ None); [|by read_field].
    repeat first [ eapply field_skip; [reflexivity] | eapply field_skip_unless; [reflexivity]
                 | eapply (field_omitted _ _ _ _ _ eq_refl) | eapply field_app ].
Qed.

(** The wire protocol loses nothing: every request and every response whose
    strings are valid UTF-8, whose numbers fit and whose instants have a text is
    read back as it was written, also through the omission of empty fields, the
    difference of nil and empty lists, and the flattened metrics. *)
Theorem wire_roundtrip q r :
  request_wire q -> response_wire r ->
  (exists v, Request_MarshalJSON q = Some v /\ Request_UnmarshalJSON v = Some q) /\
  (exists v, Response_MarshalJSON r = Some v /\ Response_UnmarshalJSON v = Some r).
Proof. intros Hq Hr. split; [by apply request_travels|by apply response_travels]. Qed.

End RoundTrip.

(** A publish request as the client sends it. *)
Definition publish_request : Request :=
  mkRequest "" PublishRequest "" (mkMessage "" "hello" 0 0 None) (5 * second) "" "events" ""
    "orders.eu" "" CurrentVersion.

Definition list_response : Response :=
  set_p_Version CurrentVersion (resp_queues [mkQueueMetric "default" zeroMetric]).

Lemma wire_roundtrip_witness :
  (exists v, Request_MarshalJSON publish_request = Some v /\
     Request_UnmarshalJSON v = Some publish_request) /\
  (exists v, Response_MarshalJSON list_response = Some v /\
     Response_UnmarshalJSON v = Some list_response).
Proof.
  apply (wire_roundtrip publish_request list_response).
  - repeat first [done | split | vm_compute; discriminate].
  - repeat first [done | split | constructor | vm_compute; discriminate].
Defined.
