(* ===== verification/JsonText.v ===== *)
(** The text of JSON values: what [json.Marshal] writes (escapes of strings,
    HTML-safe characters, decimal numbers) and the documents [json.Decoder]
    reads from a stream of bytes. The scanner of string literals and the
    resolution of their escapes are two passes, as in [encoding/json]. *)

From Stdlib Require Import Ascii DecimalZ.
From S2P Require Import Prelude GoStrings Model Utf8 Rfc3339 Protocol.

(** ** Characters *)

Definition c_tab : Z := 9.
Definition c_newline : Z := 10.
Definition c_return : Z := 13.
Definition c_space : Z := 32.
Definition c_quote : Z := 34.
Definition c_plus : Z := 43.
Definition c_comma : Z := 44.
Definition c_minus : Z := 45.
Definition c_dot : Z := 46.
Definition c_slash : Z := 47.
Definition c_zero : Z := 48.
Definition c_colon : Z := 58.
Definition c_lbrack : Z := 91.
Definition c_backslash : Z := 92.
Definition c_rbrack : Z := 93.
Definition c_u : Z := 117.
Definition c_lbrace : Z := 123.
Definition c_rbrace : Z := 125.

Definition is_space (b : Z) : bool :=
  (b =? c_space) || (b =? c_tab) || (b =? c_return) || (b =? c_newline).

(** ** Writing *)

Definition hex_digit (n : Z) : Z := if n <? 10 then 48 + n else 87 + n.

(** [\uXXXX] *)
Definition u_escape (r : Z) : text :=
  [c_backslash; c_u; hex_digit (r / 0x1000 mod 16); hex_digit (r / 0x100 mod 16);
   hex_digit (r / 0x10 mod 16); hex_digit (r mod 16)].

(** The characters [Marshal] replaces by a letter: \b \f \n \r \t. *)
Definition short_escape (b : Z) : option Z :=
  if b =? 8 then Some 98 else if b =? 12 then Some 102 else if b =? 10 then Some 110
  else if b =? 13 then Some 114 else if b =? 9 then Some 116 else None.

(** An ASCII character inside a literal; <, > and & are escaped as well. *)
Definition ascii_text (b : Z) : text :=
  if (b =? c_quote) || (b =? c_backslash) then [c_backslash; b]
  else match short_escape b with
  | Some e => [c_backslash; e]
  | None => if (b <? 0x20) || (b =? 60) || (b =? 62) || (b =? 38) then u_escape b else [b]
  end.

(** A rune outside ASCII is copied, except the two line separators; a byte that
    is not UTF-8 becomes the escape of U+FFFD. *)
Fixpoint quote_from (skip : nat) (bs : text) : text :=
  match bs with
  | [] => []
  | b :: rest =>
      match skip with
      | S k => quote_from k rest
      | O =>
          if b <? 0x80 then ascii_text b ++ quote_from 0 rest
          else
            let (r, w) := decode_rune bs in
            if (r =? RuneError) && bool_decide (w = 1%nat) then u_escape RuneError ++ quote_from 0 rest
            else if (r =? 0x2028) || (r =? 0x2029) then u_escape r ++ quote_from (Nat.pred w) rest
            else firstn w bs ++ quote_from (Nat.pred w) rest
      end
  end.

Definition quote (s : string) : text := c_quote :: quote_from 0 (bytes_of s) ++ [c_quote].

Fixpoint digits_text (u : Decimal.uint) : text :=
  match u with
  | Decimal.Nil => []
  | Decimal.D0 u => 48 :: digits_text u | Decimal.D1 u => 49 :: digits_text u
  | Decimal.D2 u => 50 :: digits_text u | Decimal.D3 u => 51 :: digits_text u
  | Decimal.D4 u => 52 :: digits_text u | Decimal.D5 u => 53 :: digits_text u
  | Decimal.D6 u => 54 :: digits_text u | Decimal.D7 u => 55 :: digits_text u
  | Decimal.D8 u => 56 :: digits_text u | Decimal.D9 u => 57 :: digits_text u
  end.

(** [strconv.AppendInt] in base 10. *)
Definition num_text (n : Z) : text :=
  match Z.to_int n with
  | Decimal.Pos u => digits_text u
  | Decimal.Neg u => c_minus :: digits_text u
  end.

Fixpoint commas (ts : list text) : text :=
  match ts with
  | [] => []
  | [t] => t
  | t :: ts => t ++ c_comma :: commas ts
  end.

Fixpoint json_text (v : json) : text :=
  match v with
  | JNull => bytes_of "null"
  | JBool true => bytes_of "true"
  | JBool false => bytes_of "false"
  | JNum n => num_text n
  | JReal t => t
  | JStr s => quote s
  | JArr l => c_lbrack :: commas (json_text <$> l) ++ [c_rbrack]
  | JObj o =>
      c_lbrace :: commas ((fun kv => quote (fst kv) ++ c_colon :: json_text (snd kv)) <$> o) ++ [c_rbrace]
  end.

(** ** Reading *)

(** A value with the text after it, or why there is none. [NoFuel] does not
    happen ([parse_value_shrinks]). *)
Inductive parsed (A : Type) : Type :=
| Parsed (a : A) (rest : text)
| SyntaxError
| UnexpectedEOF
| NoFuel.
Arguments Parsed {A} a rest.
Arguments SyntaxError {A}.
Arguments UnexpectedEOF {A}.
Arguments NoFuel {A}.

Definition parsed_bind {A B} (c : parsed A) (k : A -> text -> parsed B) : parsed B :=
  match c with
  | Parsed a rest => k a rest
  | SyntaxError => SyntaxError
  | UnexpectedEOF => UnexpectedEOF
  | NoFuel => NoFuel
  end.

Notation "'let?' ( x , r ) := c 'in' k" := (parsed_bind c (fun x r => k))
  (at level 10, x pattern, r name, c at level 200, k at level 200).

Fixpoint skip_ws (bs : text) : text :=
  match bs with
  | b :: rest => if is_space b then skip_ws rest else bs
  | [] => []
  end.

(** One given character. *)
Definition expect (c : Z) (bs : text) : parsed unit :=
  match bs with
  | [] => UnexpectedEOF
  | b :: rest => if b =? c then Parsed tt rest else SyntaxError
  end.

Fixpoint expect_all (cs bs : text) : parsed unit :=
  match cs with
  | [] => Parsed tt bs
  | c :: cs => let? (_, rest) := expect c bs in expect_all cs rest
  end.

(** *** String literals *)

(** Inside a literal, after a backslash, inside a [\u] escape with digits left. *)
Inductive scan_state := SChars | SEsc | SHex (left : nat).

Definition is_hex (b : Z) : bool :=
  is_digit b || ((97 <=? b) && (b <=? 102)) || ((65 <=? b) && (b <=? 70)).

(** The letters after a backslash other than [u], with what they stand for. *)
Definition unescape (e : Z) : option Z :=
  if e =? 98 then Some 8 else if e =? 102 then Some 12 else if e =? 110 then Some 10
  else if e =? 114 then Some 13 else if e =? 116 then Some 9
  else if (e =? c_quote) || (e =? c_backslash) || (e =? c_slash) then Some e else None.

Definition scan_next (st : scan_state) (b : Z) : option scan_state :=
  match st with
  | SChars => if b <? 0x20 then None else if b =? c_backslash then Some SEsc else Some SChars
  | SEsc => if b =? c_u then Some (SHex 3) else match unescape b with Some _ => Some SChars | None => None end
  | SHex n => if is_hex b then Some (match n with S n => SHex n | O => SChars end) else None
  end.

(** The literal up to its closing quote, which is taken too. *)
Fixpoint scan_chars (st : scan_state) (bs : text) : parsed text :=
  match bs with
  | [] => UnexpectedEOF
  | b :: rest =>
      match st, b =? c_quote with
      | SChars, true => Parsed [] rest
      | _, _ =>
          match scan_next st b with
          | None => SyntaxError
          | Some st' => let? (cs, rest) := scan_chars st' rest in Parsed (b :: cs) rest
          end
      end
  end.

Definition hex_value (b : Z) : Z :=
  if is_digit b then b - 48 else if 97 <=? b then b - 87 else b - 55.

Definition hex4 (a b c d : Z) : Z :=
  hex_value a * 0x1000 + hex_value b * 0x100 + hex_value c * 0x10 + hex_value d.

(** Resolves the escapes of a scanned literal. A surrogate that is not followed
    by its other half stands for U+FFFD. *)
Fixpoint unquote (bs : text) : text :=
  match bs with
  | [] => []
  | b :: rest =>
      if b =? c_backslash then
        match rest with
        | [] => []
        | e :: rest =>
            if e =? c_u then
              match rest with
              | h1 :: h2 :: h3 :: h4 :: rest =>
                  let r := hex4 h1 h2 h3 h4 in
                  if IsSurrogate r then
                    match rest with
                    | b :: e :: g1 :: g2 :: g3 :: g4 :: rest' =>
                        let r' := DecodeRune16 r (hex4 g1 g2 g3 g4) in
                        if (b =? c_backslash) && (e =? c_u) && negb (r' =? RuneError)
                        then encode_rune r' ++ unquote rest'
                        else encode_rune RuneError ++ unquote rest
                    | _ => encode_rune RuneError ++ unquote rest
                    end
                  else encode_rune r ++ unquote rest
              | _ => []
              end
            else match unescape e with Some c => c :: unquote rest | None => unquote rest end
        end
      else b :: unquote rest
  end.

(** The rest of a literal after its opening quote. *)
Definition parse_string (bs : text) : parsed string :=
  let? (cs, rest) := scan_chars SChars bs in
  Parsed (string_of_bytes (valid_bytes (unquote cs))) rest.

(** *** Numbers *)

Fixpoint take_digits (bs : text) : Decimal.uint * text :=
  match bs with
  | b :: rest =>
      if is_digit b then
        let (u, rest) := take_digits rest in
        (if b =? 48 then Decimal.D0 u else if b =? 49 then Decimal.D1 u else if b =? 50 then Decimal.D2 u
         else if b =? 51 then Decimal.D3 u else if b =? 52 then Decimal.D4 u else if b =? 53 then Decimal.D5 u
         else if b =? 54 then Decimal.D6 u else if b =? 55 then Decimal.D7 u else if b =? 56 then Decimal.D8 u
         else Decimal.D9 u, rest)
      else (Decimal.Nil, bs)
  | [] => (Decimal.Nil, [])
  end.

(** At least one digit. *)
Definition some_digits (bs : text) : parsed Decimal.uint :=
  match bs with
  | [] => UnexpectedEOF
  | b :: _ => if is_digit b then let (u, rest) := take_digits bs in Parsed u rest else SyntaxError
  end.

(** The integer part: no digit follows a leading zero. *)
Definition int_digits (bs : text) : parsed Decimal.uint :=
  match bs with
  | b :: rest => if b =? c_zero then Parsed (Decimal.D0 Decimal.Nil) rest else some_digits bs
  | [] => UnexpectedEOF
  end.

(** A fraction or an exponent, if there is one. *)
Definition opt_fraction (bs : text) : parsed bool :=
  match bs with
  | b :: rest =>
      if b =? c_dot then let? (_, rest) := some_digits rest in Parsed true rest else Parsed false bs
  | [] => Parsed false []
  end.

Definition opt_sign (bs : text) : text :=
  match bs with b :: rest => if (b =? c_plus) || (b =? c_minus) then rest else bs | [] => [] end.

Definition opt_exponent (bs : text) : parsed bool :=
  match bs with
  | b :: rest =>
      if (b =? 101) || (b =? 69)
      then let? (_, rest) := some_digits (opt_sign rest) in Parsed true rest else Parsed false bs
  | [] => Parsed false []
  end.

Definition parse_number (bs : text) : parsed json :=
  let neg := match bs with b :: _ => b =? c_minus | [] => false end in
  let? (u, rest) := int_digits (if neg then tl bs else bs) in
  let? (frac, rest) := opt_fraction rest in
  let? (expo, rest) := opt_exponent rest in
  Parsed (if frac || expo then JReal (firstn (length bs - length rest) bs)
          else JNum (Z.of_int (if neg then Decimal.Neg u else Decimal.Pos u))) rest.

(** *** Values *)

(** Items separated by commas up to a closing bracket, after the opening one. *)
Fixpoint parse_list {A} (item : text -> parsed A) (close : Z) (fuel : nat) (bs : text) : parsed (list A) :=
  match fuel with
  | O => NoFuel
  | S fuel =>
      let? (a, rest) := item bs in
      match skip_ws rest with
      | [] => UnexpectedEOF
      | b :: rest =>
          if b =? c_comma then let? (l, rest) := parse_list item close fuel rest in Parsed (a :: l) rest
          else if b =? close then Parsed [a] rest else SyntaxError
      end
  end.

Section Collections.
Variable value : text -> parsed json.

(** A key, a colon and a value. *)
Definition parse_member (bs : text) : parsed (string * json) :=
  let? (_, rest) := expect c_quote (skip_ws bs) in
  let? (k, rest) := parse_string rest in
  let? (_, rest) := expect c_colon (skip_ws rest) in
  let? (v, rest) := value rest in
  Parsed (k, v) rest.

Definition starts_with (c : Z) (bs : text) : bool :=
  match bs with b :: _ => b =? c | [] => false end.

Definition parse_array (bs : text) : parsed json :=
  if starts_with c_rbrack (skip_ws bs) then Parsed (JArr []) (tl (skip_ws bs))
  else let? (l, rest) := parse_list value c_rbrack (S (length bs)) bs in Parsed (JArr l) rest.

Definition parse_object (bs : text) : parsed json :=
  if starts_with c_rbrace (skip_ws bs) then Parsed (JObj []) (tl (skip_ws bs))
  else let? (o, rest) := parse_list parse_member c_rbrace (S (length bs)) bs in Parsed (JObj o) rest.

End Collections.

(** A value; [depth] more arrays and objects may be opened. *)
Fixpoint parse_value (depth : nat) (bs : text) : parsed json :=
  match skip_ws bs with
  | [] => UnexpectedEOF
  | b :: rest =>
      if b =? c_lbrace then
        match depth with O => SyntaxError | S d => parse_object (parse_value d) rest end
      else if b =? c_lbrack then
        match depth with O => SyntaxError | S d => parse_array (parse_value d) rest end
      else if b =? c_quote then let? (s, rest) := parse_string rest in Parsed (JStr s) rest
      else if b =? 116 then let? (_, rest) := expect_all (bytes_of "rue") rest in Parsed (JBool true) rest
      else if b =? 102 then let? (_, rest) := expect_all (bytes_of "alse") rest in Parsed (JBool false) rest
      else if b =? 110 then let? (_, rest) := expect_all (bytes_of "ull") rest in Parsed JNull rest
      else if is_digit b || (b =? c_minus) then parse_number (b :: rest)
      else SyntaxError
  end.

(** [maxNestingDepth] of the scanner. *)
Definition maxNestingDepth : nat := N.to_nat 10000.

Lemma maxNestingDepth_large n : (n <= 10)%nat -> (n <= maxNestingDepth)%nat.
Proof. unfold maxNestingDepth. lia. Qed.
#[global] Opaque maxNestingDepth.

(** [Decoder.Decode]: [None] is [io.EOF]. *)
Definition Decode (bs : text) : option (parsed json) :=
  match skip_ws bs with [] => None | _ => Some (parse_value maxNestingDepth bs) end.
