(* ===== verification/JsonTextFacts.v ===== *)
(** What ties the writer and the reader of [JsonText.v] together: the reader
    always comes to an answer and takes part of its input, and it reads back
    what the writer wrote, whatever follows. *)

From Stdlib Require Import Ascii DecimalZ DecimalFacts.
From S2P Require Import Prelude GoStrings Model Utf8 Rfc3339 Protocol JsonText.

(** ** The reader comes to an answer *)

(** The outcome of reading [bs] is not a lack of fuel, and a value leaves a
    strictly shorter rest ([slack] is 0) or one that is not longer (1). *)
Definition shrinks {A} (slack : nat) (bs : text) (c : parsed A) : Prop :=
  match c with
  | Parsed _ rest => (length rest < slack + length bs)%nat
  | NoFuel => False
  | _ => True
  end.

Lemma shrinks_bind {A B} n bs (c : parsed A) (k : A -> text -> parsed B) :
  shrinks n bs c ->
  (forall a rest, c = Parsed a rest -> (length rest < n + length bs)%nat -> shrinks n bs (k a rest)) ->
  shrinks n bs (parsed_bind c k).
Proof. destruct c; simpl; auto. Qed.

Lemma shrinks_weaken {A} n m bs bs' (c : parsed A) :
  (n + length bs <= m + length bs')%nat -> shrinks n bs c -> shrinks m bs' c.
Proof. destruct c; simpl; auto; lia. Qed.

Lemma skip_ws_length bs : (length (skip_ws bs) <= length bs)%nat.
Proof. induction bs as [|b bs IH]; simpl; [lia|]. case_match; simpl; lia. Qed.

Lemma expect_shrinks c bs : shrinks 0 bs (expect c bs).
Proof. destruct bs; simpl; [done|]. case_match; simpl; [lia|done]. Qed.

Lemma expect_all_shrinks cs bs : shrinks 1 bs (expect_all cs bs).
Proof.
  revert bs. induction cs as [|c cs IH]; intros bs; simpl; [lia|].
  apply shrinks_bind; [eapply shrinks_weaken, expect_shrinks; lia|]. intros _ rest _ Hr.
  eapply shrinks_weaken, IH. lia.
Qed.

Lemma scan_chars_shrinks st bs : shrinks 0 bs (scan_chars st bs).
Proof.
  revert st. induction bs as [|b bs IH]; intros st; simpl; [done|].
  assert (forall st', shrinks 0 (b :: bs)
    (let? (cs, rest) := scan_chars st' bs in Parsed (b :: cs) rest)) as Hgo.
  { intros st'. apply shrinks_bind; [eapply shrinks_weaken, IH; simpl; lia|]. simpl. lia. }
  destruct st; repeat case_match; simpl; try done; try lia; apply Hgo.
Qed.

Lemma parse_string_shrinks bs : shrinks 0 bs (parse_string bs).
Proof. apply shrinks_bind; [apply scan_chars_shrinks|]. simpl. lia. Qed.

Lemma take_digits_length bs : (length (take_digits bs).2 <= length bs)%nat.
Proof.
  induction bs as [|b bs IH]; simpl; [lia|]. case_match; simpl; [|lia].
  destruct (take_digits bs); simpl in *. lia.
Qed.

Lemma some_digits_shrinks bs : shrinks 0 bs (some_digits bs).
Proof.
  destruct bs as [|b bs]; [done|]. simpl. case_match; [|done].
  pose proof (take_digits_length bs). destruct (take_digits bs). simpl in *. lia.
Qed.

Lemma int_digits_shrinks bs : shrinks 0 bs (int_digits bs).
Proof.
  destruct bs as [|b bs]; [done|]. unfold int_digits. case_match; [simpl; lia|].
  apply some_digits_shrinks.
Qed.

Lemma opt_fraction_shrinks bs : shrinks 1 bs (opt_fraction bs).
Proof.
  destruct bs as [|b bs]; simpl; [lia|]. case_match; simpl; [|lia].
  apply shrinks_bind; [eapply shrinks_weaken, some_digits_shrinks; simpl; lia|]. simpl. lia.
Qed.

Lemma opt_sign_length bs : (length (opt_sign bs) <= length bs)%nat.
Proof. destruct bs; simpl; [lia|]. case_match; simpl; lia. Qed.

Lemma opt_exponent_shrinks bs : shrinks 1 bs (opt_exponent bs).
Proof.
  destruct bs as [|b bs]; simpl; [lia|]. case_match; simpl; [|lia].
  pose proof (opt_sign_length bs).
  apply shrinks_bind; [eapply shrinks_weaken, some_digits_shrinks; simpl; lia|]. simpl. lia.
Qed.

Lemma parse_number_shrinks bs : shrinks 0 bs (parse_number bs).
Proof.
  unfold parse_number. apply shrinks_bind.
  - eapply shrinks_weaken, int_digits_shrinks. case_match; [|lia]. destruct bs; simpl; lia.
  - intros u r1 _ H1. apply shrinks_bind; [eapply shrinks_weaken, opt_fraction_shrinks; simpl; lia|].
    intros f r2 _ H2. apply shrinks_bind; [eapply shrinks_weaken, opt_exponent_shrinks; simpl; lia|].
    simpl. lia.
Qed.

Lemma parse_list_shrinks {A} (item : text -> parsed A) close fuel bs :
  (forall bs, shrinks 0 bs (item bs)) -> (length bs < fuel)%nat ->
  shrinks 0 bs (parse_list item close fuel bs).
Proof.
  intros Hitem. revert bs. induction fuel as [|fuel IH]; intros bs Hf; [lia|]. simpl.
  apply shrinks_bind; [apply Hitem|]. intros v rest _ Hr.
  pose proof (skip_ws_length rest) as Hw. destruct (skip_ws rest) as [|b r]; [done|]. simpl in *.
  repeat case_match; simpl; try done; try lia.
  apply shrinks_bind; [eapply shrinks_weaken, IH; lia|]. simpl. lia.
Qed.

Section Collections.
Variable value : text -> parsed json.
Hypothesis value_shrinks : forall bs, shrinks 0 bs (value bs).

Lemma parse_member_shrinks bs : shrinks 0 bs (parse_member value bs).
Proof.
  unfold parse_member. pose proof (skip_ws_length bs) as Hw.
  apply shrinks_bind; [eapply shrinks_weaken, expect_shrinks; lia|]. intros _ r1 _ H1.
  apply shrinks_bind; [eapply shrinks_weaken, parse_string_shrinks; lia|]. intros k r2 _ H2.
  pose proof (skip_ws_length r2) as Hw2.
  apply shrinks_bind; [eapply shrinks_weaken, expect_shrinks; lia|]. intros _ r3 _ H3.
  apply shrinks_bind; [eapply shrinks_weaken, value_shrinks; lia|]. simpl. lia.
Qed.

Lemma tl_skip_length bs : (length (tl (skip_ws bs)) <= length bs)%nat.
Proof. pose proof (skip_ws_length bs). destruct (skip_ws bs); simpl in *; lia. Qed.

Lemma parse_array_shrinks bs : shrinks 1 bs (parse_array value bs).
Proof.
  unfold parse_array. case_match; [simpl; pose proof (tl_skip_length bs); lia|].
  apply shrinks_bind; [eapply shrinks_weaken, parse_list_shrinks; [lia|done|lia]|]. simpl. lia.
Qed.

Lemma parse_object_shrinks bs : shrinks 1 bs (parse_object value bs).
Proof.
  unfold parse_object. case_match; [simpl; pose proof (tl_skip_length bs); lia|].
  apply shrinks_bind; [eapply shrinks_weaken, parse_list_shrinks; [lia|apply parse_member_shrinks|lia]|]. simpl. lia.
Qed.

End Collections.

Lemma parse_value_shrinks d bs : shrinks 0 bs (parse_value d bs).
Proof.
  revert bs. induction d as [|d IH]; intros bs; cbn [parse_value]; pose proof (skip_ws_length bs) as Hw;
    destruct (skip_ws bs) as [|b r]; try done; simpl in Hw.
  all: repeat match goal with |- shrinks _ _ (if ?x then _ else _) => destruct x end; try done.
  all: match goal with
    | |- shrinks _ _ (parsed_bind _ _) => apply shrinks_bind; [|simpl; lia]
    | _ => idtac
    end.
  all: first [ eapply shrinks_weaken, parse_object_shrinks, IH; lia
             | eapply shrinks_weaken, parse_array_shrinks, IH; lia
             | eapply shrinks_weaken, parse_string_shrinks; lia
             | eapply shrinks_weaken, expect_all_shrinks; lia
             | eapply shrinks_weaken, parse_number_shrinks; simpl; lia ].
Qed.

(** ** Reading back strings *)

(** A piece of a literal that the scanner passes over. *)
Definition scans (c : text) : Prop :=
  forall k, scan_chars SChars (c ++ k) = let? (cs, rest) := scan_chars SChars k in Parsed (c ++ cs) rest.

Lemma parsed_bind_assoc {A B C} (c : parsed A) (f : A -> text -> parsed B) (g : B -> text -> parsed C) :
  parsed_bind (parsed_bind c f) g = parsed_bind c (fun a r => parsed_bind (f a r) g).
Proof. by destruct c. Qed.

Lemma scans_nil : scans [].
Proof. intros k. simpl. by destruct (scan_chars SChars k). Qed.

Lemma scans_app c1 c2 : scans c1 -> scans c2 -> scans (c1 ++ c2).
Proof.
  intros H1 H2 k. rewrite <- app_assoc, H1, H2, parsed_bind_assoc.
  destruct (scan_chars SChars k); simpl; [|done..]. by rewrite <- app_assoc.
Qed.

Lemma scans_raw b : 0x20 <= b -> b <> c_quote -> b <> c_backslash -> scans [b].
Proof.
  unfold c_quote, c_backslash. intros H1 H2 H3 k. simpl. unfold c_quote, c_backslash.
  rewrite (proj2 (Z.eqb_neq b 34)), (proj2 (Z.ltb_ge b 32)), (proj2 (Z.eqb_neq b 92)) by lia. done.
Qed.

Lemma scans_raws bs : Forall (fun b => 0x80 <= b) bs -> scans bs.
Proof.
  induction 1 as [|b bs Hb _ IH]; [apply scans_nil|]. apply (scans_app [b] bs); [|done].
  apply scans_raw; unfold c_quote, c_backslash; lia.
Qed.

Lemma unescape_not_u e c : unescape e = Some c -> (e =? c_u) = false.
Proof. intros He. apply Z.eqb_neq. by intros ->. Qed.

Lemma scans_escape e c : unescape e = Some c -> scans [c_backslash; e].
Proof.
  intros He k. simpl. rewrite (unescape_not_u e c He), He. by rewrite parsed_bind_assoc.
Qed.

Lemma is_hex_digit n : 0 <= n < 16 -> is_hex (hex_digit n) = true.
Proof.
  intros Hn. assert (n ∈ seqZ 0 16) as Hin by (apply elem_of_seqZ; lia).
  clear Hn; revert n Hin. apply Forall_forall. vm_compute. repeat constructor.
Qed.

Lemma hex_value_digit n : 0 <= n < 16 -> hex_value (hex_digit n) = n.
Proof.
  intros Hn. assert (n ∈ seqZ 0 16) as Hin by (apply elem_of_seqZ; lia).
  clear Hn; revert n Hin. apply Forall_forall. vm_compute. repeat constructor.
Qed.

Lemma scans_u_escape r : scans (u_escape r).
Proof.
  intros k. unfold u_escape.
  pose proof (fun x => is_hex_digit _ (Z.mod_pos_bound x 16 ltac:(lia))) as Hh.
  do 4 (cbn -[is_hex hex_digit Z.div Z.modulo]; rewrite Hh). cbn -[hex_digit Z.div Z.modulo].
  by destruct (scan_chars SChars k).
Qed.

(** A piece of a literal that stands for the bytes [u]. *)
Definition stands_for (c u : text) : Prop := forall k, unquote (c ++ k) = u ++ unquote k.

Lemma stands_raw b : b <> c_backslash -> stands_for [b] [b].
Proof. intros Hb k. simpl. by rewrite (proj2 (Z.eqb_neq _ _) Hb). Qed.

Lemma stands_raws bs : Forall (fun b => 0x80 <= b) bs -> stands_for bs bs.
Proof.
  induction 1 as [|b bs Hb _ IH]; intros k; [done|]. rewrite <- !app_comm_cons.
  rewrite <- IH. apply stands_raw. unfold c_backslash. lia.
Qed.

Lemma stands_escape e c : unescape e = Some c -> stands_for [c_backslash; e] [c].
Proof. intros He k. simpl. by rewrite (unescape_not_u e c He), He. Qed.

#[local] Ltac Zify.zify_post_hook ::= Z.div_mod_to_equations.

Lemma stands_u_escape r :
  0 <= r < 0x10000 -> IsSurrogate r = false -> stands_for (u_escape r) (encode_rune r).
Proof.
  intros Hr Hs k. unfold u_escape. cbn -[hex_digit hex4 Z.div Z.modulo IsSurrogate].
  assert (hex4 (hex_digit (r / 0x1000 mod 16)) (hex_digit (r / 0x100 mod 16))
            (hex_digit (r / 0x10 mod 16)) (hex_digit (r mod 16)) = r) as ->.
  { unfold hex4. rewrite !hex_value_digit by lia. lia. }
  by rewrite Hs.
Qed.

(** The text of an ASCII character. *)
Lemma ascii_text_spec b :
  0 <= b < 0x80 -> scans (ascii_text b) /\ stands_for (ascii_text b) [b].
Proof.
  intros Hb. unfold ascii_text. destruct ((b =? c_quote) || (b =? c_backslash)) eqn:Eq.
  { assert (unescape b = Some b) as He.
    { apply orb_true_iff in Eq as [->%Z.eqb_eq| ->%Z.eqb_eq]; done. }
    split; [by eapply scans_escape|by apply stands_escape]. }
  apply orb_false_iff in Eq as [E1%Z.eqb_neq E2%Z.eqb_neq].
  destruct (short_escape b) as [e|] eqn:Es.
  { assert (unescape e = Some b) as He.
    { revert Es. unfold short_escape. repeat case_match; intros [= <-]; try done;
        by match goal with H : (b =? _) = true |- _ => apply Z.eqb_eq in H as -> end. }
    split; [by eapply scans_escape|by apply stands_escape]. }
  case_match eqn:Eu.
  - split; [apply scans_u_escape|].
    replace [b] with (encode_rune b) by (unfold encode_rune; by rewrite bool_decide_true by lia).
    apply stands_u_escape; [lia|]. apply in_range_low. lia.
  - apply orb_false_iff in Eu as [[[Eu%Z.ltb_ge _]%orb_false_iff _]%orb_false_iff _].
    split; [by apply scans_raw|by apply stands_raw].
Qed.

Lemma quote_from_skip n bs : quote_from n bs = quote_from 0 (drop n bs).
Proof.
  revert n. induction bs as [|b bs IH]; intros [|n]; [done..|].
  cbn [quote_from drop]. apply IH.
Qed.

Lemma encode_rune_high r : scalar r -> 0x80 <= r -> Forall (fun b => 0x80 <= b) (encode_rune r).
Proof.
  intros Hr Hh. unfold scalar in Hr. unfold encode_rune.
  repeat case_bool_decide; repeat constructor; lia.
Qed.

(** The three ways [quote_from] goes on. *)
Lemma quote_error b bs :
  decode_rune (b :: bs) = (RuneError, 1%nat) ->
  quote_from 0 (b :: bs) = u_escape RuneError ++ quote_from 0 bs.
Proof.
  intros H. cbn [quote_from]. rewrite H. case_match eqn:E; [|done].
  apply Z.ltb_lt in E. revert H. unfold decode_rune. rewrite bool_decide_true by done.
  intros [= ->]. discriminate.
Qed.

Lemma quote_rune r bs :
  scalar r -> exists c,
    quote_from 0 (encode_rune r ++ bs) = c ++ quote_from 0 bs /\ scans c /\ stands_for c (encode_rune r).
Proof.
  intros Hr. destruct (decide (r < 0x80)) as [Hl|Hh].
  { exists (ascii_text r). unfold encode_rune. rewrite bool_decide_true by done. simpl app.
    cbn [quote_from]. rewrite (proj2 (Z.ltb_lt r 0x80)) by done. split; [done|].
    apply ascii_text_spec. unfold scalar in Hr. lia. }
  pose proof (decode_encode_rune r bs Hr) as Hd. pose proof (encode_rune_high r Hr ltac:(lia)) as Hhigh.
  pose proof (encode_rune_length r) as Hlen. remember (encode_rune r) as e eqn:He.
  destruct e as [|b e]; simpl in Hlen; [lia|]. simpl app in *. cbn [quote_from].
  rewrite Hd, (proj2 (Z.ltb_ge b 0x80)) by (by inversion Hhigh).
  assert (quote_from (Nat.pred (length (b :: e))) (e ++ bs) = quote_from 0 bs) as ->.
  { rewrite quote_from_skip. simpl. by rewrite drop_app_length. }
  case_match eqn:E1.
  { apply andb_true_iff in E1 as [->%Z.eqb_eq E1%bool_decide_eq_true]. rewrite He in E1. discriminate. }
  case_match eqn:E2; eexists; (split; [reflexivity|]).
  - assert (r = 0x2028 \/ r = 0x2029) as Hr'.
    { by apply orb_true_iff in E2 as [->%Z.eqb_eq| ->%Z.eqb_eq]; [left|right]. }
    split; [apply scans_u_escape|]. rewrite He. apply stands_u_escape; [lia|].
    apply in_range_low. lia.
  - rewrite app_comm_cons, firstn_app, firstn_all, Nat.sub_diag, app_nil_r.
    split; [by apply scans_raws|by apply stands_raws].
Qed.

Lemma quote_from_spec bs :
  Forall is_byte bs ->
  scans (quote_from 0 bs) /\ stands_for (quote_from 0 bs) (valid_bytes bs).
Proof.
  revert bs. apply runes_ind.
  - split; [apply scans_nil|done].
  - intros b bs H [IH1 IH2]. rewrite (quote_error b bs H), (valid_bytes_error b bs H). split.
    + apply scans_app; [apply scans_u_escape|done].
    + intros k. rewrite <- app_assoc, stands_u_escape, IH2 by done. by rewrite app_assoc.
  - intros r bs Hr [IH1 IH2]. destruct (quote_rune r bs Hr) as (c & -> & Hc1 & Hc2).
    rewrite valid_bytes_encode by done. split; [by apply scans_app|].
    intros k. rewrite <- app_assoc, Hc2, IH2. by rewrite app_assoc.
Qed.

(** A quoted string is read back, up to the bytes that are not UTF-8. *)
Lemma parse_string_quote s k :
  parse_string (quote_from 0 (bytes_of s) ++ c_quote :: k) = Parsed (to_valid_utf8 s) k.
Proof.
  destruct (quote_from_spec (bytes_of s) (bytes_of_bytes s)) as [H1 H2].
  unfold parse_string. rewrite H1. simpl. rewrite app_nil_r.
  specialize (H2 []). rewrite !app_nil_r in H2. rewrite H2. unfold to_valid_utf8.
  by rewrite valid_bytes_idemp by apply bytes_of_bytes.
Qed.

(** ** Reading back numbers *)

(** What may follow a number. *)
Definition ends_number (k : text) : Prop :=
  match k with b :: _ => is_digit b = false /\ b <> c_dot /\ b <> 101 /\ b <> 69 | [] => True end.

Lemma take_digits_text u k : ends_number k -> take_digits (digits_text u ++ k) = (u, k).
Proof.
  intros Hk. induction u; simpl; rewrite ?IHu; try done.
  destruct k as [|b k]; [done|]. destruct Hk as [Hk _]. simpl. by rewrite Hk.
Qed.

(** A normal numeral is zero or starts with another digit. *)
Lemma nzhead_head u : Decimal.nzhead u = u -> starts_with c_zero (digits_text u) = false.
Proof.
  destruct u; try done. intros H. exfalso. simpl in H.
  pose proof (nb_digits_nzhead u) as Hn. rewrite H in Hn. simpl in Hn. lia.
Qed.

Lemma int_digits_text u k :
  (u = Decimal.D0 Decimal.Nil \/ (Decimal.nzhead u = u /\ u <> Decimal.Nil)) -> ends_number k ->
  int_digits (digits_text u ++ k) = Parsed u k.
Proof.
  intros [->|[Hu Hn]] Hk; [done|]. apply nzhead_head in Hu.
  destruct u; try done; unfold int_digits, some_digits;
    rewrite take_digits_text by done; done.
Qed.

Lemma to_int_normal n :
  match Z.to_int n with
  | Decimal.Pos u => u = Decimal.D0 Decimal.Nil \/ (Decimal.nzhead u = u /\ u <> Decimal.Nil)
  | Decimal.Neg u => Decimal.nzhead u = u /\ u <> Decimal.Nil
  end.
Proof.
  pose proof (DecimalZ.to_of (Z.to_int n)) as H. rewrite DecimalZ.of_to in H.
  destruct (Z.to_int n) as [u|u]; simpl in H.
  - injection H as H. unfold Decimal.unorm in H. destruct (Decimal.nzhead u) eqn:E; try (by left);
      right; rewrite H; split; congruence.
  - destruct (Decimal.nzhead u) eqn:E; try discriminate; injection H as H; rewrite H; split; congruence.
Qed.

Lemma opt_fraction_none k : ends_number k -> opt_fraction k = Parsed false k.
Proof.
  destruct k as [|b k]; [done|]. intros (_ & H & _). simpl. by rewrite (proj2 (Z.eqb_neq _ _) H).
Qed.

Lemma opt_exponent_none k : ends_number k -> opt_exponent k = Parsed false k.
Proof.
  destruct k as [|b k]; [done|]. intros (_ & _ & H1 & H2). simpl.
  by rewrite (proj2 (Z.eqb_neq _ _) H1), (proj2 (Z.eqb_neq _ _) H2).
Qed.

Lemma digits_no_minus u k : starts_with c_minus (digits_text u ++ k) = true -> starts_with c_minus k = true.
Proof. by destruct u. Qed.

Lemma parse_number_text n k : ends_number k -> parse_number (num_text n ++ k) = Parsed (JNum n) k.
Proof.
  intros Hk. pose proof (to_int_normal n) as Hn. pose proof (DecimalZ.of_to n) as Hof.
  unfold num_text. destruct (Z.to_int n) as [u|u].
  - assert (match digits_text u ++ k with b :: _ => b =? c_minus | [] => false end = false) as Hneg.
    { destruct u; try done. by destruct Hn as [?|[_ ?]]. }
    unfold parse_number. rewrite Hneg, int_digits_text by done. cbn -[Z.of_int].
    rewrite opt_fraction_none by done. cbn -[Z.of_int]. rewrite opt_exponent_none by done. cbn -[Z.of_int].
    by rewrite Hof.
  - unfold parse_number. simpl app. cbn -[int_digits Z.of_int].
    rewrite int_digits_text by auto. cbn -[Z.of_int].
    rewrite opt_fraction_none by done. cbn -[Z.of_int]. rewrite opt_exponent_none by done. cbn -[Z.of_int].
    by rewrite Hof.
Qed.

(** The text of a number starts with a digit or a minus. *)
Lemma num_text_head n : exists b t, num_text n = b :: t /\ is_digit b || (b =? c_minus) = true.
Proof.
  pose proof (to_int_normal n) as Hn. unfold num_text. destruct (Z.to_int n) as [u|u]; [|by eexists _, _].
  destruct u; try (by eexists _, _). by destruct Hn as [?|[_ ?]].
Qed.

(** ** Reading back values *)

Section JsonInd.
Variable P : json -> Prop.
Hypothesis Pnull : P JNull.
Hypothesis Pbool : forall b, P (JBool b).
Hypothesis Pnum : forall n, P (JNum n).
Hypothesis Preal : forall t, P (JReal t).
Hypothesis Pstr : forall s, P (JStr s).
Hypothesis Parr : forall l, Forall P l -> P (JArr l).
Hypothesis Pobj : forall o, Forall (fun kv => P (snd kv)) o -> P (JObj o).

(** Induction on values, with the hypothesis for elements and members. *)
Fixpoint json_nested_ind (v : json) : P v :=
  match v with
  | JNull => Pnull
  | JBool b => Pbool b
  | JNum n => Pnum n
  | JReal t => Preal t
  | JStr s => Pstr s
  | JArr l => Parr l
      ((fix go l : Forall P l :=
          match l with [] => Forall_nil_2 _ | x :: l => Forall_cons_2 _ _ _ (json_nested_ind x) (go l) end) l)
  | JObj o => Pobj o
      ((fix go o : Forall (fun kv => P (snd kv)) o :=
          match o with
          | [] => Forall_nil_2 _
          | kv :: o => Forall_cons_2 _ kv o (json_nested_ind (snd kv)) (go o)
          end) o)
  end.
End JsonInd.

(** A value as it comes back: strings and keys are coerced to UTF-8. *)
Fixpoint norm_json (v : json) : json :=
  match v with
  | JStr s => JStr (to_valid_utf8 s)
  | JArr l => JArr (norm_json <$> l)
  | JObj o => JObj ((fun kv => (to_valid_utf8 (fst kv), norm_json (snd kv))) <$> o)
  | v => v
  end.

(** At most [d] arrays and objects deep, and without literals that are not
    integers. *)
Fixpoint fits (d : nat) (v : json) : Prop :=
  match v with
  | JReal _ => False
  | JArr l => match d with O => False | S d => Forall (fits d) l end
  | JObj o => match d with O => False | S d => Forall (fun kv => fits d (snd kv)) o end
  | _ => True
  end.

Lemma fits_le v d d' : fits d v -> (d <= d')%nat -> fits d' v.
Proof.
  revert d d'. induction v as [| | | | |l IH|o IH] using json_nested_ind; intros d d' Hf Hd;
    destruct d as [|d], d' as [|d']; try done; try lia; cbn [fits] in *.
  - apply (Forall_impl _ _ _ (proj2 (Forall_and _ _) (conj IH Hf))). intros v [Hv Hv'].
    eapply Hv; [done|lia].
  - apply (Forall_impl _ _ _ (proj2 (Forall_and _ _) (conj IH Hf))). intros v [Hv Hv'].
    eapply Hv; [done|lia].
Qed.

Abbreviation member_text := (fun kv => quote (fst kv) ++ c_colon :: json_text (snd kv)).

(** The text of a value is not empty and starts with neither space nor a closing
    bracket. *)
Lemma json_text_head d v :
  fits d v -> exists b t, json_text v = b :: t /\ is_space b = false /\ b <> c_rbrack /\ b <> c_rbrace.
Proof.
  intros Hf. destruct v as [|[]|n|t|s|l|o]; cbn [json_text]; unfold quote;
    try (eexists _, _; split; [reflexivity|]; done); [|by destruct d].
  destruct (num_text_head n) as (b & t & -> & Hb). exists b, t. split; [done|].
  unfold is_digit, is_space, c_minus, c_space, c_tab, c_return, c_newline, c_rbrack, c_rbrace in *. lia.
Qed.

Lemma skip_ws_head b bs : is_space b = false -> skip_ws (b :: bs) = b :: bs.
Proof. simpl. by intros ->. Qed.

Lemma skip_ws_value d v k : fits d v -> skip_ws (json_text v ++ k) = json_text v ++ k.
Proof. intros Hf. destruct (json_text_head d v Hf) as (b & t & -> & Hb & _). by apply skip_ws_head. Qed.

Lemma commas_cons t ts : ts <> [] -> commas (t :: ts) = t ++ c_comma :: commas ts.
Proof. by destruct ts. Qed.

Lemma quote_app s k : quote s ++ k = c_quote :: quote_from 0 (bytes_of s) ++ c_quote :: k.
Proof. unfold quote. by rewrite <- app_comm_cons, <- app_assoc. Qed.

Lemma skip_ws_quote s k : skip_ws (quote s ++ k) = c_quote :: quote_from 0 (bytes_of s) ++ c_quote :: k.
Proof. by rewrite quote_app. Qed.

Lemma expect_colon k : expect c_colon (skip_ws (c_colon :: k)) = Parsed tt k.
Proof. done. Qed.

Lemma skip_ws_comma k : skip_ws (c_comma :: k) = c_comma :: k.
Proof. done. Qed.

Lemma commas_length ts : (length ts <= S (length (commas ts)))%nat.
Proof.
  induction ts as [|t [|t' ts] IH]; [simpl; lia..|]. rewrite commas_cons, length_app by done.
  simpl in *. lia.
Qed.

#[local] Opaque quote.

(** An item is read back when something that ends a number follows. *)
Definition reads {A B} (item : text -> parsed B) (txt : A -> text) (norm : A -> B) (a : A) : Prop :=
  forall k, ends_number k -> item (txt a ++ k) = Parsed (norm a) k.

Lemma parse_list_text {A B} (item : text -> parsed B) (txt : A -> text) (norm : A -> B) close l fuel k :
  skip_ws (close :: k) = close :: k -> close <> c_comma -> ends_number (close :: k) ->
  l <> [] -> Forall (reads item txt norm) l -> (length l <= fuel)%nat ->
  parse_list item close fuel (commas (txt <$> l) ++ close :: k) = Parsed (norm <$> l) k.
Proof.
  intros Hc1 Hc2 Hc3 Hne Hl. revert fuel Hne. induction Hl as [|a l Ha _ IH]; intros fuel Hne Hfuel; [done|].
  destruct fuel as [|fuel]; [simpl in Hfuel; lia|].
  destruct l as [|a' l].
  - cbn [fmap list_fmap commas parse_list]. rewrite Ha by done. cbn [parsed_bind]. rewrite Hc1.
    by rewrite (proj2 (Z.eqb_neq _ _) Hc2), Z.eqb_refl.
  - rewrite fmap_cons, commas_cons by done. rewrite <- app_assoc, <- app_comm_cons.
    cbn [parse_list]. rewrite Ha by done. cbn [parsed_bind]. rewrite skip_ws_comma, Z.eqb_refl.
    by rewrite IH by (simpl in *; first [done|lia]).
Qed.

Abbreviation norm_member := (fun kv => (to_valid_utf8 (fst kv), norm_json (snd kv))).

Lemma parse_member_text value kv :
  reads value json_text norm_json (snd kv) -> reads (parse_member value) member_text norm_member kv.
Proof.
  destruct kv as [key v]. intros Hv k Hk. cbn [fst snd]. rewrite <- app_assoc, <- app_comm_cons.
  unfold parse_member. rewrite skip_ws_quote. cbn [expect parsed_bind]. rewrite Z.eqb_refl.
  cbn [parsed_bind]. rewrite parse_string_quote. cbn [parsed_bind]. rewrite expect_colon.
  cbn [parsed_bind]. by rewrite Hv.
Qed.

(** The fuel is enough for the members the text can hold. *)
Lemma commas_fuel ts (k : text) c : (length ts <= S (length (commas ts ++ c :: k)))%nat.
Proof. pose proof (commas_length ts). rewrite length_app. simpl. lia. Qed.

Lemma commas_head t ts b t0 : t = b :: t0 -> exists t', commas (t :: ts) = b :: t'.
Proof. intros ->. destruct ts; simpl; by eexists. Qed.

Lemma parse_array_text value d l k :
  Forall (reads value json_text norm_json) l -> Forall (fits d) l ->
  parse_array value (commas (json_text <$> l) ++ c_rbrack :: k) = Parsed (JArr (norm_json <$> l)) k.
Proof.
  intros Hr Hf. unfold parse_array. destruct l as [|v l]; [done|].
  assert (starts_with c_rbrack (skip_ws (commas (json_text <$> v :: l) ++ c_rbrack :: k)) = false) as ->.
  { apply Forall_cons in Hf as [Hf _]. destruct (json_text_head d v Hf) as (b & t & Ht & Hs & Hb & _).
    rewrite fmap_cons. destruct (commas_head _ (json_text <$> l) b t Ht) as [t' ->].
    rewrite <- app_comm_cons, skip_ws_head by done. simpl. by apply Z.eqb_neq. }
  rewrite (parse_list_text value json_text norm_json); try done.
  rewrite <- (length_fmap json_text). apply commas_fuel.
Qed.

Lemma parse_object_text value o k :
  Forall (fun kv => reads value json_text norm_json (snd kv)) o ->
  parse_object value (commas (member_text <$> o) ++ c_rbrace :: k) = Parsed (JObj (norm_member <$> o)) k.
Proof.
  intros Hr. unfold parse_object. destruct o as [|[key v] o]; [done|].
  assert (starts_with c_rbrace (skip_ws (commas (member_text <$> (key, v) :: o) ++ c_rbrace :: k)) = false) as ->.
  { rewrite fmap_cons.
    destruct (commas_head _ (member_text <$> o) _ _ (quote_app key (c_colon :: json_text v))) as [t' Ht].
    cbn [fst snd] in *. by rewrite Ht. }
  rewrite (parse_list_text (parse_member value) member_text norm_member); try done.
  - eapply Forall_impl; [exact Hr|]. intros kv. apply parse_member_text.
  - rewrite <- (length_fmap member_text). apply commas_fuel.
Qed.

(** The text of a value, followed by anything that does not prolong a number, is
    read as that value, and what follows is left. *)
Lemma parse_value_text v d k :
  fits d v -> ends_number k -> parse_value d (json_text v ++ k) = Parsed (norm_json v) k.
Proof.
  revert d k. induction v as [|[]|n|t|s|l IH|o IH] using json_nested_ind; intros d k Hf Hk.
  - by destruct d.
  - by destruct d.
  - by destruct d.
  - cbn [json_text]. destruct (num_text_head n) as (b & t & Ht & Hb).
    rewrite Ht. rewrite <- app_comm_cons.
    assert (parse_value d (b :: t ++ k) = parse_number (b :: t ++ k)) as ->.
    { assert (b = c_minus \/ 48 <= b <= 57) as Hb' by (unfold is_digit in Hb; lia).
      destruct d; cbn [parse_value]; rewrite skip_ws_head
        by (unfold is_space, c_space, c_tab, c_return, c_newline, c_minus in *; lia);
        rewrite Hb; unfold c_lbrace, c_lbrack, c_quote, c_minus in *;
        rewrite !(proj2 (Z.eqb_neq b _)) by lia; done. }
    rewrite app_comm_cons, <- Ht. by apply parse_number_text.
  - by destruct d.
  - cbn [json_text]. rewrite quote_app. destruct d; cbn -[parse_string quote_from];
      rewrite parse_string_quote; done.
  - destruct d as [|d]; [done|]. cbn [json_text norm_json]. rewrite <- app_comm_cons, <- app_assoc.
    change (parse_value (S d) (c_lbrack :: commas (json_text <$> l) ++ [c_rbrack] ++ k)) with
      (parse_array (parse_value d) (commas (json_text <$> l) ++ c_rbrack :: k)).
    apply (parse_array_text _ d); [|done].
    apply (Forall_impl _ _ _ (proj2 (Forall_and _ _) (conj IH Hf))).
    intros v [Hv Hv'] k' Hk'. by apply Hv.
  - destruct d as [|d]; [done|]. cbn [json_text norm_json]. rewrite <- app_comm_cons, <- app_assoc.
    change (parse_value (S d) (c_lbrace :: commas (member_text <$> o) ++ [c_rbrace] ++ k)) with
      (parse_object (parse_value d) (commas (member_text <$> o) ++ c_rbrace :: k)).
    apply parse_object_text.
    apply (Forall_impl _ _ _ (proj2 (Forall_and _ _) (conj IH Hf))).
    intros v [Hv Hv'] k' Hk'. by apply Hv.
Qed.
