(* ===== verification/JsonTorn.v ===== *)
(** Texts cut short. When a document is torn in the middle and other documents
    follow, the reader of [JsonText.v] reports an error: a torn document is
    never completed by what comes after it. This is what a reader of an
    append-only file sees after an interrupted write. *)

From Stdlib Require Import Ascii.
From S2P Require Import Prelude GoStrings Model Utf8 Rfc3339 Protocol JsonText JsonTextFacts.

(** No value. *)
Definition fails {A} (c : parsed A) : Prop :=
  match c with Parsed _ _ => False | _ => True end.

(** A text after which no array or object can go on. *)
Definition stuck (bs : text) : Prop :=
  match skip_ws bs with
  | [] => True
  | b :: _ => b <> c_comma /\ b <> c_colon /\ b <> c_rbrack /\ b <> c_rbrace
  end.

(** No value, or one after which nothing can go on. *)
Definition dead {A} (c : parsed A) : Prop :=
  match c with Parsed _ rest => stuck rest | _ => True end.

Lemma fails_bind {A B} (c : parsed A) (k : A -> text -> parsed B) :
  (forall a rest, c = Parsed a rest -> fails (k a rest)) -> fails (parsed_bind c k).
Proof. destruct c; simpl; auto. Qed.

Lemma dead_bind {A B} (c : parsed A) (k : A -> text -> parsed B) :
  (forall a rest, c = Parsed a rest -> dead (k a rest)) -> dead (parsed_bind c k).
Proof. destruct c; simpl; auto. Qed.

Lemma fails_dead {A} (c : parsed A) : fails c -> dead c.
Proof. by destruct c. Qed.

(** ** The depth limit *)

Lemma parse_list_mono {A} (item item' : text -> parsed A) close fuel bs l rest :
  (forall bs a rest, item bs = Parsed a rest -> item' bs = Parsed a rest) ->
  parse_list item close fuel bs = Parsed l rest -> parse_list item' close fuel bs = Parsed l rest.
Proof.
  intros Hsub. revert bs l rest. induction fuel as [|fuel IH]; intros bs l rest H; [done|].
  cbn [parse_list] in *. destruct (item bs) as [a r| | |] eqn:Ei; [|discriminate H..].
  rewrite (Hsub _ _ _ Ei). cbn [parsed_bind] in *. destruct (skip_ws r) as [|b r']; [done|].
  destruct (b =? c_comma); [|done].
  destruct (parse_list item close fuel r') as [l' r''| | |] eqn:El; [|discriminate H..].
  by rewrite (IH _ _ _ El).
Qed.

Section Mono.
Variables value value' : text -> parsed json.
Hypothesis sub : forall bs v rest, value bs = Parsed v rest -> value' bs = Parsed v rest.

Lemma parse_member_mono bs kv rest :
  parse_member value bs = Parsed kv rest -> parse_member value' bs = Parsed kv rest.
Proof.
  unfold parse_member.
  destruct (expect c_quote (skip_ws bs)) as [[] r1| | |]; [|done..]. cbn [parsed_bind].
  destruct (parse_string r1) as [k r2| | |]; [|done..]. cbn [parsed_bind].
  destruct (expect c_colon (skip_ws r2)) as [[] r3| | |]; [|done..]. cbn [parsed_bind].
  destruct (value r3) as [v r4| | |] eqn:Ev; [|done..]. by rewrite (sub _ _ _ Ev).
Qed.

Lemma parse_array_mono bs v rest :
  parse_array value bs = Parsed v rest -> parse_array value' bs = Parsed v rest.
Proof.
  unfold parse_array. destruct (starts_with _ _); [done|].
  destruct (parse_list value _ _ _) eqn:E; [|done..]. by rewrite (parse_list_mono _ _ _ _ _ _ _ sub E).
Qed.

Lemma parse_object_mono bs v rest :
  parse_object value bs = Parsed v rest -> parse_object value' bs = Parsed v rest.
Proof.
  unfold parse_object. destruct (starts_with _ _); [done|].
  destruct (parse_list _ _ _ _) eqn:E; [|done..].
  by rewrite (parse_list_mono _ _ _ _ _ _ _ parse_member_mono E).
Qed.

End Mono.

(** What is read under a depth limit is read the same under a larger one. *)
Lemma parse_value_mono d bs v rest :
  parse_value d bs = Parsed v rest -> parse_value (S d) bs = Parsed v rest.
Proof.
  revert bs v rest. induction d as [|d IH]; intros bs v rest;
    cbn [parse_value]; destruct (skip_ws bs) as [|b r]; try done;
    destruct (b =? c_lbrace); try done.
  - by destruct (b =? c_lbrack).
  - apply parse_object_mono, IH.
  - destruct (b =? c_lbrack); [|done]. apply parse_array_mono, IH.
Qed.

Lemma parse_value_mono_le d d' bs v rest :
  (d <= d')%nat -> parse_value d bs = Parsed v rest -> parse_value d' bs = Parsed v rest.
Proof. induction 1; auto using parse_value_mono. Qed.

(** ** A text that is cut and followed by [R] *)

(** [R] is empty or starts with an opening brace, and cannot complete anything
    that was begun before it. *)
Record follows (R : text) : Prop := {
  fo_head : R = [] \/ exists R', R = c_lbrace :: R';
  fo_string : dead (scan_chars SChars R);
  fo_value : dead (parse_value maxNestingDepth R);
}.

Section Torn.
Variable R : text.
Hypothesis HR : follows R.

Lemma follows_stuck : stuck R.
Proof. destruct HR as [[->|(R' & ->)] _ _]; [done|]. by unfold stuck. Qed.

Lemma follows_expect c : c <> c_lbrace -> fails (expect c R).
Proof.
  intros Hc. destruct HR as [[->|(R' & ->)] _ _]; [done|]. cbn [expect].
  by rewrite (proj2 (Z.eqb_neq _ _) (not_eq_sym Hc)).
Qed.

Lemma follows_skip : skip_ws R = R.
Proof. by destruct HR as [[->|(R' & ->)] _ _]. Qed.

Lemma follows_starts c : c <> c_lbrace -> starts_with c R = false.
Proof.
  intros Hc. destruct HR as [[->|(R' & ->)] _ _]; [done|]. by apply Z.eqb_neq, not_eq_sym.
Qed.

Lemma follows_value d : (d <= maxNestingDepth)%nat -> dead (parse_value d R).
Proof.
  intros Hd. pose proof (fo_value R HR) as HD.
  destruct (parse_value d R) as [v rest| | |] eqn:E; [|done..].
  by rewrite (parse_value_mono_le _ _ _ _ _ Hd E) in HD.
Qed.

(** *** Literals *)

Lemma expect_all_torn cs p q :
  p ++ q = cs -> q <> [] -> c_lbrace ∉ cs -> fails (expect_all cs (p ++ R)).
Proof.
  intros <- Hq. induction p as [|b p IH]; intros Hin; simpl.
  - destruct q as [|c q]; [done|]. simpl.
    assert (fails (expect c R)) as Hf by (apply follows_expect; intros ->; apply Hin; left).
    by destruct (expect c R).
  - rewrite Z.eqb_refl. apply IH. intros H. apply Hin. by right.
Qed.

(** The scanner of a literal that is not closed before [R]. *)
Lemma scan_chars_torn st p q cs rest :
  scan_chars st (p ++ q) = Parsed cs rest -> (length rest < length q)%nat ->
  dead (scan_chars st (p ++ R)).
Proof.
  revert st cs. induction p as [|b p IH]; intros st cs H Hl.
  - destruct HR as [[->|(R' & ->)] Hs _]; [done|]. by destruct st.
  - simpl app in *. cbn [scan_chars] in *.
    assert (forall st', (let? (cs, rest) := scan_chars st' (p ++ q) in Parsed (b :: cs) rest) = Parsed cs rest ->
      dead (let? (cs, rest) := scan_chars st' (p ++ R) in Parsed (b :: cs) rest)) as Hgo.
    { intros st' H'. destruct (scan_chars st' (p ++ q)) as [cs' r'| | |] eqn:E; [|done..].
      simpl in H'. simplify_eq. pose proof (IH st' cs' E Hl) as Hd.
      by destruct (scan_chars st' (p ++ R)). }
    destruct st, (b =? c_quote); try (destruct (scan_next _ b); [by apply Hgo|done]).
    simplify_eq. rewrite length_app in Hl. lia.
Qed.

Lemma parse_string_torn s p q :
  p ++ q = quote_from 0 (bytes_of s) ++ [c_quote] -> q <> [] -> dead (parse_string (p ++ R)).
Proof.
  intros Hp Hq. destruct (quote_from_spec (bytes_of s) (bytes_of_bytes s)) as [H1 _].
  specialize (H1 [c_quote]). rewrite <- Hp in H1. simpl in H1.
  assert (dead (scan_chars SChars (p ++ R))) as Hd.
  { eapply scan_chars_torn; [exact H1|]. destruct q; simpl; [done|lia]. }
  unfold parse_string. by destruct (scan_chars SChars (p ++ R)).
Qed.

(** *** Numbers *)

Definition num_char (b : Z) : Prop := is_digit b = true \/ b = c_minus.

(** What is left of a number before [R]. *)
Definition num_rest (r : text) : Prop := exists p, Forall num_char p /\ r = p ++ R.

Lemma num_rest_stuck r : num_rest r -> stuck r.
Proof.
  intros (p & Hp & ->). destruct Hp as [|b p Hb _]; [apply follows_stuck|].
  unfold stuck. rewrite <- app_comm_cons.
  assert (48 <= b <= 57 \/ b = 45) as Hb'.
  { unfold num_char, is_digit, c_minus in Hb. lia. }
  rewrite skip_ws_head by (unfold is_space, c_space, c_tab, c_return, c_newline; lia).
  unfold c_comma, c_colon, c_rbrack, c_rbrace. lia.
Qed.

Lemma take_digits_rest r : num_rest r -> num_rest (take_digits r).2.
Proof.
  intros (p & Hp & ->). induction Hp as [|b p Hb Hp IH].
  - exists []. split; [done|]. simpl. by destruct HR as [[->|(R' & ->)] _ _].
  - simpl. destruct (is_digit b); [by destruct (take_digits (p ++ R))|].
    exists (b :: p). split; [by constructor|done].
Qed.

(** A reader that leaves a rest of the number. *)
Definition keeps {A} (c : parsed A) : Prop :=
  match c with Parsed _ r => num_rest r | _ => True end.

Lemma keeps_bind {A B} (c : parsed A) (k : A -> text -> parsed B) :
  keeps c -> (forall a r, num_rest r -> keeps (k a r)) -> keeps (parsed_bind c k).
Proof. destruct c; simpl; auto. Qed.

Lemma some_digits_keeps r : num_rest r -> keeps (some_digits r).
Proof.
  intros Hr. pose proof (take_digits_rest r Hr) as Ht. destruct r as [|b r]; [done|].
  unfold some_digits. destruct (is_digit b); [|done].
  destruct (take_digits (b :: r)) as [u r']. exact Ht.
Qed.

Lemma num_rest_tail b r : num_rest (b :: r) -> is_digit b = true \/ b = c_minus -> num_rest r.
Proof.
  intros (p & Hp & Heq) Hb. destruct Hp as [|b' p Hb' Hp].
  - simpl in Heq. destruct HR as [[HR'|(R' & HR')] _ _]; rewrite HR' in Heq; [done|].
    injection Heq as -> _. destruct Hb; discriminate.
  - simplify_eq/=. by exists p.
Qed.

Lemma int_digits_keeps r : num_rest r -> keeps (int_digits r).
Proof.
  intros Hr. destruct r as [|b r]; [done|]. unfold int_digits.
  destruct (b =? c_zero) eqn:E; [|by apply some_digits_keeps].
  simpl. apply Z.eqb_eq in E. subst b. eapply num_rest_tail; [done|by left].
Qed.

(** Neither a fraction nor an exponent starts here. *)
Lemma num_rest_ends r : num_rest r ->
  match r with b :: _ => b <> c_dot /\ b <> 101 /\ b <> 69 | [] => True end.
Proof.
  intros (p & Hp & ->). destruct Hp as [|b p Hb _]; simpl.
  - by destruct HR as [[->|(R' & ->)] _ _].
  - unfold num_char, is_digit, c_minus, c_dot in *. lia.
Qed.

Lemma parse_number_keeps r : num_rest r -> keeps (parse_number r).
Proof.
  intros Hr. unfold parse_number. apply keeps_bind.
  { apply int_digits_keeps. destruct r as [|b r]; [done|].
    destruct (b =? c_minus) eqn:E; [|done]. apply Z.eqb_eq in E. subst b.
    eapply num_rest_tail; [done|by right]. }
  intros u r1 H1. apply keeps_bind.
  { pose proof (num_rest_ends r1 H1) as He. destruct r1 as [|b r1]; [done|].
    simpl. destruct He as [He _]. by rewrite (proj2 (Z.eqb_neq _ _) He). }
  intros f r2 H2. apply keeps_bind; [|done].
  pose proof (num_rest_ends r2 H2) as He. destruct r2 as [|b r2]; [done|].
  simpl. destruct He as (_ & He1 & He2).
  by rewrite (proj2 (Z.eqb_neq _ _) He1), (proj2 (Z.eqb_neq _ _) He2).
Qed.

Lemma num_text_chars n : Forall num_char (num_text n).
Proof.
  assert (forall u, Forall num_char (digits_text u)) as Hu.
  { induction u; simpl; constructor; try done; by left. }
  unfold num_text. destruct (Z.to_int n); [apply Hu|]. constructor; [by right|apply Hu].
Qed.

(** *** Arrays and objects *)

(** After a dead item no list goes on. *)
Lemma stuck_list {A} rest close (f g : text -> parsed A) :
  stuck rest -> close = c_rbrack \/ close = c_rbrace ->
  fails (match skip_ws rest with
         | [] => UnexpectedEOF
         | b :: r => if b =? c_comma then f r else if b =? close then g r else SyntaxError
         end).
Proof.
  unfold stuck. destruct (skip_ws rest) as [|b r]; [done|]. intros (H1 & _ & H3 & H4) Hc.
  rewrite (proj2 (Z.eqb_neq _ _) H1). destruct Hc as [-> | ->];
    [by rewrite (proj2 (Z.eqb_neq _ _) H3)|by rewrite (proj2 (Z.eqb_neq _ _) H4)].
Qed.

Lemma dead_list {A} (item : text -> parsed A) close fuel bs :
  dead (item bs) -> close = c_rbrack \/ close = c_rbrace -> fails (parse_list item close fuel bs).
Proof.
  intros Hd Hc. destruct fuel as [|fuel]; [done|]. cbn [parse_list].
  destruct (item bs); [|done..]. by apply stuck_list.
Qed.

Lemma follows_ends : ends_number R.
Proof. destruct HR as [[->|(R' & ->)] _ _]; done. Qed.

(** The text of a list without its first item. *)
Lemma commas_tail t ts c : exists tail, commas (t :: ts) ++ [c] = t ++ tail /\
  (ts = [] /\ tail = [c] \/ ts <> [] /\ tail = c_comma :: commas ts ++ [c]).
Proof.
  destruct ts as [|t' ts]; [by eexists; split; [|left]|]. rewrite commas_cons by done.
  eexists. split; [by rewrite <- app_assoc|]. by right.
Qed.

(** An item is dead where its text is torn. *)
Definition tears {A B} (item : text -> parsed B) (txt : A -> text) (a : A) : Prop :=
  forall p q, p ++ q = txt a -> q <> [] -> dead (item (p ++ R)).

Lemma parse_list_torn {A B} (item : text -> parsed B) (txt : A -> text) norm close l fuel p q :
  close = c_rbrack \/ close = c_rbrace ->
  Forall (fun a => reads item txt norm a /\ tears item txt a) l -> l <> [] ->
  p ++ q = commas (txt <$> l) ++ [close] -> q <> [] ->
  fails (parse_list item close fuel (p ++ R)).
Proof.
  intros Hc Hl. revert fuel p. induction Hl as [|a l [Hr Ht] _ IH]; intros fuel p Hne Hp Hq; [done|].
  destruct fuel as [|fuel]; [done|].
  destruct (commas_tail (txt a) (txt <$> l) close) as (tail & Htail & Hcase).
  rewrite fmap_cons, Htail in Hp. apply app_eq_app in Hp as (l0 & [[-> Hq']|[Ha ->]]).
  - rewrite <- app_assoc. destruct l0 as [|b l0].
    { simpl app. cbn [parse_list]. rewrite Hr by apply follows_ends.
      apply stuck_list; [apply follows_stuck|done]. }
    destruct Hcase as [[_ ->]|[Hne' ->]]; simplify_eq/=; [by destruct l0, q|].
    cbn [parse_list]. rewrite Hr by done. cbn [parsed_bind]. rewrite skip_ws_comma, Z.eqb_refl.
    assert (fails (parse_list item close fuel (l0 ++ R))) as H.
    { apply IH; [|done..]. by intros ->. }
    by destruct (parse_list item close fuel (l0 ++ R)).
  - destruct (decide (l0 = [])) as [->|Hl0].
    + rewrite app_nil_r in Ha. subst p. cbn [parse_list]. rewrite Hr by apply follows_ends.
      apply stuck_list; [apply follows_stuck|done].
    + apply dead_list; [|done]. by eapply Ht.
Qed.

Lemma colon_dead {B} r (f : unit -> text -> parsed B) :
  stuck r -> dead (parsed_bind (expect c_colon (skip_ws r)) f).
Proof.
  unfold stuck. destruct (skip_ws r) as [|b r']; [done|]. intros (_ & Hd & _). cbn [expect].
  by rewrite (proj2 (Z.eqb_neq _ _) Hd).
Qed.

Lemma parse_member_torn value kv :
  tears value json_text (snd kv) ->
  tears (parse_member value) member_text kv.
Proof.
  destruct kv as [key v]. intros Ht p q Hp Hq. cbn [fst snd] in *. unfold parse_member.
  destruct p as [|b p].
  { simpl app. rewrite follows_skip. assert (fails (expect c_quote R)) as H by by apply follows_expect.
    by destruct (expect c_quote R). }
  rewrite quote_app in Hp. injection Hp as -> Hp. rewrite <- app_comm_cons.
  rewrite skip_ws_head by done. cbn [expect]. rewrite Z.eqb_refl. cbn [parsed_bind].
  change (c_quote :: c_colon :: json_text v) with ([c_quote] ++ c_colon :: json_text v) in Hp.
  rewrite app_assoc in Hp. apply app_eq_app in Hp as (l0 & [[-> Hq']|[Hk ->]]).
  - rewrite <- !app_assoc. simpl app. rewrite parse_string_quote. cbn [parsed_bind].
    destruct l0 as [|b l0]; [apply colon_dead, follows_stuck|].
    injection Hq' as <- Hq'. rewrite <- app_comm_cons, expect_colon. cbn [parsed_bind].
    pose proof (Ht l0 q (eq_sym Hq') Hq) as Hd. by destruct (value (l0 ++ R)).
  - destruct (decide (l0 = [])) as [->|Hl0].
    + rewrite app_nil_r in Hk. subst p. rewrite <- app_assoc. simpl app. rewrite parse_string_quote.
      cbn [parsed_bind]. apply colon_dead, follows_stuck.
    + assert (dead (parse_string (p ++ R))) as Hd by by eapply parse_string_torn.
      destruct (parse_string (p ++ R)) as [s r| | |]; [|done..]. by apply colon_dead.
Qed.

Lemma parse_array_torn value l p q :
  dead (value R) ->
  Forall (fun v => reads value json_text norm_json v /\ tears value json_text v) l ->
  p ++ q = commas (json_text <$> l) ++ [c_rbrack] -> q <> [] ->
  (forall v, v ∈ l -> exists d, fits d v) ->
  fails (parse_array value (p ++ R)).
Proof.
  intros HvR Hl Hp Hq Hfit. unfold parse_array.
  assert (fails (parse_list value c_rbrack (S (length (p ++ R))) (p ++ R))) as Hlist.
  { destruct p as [|b p]; [by apply dead_list; [|left]|].
    destruct l as [|v l]; [by destruct p, q|].
    eapply (parse_list_torn value json_text norm_json); eauto. }
  assert (starts_with c_rbrack (skip_ws (p ++ R)) = false) as ->.
  { destruct p as [|b p]; [simpl app; rewrite follows_skip; by apply follows_starts|].
    destruct l as [|v l]; [by destruct p, q|]. destruct (Hfit v) as [d Hd]; [left|].
    destruct (json_text_head d v Hd) as (b' & t & Ht & Hs & Hb & _).
    destruct (commas_head _ (json_text <$> l) b' t Ht) as [t' Ht']. rewrite fmap_cons, Ht' in Hp.
    injection Hp as -> _. rewrite <- app_comm_cons, skip_ws_head by done. simpl. by apply Z.eqb_neq. }
  by destruct (parse_list value c_rbrack (S (length (p ++ R))) (p ++ R)).
Qed.

Lemma parse_object_torn value o p q :
  Forall (fun kv => reads value json_text norm_json (snd kv) /\ tears value json_text (snd kv)) o ->
  p ++ q = commas (member_text <$> o) ++ [c_rbrace] ->
  q <> [] -> fails (parse_object value (p ++ R)).
Proof.
  intros Hl Hp Hq. unfold parse_object.
  assert (fails (parse_list (parse_member value) c_rbrace (S (length (p ++ R))) (p ++ R))) as Hlist.
  { destruct p as [|b p].
    - apply dead_list; [|by right]. simpl app. unfold parse_member. rewrite follows_skip.
      assert (fails (expect c_quote R)) as H by by apply follows_expect.
      by destruct (expect c_quote R).
    - destruct o as [|kv o]; [by destruct p, q|].
      eapply (parse_list_torn (parse_member value) member_text norm_member _ (kv :: o));
        [by right| |done|exact Hp|done].
      eapply Forall_impl; [exact Hl|]. intros kv' [H1 H2].
      split; [by apply parse_member_text|by apply parse_member_torn]. }
  assert (starts_with c_rbrace (skip_ws (p ++ R)) = false) as ->.
  { destruct p as [|b p]; [simpl app; rewrite follows_skip; by apply follows_starts|].
    destruct o as [|[key v] o]; [by destruct p, q|].
    rewrite fmap_cons in Hp. cbn [fst snd] in Hp.
    edestruct (commas_head _ (member_text <$> o) _ _
      (quote_app key (c_colon :: json_text v))) as [t' Ht'].
    rewrite Ht' in Hp. by injection Hp as -> _. }
  by destruct (parse_list (parse_member value) c_rbrace (S (length (p ++ R))) (p ++ R)).
Qed.

Lemma literal_torn {B} w p q (v : B) :
  p ++ q = bytes_of w -> q <> [] -> bool_decide (c_lbrace ∈ bytes_of w) = false ->
  dead (let? (_, rest) := expect_all (bytes_of w) (p ++ R) in Parsed v rest).
Proof.
  intros Hp Hq Hw%bool_decide_eq_false. pose proof (expect_all_torn _ p q Hp Hq Hw) as H.
  by destruct (expect_all (bytes_of w) (p ++ R)).
Qed.

(** The first character of a number leads to the reader of numbers. *)
Lemma parse_value_number d b r :
  is_digit b || (b =? c_minus) = true -> parse_value d (b :: r) = parse_number (b :: r).
Proof.
  intros Hb. assert (b = 45 \/ 48 <= b <= 57) as Hb' by (unfold is_digit, c_minus in Hb; lia).
  destruct d; cbn [parse_value];
    rewrite skip_ws_head by (unfold is_space, c_space, c_tab, c_return, c_newline; lia);
    rewrite Hb; unfold c_lbrace, c_lbrack, c_quote in *;
    rewrite !(proj2 (Z.eqb_neq b _)) by lia; done.
Qed.

Lemma number_torn d n c p q :
  (c :: p) ++ q = num_text n -> dead (parse_value d ((c :: p) ++ R)).
Proof.
  intros Hp. destruct (num_text_head n) as (b & t & Ht & Hb). rewrite Ht in Hp.
  injection Hp as -> Hp. rewrite <- app_comm_cons, parse_value_number by done.
  assert (num_rest (b :: p ++ R)) as Hr.
  { exists (b :: p). split; [|done]. pose proof (num_text_chars n) as Hc. rewrite Ht, <- Hp in Hc.
    rewrite app_comm_cons in Hc. by apply Forall_app in Hc as [Hc _]. }
  pose proof (parse_number_keeps _ Hr) as Hk. destruct (parse_number (b :: p ++ R)); [|done..].
  by apply num_rest_stuck.
Qed.

(** A torn value is dead. *)
Lemma parse_value_torn v d :
  fits d v -> (d <= maxNestingDepth)%nat -> tears (parse_value d) json_text v.
Proof.
  revert d. induction v as [|[]|n|t|s|l IH|o IH] using json_nested_ind; intros d Hf Hd p q Hp Hq;
    (destruct p as [|c p]; [simpl; by apply follows_value|]).
  - injection Hp as -> Hp. destruct d; exact (literal_torn "ull" p q JNull Hp Hq eq_refl).
  - injection Hp as -> Hp. destruct d; exact (literal_torn "rue" p q (JBool true) Hp Hq eq_refl).
  - injection Hp as -> Hp. destruct d; exact (literal_torn "alse" p q (JBool false) Hp Hq eq_refl).
  - by eapply number_torn.
  - by destruct d.
  - injection Hp as -> Hp. pose proof (parse_string_torn s p q Hp Hq) as Hs.
    destruct d; cbn -[parse_string]; by destruct (parse_string (p ++ R)).
  - destruct d as [|d]; [done|]. injection Hp as -> Hp. apply fails_dead.
    change (fails (parse_array (parse_value d) (p ++ R))).
    eapply parse_array_torn; [apply follows_value; lia| |exact Hp|done|].
    + apply (Forall_impl _ _ _ (proj2 (Forall_and _ _) (conj IH Hf))).
      intros v [Hv Hv']. split; [|apply Hv; [done|lia]]. intros k Hk. by apply parse_value_text.
    + intros v Hv. exists d. by eapply Forall_forall in Hf.
  - destruct d as [|d]; [done|]. injection Hp as -> Hp. apply fails_dead.
    change (fails (parse_object (parse_value d) (p ++ R))).
    eapply parse_object_torn; [|exact Hp|done].
    apply (Forall_impl _ _ _ (proj2 (Forall_and _ _) (conj IH Hf))).
    intros v [Hv Hv']. split; [|apply Hv; [done|lia]]. intros k Hk. by apply parse_value_text.
Qed.

(** A torn object of which something is there gives no value. *)
Lemma object_torn o d p q :
  fits d (JObj o) -> (d <= maxNestingDepth)%nat -> p ++ q = json_text (JObj o) -> p <> [] -> q <> [] ->
  fails (parse_value d (p ++ R)).
Proof.
  intros Hf Hd Hp Hne Hq. destruct p as [|c p]; [done|]. injection Hp as -> Hp.
  destruct d as [|d]; [done|]. change (fails (parse_object (parse_value d) (p ++ R))).
  eapply parse_object_torn; [|exact Hp|done].
  eapply Forall_impl; [exact Hf|]. intros kv Hv.
  split; [|apply parse_value_torn; [done|lia]]. intros k Hk. by apply parse_value_text.
Qed.

End Torn.

(** ** Documents one per line *)

(** An object whose first key starts with a lower-case letter. *)
Definition lettered (v : json) : Prop :=
  match v with
  | JObj ((String c _, _) :: _) => 97 <= Z.of_N (N_of_ascii c) <= 122
  | _ => False
  end.

Definition line (v : json) : text := json_text v ++ [c_newline].

Lemma commas_prefix t ts : exists t', commas (t :: ts) = t ++ t'.
Proof. destruct ts; [exists []; by rewrite app_nil_r|]. by eexists. Qed.

(** A letter is written as it is. *)
Lemma letter_text b : 97 <= b <= 122 -> ascii_text b = [b].
Proof.
  intros Hb. unfold ascii_text, short_escape, c_quote, c_backslash.
  rewrite !(proj2 (Z.eqb_neq b _)) by lia. by rewrite (proj2 (Z.ltb_ge b 0x20)) by lia.
Qed.

Lemma lettered_head v :
  lettered v -> exists b t, json_text v = c_lbrace :: c_quote :: b :: t /\ 97 <= b <= 122.
Proof.
  destruct v as [| | | | | |[|[[|c key] v] o]]; try done. intros Hb. cbn [lettered] in Hb.
  cbn [json_text]. rewrite fmap_cons. cbn [fst snd].
  destruct (commas_prefix (quote (String c key) ++ c_colon :: json_text v) (member_text <$> o)) as [t ->].
  rewrite quote_app. cbn [bytes_of quote_from].
  rewrite (proj2 (Z.ltb_lt _ 0x80)), letter_text by lia. by eexists _, _.
Qed.

(** ** Pieces

    A write may stop after any number of bytes of a line. *)

Record piece := mkPiece { pi_doc : json; pi_length : nat }.

Definition piece_text (x : piece) : text := firstn (pi_length x) (line (pi_doc x)).

(** What a reader that stops at the first error finds in a piece: nothing, the
    document (its newline may be missing), or a torn document. *)
Inductive finding := Nothing | Whole (v : json) | Torn.

Definition piece_finding (x : piece) : finding :=
  if bool_decide (pi_length x = 0%nat) then Nothing
  else if bool_decide (pi_length x < length (json_text (pi_doc x)))%nat then Torn
  else Whole (pi_doc x).

Definition pieces_text (xs : list piece) : text := mjoin (piece_text <$> xs).

Definition piece_ok (x : piece) : Prop := lettered (pi_doc x) /\ fits maxNestingDepth (pi_doc x).

Lemma piece_cases x : lettered (pi_doc x) ->
  match piece_finding x with
  | Nothing => piece_text x = []
  | Whole v => v = pi_doc x /\ (piece_text x = json_text v \/ piece_text x = line v)
  | Torn => piece_text x <> [] /\ exists q, q <> [] /\ piece_text x ++ q = json_text (pi_doc x)
  end.
Proof.
  intros Hl. destruct (lettered_head _ Hl) as (b & t & Ht & _).
  unfold piece_finding, piece_text. destruct x as [v n]. cbn [pi_doc pi_length] in *.
  case_bool_decide; [by subst|]. unfold line. rewrite firstn_app. case_bool_decide.
  - replace (n - length (json_text v))%nat with 0%nat by lia. simpl. rewrite app_nil_r. split.
    + rewrite Ht. by destruct n.
    + exists (skipn n (json_text v)). split; [|apply firstn_skipn]. intros Hn.
      apply (f_equal length) in Hn. rewrite length_skipn in Hn. simpl in Hn. lia.
  - split; [done|]. rewrite firstn_all2 by lia.
    destruct (n - length (json_text v))%nat; [left|right]; simpl; [by rewrite app_nil_r|by rewrite take_nil].
Qed.

Lemma letter_stuck b r : 97 <= b <= 122 -> stuck (b :: r).
Proof.
  intros Hb. unfold stuck.
  rewrite skip_ws_head by (unfold is_space, c_space, c_tab, c_return, c_newline; lia).
  unfold c_comma, c_colon, c_rbrack, c_rbrace. lia.
Qed.

(** A literal that runs into the start of a document. *)
Lemma scan_into_document b t k R :
  97 <= b <= 122 -> follows R ->
  (exists q, k ++ q = c_lbrace :: c_quote :: b :: t) -> k <> [] ->
  dead (scan_chars SChars (k ++ R)).
Proof.
  intros Hb HR [q Hk] Hne. destruct k as [|c1 k]; [done|]. injection Hk as -> Hk.
  destruct k as [|c2 k].
  { simpl. pose proof (fo_string R HR) as Hd. by destruct (scan_chars SChars R). }
  injection Hk as -> Hk. destruct k as [|c3 k]; [by apply follows_stuck|].
  injection Hk as -> _. by apply letter_stuck.
Qed.

Lemma follows_nil : follows [].
Proof. by split; [left|..]. Qed.

(** Pieces can follow a torn document. *)
Lemma piece_follows x R : piece_ok x -> follows R -> follows (piece_text x ++ R).
Proof.
  intros [Hl Hf] HR. pose proof (piece_cases x Hl) as Hc.
  destruct (lettered_head _ Hl) as (b & t & Ht & Hb).
  destruct (piece_finding x) as [|v|].
  - by rewrite Hc.
  - destruct Hc as [-> Hc].
    assert (exists ws, piece_text x ++ R = json_text (pi_doc x) ++ ws ++ R /\ stuck (ws ++ R) /\
      ends_number (ws ++ R)) as (ws & -> & Hs & He).
    { destruct Hc as [-> | ->].
      - exists []. split; [done|]. split; [by apply follows_stuck|by apply follows_ends].
      - exists [c_newline]. unfold line. rewrite <- app_assoc. split; [done|].
        split; [by apply (follows_stuck R HR)|done]. }
    split.
    + right. rewrite Ht. by eexists.
    + rewrite Ht. by apply letter_stuck.
    + by rewrite parse_value_text.
  - destruct Hc as (Hne & q & Hq & Hp). split.
    + right. destruct (piece_text x) as [|c p]; [done|]. rewrite Ht in Hp. injection Hp as -> _. by eexists.
    + rewrite Ht in Hp. by eapply scan_into_document; [|done|exists q|].
    + apply fails_dead. destruct (pi_doc x) as [| | | | | |o]; try done. by eapply object_torn.
Qed.

Lemma pieces_follow xs : Forall piece_ok xs -> follows (pieces_text xs).
Proof.
  induction 1 as [|x xs Hx _ IH]; [apply follows_nil|]. by apply piece_follows.
Qed.
