(* ===== verification/WireBytes.v ===== *)
(** The protocol as bytes. [json.Encoder] writes the text of a value and a
    newline; [json.Decoder] reads the documents of a stream one after the other.
    The codecs of [Protocol.v] work on trees: this file shows that it makes no
    difference to them whether a tree travels as bytes, and what a reader finds
    in a stream of documents, also when writes were cut short. *)

From Stdlib Require Import Ascii.
From S2P Require Import Prelude GoStrings Model Utf8 Rfc3339 Protocol JsonText JsonTextFacts.
From S2P Require Import JsonTorn.

(** ** Streams of documents *)

(** The documents of a stream up to its end or its first error ([None]). *)
Fixpoint decode_stream (fuel : nat) (bs : text) : list (option json) :=
  match fuel with
  | O => []
  | S fuel =>
      match Decode bs with
      | None => []
      | Some (Parsed v rest) => Some v :: decode_stream fuel rest
      | Some _ => [None]
      end
  end.

Definition stream (bs : text) : list (option json) := decode_stream (S (length bs)) bs.

Lemma Decode_shrinks bs v rest : Decode bs = Some (Parsed v rest) -> (length rest < length bs)%nat.
Proof.
  unfold Decode. destruct (skip_ws bs); [done|]. intros [= H].
  pose proof (parse_value_shrinks maxNestingDepth bs) as Hs. by rewrite H in Hs.
Qed.

(** The fuel is enough: more of it changes nothing. *)
Lemma decode_stream_fuel fuel bs : (length bs < fuel)%nat -> decode_stream fuel bs = stream bs.
Proof.
  unfold stream. revert bs. assert (forall n bs f1 f2, (length bs < n)%nat -> (length bs < f1)%nat ->
    (length bs < f2)%nat -> decode_stream f1 bs = decode_stream f2 bs) as Hgen.
  { induction n as [|n IH]; intros bs f1 f2 Hn H1 H2; [lia|].
    destruct f1 as [|f1], f2 as [|f2]; [lia..|]. cbn [decode_stream].
    destruct (Decode bs) as [[v rest| | |]|] eqn:E; try done. f_equal.
    apply Decode_shrinks in E. apply IH; lia. }
  intros bs H. eapply (Hgen (S (length bs))); lia.
Qed.

Lemma stream_eq bs :
  stream bs = match Decode bs with
              | None => []
              | Some (Parsed v rest) => Some v :: stream rest
              | Some _ => [None]
              end.
Proof.
  unfold stream at 1. cbn [decode_stream]. destruct (Decode bs) as [[v rest| | |]|] eqn:E; try done.
  f_equal. apply decode_stream_fuel. by apply Decode_shrinks in E.
Qed.

Lemma Decode_space b bs : is_space b = true -> Decode (b :: bs) = Decode bs.
Proof.
  intros Hb. unfold Decode. cbn [skip_ws]. rewrite Hb. destruct (skip_ws bs) eqn:E; [done|].
  f_equal. destruct maxNestingDepth; cbn [parse_value skip_ws]; by rewrite Hb.
Qed.

Lemma stream_newline bs : stream (c_newline :: bs) = stream bs.
Proof. rewrite stream_eq, Decode_space by done. by rewrite <- stream_eq. Qed.

(** A document in front of a stream. *)
Lemma stream_document v R :
  fits maxNestingDepth v -> ends_number R -> stream (json_text v ++ R) = Some (norm_json v) :: stream R.
Proof.
  intros Hf HR. rewrite stream_eq. unfold Decode. rewrite parse_value_text by done.
  destruct (json_text_head _ v Hf) as (b & t & -> & Hb & _). rewrite <- app_comm_cons.
  by rewrite skip_ws_head.
Qed.

Lemma stream_line v R :
  fits maxNestingDepth v -> stream (line v ++ R) = Some (norm_json v) :: stream R.
Proof.
  intros Hf. unfold line. rewrite <- app_assoc. simpl app. rewrite stream_document by done.
  by rewrite stream_newline.
Qed.

Lemma stream_lines vs R :
  Forall (fits maxNestingDepth) vs ->
  stream (mjoin (line <$> vs) ++ R) = (Some ∘ norm_json <$> vs) ++ stream R.
Proof.
  induction 1 as [|v vs Hv _ IH]; [done|].
  rewrite !fmap_cons. change (mjoin (line v :: (line <$> vs))) with (line v ++ mjoin (line <$> vs)).
  by rewrite <- app_assoc, stream_line, IH.
Qed.

(** What a reader finds in a sequence of pieces: the whole documents up to the
    first torn one, which is an error. *)
Fixpoint found (xs : list piece) : list (option json) :=
  match xs with
  | [] => []
  | x :: xs =>
      match piece_finding x with
      | Nothing => found xs
      | Whole v => Some (norm_json v) :: found xs
      | Torn => [None]
      end
  end.

Lemma Decode_torn bs : bs <> [] -> skip_ws bs = bs -> fails (parse_value maxNestingDepth bs) -> stream bs = [None].
Proof.
  intros Hne Hs Hf. rewrite stream_eq. unfold Decode. rewrite Hs. destruct bs as [|b bs]; [done|].
  by destruct (parse_value maxNestingDepth (b :: bs)).
Qed.

Lemma stream_pieces xs : Forall piece_ok xs -> stream (pieces_text xs) = found xs.
Proof.
  induction 1 as [|x xs Hx Hxs IH]; [done|].
  change (pieces_text (x :: xs)) with (piece_text x ++ pieces_text xs). cbn [found].
  destruct Hx as [Hl Hf]. pose proof (piece_cases x Hl) as Hc. pose proof (pieces_follow xs Hxs) as HR.
  destruct (piece_finding x) as [|v|].
  - by rewrite Hc.
  - destruct Hc as [-> [-> | ->]].
    + rewrite stream_document, IH; [done..|]. by apply follows_ends.
    + by rewrite stream_line, IH.
  - destruct Hc as (Hne & q & Hq & Hp). destruct (pi_doc x) as [| | | | | |o] eqn:Ed; try done.
    destruct (piece_text x) as [|c p] eqn:Ep; [done|].
    apply Decode_torn; [done| |].
    + injection Hp as -> _. done.
    + by eapply (object_torn (pieces_text xs) HR).
Qed.

(** ** Trees and bytes

    A reader that does not see whether the strings of a tree went through
    their text. *)

Definition unaffected {A} (read : json -> A -> option A) : Prop :=
  forall v cur, read (norm_json v) cur = read v cur.

Definition unaffected_fields {A} (read : fields -> A -> option A) : Prop :=
  forall o cur, read (norm_member <$> o) cur = read o cur.

Lemma runes_valid bs : Forall is_byte bs -> runes_from 0 (valid_bytes bs) = runes_from 0 bs.
Proof.
  revert bs. apply runes_ind; [done| |].
  - intros b bs H IH. rewrite (valid_bytes_error b bs H), runes_from_encode, IH by apply RuneError_scalar.
    cbn [runes_from]. by rewrite H.
  - intros r bs Hr IH. by rewrite valid_bytes_encode, !runes_from_encode, IH.
Qed.

Lemma key_is_valid tag k : key_is tag (to_valid_utf8 k) = key_is tag k.
Proof.
  unfold key_is, fold_case, runes. by rewrite bytes_of_to_valid, runes_valid by apply bytes_of_bytes.
Qed.

Lemma field_unaffected {A} tag (read : json -> A -> option A) :
  unaffected read -> unaffected_fields (field tag read).
Proof.
  intros Hr o. induction o as [|[k v] o IH]; intros cur; [done|]. simpl. rewrite key_is_valid, Hr.
  destruct (key_is tag k); [|apply IH]. destruct (read v cur); [apply IH|done].
Qed.

Lemma u_string_unaffected : unaffected u_string.
Proof. intros [] cur; try done. simpl. by rewrite to_valid_idemp. Qed.

Lemma u_bool_unaffected : unaffected u_bool.
Proof. by intros []. Qed.

Lemma u_int_unaffected : unaffected u_int.
Proof. by intros []. Qed.

Lemma u_slice_unaffected {A} (elem : json -> option A) :
  (forall v, elem (norm_json v) = elem v) -> unaffected (u_slice elem).
Proof.
  intros He [] cur; try done. simpl. f_equal. induction l as [|v l IH]; [done|].
  cbn. rewrite He. destruct (elem v); [|done]. simpl. by rewrite IH.
Qed.

Lemma u_struct_unaffected {A} (read : fields -> A -> option A) :
  unaffected_fields read -> unaffected (u_struct read).
Proof. intros Hr [] cur; try done. apply Hr. Qed.

Create HintDb bytes.
#[export] Hint Resolve u_string_unaffected u_bool_unaffected u_int_unaffected u_struct_unaffected
  field_unaffected : bytes.

(** Reads field by field. *)
Ltac by_fields :=
  intros o cur;
  repeat first
    [ reflexivity
    | match goal with
      | |- (field ?t ?r (norm_member <$> ?o) ?c ≫= _) = _ =>
          rewrite (field_unaffected t r ltac:(eauto with bytes) o c);
          destruct (field t r o c); cbn [mbind option_bind]
      end ].

(** ** Entries of objects *)

Lemma put_fits d k v : fits d v -> Forall (fun kv => fits d (snd kv)) (put k v).
Proof. repeat constructor. done. Qed.

Lemma put_unless_fits d omit k v : fits d v -> Forall (fun kv => fits d (snd kv)) (put_unless omit k v).
Proof. destruct omit; repeat constructor. done. Qed.

Lemma obj_fits d o : Forall (fun kv => fits d (snd kv)) o -> fits (S d) (JObj o).
Proof. done. Qed.

Lemma arr_fits {A} d (w : A -> json) l : (forall x, fits d (w x)) -> fits (S d) (JArr (w <$> l)).
Proof. intros H. cbn [fits]. by apply Forall_fmap, Forall_true. Qed.

(** Splits an object into its entries. *)
Ltac fits_fields :=
  apply obj_fits;
  repeat match goal with
  | |- Forall _ (_ ++ _) => apply Forall_app; split
  | |- Forall _ (put _ _) => apply put_fits
  | |- Forall _ (put_unless _ _ _) => apply put_unless_fits
  end;
  try done.

Section Readers.
Context {Htime : TimeText}.

Lemma u_time_unaffected : unaffected u_time.
Proof. intros [] cur; try done. apply parse_time_valid. Qed.

Lemma u_time_ptr_unaffected : unaffected u_time_ptr.
Proof. intros [] cur; try done. simpl. by rewrite parse_time_valid. Qed.

#[local] Hint Resolve u_time_unaffected u_time_ptr_unaffected : bytes.

Lemma message_unaffected : unaffected_fields message_of.
Proof. unfold message_of. by_fields. Qed.

Lemma metric_unaffected : unaffected_fields metric_of.
Proof. unfold metric_of. by_fields. Qed.

Lemma queue_metric_unaffected : unaffected_fields queue_metric_of.
Proof.
  unfold queue_metric_of. intros o cur. rewrite (field_unaffected _ _ u_string_unaffected).
  destruct (field "name" u_string o (qm_Name cur)); [|done]. cbn [mbind option_bind].
  by rewrite metric_unaffected.
Qed.

Lemma u_queue_metric_unaffected v : u_queue_metric (norm_json v) = u_queue_metric v.
Proof. apply u_struct_unaffected, queue_metric_unaffected. Qed.

Lemma u_queue_metrics_unaffected : unaffected u_queue_metrics.
Proof.
  intros v cur. unfold u_queue_metrics. by rewrite (u_slice_unaffected _ u_queue_metric_unaffected).
Qed.

Lemma u_queues_unaffected : unaffected (u_slice u_queue_metric).
Proof. apply u_slice_unaffected, u_queue_metric_unaffected. Qed.

Lemma u_strings_unaffected : unaffected u_strings.
Proof.
  intros v cur. unfold u_strings. rewrite u_slice_unaffected; [done|].
  intros x. apply u_string_unaffected.
Qed.

#[local] Hint Resolve message_unaffected metric_unaffected u_queue_metrics_unaffected
  u_queues_unaffected u_strings_unaffected : bytes.

Lemma broker_metrics_unaffected : unaffected_fields broker_metrics_of.
Proof. unfold broker_metrics_of. by_fields. Qed.

#[local] Hint Resolve broker_metrics_unaffected : bytes.

Lemma request_unaffected v : Request_UnmarshalJSON (norm_json v) = Request_UnmarshalJSON v.
Proof. apply u_struct_unaffected. unfold request_of. by_fields. Qed.

Lemma response_unaffected v : Response_UnmarshalJSON (norm_json v) = Response_UnmarshalJSON v.
Proof. apply u_struct_unaffected. unfold response_of. by_fields. Qed.

(** ** What the writers of [Protocol.v] produce *)

Lemma w_time_fits d t v : w_time t = Some v -> fits d v.
Proof. unfold w_time. case_match; [|done]. intros [= <-]. by destruct d. Qed.

Lemma w_message_fits d m v : w_message m = Some v -> fits (S d) v.
Proof.
  unfold w_message. destruct (w_time (Timestamp m)) as [ts|] eqn:Et; [|done]. cbn [mbind option_bind].
  destruct (match ExpiryAt m with Some _ => _ | None => _ end) as [ex|] eqn:Ee; [|done].
  intros <-%(inj Some). assert (fits d ex) as Hex.
  { destruct (ExpiryAt m); [by eapply w_time_fits|]. injection Ee as <-. by destruct d. }
  fits_fields; try (by destruct d). by eapply w_time_fits.
Qed.

Lemma metric_entries_fits d m : Forall (fun kv => fits d (snd kv)) (metric_entries m).
Proof. unfold metric_entries. repeat constructor; by destruct d. Qed.

Lemma w_queue_metric_fits d m : fits (S d) (w_queue_metric m).
Proof. unfold w_queue_metric. fits_fields; [by destruct d|]. apply metric_entries_fits. Qed.

Lemma request_fits r v : Request_MarshalJSON r = Some v -> fits maxNestingDepth v /\ lettered v.
Proof.
  unfold Request_MarshalJSON. destruct (w_message (q_Payload r)) as [msg|] eqn:Em; [|done].
  intros <-%(inj Some). split.
  - apply (fits_le _ 2); [|apply maxNestingDepth_large; lia]. fits_fields. by eapply w_message_fits.
  - unfold put_unless at 1. by destruct (empty (q_ID r)).
Qed.

Lemma w_broker_metrics_fits d m : fits (S (S (S d))) (w_broker_metrics m).
Proof.
  unfold w_broker_metrics. fits_fields.
  - apply arr_fits. intros x. apply w_queue_metric_fits.
  - apply obj_fits, metric_entries_fits.
Qed.

Lemma response_fits r v : Response_MarshalJSON r = Some v -> fits maxNestingDepth v /\ lettered v.
Proof.
  unfold Response_MarshalJSON. destruct (w_message (p_Message r)) as [msg|] eqn:Em; [|done].
  intros <-%(inj Some). split; [|done]. apply (fits_le _ 4); [|apply maxNestingDepth_large; lia].
  fits_fields;
    first [ by eapply w_message_fits | apply w_broker_metrics_fits
          | apply arr_fits; intros x; first [done | apply w_queue_metric_fits] ].
Qed.

(** ** Conversations *)

(** The bytes of a sequence of documents, and what the reader at the other end
    makes of bytes; it stops at the first error. *)
Definition sent (vs : list json) : text := mjoin (line <$> vs).

Definition read_requests (bs : text) : list (option Request) :=
  (fun d => d ≫= Request_UnmarshalJSON) <$> stream bs.
Definition read_responses (bs : text) : list (option Response) :=
  (fun d => d ≫= Response_UnmarshalJSON) <$> stream bs.

(** A sequence written by [write] is read back by [read], whatever follows. *)
Lemma sequence_read_back {A} (write : A -> option json) (read : json -> option A) (P : A -> Prop) xs :
  (forall v, read (norm_json v) = read v) ->
  (forall x, P x -> exists v, write x = Some v /\ read v = Some x) ->
  (forall x v, write x = Some v -> fits maxNestingDepth v /\ lettered v) ->
  Forall P xs ->
  exists vs, mapM write xs = Some vs /\
    forall R, (fun d => d ≫= read) <$> stream (sent vs ++ R) =
              (Some <$> xs) ++ ((fun d => d ≫= read) <$> stream R).
Proof.
  intros Hread Hrt Hfits. induction 1 as [|x xs Hx _ (vs & Hvs & IH)]; [by exists []|].
  destruct (Hrt x Hx) as (v & Hw & Hr). exists (v :: vs). split.
  { cbn. rewrite Hw. simpl. by rewrite Hvs. }
  intros R. change (sent (v :: vs)) with (line v ++ sent vs).
  rewrite <- app_assoc, stream_line by (by eapply Hfits).
  rewrite !fmap_cons, <- app_comm_cons, IH. cbn [mbind option_bind]. by rewrite Hread, Hr.
Qed.

(** A document cut short at the end of a stream. *)
Lemma cut_document v n :
  fits maxNestingDepth v -> lettered v -> (0 < n < length (json_text v))%nat ->
  stream (firstn n (line v)) = [None].
Proof.
  intros Hf Hl Hn. pose proof (stream_pieces [mkPiece v n]) as H.
  unfold pieces_text in H. simpl in H. rewrite app_nil_r in H. unfold piece_text in H.
  cbn [pi_doc pi_length] in H. rewrite H; [|by repeat constructor]. unfold piece_finding.
  cbn [pi_doc pi_length]. by rewrite bool_decide_false, bool_decide_true by lia.
Qed.

(** C8: The protocol works as bytes: a sequence of requests or responses whose
    strings are valid UTF-8, whose numbers fit and whose instants have a text,
    written as JSON texts with a newline each, is read back in order and as it
    was; and when the connection is cut inside a further request, the reader
    gets the requests before it and then an error, never part of a request. *)
Theorem wire_bytes_roundtrip qs rs :
  Forall request_wire qs -> Forall response_wire rs ->
  (exists vs, mapM Request_MarshalJSON qs = Some vs /\
     read_requests (sent vs) = Some <$> qs /\
     forall q v n, Request_MarshalJSON q = Some v -> (0 < n < length (json_text v))%nat ->
       read_requests (sent vs ++ firstn n (line v)) = (Some <$> qs) ++ [None]) /\
  (exists vs, mapM Response_MarshalJSON rs = Some vs /\ read_responses (sent vs) = Some <$> rs).
Proof.
  intros Hq Hr. split.
  - destruct (sequence_read_back _ _ request_wire qs request_unaffected request_travels request_fits Hq)
      as (vs & Hvs & Hs).
    exists vs. split; [done|]. split.
    + specialize (Hs []). by rewrite !app_nil_r in Hs.
    + intros q v n Hm Hn. unfold read_requests. rewrite Hs.
      destruct (request_fits q v Hm) as [Hf Hl]. by rewrite cut_document.
  - destruct (sequence_read_back _ _ response_wire rs response_unaffected response_travels response_fits Hr)
      as (vs & Hvs & Hs).
    exists vs. split; [done|]. specialize (Hs []). by rewrite !app_nil_r in Hs.
Qed.

End Readers.

Lemma wire_bytes_roundtrip_witness :
  exists vs, mapM Request_MarshalJSON [publish_request] = Some vs /\
    read_requests (sent vs) = [Some publish_request].
Proof.
  destruct (wire_bytes_roundtrip [publish_request] [list_response]) as [(vs & Hv & Hs & _) _].
  - repeat first [done | constructor | vm_compute; discriminate].
  - repeat first [done | constructor | vm_compute; discriminate].
  - by exists vs.
Defined.

(** The bytes of a request. *)
Definition with_quotes (s : string) : text := (fun b => if b =? 39 then c_quote else b) <$> bytes_of s.

Example publish_request_bytes :
  (v ← Request_MarshalJSON publish_request; Some (line v)) =
  Some (with_quotes
    "{'type':'publish','message':{'id':'','payload':'hello','timestamp':'0001-01-01T00:00:00Z','retry':0,'expiry_at':null},'ttl':5000000000,'exchange':'events','routing_key':'orders.eu','version':1}"
    ++ [c_newline]).
Proof. vm_compute. reflexivity. Qed.
