(* ===== verification/WalBytes.v ===== *)
(** The log file as bytes. [writeRecord] marshals a record to a line of JSON and
    writes it; a write may stop after any number of bytes. [Load] decodes the
    documents of the file, each as a record and, when it has no type, as a bare
    message. [Wal.v] has the same file as a list of documents: the theorems show
    that it is a faithful abstraction of the bytes, and what [Load] makes of a
    file that was cut anywhere. *)

From Stdlib Require Import Ascii.
From S2P Require Import Prelude GoStrings Model Exchange Wal Utf8 Rfc3339 Protocol JsonText.
From S2P Require Import JsonTextFacts JsonTorn WireBytes.

(** ** Records as JSON *)

(** The constant a string is equal to. *)
Definition RecordType_of_string (s : string) : RecordType :=
  if bool_decide (s = "exchange_created") then ExchangeCreated
  else if bool_decide (s = "exchange_deleted") then ExchangeDeleted
  else if bool_decide (s = "queue_created") then QueueCreated
  else if bool_decide (s = "queue_deleted") then QueueDeleted
  else if bool_decide (s = "queue_binded") then QueueBinded
  else if bool_decide (s = "queue_unbinded") then QueueUnbinded
  else if bool_decide (s = "published") then Published
  else if bool_decide (s = "acknowledged") then Acknowledged
  else if bool_decide (s = "requeued") then Requeued
  else if bool_decide (s = "dead_lettered") then DeadLettered
  else OtherType s.

Definition zeroRecord : WalRecord := rec_queue (OtherType "") "".

Section Codec.
Context {Htime : TimeText}.

(** [json.Marshal(record)] *)
Definition Record_MarshalJSON (r : WalRecord) : option json :=
  msg ← w_message (r_Message r);
  let ty := RecordType_string (r_Type r) in
  Some (JObj (put_unless (empty ty) "type" (w_string ty) ++
              put_unless (empty (r_Exchange r)) "exchange" (w_string (r_Exchange r)) ++
              put_unless (empty (r_ExchangeType r)) "exchange_type" (w_string (r_ExchangeType r)) ++
              put_unless (empty (r_Queue r)) "queue" (w_string (r_Queue r)) ++
              put_unless (bool_decide (r_Message r = zeroMessage)) "message" msg ++
              put_unless (empty (r_MessageID r)) "message_id" (w_string (r_MessageID r)) ++
              put_unless (empty (r_BindingKey r)) "binding_key" (w_string (r_BindingKey r)))).

Definition record_of (o : fields) (r : WalRecord) : option WalRecord :=
  t ← field "type" u_string o (RecordType_string (r_Type r));
  e ← field "exchange" u_string o (r_Exchange r);
  et ← field "exchange_type" u_string o (r_ExchangeType r);
  q ← field "queue" u_string o (r_Queue r);
  m ← field "message" (u_struct message_of) o (r_Message r);
  i ← field "message_id" u_string o (r_MessageID r);
  k ← field "binding_key" u_string o (r_BindingKey r);
  Some (mkRecord (RecordType_of_string t) e et q m i k).

(** [json.Unmarshal(raw, &record)] and [json.Unmarshal(raw, &message)]. *)
Definition Record_UnmarshalJSON (v : json) : option WalRecord := u_struct record_of v zeroRecord.
Definition Message_UnmarshalJSON (v : json) : option Message := u_struct message_of v zeroMessage.

(** ** The file *)

(** What [Write] and [Sync] answer: how many bytes were written ([None]: all),
    whether there was an error, whether the sync succeeded. *)
Record write_outcome := mkWrite {
  wo_written : option nat;
  wo_error : bool;
  wo_synced : bool;
}.

Record ByteWAL := mkByteWAL {
  bw_data : text;
  bw_closed : bool;
  bw_open : open_outcome;
}.

Definition add_bytes (part : text) (f : ByteWAL) : ByteWAL :=
  mkByteWAL (bw_data f ++ part) (bw_closed f) (bw_open f).

Definition writeRecord_bytes (o : write_outcome) (record : WalRecord) (f : ByteWAL) : option Err * ByteWAL :=
  match Record_MarshalJSON record with
  | None => (Some (ErrStorage "error marshalling data"), f)
  | Some v =>
      let data := json_text v ++ [c_newline] in
      let part := firstn (default (length data) (wo_written o)) data in
      let f := add_bytes part f in
      if wo_error o then (Some (ErrStorage "failed to write record to WAL file"), f)
      else if negb (bool_decide (length part = length data)) then (Some (ErrStorage "short write"), f)
      else if negb (wo_synced o) then (Some (ErrStorage "failed to sync WAL file to disk"), f)
      else (None, f)
  end.

Definition Append_bytes (o : write_outcome) (record : WalRecord) (f : ByteWAL) : option Err * ByteWAL :=
  if bw_closed f then (Some (ErrStorage "WAL closed"), f) else writeRecord_bytes o record f.

Definition Close_bytes (f : ByteWAL) : ByteWAL := mkByteWAL (bw_data f) true (bw_open f).

(** A document of the stream with its two readings. *)
Definition doc_of (d : option json) : raw_doc :=
  match d with
  | None => Undecodable
  | Some v => RawDoc (Record_UnmarshalJSON v) (Message_UnmarshalJSON v)
  end.

Definition Load_bytes (f : ByteWAL) : RecoveredState + Err :=
  match bw_open f with
  | NotExist => inl emptyRecovered
  | OpenErr => inr (ErrStorage "error opening file")
  | Opened => load_loop (doc_of <$> stream (bw_data f)) emptyRecovered
  end.

(** ** Records that travel *)

(** A record of one of the constants' types, with valid strings and a message
    whose numbers and instants have a text. *)
Record record_wire (r : WalRecord) : Prop := {
  rw_type : RecordType_of_string (RecordType_string (r_Type r)) = r_Type r;
  rw_type_valid : valid_utf8 (RecordType_string (r_Type r));
  rw_typed : typed r;
  rw_exchange : valid_utf8 (r_Exchange r);
  rw_exchange_type : valid_utf8 (r_ExchangeType r);
  rw_queue : valid_utf8 (r_Queue r);
  rw_message : message_wire (r_Message r);
  rw_message_id : valid_utf8 (r_MessageID r);
  rw_binding_key : valid_utf8 (r_BindingKey r);
}.

#[local] Hint Resolve omit_zero : wire.
#[local] Opaque put put_unless w_string u_string u_int u_bool u_time u_time_ptr.

Lemma record_travels r :
  record_wire r -> exists v, Record_MarshalJSON r = Some v /\ Record_UnmarshalJSON v = Some r.
Proof.
  intros [H1 H2 H3 H4 H5 H6 H7 H8 H9]. unfold Record_MarshalJSON.
  destruct (message_roundtrip _ H7) as (msg & -> & Hmsg). cbn [mbind option_bind]. eexists. split; [done|].
  unfold Record_UnmarshalJSON. cbn [u_struct]. unfold record_of. unfold zeroRecord, rec_queue.
  destruct r as [ty e et q m i k]; cbn [r_Type r_Exchange r_ExchangeType r_Queue r_Message r_MessageID
    r_BindingKey RecordType_string] in *.
  do 7 read_field. by rewrite H1.
Qed.

(** A record has no field of a message. *)
Lemma record_as_message r v : Record_MarshalJSON r = Some v -> Message_UnmarshalJSON v = Some zeroMessage.
Proof.
  unfold Record_MarshalJSON. destruct (w_message (r_Message r)) as [msg|]; [|done].
  cbn [mbind option_bind]. intros <-%(inj Some). unfold Message_UnmarshalJSON. cbn [u_struct].
  unfold message_of. do 5 (eapply bind_done;
    [repeat first [eapply field_skip_unless; [reflexivity] | eapply field_app] | cbv beta]). done.
Qed.

Lemma record_unaffected v : Record_UnmarshalJSON (norm_json v) = Record_UnmarshalJSON v.
Proof.
  pose proof message_unaffected. apply u_struct_unaffected. unfold record_of. by_fields.
Qed.

Lemma message_doc_unaffected v : Message_UnmarshalJSON (norm_json v) = Message_UnmarshalJSON v.
Proof. apply u_struct_unaffected, message_unaffected. Qed.

#[local] Transparent put put_unless.

Lemma record_fits r v :
  typed r -> Record_MarshalJSON r = Some v -> fits maxNestingDepth v /\ lettered v.
Proof.
  intros Ht. unfold Record_MarshalJSON. destruct (w_message (r_Message r)) as [msg|] eqn:Em; [|done].
  cbn [mbind option_bind]. intros <-%(inj Some). split.
  - apply (fits_le _ 2); [|apply maxNestingDepth_large; lia]. fits_fields. by eapply w_message_fits.
  - unfold put_unless at 1. unfold empty. unfold typed in Ht. by rewrite bool_decide_false.
Qed.

#[local] Opaque put put_unless.

Lemma record_piece r v n : typed r -> Record_MarshalJSON r = Some v -> piece_ok (mkPiece v n).
Proof. intros Ht Hv. destruct (record_fits r v Ht Hv). by split. Qed.

(** The document of a written record is the one [Wal.v] gives it. *)
Lemma record_doc_of r v :
  record_wire r -> Record_MarshalJSON r = Some v -> doc_of (Some (norm_json v)) = record_doc r.
Proof.
  intros Hr Hv. unfold doc_of. rewrite record_unaffected, message_doc_unaffected.
  rewrite (record_as_message r v Hv). destruct (record_travels r Hr) as (v' & Hv' & Hu).
  rewrite Hv in Hv'. by simplify_eq; rewrite Hu.
Qed.

(** ** The documents abstract the bytes *)

(** What the outcome of a write means for the documents of the file. *)
Definition fragment_of (v : json) (n : nat) : fragment :=
  if bool_decide (n = 0%nat) then FragNone
  else if bool_decide (n < length (json_text v))%nat then FragTorn else FragWhole.

Definition io_of (o : write_outcome) (r : WalRecord) : io_outcome :=
  match Record_MarshalJSON r with
  | None => IoMarshalErr
  | Some v =>
      let total := length (line v) in
      let n := default total (wo_written o) in
      if wo_error o then IoWriteErr (fragment_of v n)
      else if negb (bool_decide (Nat.min n total = total)) then IoShortWrite (fragment_of v n)
      else if negb (wo_synced o) then IoSyncErr else IoOk
  end.

(** The calls of the interface that change the file. *)
Inductive wal_call :=
| CallAppend (r : WalRecord) (o : write_outcome)
| CallClose.

Definition call_wire (c : wal_call) : Prop :=
  match c with CallAppend r _ => record_wire r | CallClose => True end.

Definition call_bytes (c : wal_call) (f : ByteWAL) : option Err * ByteWAL :=
  match c with
  | CallAppend r o => Append_bytes o r f
  | CallClose => (None, Close_bytes f)
  end.

Definition call_docs (c : wal_call) (f : FileWAL) : option Err * FileWAL :=
  match c with
  | CallAppend r o => file_Append r (mkFileWAL (fw_docs f) (fw_closed f) (fw_open f) [io_of o r])
  | CallClose => (None, file_Close f)
  end.

(** A sequence of calls on the file [f] with their results. *)
Fixpoint calls {F} (call : wal_call -> F -> option Err * F) (cs : list wal_call) (f : F)
    : list (option Err) * F :=
  match cs with
  | [] => ([], f)
  | c :: cs => let (e, f) := call c f in let (es, f) := calls call cs f in (e :: es, f)
  end.

(** The documents up to the first that cannot be decoded. *)
Fixpoint up_to_torn (docs : list raw_doc) : list raw_doc :=
  match docs with
  | [] => []
  | Undecodable :: _ => [Undecodable]
  | d :: docs => d :: up_to_torn docs
  end.

Lemma load_loop_torn docs st : load_loop (up_to_torn docs) st = load_loop docs st.
Proof.
  revert st. induction docs as [|d docs IH]; intros st; [done|]. destruct d as [|rec msg]; [done|].
  simpl. destruct rec as [r|]; [|done]. case_match; [|apply IH]. destruct msg; [apply IH|done].
Qed.

Lemma up_to_torn_app docs docs' :
  up_to_torn (docs ++ docs') = up_to_torn (up_to_torn docs ++ docs').
Proof. induction docs as [|[|rec msg] docs IH]; simpl; [done..|]. by rewrite IH. Qed.

(** A record with the number of bytes of its line that are in the file. *)
Record written := mkWritten { wr_record : WalRecord; wr_length : nat }.

Definition written_piece (w : written) : option piece :=
  v ← Record_MarshalJSON (wr_record w); Some (mkPiece v (wr_length w)).

Definition written_docs (w : written) : list raw_doc :=
  match Record_MarshalJSON (wr_record w) with
  | None => []
  | Some v => fragment_docs (wr_record w) (fragment_of v (wr_length w))
  end.

(** A byte file and a document file with the same history. *)
Record same_file (f : ByteWAL) (g : FileWAL) : Prop := {
  sf_closed : bw_closed f = fw_closed g;
  sf_open : bw_open f = fw_open g;
  sf_history : exists ws xs, Forall (fun w => record_wire (wr_record w)) ws /\
    mapM written_piece ws = Some xs /\ bw_data f = pieces_text xs /\ fw_docs g = mjoin (written_docs <$> ws);
}.

Lemma history_pieces ws xs :
  Forall (fun w => record_wire (wr_record w)) ws -> mapM written_piece ws = Some xs ->
  Forall piece_ok xs /\ doc_of <$> found xs = up_to_torn (mjoin (written_docs <$> ws)).
Proof.
  intros Hw. revert xs. induction Hw as [|[r n] ws Hr _ IH]; intros xs Hxs.
  { injection Hxs as <-. done. }
  cbn in Hxs. unfold written_piece in Hxs. cbn [wr_record wr_length] in *.
  destruct (Record_MarshalJSON r) as [v|] eqn:Ev; [|done]. simpl in Hxs.
  destruct (mapM _ ws) as [xs'|] eqn:Exs; [|done]. injection Hxs as <-.
  destruct (IH xs' eq_refl) as [IH1 IH2]. split.
  { constructor; [|done]. by eapply record_piece; [apply Hr|]. }
  change (mjoin (written_docs <$> mkWritten r n :: ws))
    with (written_docs (mkWritten r n) ++ mjoin (written_docs <$> ws)). unfold written_docs at 1. cbn [wr_record wr_length]. rewrite Ev.
  cbn [found]. unfold piece_finding, fragment_of. cbn [pi_doc pi_length].
  repeat case_bool_decide; cbn [fragment_docs app].
  - done.
  - done.
  - rewrite fmap_cons, (record_doc_of r v Hr Ev). cbn [up_to_torn record_doc]. by rewrite <- IH2.
Qed.

(** The two files load the same. *)
Lemma same_file_load f g : same_file f g -> Load_bytes f = file_Load g.
Proof.
  intros [_ Ho (ws & xs & Hw & Hxs & Hb & Hd)]. unfold Load_bytes, file_Load. rewrite Ho.
  destruct (fw_open g); [|done..]. rewrite Hb, Hd.
  destruct (history_pieces ws xs Hw Hxs) as [Hok Hf].
  by rewrite stream_pieces, Hf, load_loop_torn.
Qed.

(** A call on two files with the same history has the same result and leaves
    files with the same history. *)
Lemma same_file_call c f g :
  call_wire c -> same_file f g ->
  (call_bytes c f).1 = (call_docs c g).1 /\ same_file (call_bytes c f).2 (call_docs c g).2.
Proof.
  intros Hc [Hcl Ho (ws & xs & Hw & Hxs & Hb & Hd)]. destruct c as [r o|]; cbn [call_bytes call_docs].
  2:{ split; [done|]. unfold file_Close. destruct (fw_closed g) eqn:E; cbn;
      (split; [simpl; congruence|done|by exists ws, xs]). }
  unfold Append_bytes, file_Append. cbn [fw_closed]. rewrite Hcl. destruct (fw_closed g) eqn:Eg.
  { split; [done|]. split; [done|done|]. by exists ws, xs. }
  unfold writeRecord_bytes, writeRecord. cbn [fw_io hd List.tl fw_docs fw_open fw_closed].
  unfold io_of. destruct (record_travels r Hc) as (v & Hv & _). rewrite Hv. fold (line v).
  set (n := default (length (line v)) (wo_written o)).
  assert (forall b, same_file (mkByteWAL (bw_data f ++ firstn n (line v)) false (bw_open f))
    (mkFileWAL (fw_docs g ++ fragment_docs r (fragment_of v n)) false (fw_open g) b)) as Hsame.
  { intros b. split; [done|done|]. exists (ws ++ [mkWritten r n]), (xs ++ [mkPiece v n]). split_and!.
    - apply Forall_app. split; [done|]. apply Forall_singleton. done.
    - apply mapM_Some. apply mapM_Some in Hxs. apply Forall2_app; [done|]. constructor; [|constructor].
      unfold written_piece. cbn [wr_record]. by rewrite Hv.
    - cbn [bw_data]. rewrite Hb. unfold pieces_text. rewrite fmap_app, join_app. simpl.
      by rewrite app_nil_r.
    - cbn [fw_docs]. rewrite Hd, fmap_app, join_app. simpl. unfold written_docs at 3.
      cbn [wr_record wr_length]. by rewrite Hv, app_nil_r. }
  assert (Nat.min n (length (line v)) = length (line v) -> fragment_of v n = FragWhole) as Hwhole.
  { intros Hn. unfold fragment_of, line in *. rewrite length_app in Hn. simpl in Hn.
    rewrite !bool_decide_false by lia. done. }
  unfold add_bytes. rewrite Hcl, length_firstn. cbn zeta.
  destruct (wo_error o); [by split; [|apply Hsame]|].
  case_bool_decide as Hn; cbn [negb]; [|by split; [|apply Hsame]].
  specialize (Hsame []). rewrite (Hwhole Hn) in Hsame. cbn [fragment_docs] in Hsame.
  by destruct (wo_synced o).
Qed.

Lemma same_file_calls cs f g :
  Forall call_wire cs -> same_file f g ->
  (calls call_bytes cs f).1 = (calls call_docs cs g).1 /\
  same_file (calls call_bytes cs f).2 (calls call_docs cs g).2.
Proof.
  intros Hcs. revert f g. induction Hcs as [|c cs Hc _ IH]; intros f g Hs; [done|].
  destruct (same_file_call c f g Hc Hs) as [He Hs']. cbn [calls].
  destruct (call_bytes c f) as [e f'], (call_docs c g) as [e' g']. simpl in *. subst e'.
  destruct (IH f' g' Hs') as [Hes Hs'']. destruct (calls call_bytes cs f'), (calls call_docs cs g').
  simpl in *. by subst.
Qed.

(** ** Theorems *)

(** C3: The list of documents is a faithful abstraction of the log file: for
    every sequence of [Append] and [Close] with any outcome of the writes (an
    error, any number of bytes written, a failed sync), the file of bytes gives
    the same results as the file of documents, and [Load] of the bytes gives the
    state or the error that [Load] of the documents gives. A record torn by a
    write that stopped is not completed by what is appended later. *)
Theorem log_bytes_refine cs open :
  Forall call_wire cs ->
  let bytes := calls call_bytes cs (mkByteWAL [] false open) in
  let docs := calls call_docs cs (mkFileWAL [] false open []) in
  bytes.1 = docs.1 /\ Load_bytes bytes.2 = file_Load docs.2.
Proof.
  intros Hcs bytes docs.
  destruct (same_file_calls cs (mkByteWAL [] false open) (mkFileWAL [] false open []) Hcs) as [He Hs].
  { split; [done|done|]. by exists [], []. }
  split; [done|]. by apply same_file_load.
Qed.

(** The bytes of a log of records. *)
Definition log_bytes (rs : list WalRecord) : text :=
  mjoin ((fun r => from_option line [] (Record_MarshalJSON r)) <$> rs).

Lemma log_bytes_pieces rs :
  Forall record_wire rs -> exists xs, Forall piece_ok xs /\ log_bytes rs = pieces_text xs /\
    forall R, Forall piece_ok R -> doc_of <$> found (xs ++ R) = (record_doc <$> rs) ++ (doc_of <$> found R).
Proof.
  induction 1 as [|r rs Hr _ (xs & Hok & Hb & Hf)]; [by exists []|].
  destruct (record_travels r Hr) as (v & Hv & _).
  exists (mkPiece v (length (line v)) :: xs). split_and!.
  - constructor; [|done]. by eapply record_piece; [apply Hr|].
  - unfold log_bytes. cbn. rewrite Hv. simpl. unfold piece_text. cbn [pi_doc pi_length].
    rewrite firstn_all. f_equal. exact Hb.
  - intros R HR. rewrite <- app_comm_cons. cbn [found]. unfold piece_finding. cbn [pi_doc pi_length].
    unfold line. rewrite length_app. simpl length.
    rewrite !bool_decide_false by lia. by rewrite !fmap_cons, (record_doc_of r v Hr Hv), Hf.
Qed.

(** C7: A crash may cut the log at any byte. Cut between records, or after the
    last byte of a record's document, the log loads to exactly the records that
    are wholly there, with or without the final newline; cut inside a document
    it does not load at all. *)
Theorem log_cut_anywhere rs r :
  Forall record_wire rs -> record_wire r ->
  exists v, Record_MarshalJSON r = Some v /\ forall n,
    Load_bytes (mkByteWAL (log_bytes rs ++ firstn n (line v)) false Opened) =
    if bool_decide (n = 0%nat) then inl (replay rs)
    else if bool_decide (n < length (json_text v))%nat then inr (ErrStorage "error decoding log entry")
    else inl (replay (rs ++ [r])).
Proof.
  intros Hrs Hr. destruct (record_travels r Hr) as (v & Hv & _). exists v. split; [done|]. intros n.
  destruct (log_bytes_pieces rs Hrs) as (xs & Hok & -> & Hf).
  assert (Forall piece_ok [mkPiece v n]) as Hp.
  { apply Forall_singleton. by eapply record_piece; [apply Hr|]. }
  assert (pieces_text xs ++ firstn n (line v) = pieces_text (xs ++ [mkPiece v n])) as ->.
  { unfold pieces_text. rewrite fmap_app, join_app. simpl. by rewrite app_nil_r. }
  assert (Forall typed rs) as Ht by (eapply Forall_impl; [exact Hrs|]; by intros ? []).
  unfold Load_bytes. cbn [bw_open bw_data]. rewrite stream_pieces, Hf by (try apply Forall_app; done).
  cbn [found]. unfold piece_finding. cbn [pi_doc pi_length]. repeat case_bool_decide.
  - rewrite app_nil_r. by apply load_loop_records.
  - cbn [fmap list_fmap doc_of]. rewrite load_loop_app by done. done.
  - rewrite fmap_cons, (record_doc_of r v Hr Hv). cbn [fmap list_fmap].
    change [record_doc r] with (record_doc <$> [r]). rewrite <- fmap_app.
    apply load_loop_records. apply Forall_app. split; [done|]. apply Forall_singleton. apply Hr.
Qed.

End Codec.

(** ** Concrete logs *)

Definition some_message : Message := mkMessage "m1" "a<b" (63871214400 * second + 120000000) 1 None.
Definition some_record : WalRecord := rec_message Published "default" some_message "".
Definition other_record : WalRecord := rec_queue QueueCreated "q".

Lemma some_record_wire : record_wire some_record.
Proof. repeat first [done | split | vm_compute; discriminate]. Defined.

Lemma other_record_wire : record_wire other_record.
Proof. repeat first [done | split | vm_compute; discriminate]. Defined.

Definition all_written : write_outcome := mkWrite None false true.

(** The line of a record, as [Marshal] writes it. *)
Example record_line :
  (v ← Record_MarshalJSON some_record; Some (line v)) =
  Some (with_quotes
    "{'type':'published','queue':'default','message':{'id':'m1','payload':'a\u003cb','timestamp':'2024-12-31T04:00:00.12Z','retry':1,'expiry_at':null}}"
    ++ [c_newline]).
Proof. vm_compute. reflexivity. Qed.

(** A write that stops after 20 bytes, then further appends and a close. *)
Definition torn_calls : list wal_call :=
  [CallAppend other_record all_written; CallAppend some_record (mkWrite (Some 20%nat) true true);
   CallAppend some_record all_written; CallClose; CallAppend other_record all_written].

Lemma log_bytes_refine_witness :
  (calls call_bytes torn_calls (mkByteWAL [] false Opened)).1 =
    [None; Some (ErrStorage "failed to write record to WAL file"); None; None; Some (ErrStorage "WAL closed")] /\
  Load_bytes (calls call_bytes torn_calls (mkByteWAL [] false Opened)).2 =
    inr (ErrStorage "error decoding log entry").
Proof.
  destruct (log_bytes_refine torn_calls Opened) as [He Hl].
  - repeat constructor; first [apply some_record_wire | apply other_record_wire].
  - rewrite He, Hl. split; vm_compute; reflexivity.
Defined.

Lemma log_cut_anywhere_witness :
  exists v, Record_MarshalJSON some_record = Some v /\
    Load_bytes (mkByteWAL (log_bytes [other_record] ++ firstn 20 (line v)) false Opened) =
      inr (ErrStorage "error decoding log entry") /\
    Load_bytes (mkByteWAL (log_bytes [other_record] ++ json_text v) false Opened) =
      inl (replay [other_record; some_record]).
Proof.
  destruct (log_cut_anywhere [other_record] some_record) as (v & Hv & Hload).
  - repeat constructor; apply other_record_wire.
  - apply some_record_wire.
  - exists v. split; [done|]. vm_compute in Hv. injection Hv as <-. split; [apply (Hload 20%nat)|].
    match type of Hload with context [line ?d] => pose proof (Hload (length (json_text d))) as H end.
    unfold line in H. rewrite firstn_app, firstn_all, Nat.sub_diag, app_nil_r in H. exact H.
Defined.

(** ** Logs of the old format *)

Section Legacy.
Context {Htime : TimeText}.
#[local] Opaque put put_unless.

(** A bare message has no field of a record, so it reads as a record without a
    type. *)
Lemma message_as_record m v : w_message m = Some v -> Record_UnmarshalJSON v = Some zeroRecord.
Proof.
  unfold w_message. destruct (w_time (Timestamp m)) as [ts|]; [|done]. cbn [mbind option_bind].
  destruct (match ExpiryAt m with Some _ => _ | None => _ end) as [ex|]; [|done].
  cbn [mbind option_bind]. intros <-%(inj Some). unfold Record_UnmarshalJSON. cbn [u_struct].
  unfold record_of. do 7 (eapply bind_done;
    [repeat first [eapply field_skip; [reflexivity] | eapply field_app] | cbv beta]). done.
Qed.

(** A log with one bare message per line loads to the messages of the default
    queue, in order. *)
Theorem legacy_bytes_load (ms : list Message) :
  Forall message_wire ms ->
  exists vs, mapM w_message ms = Some vs /\
    Load_bytes (mkByteWAL (sent vs) false Opened) =
    inl (match ms with [] => emptyRecovered | _ => mkRecovered {[DefaultQueueName := ms]} ∅ end).
Proof.
  intros Hms.
  assert (exists vs, mapM w_message ms = Some vs /\ Forall (fits maxNestingDepth) vs /\
    doc_of ∘ Some ∘ norm_json <$> vs = (fun m => RawDoc (Some (rec_queue (OtherType "") "")) (Some m)) <$> ms)
    as (vs & Hvs & Hf & Hd).
  { induction Hms as [|m ms Hm _ (vs & Hvs & Hf & Hd)]; [by exists []|].
    destruct (message_roundtrip m Hm) as (v & Hv & Hu). exists (v :: vs). split_and!.
    - cbn. rewrite Hv. simpl. by rewrite Hvs.
    - constructor; [|done]. eapply fits_le; [by eapply (w_message_fits 0)|apply maxNestingDepth_large; lia].
    - rewrite !fmap_cons, Hd. cbn [compose doc_of]. rewrite record_unaffected, message_doc_unaffected.
      unfold Message_UnmarshalJSON. by rewrite Hu, (message_as_record m v Hv). }
  exists vs. split; [done|]. unfold Load_bytes. cbn [bw_open bw_data].
  pose proof (stream_lines vs [] Hf) as Hs. rewrite !app_nil_r in Hs. unfold sent.
  rewrite Hs, <- list_fmap_compose. change (doc_of ∘ (Some ∘ norm_json)) with (doc_of ∘ Some ∘ norm_json).
  rewrite Hd. apply (legacy_log_loads ms).
Qed.

End Legacy.
