(* ===== verification/Handler.v ===== *)
(** A connection of the TCP server ([internal/server/handler.go]): the loop that
    decodes requests and answers them, and the goroutine that forwards
    deliveries to the client. Both write to one connection through [encode],
    under one mutex, and both call the broker. A step is one read, one write, one
    channel operation or one call of the broker. *)

From S2P Require Import Prelude GoStrings Model RingBuffer Inflight Exchange Wal QueueRuntime.
From S2P Require Import System Broker Engine Utf8 Rfc3339 Protocol.

Definition ErrUnsupportedVersion : string := "unsupported protocol version".

(** ** State *)

(** The delivery goroutine: at its [select], with a delivery to encode, before
    [Unsubscribe], returned. *)
Inductive SubPC :=
| SSelect
| SEncode (d : Delivery)
| SUnsubscribe
| SDone.

(** The goroutine started for a subscription: the session object, the
    identifier and the queue it was given, whether its stop channel is closed. *)
Record Subscription := mkSub {
  sub_session : nat;
  sub_ID : string;
  sub_queue : string;
  sub_stopped : bool;
  sub_pc : SubPC;
}.

(** The loop: before the test of the context, in [Decode], waiting in
    [Broker.Publish], about to encode a response (and to return after it), in
    the [Wait] of an unsubscription, at the deferred function, in its [Wait],
    returned. *)
Inductive HandlerPC :=
| HTop
| HDecode
| HPublish (req : Request) (p : nat) (rest : list string)
| HEncode (resp : Response) (leave : bool)
| HWaitUnsub
| HDefer
| HWaitDefer
| HReturned.

(** [h_stop]: [stopSubscribe] is not nil. [h_sub]: the goroutine started last.
    [h_out]: the responses written, in order. [h_encErr]: the encoder has seen a
    write error, which it keeps. [h_closed]: the connection is closed. *)
Record Conn := mkConn {
  h_pc : HandlerPC;
  h_stop : bool;
  h_sub : option Subscription;
  h_out : list Response;
  h_encErr : bool;
  h_closed : bool;
}.

Definition set_h_pc (pc : HandlerPC) (c : Conn) : Conn :=
  mkConn pc (h_stop c) (h_sub c) (h_out c) (h_encErr c) (h_closed c).
Definition set_h_sub (s : option Subscription) (c : Conn) : Conn :=
  mkConn (h_pc c) (h_stop c) s (h_out c) (h_encErr c) (h_closed c).
Definition set_h_stop (v : bool) (c : Conn) : Conn :=
  mkConn (h_pc c) v (h_sub c) (h_out c) (h_encErr c) (h_closed c).
Definition set_sub_pc (pc : SubPC) (s : Subscription) : Subscription :=
  mkSub (sub_session s) (sub_ID s) (sub_queue s) (sub_stopped s) pc.

(** A connection just accepted. *)
Definition new_conn : Conn := mkConn HTop false None [] false false.

(** [conn.Close()] *)
Definition close_conn (c : Conn) : Conn :=
  mkConn (h_pc c) (h_stop c) (h_sub c) (h_out c) (h_encErr c) true.

(** ** [encode] *)

(** How the operating system answers a write: it succeeds, setting the deadline
    fails, or the write fails. *)
Inductive write_outcome := WOk | WDeadlineErr | WErr.

Section Handler.
Context {W : Type} `{!WAL W} {Hrange : MapRange} {Htime : TimeText}.
Abbreviation BR := (InMemoryBroker W).

(** [true]: no error. Nothing can be written to a closed connection, and an
    encoder that has failed to write once fails ever after. *)
Definition encode (w : write_outcome) (resp : Response) (c : Conn) : bool * Conn :=
  let resp := set_p_Version CurrentVersion resp in
  if h_closed c then (false, c)
  else match w with
  | WDeadlineErr => (false, c)
  | _ =>
      if h_encErr c then (false, c)
      else match Response_MarshalJSON resp with
      | None => (false, c)
      | Some _ =>
          match w with
          | WErr => (false, mkConn (h_pc c) (h_stop c) (h_sub c) (h_out c) true (h_closed c))
          | _ => (true, mkConn (h_pc c) (h_stop c) (h_sub c) (h_out c ++ [resp]) (h_encErr c) (h_closed c))
          end
      end
  end.

(** ** Requests *)

(** The response the loop goes on to encode before its next round. *)
Definition respond (r : Response) (c : Conn) : Conn := set_h_pc (HEncode r false) c.

Definition respond_err (err : option Err) (c : Conn) : Conn :=
  respond (resp_status (ok_err err) (errorString err)) c.

(** [close(stopSubscribe)]: closing a closed channel panics. *)
Definition close_stop (c : Conn) : GoM Conn :=
  match h_sub c with
  | Some s =>
      if sub_stopped s then Panic
      else Done (set_h_sub (Some (mkSub (sub_session s) (sub_ID s) (sub_queue s) true (sub_pc s))) c)
  | None => Panic
  end.

(** After [b.Publish]: the call returned or waits. *)
Definition published_conn (req : Request) (r : broker_publish_result) (c : Conn) : Conn :=
  match r with
  | BReturned err => respond_err err c
  | BBlocked p rest => set_h_pc (HPublish req p rest) c
  end.

Definition handle_publish (now : nat -> Z) (newID : nat -> string) (req : Request) (c : Conn) (b : BR)
    : GoM (Conn * BR) :=
  let! (r, b) := Broker_Publish now newID (q_Exchange req) (q_RoutingKey req) (q_Payload req)
                   (q_TTL req) b in
  Done (published_conn req r c, b).

(** A successful acknowledgement is not answered. *)
Definition handle_ack (req : Request) (c : Conn) (b : BR) : GoM (Conn * BR) :=
  let! (err, b) := Broker_Ack (q_AckToken req) b in
  match err with
  | Some _ => Done (respond (resp_status false (errorString err)) c, b)
  | None => Done (set_h_pc HTop c, b)
  end.

Definition handle_metrics (req : Request) (c : Conn) (b : BR) : GoM (Conn * BR) :=
  if bool_decide (q_Queue req <> "") then
    let! (metric, err) := QueueMetrics (q_Queue req) b in
    Done (respond (resp_metrics (ok_err err) (errorString err)
            (mkBrokerMetrics [mkQueueMetric (q_Queue req) metric] metric)) c, b)
  else
    let! metrics := Broker_Metrics b in
    Done (respond (resp_metrics true "" metrics) c, b).

(** A successful subscription is not answered; it starts the goroutine. *)
Definition handle_subscribe (req : Request) (c : Conn) (b : BR) : GoM (Conn * BR) :=
  if h_stop c then Done (respond (resp_status false "Already subscribed") c, b)
  else
    let l := new_ptr (w_sessions (b_world b)) in
    let! (err, b) := Broker_Subscribe (q_Queue req) l (broker_alloc l (q_ID req) b) in
    match err with
    | Some _ => Done (respond (resp_status false (errorString err)) c, b)
    | None =>
        Done (set_h_pc HTop (set_h_stop true
                (set_h_sub (Some (mkSub l (q_ID req) (q_Queue req) false SSelect)) c)), b)
    end.

Definition handle_unsubscribe (c : Conn) (b : BR) : GoM (Conn * BR) :=
  if h_stop c then
    let! c := close_stop c in
    Done (set_h_pc HWaitUnsub c, b)
  else Done (respond (resp_status true "") c, b).

Definition handle_create_queue (req : Request) (c : Conn) (b : BR) : GoM (Conn * BR) :=
  let! (err, b) := CreateQueue (q_Queue req) b in
  Done (respond_err err c, b).

Definition handle_delete_queue (req : Request) (c : Conn) (b : BR) : GoM (Conn * BR) :=
  let! (err, b) := DeleteQueue (q_Queue req) b in
  Done (respond_err err c, b).

Definition handle_list_queues (c : Conn) (b : BR) : GoM (Conn * BR) :=
  Done (respond (resp_queues ((fun name => mkQueueMetric name zeroMetric) <$> ListQueues b)) c, b).

Definition handle_bind_queue (req : Request) (c : Conn) (b : BR) : GoM (Conn * BR) :=
  let (err, b) := BindQueue (q_Exchange req) (q_Queue req) (q_BindingKey req) b in
  Done (respond_err err c, b).

Definition handle_unbind_queue (req : Request) (c : Conn) (b : BR) : GoM (Conn * BR) :=
  let (err, b) := UnbindQueue (q_Exchange req) (q_Queue req) (q_BindingKey req) b in
  Done (respond_err err c, b).

Definition handle_create_exchange (req : Request) (c : Conn) (b : BR) : GoM (Conn * BR) :=
  let (err, b) := CreateExchange (q_Exchange req) (q_ExchangeType req) b in
  Done (respond_err err c, b).

Definition handle_delete_exchange (req : Request) (c : Conn) (b : BR) : GoM (Conn * BR) :=
  let (err, b) := DeleteExchange (q_Exchange req) b in
  Done (respond_err err c, b).

Definition handle_list_exchanges (c : Conn) (b : BR) : GoM (Conn * BR) :=
  Done (respond (resp_exchanges (ListExchanges b)) c, b).

Definition handle_unknown (c : Conn) (b : BR) : GoM (Conn * BR) :=
  Done (respond (resp_status false "unknown request") c, b).

(** A decoded request: the test of the version, then the [switch] on the type. *)
Definition handle (now : nat -> Z) (newID : nat -> string) (req : Request) (c : Conn) (b : BR)
    : GoM (Conn * BR) :=
  let type_is t := bool_decide (q_Type req = t) in
  if bool_decide (q_Version req <> CurrentVersion) && bool_decide (q_Version req <> 0)
  then Done (set_h_pc (HEncode (resp_status false ErrUnsupportedVersion) true) c, b)
  else if type_is PublishRequest then handle_publish now newID req c b
  else if type_is AckRequest then handle_ack req c b
  else if type_is MetricsRequest then handle_metrics req c b
  else if type_is SubscribeRequest then handle_subscribe req c b
  else if type_is UnsubscribeRequest then handle_unsubscribe c b
  else if type_is CreateQueueRequest then handle_create_queue req c b
  else if type_is DeleteQueueRequest then handle_delete_queue req c b
  else if type_is ListQueuesRequest then handle_list_queues c b
  else if type_is BindQueueRequest then handle_bind_queue req c b
  else if type_is UnbindQueueRequest then handle_unbind_queue req c b
  else if type_is CreateExchangeRequest then handle_create_exchange req c b
  else if type_is DeleteExchangeRequest then handle_delete_exchange req c b
  else if type_is ListExchangesRequest then handle_list_exchanges c b
  else handle_unknown c b.

(** ** Steps *)

Inductive conn_event :=
(* the loop *)
| HCheck
| HRead (doc : json) (now : nat -> Z) (newID : nat -> string)
| HReadErr
| HResume (now : nat -> Z) (newID : nat -> string)
| HWrite (w : write_outcome)
| HWaited
| HLeave
(* the delivery goroutine *)
| SReceive
| SWrite (w : write_outcome)
| SStop
| SLeave.

Definition sub_done (c : Conn) : bool :=
  match h_sub c with
  | Some s => match sub_pc s with SDone => true | _ => false end
  | None => true
  end.

(** The loop of [handleConnection]; [ctxDone]: the server's context has ended.
    [None]: the event is not enabled. *)
Definition loop_step (ctxDone : bool) (e : conn_event) (c : Conn) (b : BR) : option (GoM (Conn * BR)) :=
  match e, h_pc c with
  | HCheck, HTop => Some (Done (set_h_pc (if ctxDone then HDefer else HDecode) c, b))
  | HRead doc now newID, HDecode =>
      Some (match Request_UnmarshalJSON doc with
            | None => Done (set_h_pc HDefer c, b)
            | Some req => handle now newID req c b
            end)
  | HReadErr, HDecode => Some (Done (set_h_pc HDefer c, b))
  | HResume now newID, HPublish req p rest =>
      match b_runtimes b !! p with
      | Some r =>
          if bool_decide (woken (condProd r) = 0%nat) then None
          else Some (let! (res, b) :=
                       Broker_Publish_resume now newID (q_Payload req) (q_TTL req) p rest b in
                     Done (published_conn req res c, b))
      | None => None
      end
  | HWrite w, HEncode resp leave =>
      let (ok, c) := encode w resp c in
      Some (Done (set_h_pc (if ok && negb leave then HTop else HDefer) c, b))
  | HWaited, HWaitUnsub =>
      if sub_done c
      then Some (Done (respond (resp_status true "") (set_h_stop false c), b)) else None
  | HLeave, HDefer =>
      if h_stop c then Some (let! c := close_stop c in Done (set_h_pc HWaitDefer c, b))
      else Some (Done (set_h_pc HReturned (close_conn c), b))
  | HWaited, HWaitDefer =>
      if sub_done c then Some (Done (set_h_pc HReturned (close_conn c), b)) else None
  | _, _ => None
  end.

(** The deliveries waiting in the session at [l]. *)
Definition session_deliveries (l : nat) (b : BR) : list Delivery :=
  match w_sessions (b_world b) !! l with Some cs => Deliveries cs | None => [] end.

(** The delivery goroutine. *)
Definition deliver_step (e : conn_event) (c : Conn) (b : BR) : option (GoM (Conn * BR)) :=
  match h_sub c with
  | None => None
  | Some s =>
      match e, sub_pc s with
      | SReceive, SSelect =>
          match session_deliveries (sub_session s) b with
          | d :: _ =>
              Some (Done (set_h_sub (Some (set_sub_pc (SEncode d) s)) c,
                          broker_receive (sub_session s) b))
          | [] => None
          end
      | SWrite w, SEncode d =>
          let (ok, c) := encode w (resp_delivery d) c in
          Some (Done (set_h_sub (Some (set_sub_pc (if ok then SSelect else SUnsubscribe) s)) c, b))
      | SStop, SSelect =>
          if sub_stopped s
          then Some (Done (set_h_sub (Some (set_sub_pc SUnsubscribe s)) c, b)) else None
      | SLeave, SUnsubscribe =>
          Some (let! b := Broker_Unsubscribe (sub_queue s) (sub_ID s) b in
                Done (set_h_sub (Some (set_sub_pc SDone s)) c, b))
      | _, _ => None
      end
  end.

Definition conn_step (ctxDone : bool) (e : conn_event) (c : Conn) (b : BR) : option (GoM (Conn * BR)) :=
  match e with
  | SReceive | SWrite _ | SStop | SLeave => deliver_step e c b
  | _ => loop_step ctxDone e c b
  end.

End Handler.
