(* ===== verification/HandlerInv.v ===== *)
(** The invariant of a connection: at most one delivery goroutine runs, only
    while [stopSubscribe] is set, its stop channel is closed at most once, and a
    handler that has returned has left none behind. The steps of a connection
    are calls of the broker's interface, so the engine keeps its invariant under
    any number of connections. *)

From S2P Require Import Prelude GoStrings Model RingBuffer Inflight Exchange Wal QueueRuntime.
From S2P Require Import System QueueSpec QueueInv RoundRobin QueueRefine QueueDeliver.
From S2P Require Import Redelivery SystemInv QueueCases Broker Topology BrokerInv Recovery.
From S2P Require Import BrokerTheorems Frame Engine EngineInv EngineCalls EngineTheorems.
From S2P Require Import Utf8 Rfc3339 Protocol Handler.

(** Waiting for the delivery goroutine to end. *)
Definition is_waiting (pc : HandlerPC) : bool :=
  match pc with HWaitUnsub | HWaitDefer => true | _ => false end.

Definition is_returned (pc : HandlerPC) : bool :=
  match pc with HReturned => true | _ => false end.

Record conn_ok (c : Conn) : Prop := {
  co_idle : h_stop c = false -> sub_done c = true;
  co_started : h_stop c = true -> is_Some (h_sub c);
  co_stopped s : h_sub c = Some s -> h_stop c = true -> is_returned (h_pc c) = false ->
    sub_stopped s = is_waiting (h_pc c);
  co_waiting : is_waiting (h_pc c) = true -> h_stop c = true;
  co_returned : is_returned (h_pc c) = true -> sub_done c = true /\ h_closed c = true;
}.

Lemma new_conn_ok : conn_ok new_conn.
Proof. by split. Qed.

(** Moving the loop between points that are neither waiting nor returned. *)
Lemma conn_ok_pc pc c :
  conn_ok c -> is_waiting (h_pc c) = false -> is_returned (h_pc c) = false ->
  is_waiting pc = false -> is_returned pc = false -> conn_ok (set_h_pc pc c).
Proof.
  intros [H1 H2 H3 H4 H5] Hw Hr Hw' Hr'. split; simpl; try done; [|congruence..].
  intros s Hs Hst _. rewrite Hw', <- Hw. by apply H3.
Qed.

Section HandlerInv.
Context {W : Type} `{!WAL W} {Hrange : MapRange} {Htime : TimeText}.
Abbreviation BR := (InMemoryBroker W).
Implicit Types (b : BR) (c : Conn).

(** What [encode] does to a connection. *)
Lemma encode_spec w resp c ok c' :
  encode w resp c = (ok, c') ->
  h_pc c' = h_pc c /\ h_stop c' = h_stop c /\ h_sub c' = h_sub c /\ h_closed c' = h_closed c /\
  (ok = true -> h_closed c = false /\ h_encErr c = false /\
     h_out c' = h_out c ++ [set_p_Version CurrentVersion resp]) /\
  (ok = false -> h_out c' = h_out c) /\ (h_encErr c = true -> h_encErr c' = true).
Proof.
  unfold encode. intros H. repeat case_match; simplify_eq/=; split_and!; done.
Qed.

Lemma conn_ok_encode w resp c ok c' : encode w resp c = (ok, c') -> conn_ok c -> conn_ok c'.
Proof.
  intros H [H1 H2 H3 H4 H5]. destruct (encode_spec _ _ _ _ _ H) as (Ep & Es & Eb & Ec & _).
  unfold sub_done in *. split; unfold sub_done; rewrite ?Ep, ?Es, ?Eb, ?Ec; done.
Qed.

Lemma published_conn_ok req r c :
  conn_ok c -> is_waiting (h_pc c) = false -> is_returned (h_pc c) = false ->
  conn_ok (published_conn req r c).
Proof. intros. destruct r; by apply conn_ok_pc. Qed.

(** Handling a request keeps the invariant, whatever the broker answers. *)
Lemma handle_conn_ok now newID req c b c' b' :
  h_pc c = HDecode -> conn_ok c -> handle now newID req c b = Done (c', b') -> conn_ok c'.
Proof.
  intros Hpc Hok H. assert (forall pc, is_waiting pc = false -> is_returned pc = false ->
    conn_ok (set_h_pc pc c)) as Hmove by (intros; apply conn_ok_pc; rewrite ?Hpc; done).
  unfold handle in H. destruct (_ && _); [injection H as <- _; by apply Hmove|].
  repeat (case_bool_decide; [unfold handle_publish, handle_ack, handle_metrics, handle_create_queue,
    handle_delete_queue, handle_list_queues, handle_bind_queue, handle_unbind_queue,
    handle_create_exchange, handle_delete_exchange, handle_list_exchanges in H;
    try (go_inv H; by first [apply Hmove|apply published_conn_ok; rewrite ?Hpc])|]).
  - unfold handle_subscribe in H. destruct (h_stop c) eqn:Es; [injection H as <- _; by apply Hmove|].
    cbv zeta in H. destruct (Broker_Subscribe _ _ _) as [[[e|] b1]| |]; simpl in H; try done;
      injection H as <- _; [by apply Hmove|].
    split; try done. simpl. by intros s [= <-].
  - unfold handle_unsubscribe in H. destruct (h_stop c) eqn:Es; [|injection H as <- _; by apply Hmove].
    unfold close_stop in H. destruct (h_sub c) as [s|] eqn:Eb; [|done].
    destruct (sub_stopped s); simplify_eq/=. split; simpl; [congruence|eauto|by intros ? [= <-]|done|done].
  - unfold handle_unknown in H. injection H as <- _. by apply Hmove.
Qed.

Lemma loop_step_conn_ok ctx e c b c' b' :
  conn_ok c -> loop_step ctx e c b = Some (Done (c', b')) -> conn_ok c'.
Proof.
  intros Hok H. unfold loop_step in H.
  destruct e; try done; destruct (h_pc c) as [| |req p rest|resp leave| | | |] eqn:Hpc; try done.
  - injection H as <- _. destruct ctx; apply conn_ok_pc; rewrite ?Hpc; done.
  - destruct (Request_UnmarshalJSON doc) as [req|]; [injection H as H; by eapply handle_conn_ok|].
    injection H as <- _. apply conn_ok_pc; rewrite ?Hpc; done.
  - injection H as <- _. apply conn_ok_pc; rewrite ?Hpc; done.
  - destruct (b_runtimes b !! p) as [r|]; [|done]. case_bool_decide; [done|].
    injection H as H. go_inv H. apply published_conn_ok; rewrite ?Hpc; done.
  - destruct (encode w resp c) as [ok c1] eqn:E. injection H as <- _.
    pose proof (conn_ok_encode _ _ _ _ _ E Hok) as Hok1.
    destruct (encode_spec _ _ _ _ _ E) as (Ep & _). rewrite Hpc in Ep.
    destruct (ok && negb leave); apply conn_ok_pc; rewrite ?Ep; done.
  - destruct (sub_done c) eqn:Ed; [|done]. injection H as <- _. by split.
  - destruct (sub_done c) eqn:Ed; [|done]. injection H as <- _. split; try done. apply Hok.
  - destruct (h_stop c) eqn:Es.
    + injection H as H. go_inv H. unfold close_stop in E. destruct (h_sub c) as [s|] eqn:Eb; [|done].
      destruct (sub_stopped s); simplify_eq/=. split; simpl; [congruence|eauto|by intros ? [= <-]|done|done].
    + injection H as <- _. pose proof (co_idle _ Hok Es). split; simpl; try done. congruence.
Qed.

Lemma deliver_step_conn_ok e c b c' b' :
  conn_ok c -> deliver_step e c b = Some (Done (c', b')) -> conn_ok c'.
Proof.
  intros Hok H. unfold deliver_step in H. destruct (h_sub c) as [s|] eqn:Eb; [|done].
  assert (forall pc, sub_pc s <> SDone -> conn_ok (set_h_sub (Some (set_sub_pc pc s)) c)) as Hset.
  { intros pc Hne. destruct Hok as [H1 H2 H3 H4 H5]. unfold sub_done in H1, H5. rewrite Eb in H1, H5.
    split; simpl; [|eauto| |done|].
    - intros Hs. specialize (H1 Hs). by destruct (sub_pc s).
    - intros x [= <-] Hs. apply (H3 s Eb Hs).
    - intros Hr. destruct (H5 Hr). by destruct (sub_pc s). }
  destruct e; try done; destruct (sub_pc s) as [|d| |] eqn:Ep; try done.
  - destruct (session_deliveries _ b); [done|]. injection H as <- _. by apply Hset.
  - destruct (encode w _ c) as [ok c1] eqn:E. injection H as <- _.
    pose proof (conn_ok_encode _ _ _ _ _ E Hok) as [H1 H2 H3 H4 H5].
    destruct (encode_spec _ _ _ _ _ E) as (Epc & Est & Esub & _).
    unfold sub_done in H1, H5. rewrite Esub, Eb in H1, H5. rewrite Ep in H1, H5.
    split; simpl; rewrite ?Est, ?Epc; [|eauto| |rewrite <- Epc, <- Est; done|].
    + intros Hs. rewrite <- Est in Hs. by specialize (H1 Hs).
    + intros x [= <-] Hs Hr. simpl. rewrite <- Epc. apply H3; rewrite ?Esub, ?Est, ?Epc; done.
    + intros Hr. rewrite <- Epc in Hr. by destruct (H5 Hr).
  - destruct (sub_stopped s); [|done]. injection H as <- _. by apply Hset.
  - injection H as H. go_inv H. by apply Hset.
Qed.

Lemma conn_step_ok ctx e c b c' b' :
  conn_ok c -> conn_step ctx e c b = Some (Done (c', b')) -> conn_ok c'.
Proof.
  intros Hok H. unfold conn_step in H.
  destruct e; first [exact (loop_step_conn_ok _ _ _ _ _ _ Hok H)|exact (deliver_step_conn_ok _ _ _ _ _ Hok H)].
Qed.

(** ** Connections and the broker *)

(** What a connection relies on at an event: clients leave the identifier of a
    message to the broker, fresh identifiers are fresh, the log does not fail in
    the three calls that change memory first, and there is room for a consumer
    more. *)
Definition request_env (newID : nat -> string) (req : Request) (b : BR) : Prop :=
  ID (q_Payload req) = "" /\ fresh_from 0 newID b /\
  (forall err b', DeleteQueue (q_Queue req) b = Done (err, b') -> storage_error err = false) /\
  storage_error (BindQueue (q_Exchange req) (q_Queue req) (q_BindingKey req) b).1 = false /\
  storage_error (UnbindQueue (q_Exchange req) (q_Queue req) (q_BindingKey req) b).1 = false /\
  (forall p r, b_runtimes b !! p = Some r -> Z.of_nat (length (consumerOrder r)) < max_int).

Definition conn_env (e : conn_event) (c : Conn) (b : BR) : Prop :=
  match e with
  | HRead doc _ newID =>
      forall req, Request_UnmarshalJSON doc = Some req -> request_env newID req b
  | HResume _ newID =>
      match h_pc c with
      | HPublish req _ _ => ID (q_Payload req) = "" /\ fresh_from 0 newID b
      | _ => True
      end
  | _ => True
  end.

Lemma handle_calls now newID req c b c' b' :
  request_env newID req b -> handle now newID req c b = Done (c', b') ->
  b' = b \/ broker_call b b'.
Proof.
  intros (Hid & Hfr & Hd & Hb & Hu & Hlen) H. unfold handle in H.
  destruct (_ && _); [injection H as _ <-; by left|].
  repeat (case_bool_decide; [unfold handle_publish, handle_ack, handle_create_queue,
    handle_delete_queue, handle_list_queues, handle_bind_queue, handle_unbind_queue,
    handle_create_exchange, handle_delete_exchange, handle_list_exchanges, handle_unsubscribe,
    handle_subscribe in H|]).
  - right. go_inv H. by eapply bc_Publish.
  - right. go_inv H; by eapply bc_Ack.
  - left. unfold handle_metrics in H. by go_inv H.
  - destruct (h_stop c); [injection H as _ <-; by left|]. right. go_inv H;
      (eapply bc_Subscribe; [apply new_ptr_fresh|done|done]).
  - left. by go_inv H.
  - right. go_inv H. by eapply bc_CreateQueue.
  - right. go_inv H. eapply bc_DeleteQueue; [done|by eapply Hd].
  - left. by go_inv H.
  - right. destruct (BindQueue _ _ _ b) as [err b1] eqn:E. injection H as _ <-. by eapply bc_BindQueue.
  - right. destruct (UnbindQueue _ _ _ b) as [err b1] eqn:E. injection H as _ <-. by eapply bc_UnbindQueue.
  - right. go_inv H. by eapply bc_CreateExchange.
  - right. go_inv H. by eapply bc_DeleteExchange.
  - left. by go_inv H.
  - left. unfold handle_unknown in H. by injection H as _ <-.
Qed.

(** Every step of a connection is at most one call of the broker. *)
Lemma conn_step_calls ctx e c b c' b' :
  conn_env e c b -> conn_step ctx e c b = Some (Done (c', b')) -> b' = b \/ broker_call b b'.
Proof.
  intros Henv H. destruct e; simpl in Henv, H; unfold loop_step, deliver_step in H.
  8-11: destruct (h_sub c) as [s|]; [|done]; destruct (sub_pc s) as [|d| |]; try done.
  1-7: destruct (h_pc c) as [| |req p rest|resp leave| | | |]; try done.
  - left. by injection H as _ <-.
  - destruct (Request_UnmarshalJSON doc) as [req|]; [|left; by injection H as _ <-].
    injection H as H. by eapply handle_calls; [apply Henv|].
  - left. by injection H as _ <-.
  - destruct (b_runtimes b !! p) as [r|] eqn:Er; [|done]. case_bool_decide; [done|].
    injection H as H. go_inv H. right. destruct Henv.
    eapply bc_Resume; [done|done| |done]. intros x Hx. by simplify_eq.
  - left. destruct (encode w resp c). by injection H as _ <-.
  - left. destruct (sub_done c); [|done]. by injection H as _ <-.
  - left. destruct (sub_done c); [|done]. by injection H as _ <-.
  - left. destruct (h_stop c); injection H as H; [by go_inv H|done].
  - destruct (session_deliveries _ b); [done|]. injection H as _ <-. right. by eapply bc_Receive.
  - left. destruct (encode w _ c). by injection H as _ <-.
  - left. destruct (sub_stopped s); [|done]. by injection H as _ <-.
  - injection H as H. go_inv H. right. by eapply bc_Unsubscribe.
Qed.

End HandlerInv.
