(* ===== verification/Consumers.v ===== *)
(** Consumers and the connections that serve them: a consumer is registered with
    a queue only while the delivery goroutine of some connection is there to
    take its deliveries. *)

From S2P Require Import Prelude GoStrings Model RingBuffer Inflight Exchange Wal QueueRuntime.
From S2P Require Import System QueueSpec QueueInv RoundRobin QueueRefine QueueDeliver.
From S2P Require Import Redelivery SystemInv QueueCases Broker Topology BrokerInv Recovery.
From S2P Require Import BrokerTheorems Frame Engine EngineInv EngineCalls EngineTheorems.
From S2P Require Import Utf8 Rfc3339 Protocol Handler HandlerInv.

(** The name a queue is looked up by: the empty name is the default queue. *)
Definition queue_name (q : string) : string :=
  if bool_decide (q = "") then DefaultQueueName else q.

Section Consumers.
Context {W : Type} `{!WAL W} `{!WALLaws W} {Hrange : MapRange} {Htime : TimeText}.
Abbreviation BR := (InMemoryBroker W).
Implicit Types (b : BR) (c : Conn) (en : Engine W).

(** The session at [l] is registered as [id] with the queue at [p]. *)
Definition consumer_at b (p : nat) (id : string) (l : nat) : Prop :=
  exists r, b_runtimes b !! p = Some r /\ consumerSessions r !! id = Some l.

(** No consumer is added, and the queues of those that stay keep their names. *)
Record keeps (b b' : BR) : Prop := {
  kp_consumer p id l : consumer_at b' p id l -> consumer_at b p id l;
  kp_name n p id l : consumer_at b' p id l -> b_queues b !! n = Some p -> b_queues b' !! n = Some p;
}.

Lemma keeps_same b b' :
  b_runtimes b' = b_runtimes b -> b_queues b' = b_queues b -> keeps b b'.
Proof. intros Hr Hq. unfold consumer_at. split; unfold consumer_at; rewrite ?Hr, ?Hq; eauto. Qed.

Lemma keeps_trans b b1 b2 : keeps b b1 -> keeps b1 b2 -> keeps b b2.
Proof. intros [H1 H2] [H3 H4]. split; eauto. Qed.

Lemma exchange_change_keeps b b' : exchange_change b b' -> keeps b b'.
Proof. intros []. by apply keeps_same. Qed.

(** A step of the queue at [p]. *)
Lemma put_broker_keeps p r (q : QState RingBufferQueue W) b :
  b_runtimes b !! p = Some r -> effect None (mkQState r (b_world b)) q -> keeps b (put_broker p q b).
Proof.
  intros Hr He. split; [|done]. intros p' id l (x & Hx & Hid). simpl in Hx.
  rewrite lookup_insert in Hx. case_decide as Hp; [|by exists x].
  subst. injection Hx as <-. exists r. split; [done|].
  destruct (ef_reg _ _ _ He id l Hid) as [?|[? _]]; done.
Qed.

Lemma on_runtime_keeps {A} p (f : QState RingBufferQueue W -> GoM (A * QState RingBufferQueue W)) b a b' :
  on_runtime p f b = Done (a, b') ->
  (forall r q, b_runtimes b !! p = Some r -> f (mkQState r (b_world b)) = Done (a, q) ->
     effect None (mkQState r (b_world b)) q) -> keeps b b'.
Proof.
  intros H Hf. destruct (on_runtime_inv _ _ _ _ _ H) as (r & q & Hr & Hq & ->).
  eapply put_broker_keeps; eauto.
Qed.

Lemma publish_loop_keeps now newID m ttl i names b r b' :
  publish_loop now newID m ttl i names b = Done (r, b') -> keeps b b'.
Proof.
  revert i b. induction names as [|n names IH]; intros i b H; simpl in H.
  { injection H as _ <-. by apply keeps_same. }
  destruct (broker_queue n b) as [p|]; [|injection H as _ <-; by apply keeps_same].
  destruct (on_runtime p _ b) as [[pr b1]| |] eqn:E; simpl in H; try done.
  assert (keeps b b1) as H1.
  { eapply on_runtime_keeps; [exact E|]. intros x q _ Hq. by eapply Publish_frame. }
  destruct pr as [|[e|]]; try by injection H as _ <-. eapply keeps_trans; [done|by eapply IH].
Qed.

Lemma CreateQueue_keeps n en err b' :
  CreateQueue n (en_broker en) = Done (err, b') -> engine_ok en -> keeps (en_broker en) b'.
Proof.
  intros H Hok. unfold CreateQueue in H. rewrite (eo_open _ Hok) in H.
  destruct (validateQueueName n); [injection H as _ <-; by apply keeps_same|].
  case_bool_decide as Hn; [injection H as _ <-; by apply keeps_same|].
  destruct (broker_append _ _) as [e b1] eqn:Ea.
  destruct (broker_append_spec _ _ _ _ Ea (bk_wal _ (eo_broker _ Hok)) ltac:(auto with dsend))
    as (w & -> & _). destruct e; [injection H as _ <-; by apply keeps_same|].
  destruct (newQueueRuntime_spec n [] (set_b_world (mkWorld w (w_sessions (b_world (en_broker en)))
    (w_tokenOwners (b_world (en_broker en)))) (en_broker en)) (eo_cfg _ Hok) ltac:(by vm_compute))
    as (p & r & Hnew & Hp & (_ & _ & Hr & _)). rewrite Hnew in H. apply eq_None_not_Some in Hn.
  assert (b_runtimes b' = <[p := r]> (b_runtimes (en_broker en)) /\
    b_queues b' = <[n := p]> (b_queues (en_broker en))) as [Hrt Hq].
  { simpl in H. destruct (b_started _); by injection H as _ <-. }
  split.
  - intros p' id l (x & Hx & Hid). rewrite Hrt, lookup_insert in Hx. case_decide; [|by exists x].
    injection Hx as <-. by rewrite Hr in Hid.
  - intros m p' id l _ Hm. rewrite Hq, lookup_insert_ne; [done|]. congruence.
Qed.

(** A name less, of a queue without consumers. *)
Lemma keeps_unnamed n p b b' :
  b_queues b !! n = Some p -> b_queues b' = delete n (b_queues b) ->
  (forall id l, ~ consumer_at b' p id l) ->
  (forall p' id l, consumer_at b' p' id l -> consumer_at b p' id l) -> keeps b b'.
Proof.
  intros Hn Hq Hno Hle. split; [done|]. intros m p' id l Hc Hm. rewrite Hq, lookup_delete_ne; [done|].
  intros <-. assert (p' = p) as -> by congruence. by apply (Hno id l).
Qed.

Lemma DeleteQueue_keeps n en err b' :
  DeleteQueue n (en_broker en) = Done (err, b') -> engine_ok en -> keeps (en_broker en) b'.
Proof.
  intros H Hok. unfold DeleteQueue in H. case_bool_decide; [injection H as _ <-; by apply keeps_same|].
  destruct (b_queues (en_broker en) !! n) as [p|] eqn:En; [|injection H as _ <-; by apply keeps_same].
  destruct (on_runtime p CloseIfEmpty _) as [[emptied b1]| |] eqn:Ec; simpl in H; try done.
  assert (keeps (en_broker en) b1) as H1.
  { eapply on_runtime_keeps; [exact Ec|]. intros r q _ Hq. by eapply CloseIfEmpty_frame. }
  destruct (on_runtime_inv _ _ _ _ _ Ec) as (r & q & Hr & Hq & Hb1).
  assert (b_queues b1 = b_queues (en_broker en)) as Hqs by by subst b1.
  assert (b_runtimes b1 !! p = Some (rt q)) as Hr1 by (subst b1; simpl; apply lookup_insert_eq).
  destruct emptied; simpl in H; [|by injection H as _ <-].
  destruct (eo_wf _ Hok p r Hr) as (Hwf & _).
  destruct (CloseIfEmpty_gone _ _ Hwf Hq) as (_ & Hcs & _).
  eapply keeps_trans; [exact H1|]. clear H1 Ec.
  assert (wal_ok (w_wal (b_world b1))) as Hw1.
  { destruct (CloseIfEmpty_sim (policy:=any_message) _ Hwf) as (x & q' & Hq' & Hsim).
    rewrite Hq in Hq'. injection Hq' as <- <-. subst b1. apply (wf_wal _ (sim_wf _ _ Hsim)). }
  destruct (broker_append _ b1) as [e b2] eqn:Ea.
  destruct (broker_append_spec _ _ _ _ Ea Hw1 ltac:(auto with dsend)) as (w & -> & Hw2 & _).
  destruct e as [e|]; [injection H as _ <-; by apply keeps_same|].
  destruct (unbind_all _ n _) as [err4 b4] eqn:Eu. apply unbind_all_change in Eu; [|done].
  destruct Eu as [Q4 R4 _ _ _ _ _ _]. simpl in Q4, R4.
  assert (forall id l, ~ consumer_at b1 p id l) as Hno.
  { intros id l (x & Hx & Hid). rewrite Hr1 in Hx. injection Hx as <-. by rewrite Hcs in Hid. }
  destruct err4 as [e4|].
  { injection H as _ <-. assert (forall p id l, consumer_at b4 p id l -> consumer_at b1 p id l) as Hle.
    { unfold consumer_at. by rewrite R4. }
    eapply (keeps_unnamed n p); [by rewrite Hqs|done| |done]. intros id l Hc. by apply (Hno id l), Hle. }
  unfold on_runtime in H. rewrite R4, Hr1 in H. simpl in H. rewrite close_again in H by done.
  simpl in H. injection H as _ <-.
  eapply (keeps_unnamed n p); [by rewrite Hqs|done| |]; unfold consumer_at; simpl.
  - intros id l (x & Hx & Hid). rewrite lookup_insert_eq in Hx. injection Hx as <-. by simpl in Hid.
  - intros p' id l (x & Hx & Hid). rewrite lookup_insert in Hx. case_decide; [|by exists x].
    injection Hx as <-. by simpl in Hid.
Qed.

Lemma Broker_Publish_keeps now newID e rk m ttl b r b' :
  Broker_Publish now newID e rk m ttl b = Done (r, b') -> keeps b b'.
Proof.
  unfold Broker_Publish. intros H.
  destruct (b_exchanges b !! e) as [ex|]; [|injection H as _ <-; by apply keeps_same].
  destruct (Route ex rk); simpl in H; try done.
  case_bool_decide; [injection H as _ <-; by apply keeps_same|by eapply publish_loop_keeps].
Qed.

Lemma Broker_Publish_resume_keeps now newID m ttl p rest b r b' :
  Broker_Publish_resume now newID m ttl p rest b = Done (r, b') -> keeps b b'.
Proof.
  unfold Broker_Publish_resume. intros H.
  destruct (on_runtime p _ _) as [[pr b1]| |] eqn:E; simpl in H; try done.
  assert (keeps b b1) as H1.
  { eapply on_runtime_keeps; [exact E|]. intros x q _ Hq. by eapply Publish_resume_frame. }
  destruct pr as [|[e|]]; try by injection H as _ <-.
  eapply keeps_trans; [done|by eapply publish_loop_keeps].
Qed.

Lemma Broker_Ack_keeps tok en err b' :
  Broker_Ack tok (en_broker en) = Done (err, b') -> engine_ok en -> keeps (en_broker en) b'.
Proof.
  unfold Broker_Ack. intros H Hok.
  destruct (w_tokenOwners _ !! tok) as [p|]; [|injection H as _ <-; by apply keeps_same].
  eapply on_runtime_keeps; [exact H|]. intros r s Hr [= Hs].
  rewrite (surjective_pairing (Ack tok _)) in Hs. injection Hs as _ <-.
  apply Ack_frame, (eo_wf _ Hok p r Hr).
Qed.

Lemma broker_queue_name q b p :
  b_closed b = false -> broker_queue q b = inl p <-> b_queues b !! queue_name q = Some p.
Proof.
  intros Hc. unfold broker_queue, queue_name. rewrite Hc. destruct (b_queues b !! _); naive_solver.
Qed.

(** [Unsubscribe] adds no consumer, and the identifier is gone from its queue. *)
Lemma Broker_Unsubscribe_keeps q id b b' :
  Broker_Unsubscribe q id b = Done b' -> b_closed b = false ->
  keeps b b' /\ forall p l, b_queues b !! queue_name q = Some p -> ~ consumer_at b' p id l.
Proof.
  unfold Broker_Unsubscribe. intros H Hcl. destruct (broker_queue q b) as [p|] eqn:Eq.
  2: { injection H as <-. split; [by apply keeps_same|]. intros p l Hp.
       apply broker_queue_name in Hp; [|done]. congruence. }
  destruct (on_runtime _ _ _) as [[[] b1]| |] eqn:E; simplify_eq/=. split.
  - eapply on_runtime_keeps; [exact E|]. intros r s _ Hs. simpl in Hs. go_inv Hs.
    by eapply Unsubscribe_frame.
  - intros p' l Hp (x & Hx & Hid). apply broker_queue_name in Hp; [|done]. rewrite Eq in Hp. injection Hp as <-.
    destruct (on_runtime_inv _ _ _ _ _ E) as (r & s & Hr & Hs & ->). simpl in *.
    rewrite lookup_insert_eq in Hx. injection Hx as <-. go_inv Hs.
    unfold Unsubscribe in E0. go_inv E0; simpl in Hid; rewrite ?lookup_delete_eq in Hid; congruence.
Qed.

(** A step of a goroutine of a queue. *)
Lemma queue_step_keeps p e en en' :
  engine_ok en -> queue_step p e en = Some (Done en') ->
  (forall r, b_runtimes (en_broker en) !! p = Some r ->
     env_ok e (view p r en) /\ quiet_cancel e (view p r en)) ->
  keeps (en_broker en) (en_broker en').
Proof.
  intros Hok H Henv. unfold queue_step in H. destruct (_ || _) eqn:Eb; [done|].
  destruct (b_runtimes _ !! p) as [r|] eqn:Er; [|done].
  destruct (sys_step e _) as [[x| |]|] eqn:Es; simplify_eq/=.
  destruct (Henv r eq_refl) as [He Hq]. eapply put_broker_keeps; [done|].
  apply orb_false_iff in Eb as [Ec _].
  replace None with (event_new e) by by destruct e.
  eapply (sys_step_frame e (view p r en)); [by apply view_wf|done..].
Qed.

Lemma Broker_Subscribe_consumers q l id b err b' p id' l' :
  Broker_Subscribe q l (broker_alloc l id b) = Done (err, b') -> consumer_at b' p id' l' ->
  consumer_at b p id' l' \/ id' = id /\ l' = l /\ err = None /\ b_queues b !! queue_name q = Some p.
Proof.
  unfold Broker_Subscribe. intros H (x & Hx & Hid).
  change (broker_queue q (broker_alloc l id b)) with (broker_queue q b) in H.
  destruct (broker_queue q b) as [p0|] eqn:Eq; [|injection H as _ <-; left; by exists x].
  destruct (on_runtime_inv _ _ _ _ _ H) as (r & s & Hr & Hs & ->). simpl in *.
  rewrite lookup_insert in Hx. case_decide as Hp; [|left; by exists x].
  subst p0. injection Hx as <-.
  destruct (ef_reg _ _ _ (Subscribe_frame _ _ _ _ Hs) id' l' Hid) as [?|[Hnew Hc]]; [left; by exists r|].
  simpl in Hnew. rewrite lookup_insert_eq in Hnew. injection Hnew as <- <-. right.
  split_and!; try done.
  - unfold Subscribe in Hs. simpl in Hs. destruct (closed r) eqn:Ec.
    { injection Hs as <- <-. simpl in Hc. congruence. }
    rewrite lookup_insert_eq in Hs. simpl in Hs.
    destruct (consumerSessions r !! id); by injection Hs as <- _.
  - unfold broker_queue in Eq. unfold queue_name. repeat case_match; simplify_eq; done.
Qed.

End Consumers.
