(* ===== verification/TcpServer.v ===== *)
(** The TCP server of [internal/server/tcp.go] with everything behind it: the
    accept loop of [Start], the goroutine that closes the listener and all
    connections when the context ends, one handler per connection, and the
    engine. An event is one step of one of these goroutines. *)

From S2P Require Import Prelude GoStrings Model RingBuffer Inflight Exchange Wal QueueRuntime.
From S2P Require Import System SystemInv Broker Engine Utf8 Rfc3339 Protocol Handler.

(** The accept loop: in [Accept], with a connection that is not tracked yet,
    with one that is, past the loop in [wg.Wait], returned. *)
Inductive AcceptPC :=
| AAccept
| AAccepted (k : nat)
| ATracked (k : nat)
| AWait
| AReturned.

(** The goroutine of [Start]: waiting for the context, past
    [listener.Close], past [closeConns]. *)
Inductive CloserPC := CWait | CListenerClosed | CDone.

(** [sv_conns] are the connections accepted so far, by number; [sv_tracked] is
    the map [conns]; [sv_running] are the handlers [wg] counts. *)
Record Server {W : Type} := mkServer {
  sv_engine : Engine W;
  sv_conns : gmap nat Conn;
  sv_tracked : gset nat;
  sv_running : gset nat;
  sv_listening : bool;
  sv_ctxDone : bool;
  sv_accept : AcceptPC;
  sv_closer : CloserPC;
}.
Arguments Server W : clear implicits.
Arguments mkServer {W}.

Section Server.
Context {W : Type} `{!WAL W} {Hrange : MapRange} {Htime : TimeText}.
Abbreviation SV := (Server W).

Definition set_engine (en : Engine W) (s : SV) : SV :=
  mkServer en (sv_conns s) (sv_tracked s) (sv_running s) (sv_listening s) (sv_ctxDone s)
    (sv_accept s) (sv_closer s).
Definition set_conns (v : gmap nat Conn) (s : SV) : SV :=
  mkServer (sv_engine s) v (sv_tracked s) (sv_running s) (sv_listening s) (sv_ctxDone s)
    (sv_accept s) (sv_closer s).
Definition set_accept (pc : AcceptPC) (s : SV) : SV :=
  mkServer (sv_engine s) (sv_conns s) (sv_tracked s) (sv_running s) (sv_listening s) (sv_ctxDone s)
    pc (sv_closer s).
Definition set_running (v : gset nat) (s : SV) : SV :=
  mkServer (sv_engine s) (sv_conns s) (sv_tracked s) v (sv_listening s) (sv_ctxDone s)
    (sv_accept s) (sv_closer s).
Definition set_tracked (v : gset nat) (s : SV) : SV :=
  mkServer (sv_engine s) (sv_conns s) v (sv_running s) (sv_listening s) (sv_ctxDone s)
    (sv_accept s) (sv_closer s).

Definition New (en : Engine W) : SV :=
  mkServer en ∅ ∅ ∅ true false AAccept CWait.

(** [Start] up to its loop: [listenErr] is the error of [net.Listen]. *)
Definition Start (listenErr : option string) (en : Engine W) : SV + string :=
  match listenErr with
  | Some err => inr ("failed to start server: " +:+ err)
  | None => inl (New en)
  end.

Definition trackConn (k : nat) (s : SV) : SV := set_tracked ({[k]} ∪ sv_tracked s) s.
Definition untrackConn (k : nat) (s : SV) : SV := set_tracked (sv_tracked s ∖ {[k]}) s.

(** [conn.Close()] of one connection. *)
Definition close_one (k : nat) (s : SV) : SV := set_conns (alter close_conn k (sv_conns s)) s.

Definition closeConns (s : SV) : SV :=
  set_conns (map_imap (fun k c => Some (if decide (k ∈ sv_tracked s) then close_conn c else c))
               (sv_conns s)) s.

Inductive server_event :=
(* the accept loop *)
| TAccept (k : nat)
| TAcceptErr
| TAcceptClosed
| TTrack
| TCheck
| TReturn
(* the context and the goroutine that waits for it *)
| TCancel
| TCloseListener
| TCloseConns
(* handlers: a step, and the deferred calls of the goroutine around them *)
| TConn (k : nat) (e : conn_event)
| TFinish (k : nat)
(* goroutines of the queues *)
| TQueue (p : nat) (e : event).

(** The loop of [Start]. *)
Definition accept_step (e : server_event) (s : SV) : option SV :=
  match e, sv_accept s with
  | TAccept k, AAccept =>
      if sv_listening s && bool_decide (sv_conns s !! k = None)
      then Some (set_accept (AAccepted k) (set_conns (<[k := new_conn]> (sv_conns s)) s)) else None
  | TAcceptErr, AAccept => Some s
  | TAcceptClosed, AAccept => if sv_listening s then None else Some (set_accept AWait s)
  | TTrack, AAccepted k => Some (set_accept (ATracked k) (trackConn k s))
  | TCheck, ATracked k =>
      if sv_ctxDone s then Some (set_accept AAccept (close_one k (untrackConn k s)))
      else Some (set_accept AAccept (set_running ({[k]} ∪ sv_running s) s))
  | TReturn, AWait => if bool_decide (sv_running s = ∅) then Some (set_accept AReturned s) else None
  | _, _ => None
  end.

(** The end of the context, which is also the parent of the engine's, and the
    goroutine that waits for it. *)
Definition closer_step (e : server_event) (s : SV) : option SV :=
  match e, sv_closer s with
  | TCancel, _ =>
      Some (mkServer (set_broker (cancel_context (en_broker (sv_engine s))) (sv_engine s))
              (sv_conns s) (sv_tracked s) (sv_running s) (sv_listening s) true (sv_accept s)
              (sv_closer s))
  | TCloseListener, CWait =>
      if sv_ctxDone s
      then Some (mkServer (sv_engine s) (sv_conns s) (sv_tracked s) (sv_running s) false
                   (sv_ctxDone s) (sv_accept s) CListenerClosed)
      else None
  | TCloseConns, CListenerClosed =>
      let s := closeConns s in
      Some (mkServer (sv_engine s) (sv_conns s) (sv_tracked s) (sv_running s) (sv_listening s)
              (sv_ctxDone s) (sv_accept s) CDone)
  | _, _ => None
  end.

(** A step of the handler of connection [k]. *)
Definition handler_step (k : nat) (e : conn_event) (s : SV) : option (GoM SV) :=
  match sv_conns s !! k with
  | Some c =>
      if bool_decide (k ∈ sv_running s) then
        match conn_step (sv_ctxDone s) e c (en_broker (sv_engine s)) with
        | Some r =>
            Some (let! (c, b) := r in
                  Done (set_conns (<[k := c]> (sv_conns s)) (set_engine (set_broker b (sv_engine s)) s)))
        | None => None
        end
      else None
  | None => None
  end.

(** [defer s.untrackConn(conn)] and [defer wg.Done()]. *)
Definition finish_step (k : nat) (s : SV) : option SV :=
  match sv_conns s !! k with
  | Some c =>
      match h_pc c with
      | HReturned =>
          if bool_decide (k ∈ sv_running s)
          then Some (set_running (sv_running s ∖ {[k]}) (untrackConn k s)) else None
      | _ => None
      end
  | None => None
  end.

Definition server_step (e : server_event) (s : SV) : option (GoM SV) :=
  match e with
  | TAccept _ | TAcceptErr | TAcceptClosed | TTrack | TCheck | TReturn => Done <$> accept_step e s
  | TCancel | TCloseListener | TCloseConns => Done <$> closer_step e s
  | TConn k e => handler_step k e s
  | TFinish k => Done <$> finish_step k s
  | TQueue p e =>
      match queue_step p e (sv_engine s) with
      | Some r => Some (let! en := r in Done (set_engine en s))
      | None => None
      end
  end.

(** [runServer] of [cmd/dsend/server.go]: the log, the broker, its goroutines,
    the server. [wal]: what opening the log gave. *)
Definition runServer (wal : W + string) (listenErr : option string) : GoM (SV + string) :=
  match wal with
  | inr err => Done (inr err)
  | inl w =>
      let! (ob, err) := NewBroker DefaultConfig w ∅ in
      match err with
      | Some e => Done (inr (Err_Error e))
      | None =>
          match ob with
          | None => Panic
          | Some b => Done (Start listenErr (set_broker (Broker_Start b) (mkEngine b ∅)))
          end
      end
  end.

(** What [runServer] does after [server.Start] has returned. *)
Definition runServer_stop (s : SV) : option (GoM (InMemoryBroker W)) :=
  match sv_accept s with
  | AReturned => Some (Broker_Shutdown (en_broker (sv_engine s)))
  | _ => None
  end.

End Server.
