(* ===== verification/ServerInv.v ===== *)
(** The invariant of the server: the engine is in order whatever the clients
    send, every handler that runs is tracked, nothing escapes the shutdown, and
    every registered consumer has a connection that serves it. *)

From S2P Require Import Prelude GoStrings Model RingBuffer Inflight Exchange Wal QueueRuntime.
From S2P Require Import System QueueSpec QueueInv RoundRobin QueueRefine QueueDeliver.
From S2P Require Import Redelivery SystemInv QueueCases Broker Topology BrokerInv Recovery.
From S2P Require Import BrokerTheorems Frame Engine EngineInv EngineCalls EngineTheorems.
From S2P Require Import Utf8 Rfc3339 Protocol Handler HandlerInv Consumers TcpServer.

Section ServerInv.
Context {W : Type} `{!WAL W} `{!WALLaws W} {Hrange : MapRange} {Htime : TimeText}.
Abbreviation SV := (Server W).
Implicit Types (s : SV) (b : InMemoryBroker W).

(** What the environment promises at an event. *)
Definition server_env (e : server_event) s : Prop :=
  match e with
  | TConn k ce => forall c, sv_conns s !! k = Some c -> conn_env ce c (en_broker (sv_engine s))
  | TQueue p qe => forall r, b_runtimes (en_broker (sv_engine s)) !! p = Some r ->
      env_ok qe (view p r (sv_engine s)) /\ quiet_cancel qe (view p r (sv_engine s))
  | _ => True
  end.

Inductive sv_step s s' : Prop :=
| sv_event e : server_env e s -> server_step e s = Some (Done s') -> sv_step s s'.

(** ** The engine behind the server *)

(** A step of the server is at most one step of the engine. *)
Lemma sv_step_engine s s' :
  sv_step s s' -> rtc engine_step (sv_engine s) (sv_engine s').
Proof.
  intros [e He Hs]. destruct e; simpl in He, Hs.
  1-6: unfold accept_step in Hs; destruct (sv_accept s); try done.
  - case_match; simplify_eq/=. done.
  - by simplify_eq/=.
  - destruct (sv_listening s); by simplify_eq/=.
  - by simplify_eq/=.
  - destruct (sv_ctxDone s); by simplify_eq/=.
  - case_bool_decide; by simplify_eq/=.
  - simplify_eq/=. apply rtc_once. eapply es_call; [by apply bc_Cancel|done].
  - destruct (sv_closer s); simplify_eq/=. destruct (sv_ctxDone s); by simplify_eq/=.
  - destruct (sv_closer s); by simplify_eq/=.
  - unfold handler_step in Hs. destruct (sv_conns s !! k) as [c|] eqn:Ek; [|done].
    case_bool_decide; [|done].
    destruct (conn_step _ _ c _) as [[[c' b']| |]|] eqn:Ec; simplify_eq/=.
    destruct (conn_step_calls _ _ _ _ _ _ (He c eq_refl) Ec) as [->|Hcall].
    + by destruct (sv_engine s).
    + apply rtc_once. by eapply es_call.
  - unfold finish_step in Hs. repeat case_match; by simplify_eq/=.
  - destruct (queue_step p e _) as [[en| |]|] eqn:Eq; simplify_eq/=.
    apply rtc_once. by eapply es_queue.
Qed.

Lemma sv_run_engine s s' : rtc sv_step s s' -> rtc engine_step (sv_engine s) (sv_engine s').
Proof. induction 1; [done|]. etrans; [by apply sv_step_engine|done]. Qed.

(** ** The connections *)

Definition is_running_pc (pc : AcceptPC) (k : nat) : Prop := pc = AAccepted k \/ pc = ATracked k.

(** The delivery goroutine of a connection takes the deliveries of a session. *)
Definition serving (c : Conn) (l : nat) (id q : string) : Prop :=
  exists sub, h_sub c = Some sub /\ sub_session sub = l /\ sub_ID sub = id /\ sub_queue sub = q /\
    sub_pc sub <> SDone.

(** Every consumer is served by some connection. *)
Definition served (conns : gmap nat Conn) b : Prop :=
  forall p id l, consumer_at b p id l -> exists k c q, conns !! k = Some c /\
    serving c l id q /\ b_queues b !! queue_name q = Some p.

Record conns_ok s : Prop := {
  cn_ok : map_Forall (fun _ c => conn_ok c) (sv_conns s);
  cn_tracked k : k ∈ sv_running s -> k ∈ sv_tracked s /\ is_Some (sv_conns s !! k);
  cn_accepted k : sv_accept s = AAccepted k -> (k ∉ sv_running s) /\ is_Some (sv_conns s !! k);
  cn_atracked k : sv_accept s = ATracked k ->
    (k ∉ sv_running s) /\ k ∈ sv_tracked s /\ is_Some (sv_conns s !! k);
  cn_ctx : sv_closer s <> CWait -> sv_ctxDone s = true /\ sv_listening s = false;
  cn_closed k c : sv_closer s = CDone -> k ∈ sv_running s -> sv_conns s !! k = Some c ->
    h_closed c = true;
  cn_returned : sv_accept s = AReturned -> sv_running s = ∅;
  cn_subs k c l id q : sv_conns s !! k = Some c -> serving c l id q -> k ∈ sv_running s;
}.

Lemma New_conns_ok en : conns_ok (New en).
Proof. split; try done. all: intros; set_solver. Qed.

(** A closed connection stays closed, and one that has not returned goes on. *)
Lemma encode_closed w resp c ok c' :
  encode w resp c = (ok, c') -> h_closed c' = h_closed c.
Proof. intros H. by destruct (encode_spec _ _ _ _ _ H) as (_ & _ & _ & ? & _). Qed.

Lemma close_stop_spec c c' :
  close_stop c = Done c' -> exists sub, h_sub c = Some sub /\ sub_stopped sub = false /\
    c' = set_h_sub (Some (mkSub (sub_session sub) (sub_ID sub) (sub_queue sub) true (sub_pc sub))) c.
Proof.
  unfold close_stop. destruct (h_sub c) as [sub|]; [|done].
  destruct (sub_stopped sub) eqn:E; [done|]. intros [= <-]. by exists sub.
Qed.

Lemma handle_closed now newID req c b c' b' :
  handle now newID req c b = Done (c', b') -> h_closed c' = h_closed c.
Proof.
  unfold handle. intros H. destruct (_ && _); [by injection H as <- _|].
  repeat (case_bool_decide; [unfold handle_publish, handle_ack, handle_create_queue,
    handle_delete_queue, handle_list_queues, handle_bind_queue, handle_unbind_queue,
    handle_create_exchange, handle_delete_exchange, handle_list_exchanges, handle_unsubscribe,
    handle_subscribe in H|]); unfold handle_metrics, handle_unknown in H; go_inv H; try done;
    unfold published_conn; try by repeat case_match.
  by destruct (close_stop_spec _ _ E0) as (? & _ & _ & ->).
Qed.

Lemma conn_step_closed ctx e c b c' b' :
  conn_step ctx e c b = Some (Done (c', b')) -> h_closed c = true -> h_closed c' = true.
Proof.
  intros H Hc. destruct e; simpl in H; unfold loop_step, deliver_step in H.
  8-11: destruct (h_sub c) as [sub|]; [|done]; destruct (sub_pc sub) as [|d| |]; try done.
  1-7: destruct (h_pc c) as [| |req p rest|resp leave| | | |]; try done.
  - by injection H as <- _.
  - destruct (Request_UnmarshalJSON doc) as [req|]; [|by injection H as <- _].
    injection H as H. by rewrite (handle_closed _ _ _ _ _ _ _ H).
  - by injection H as <- _.
  - destruct (b_runtimes b !! p) as [r|]; [|done]. case_bool_decide; [done|].
    injection H as H. go_inv H. by destruct b0.
  - destruct (encode w resp c) as [ok c1] eqn:E. injection H as <- _. simpl.
    by rewrite (encode_closed _ _ _ _ _ E).
  - destruct (sub_done c); [|done]. by injection H as <- _.
  - destruct (sub_done c); [|done]. by injection H as <- _.
  - destruct (h_stop c); injection H as H; [|by simplify_eq].
    go_inv H. by destruct (close_stop_spec _ _ E) as (? & _ & _ & ->).
  - destruct (session_deliveries _ b); [done|]. by injection H as <- _.
  - destruct (encode w _ c) as [ok c1] eqn:E. injection H as <- _. simpl.
    by rewrite (encode_closed _ _ _ _ _ E).
  - destruct (sub_stopped sub); [|done]. by injection H as <- _.
  - injection H as H. by go_inv H.
Qed.

(** ** Consumers are served *)

(** A step of a connection leaves no consumer behind: one that is there after
    it was there before, under a queue that has kept its names, and is not the
    one the connection has stopped serving; or the connection serves it now. *)
Definition tended c b c' b' : Prop :=
  forall p id l, consumer_at b' p id l ->
    consumer_at b p id l /\
      (forall n, b_queues b !! n = Some p -> b_queues b' !! n = Some p) /\
      (forall q, serving c l id q -> b_queues b !! queue_name q = Some p -> serving c' l id q) \/
    exists q, serving c' l id q /\ b_queues b' !! queue_name q = Some p.

Lemma served_tended conns k c b c' b' :
  served conns b -> conns !! k = Some c -> tended c b c' b' -> served (<[k := c']> conns) b'.
Proof.
  intros Hs Hk Ht p id l Hc. destruct (Ht p id l Hc) as [(H0 & Hn & Hq)|(q & Hq & Hp)].
  - destruct (Hs p id l H0) as (k0 & c0 & q & Hk0 & Hsv & Hp).
    destruct (decide (k0 = k)) as [->|Hne].
    + rewrite Hk in Hk0. injection Hk0 as <-. exists k, c', q. rewrite lookup_insert_eq. eauto.
    + exists k0, c0, q. rewrite lookup_insert_ne by done. eauto.
  - exists k, c', q. by rewrite lookup_insert_eq.
Qed.

Lemma served_keeps conns b b' : served conns b -> keeps b b' -> served conns b'.
Proof.
  intros Hs [H1 H2] p id l Hc. destruct (Hs p id l (H1 _ _ _ Hc)) as (k & c & q & Hk & Hq & Hp).
  exists k, c, q. eauto.
Qed.

Lemma tended_keeps c b c' b' :
  keeps b b' -> (forall l id q, serving c l id q -> serving c' l id q) -> tended c b c' b'.
Proof. intros [H1 H2] Hs p id l Hc. left. split_and!; eauto. Qed.

Lemma tended_same c b c' b' : keeps b b' -> h_sub c' = h_sub c -> tended c b c' b'.
Proof.
  intros Hk He. apply tended_keeps; [done|]. intros l id q (sub & Hs & ?). exists sub. by rewrite He.
Qed.

Lemma serving_same c c' l id q : h_sub c' = h_sub c -> serving c l id q -> serving c' l id q.
Proof. intros He (sub & Hs & ?). exists sub. by rewrite He. Qed.

(** The goroutine moves on but does not end. *)
Lemma serving_moved c c' sub sub' l id q :
  h_sub c = Some sub -> h_sub c' = Some sub' -> sub_session sub' = sub_session sub ->
  sub_ID sub' = sub_ID sub -> sub_queue sub' = sub_queue sub ->
  (sub_pc sub <> SDone -> sub_pc sub' <> SDone) -> serving c l id q -> serving c' l id q.
Proof.
  intros H H' E1 E2 E3 E4 (x & Hx & <- & <- & <- & Hp). rewrite H in Hx. injection Hx as <-.
  exists sub'. split_and!; auto.
Qed.

Lemma serving_close_stop c c' l id q : close_stop c = Done c' -> serving c l id q -> serving c' l id q.
Proof.
  intros H. destruct (close_stop_spec _ _ H) as (sub & Hs & _ & ->). by eapply serving_moved.
Qed.

Lemma Broker_Subscribe_queues q l b err b' :
  Broker_Subscribe q l b = Done (err, b') -> b_queues b' = b_queues b.
Proof.
  unfold Broker_Subscribe. destruct (broker_queue q b); [|by intros [= _ <-]].
  intros H. by destruct (on_runtime_inv _ _ _ _ _ H) as (r & s & _ & _ & ->).
Qed.

Lemma handle_tended en now newID req c c' b' :
  engine_ok en -> conn_ok c -> request_env newID req (en_broker en) ->
  handle now newID req c (en_broker en) = Done (c', b') -> tended c (en_broker en) c' b'.
Proof.
  intros Hok Hc (_ & _ & Hd & Hb & Hu & _) H. pose proof (bk_wal _ (eo_broker _ Hok)) as Hw.
  unfold handle in H.
  destruct (_ && _); [injection H as <- <-; by apply tended_same; [apply keeps_same|]|].
  repeat (case_bool_decide; [unfold handle_publish, handle_ack, handle_create_queue,
    handle_delete_queue, handle_list_queues, handle_bind_queue, handle_unbind_queue,
    handle_create_exchange, handle_delete_exchange, handle_list_exchanges, handle_unsubscribe,
    handle_subscribe in H|]).
  - go_inv H. apply tended_same; [by eapply Broker_Publish_keeps|by destruct b].
  - go_inv H; (apply tended_same; [eapply Broker_Ack_keeps; [exact E|exact Hok]|done]).
  - unfold handle_metrics in H. go_inv H; by apply tended_same; [apply keeps_same|].
  - destruct (h_stop c) eqn:Es; [injection H as <- <-; by apply tended_same; [apply keeps_same|]|].
    assert (forall l id q, ~ serving c l id q) as Hno.
    { intros l id q (sub & Hs & _ & _ & _ & Hp). pose proof (co_idle _ Hc Es) as Hdone.
      unfold sub_done in Hdone. rewrite Hs in Hdone. by destruct (sub_pc sub). }
    destruct (Broker_Subscribe _ _ _) as [[err b1]| |] eqn:E; simpl in H; try done.
    intros p id l Hx. assert (b' = b1) as -> by (destruct err; by injection H).
    destruct (Broker_Subscribe_consumers _ _ _ _ _ _ _ _ _ E Hx) as [?|(-> & -> & -> & Hp)].
    + left. split_and!; [done| |by intros ? ?%Hno]. intros n Hn. 
      by rewrite (Broker_Subscribe_queues _ _ _ _ _ E).
    + right. injection H as <-. exists (q_Queue req). split; [|by rewrite (Broker_Subscribe_queues _ _ _ _ _ E)].
      by eexists.
  - destruct (h_stop c); go_inv H; (apply tended_keeps; [by apply keeps_same|]); [|done].
    intros l id q Hsv. eapply serving_same; [|by eapply serving_close_stop]. done.
  - go_inv H. by apply tended_same; [eapply CreateQueue_keeps|].
  - go_inv H. by apply tended_same; [eapply DeleteQueue_keeps|].
  - injection H as <- <-. by apply tended_same; [apply keeps_same|].
  - destruct (BindQueue _ _ _ _) as [err b1] eqn:E. injection H as <- <-.
    by apply tended_same; [eapply exchange_change_keeps, BindQueue_change|].
  - destruct (UnbindQueue _ _ _ _) as [err b1] eqn:E. injection H as <- <-.
    by apply tended_same; [eapply exchange_change_keeps, UnbindQueue_change|].
  - go_inv H. by apply tended_same; [eapply exchange_change_keeps, CreateExchange_change|].
  - go_inv H. by apply tended_same; [eapply exchange_change_keeps, DeleteExchange_change|].
  - injection H as <- <-. by apply tended_same; [apply keeps_same|].
  - unfold handle_unknown in H. injection H as <- <-. by apply tended_same; [apply keeps_same|].
Qed.

Lemma conn_step_tended en ctx e c c' b' :
  engine_ok en -> conn_ok c -> conn_env e c (en_broker en) ->
  conn_step ctx e c (en_broker en) = Some (Done (c', b')) -> tended c (en_broker en) c' b'.
Proof.
  intros Hok Hc Henv H. destruct e; simpl in Henv, H; unfold loop_step, deliver_step in H.
  8-11: destruct (h_sub c) as [sub|] eqn:Eb; [|done]; destruct (sub_pc sub) as [|d| |] eqn:Ep; try done.
  1-7: destruct (h_pc c) as [| |req p rest|resp leave| | | |] eqn:Ep; try done.
  - injection H as <- <-. by apply tended_same; [apply keeps_same|].
  - destruct (Request_UnmarshalJSON doc) as [req|];
      [|injection H as <- <-; by apply tended_same; [apply keeps_same|]].
    injection H as H. eapply handle_tended; [done|done|by apply Henv|done].
  - injection H as <- <-. by apply tended_same; [apply keeps_same|].
  - destruct (b_runtimes _ !! p) as [r|]; [|done]. case_bool_decide; [done|].
    injection H as H. go_inv H. apply tended_same; [by eapply Broker_Publish_resume_keeps|by destruct b].
  - destruct (encode w resp c) as [ok c1] eqn:E. injection H as <- <-.
    destruct (encode_spec _ _ _ _ _ E) as (_ & _ & Es & _). by apply tended_same; [apply keeps_same|].
  - destruct (sub_done c); [|done]. injection H as <- <-. by apply tended_same; [apply keeps_same|].
  - destruct (sub_done c); [|done]. injection H as <- <-. by apply tended_same; [apply keeps_same|].
  - destruct (h_stop c); injection H as H; [|simplify_eq; by apply tended_same; [apply keeps_same|]].
    go_inv H. apply tended_keeps; [by apply keeps_same|]. intros l id q Hsv.
    eapply serving_same; [|by eapply serving_close_stop]. done.
  - destruct (session_deliveries _ _) as [|d ds]; [done|]. injection H as <- <-.
    apply tended_keeps; [by apply keeps_same|]. intros l id q. by eapply serving_moved.
  - destruct (encode w _ c) as [ok c1] eqn:E. injection H as <- <-.
    apply tended_keeps; [by apply keeps_same|]. intros l id q.
    eapply serving_moved; try done. by destruct ok.
  - destruct (sub_stopped sub); [|done]. injection H as <- <-.
    apply tended_keeps; [by apply keeps_same|]. intros l id q. by eapply serving_moved.
  - injection H as H. go_inv H.
    destruct (Broker_Unsubscribe_keeps _ _ _ _ E (eo_open _ Hok)) as [[H1 H2] Hno].
    intros p id l Hx. left. split_and!; eauto. intros q (x & Hxs & _ & <- & <- & _) Hp.
    rewrite Eb in Hxs. injection Hxs as <-. by destruct (Hno p l Hp).
Qed.

(** ** The invariant *)

Lemma conns_ok_conn s k c c' :
  conns_ok s -> k ∈ sv_running s -> sv_conns s !! k = Some c -> conn_ok c' ->
  (h_closed c = true -> h_closed c' = true) ->
  forall en, conns_ok (set_conns (<[k := c']> (sv_conns s)) (set_engine en s)).
Proof.
  intros [H1 H2 H3 H4 H5 H6 Hrt H7] Hk Hc Hok Hcl en. split; simpl.
  - by apply map_Forall_insert_2.
  - intros j Hj. rewrite lookup_insert_is_Some'. naive_solver.
  - intros j Hj. rewrite lookup_insert_is_Some'. naive_solver.
  - intros j Hj. rewrite lookup_insert_is_Some'. naive_solver.
  - done.
  - intros j cj Hd Hj. rewrite lookup_insert. case_decide; [intros [= <-]; subst; eauto|eauto].
  - done.
  - intros j cj l id q. rewrite lookup_insert. case_decide; [by intros _ _; subst|apply H7].
Qed.

Lemma new_conn_serving l id q : ~ serving new_conn l id q.
Proof. by intros (sub & H & _). Qed.

Lemma returned_serving c l id q : conn_ok c -> h_pc c = HReturned -> ~ serving c l id q.
Proof.
  intros Hc Hr (sub & Hs & _ & _ & _ & Hp). destruct (co_returned _ Hc) as [Hd _]; [by rewrite Hr|].
  unfold sub_done in Hd. rewrite Hs in Hd. by destruct (sub_pc sub).
Qed.

Lemma close_conn_ok c : conn_ok c -> conn_ok (close_conn c).
Proof. intros []. split; simpl; try done. naive_solver. Qed.

Lemma accept_step_conns_ok e s s' : conns_ok s -> accept_step e s = Some s' -> conns_ok s'.
Proof.
  intros Hok H. pose proof Hok as [H1 H2 H3 H4 H5 H6 Hrt H7]. unfold accept_step in H.
  destruct e, (sv_accept s) eqn:Ea; try done.
  - case_match eqn:E; [|done]. apply andb_true_iff in E as [El Ek%bool_decide_eq_true]. simplify_eq/=.
    assert (k ∉ sv_running s) as Hk.
    { intros Hk. destruct (H2 k Hk) as [_ [? ?]]. congruence. }
    split; simpl.
    + apply map_Forall_insert_2; [apply new_conn_ok|done].
    + intros j Hj. rewrite lookup_insert_is_Some'. naive_solver.
    + intros j [= <-]. split; [done|]. rewrite lookup_insert_eq. eauto.
    + done.
    + apply Hok.
    + intros j c Hd Hj. rewrite lookup_insert. case_decide; [by subst|by apply H6].
    + done.
    + intros j c l id q. rewrite lookup_insert.
      case_decide; [by intros [= <-] ?%new_conn_serving|apply H7].
  - by injection H as <-.
  - destruct (sv_listening s); simplify_eq/=. split; try done; apply Hok.
  - simplify_eq/=. destruct (H3 k eq_refl) as [Hk Hc]. split; simpl; try done; try apply Hok.
    + intros j Hj. destruct (H2 j Hj). set_solver.
    + intros j [= <-]. set_solver.
  - destruct (H4 k eq_refl) as (Hk & Ht & Hc). destruct (sv_ctxDone s) eqn:Ed; simplify_eq/=.
    + split; simpl; try done; try apply Hok.
      * intros j c. rewrite lookup_alter_Some. intros [(<- & x & Hx & ->)|[_ Hx]]; [|eauto].
        eapply close_conn_ok, H1, Hx.
      * intros j Hj. destruct (H2 j Hj) as [Hj1 Hj2]. rewrite lookup_alter_is_Some. set_solver.
      * intros j c Hd Hj. rewrite lookup_alter_Some. intros [(<- & x & Hx & ->)|[_ Hx]]; [done|eauto].
      * intros j c l id q. rewrite lookup_alter_Some. intros [(<- & x & Hx & ->)|[_ Hx]]; eauto.
    + split; simpl; try done; try apply Hok.
      * intros j Hj. destruct (decide (j = k)) as [->|]; [done|]. apply H2. set_solver.
      * intros j c Hd. destruct H5 as [? _]; congruence.
      * intros j c l id q Hj Hs. specialize (H7 _ _ _ _ _ Hj Hs). set_solver.
  - case_bool_decide; simplify_eq/=. split; try done; apply Hok.
Qed.

Lemma closeConns_lookup s k :
  sv_conns (closeConns s) !! k =
  (fun c => if decide (k ∈ sv_tracked s) then close_conn c else c) <$> sv_conns s !! k.
Proof. simpl. rewrite map_lookup_imap. by destruct (sv_conns s !! k). Qed.

Lemma closer_step_conns_ok e s s' : conns_ok s -> closer_step e s = Some s' -> conns_ok s'.
Proof.
  intros Hok H. pose proof Hok as [H1 H2 H3 H4 H5 H6 Hrt H7]. unfold closer_step in H.
  destruct e; try done.
  - injection H as <-. split; try done. simpl. intros Hc. by split; [|apply H5].
  - destruct (sv_closer s) eqn:Ec; try done. destruct (sv_ctxDone s) eqn:Ed; [|done].
    injection H as <-. by split.
  - destruct (sv_closer s) eqn:Ec; try done. injection H as <-.
    split; simpl; try done; [|intros k..].
    + intros k c. rewrite (closeConns_lookup s). destruct (sv_conns s !! k) as [x|] eqn:Ek; [|done].
      intros [= <-]. case_decide; [apply close_conn_ok|]; by apply (H1 k).
    + intros Hk. destruct (H2 k Hk). split; [done|]. rewrite (closeConns_lookup s). by apply fmap_is_Some.
    + intros Hk. destruct (H3 k Hk). split; [done|]. rewrite (closeConns_lookup s). by apply fmap_is_Some.
    + intros Hk. destruct (H4 k Hk) as (? & ? & ?). split_and!; [done..|].
      rewrite (closeConns_lookup s). by apply fmap_is_Some.
    + by apply H5.
    + intros c _ Hk. rewrite (closeConns_lookup s). destruct (H2 k Hk) as [Ht _].
      destruct (sv_conns s !! k); [|done]. intros [= <-]. by rewrite decide_True.
    + intros c l id q. rewrite (closeConns_lookup s). destruct (sv_conns s !! k) as [x|] eqn:Ek; [|done].
      intros [= <-] Hs. apply (H7 k x l id q Ek). by case_decide.
Qed.

Lemma finish_step_conns_ok k s s' : conns_ok s -> finish_step k s = Some s' -> conns_ok s'.
Proof.
  intros Hok H. pose proof Hok as [H1 H2 H3 H4 H5 H6 Hrt H7]. unfold finish_step in H.
  destruct (sv_conns s !! k) as [c|] eqn:Ek; [|done]. destruct (h_pc c) eqn:Ep; try done.
  case_bool_decide as Hk; [|done]. injection H as <-. split; simpl; try done.
  - intros j Hj. destruct (H2 j); [set_solver|]. set_solver.
  - intros j Hj. destruct (H3 j Hj). set_solver.
  - intros j Hj. destruct (H4 j Hj) as (? & ? & ?). set_solver.
  - intros j cj Hd Hj. apply H6; [done|set_solver].
  - intros Ha. rewrite (Hrt Ha). set_solver.
  - intros j cj l id q Hj Hs. specialize (H7 _ _ _ _ _ Hj Hs).
    destruct (decide (j = k)) as [->|]; [|set_solver].
    rewrite Ek in Hj. injection Hj as <-. by destruct (returned_serving c l id q (H1 k c Ek) Ep).
Qed.

(** The server: the engine, the connections, and who serves whom. *)
Record server_ok s : Prop := {
  so_engine : engine_ok (sv_engine s);
  so_conns : conns_ok s;
  so_served : served (sv_conns s) (en_broker (sv_engine s));
}.

(** The connections keep what they serve when only their flags change. *)
Lemma served_flags (conns conns' : gmap nat Conn) b :
  served conns b ->
  (forall k c, conns !! k = Some c -> exists c', conns' !! k = Some c' /\ h_sub c' = h_sub c) ->
  served conns' b.
Proof.
  intros Hs Hf p id l Hc. destruct (Hs p id l Hc) as (k & c & q & Hk & Hsv & Hp).
  destruct (Hf k c Hk) as (c' & Hk' & He). exists k, c', q. split_and!; [done| |done].
  by eapply serving_same.
Qed.

Lemma accept_step_served e s s' :
  accept_step e s = Some s' -> sv_engine s' = sv_engine s /\
  forall k c, sv_conns s !! k = Some c -> exists c', sv_conns s' !! k = Some c' /\ h_sub c' = h_sub c.
Proof.
  unfold accept_step. intros H. destruct e, (sv_accept s); try done.
  - case_match eqn:E; [|done]. apply andb_true_iff in E as [_ Ek%bool_decide_eq_true]. simplify_eq/=.
    split; [done|]. intros j c Hj. exists c. rewrite lookup_insert_ne; [done|congruence].
  - injection H as <-. eauto.
  - destruct (sv_listening s); simplify_eq/=. eauto.
  - injection H as <-. simpl. eauto.
  - destruct (sv_ctxDone s); simplify_eq/=; (split; [done|]); intros j c Hj; [|eauto].
    rewrite lookup_alter. case_decide; [|eauto]. subst. rewrite Hj. by exists (close_conn c).
  - case_bool_decide; simplify_eq/=. eauto.
Qed.

(** A step keeps the connections in order, whatever the environment does. *)
Lemma server_step_conns_ok e s s' : conns_ok s -> server_step e s = Some (Done s') -> conns_ok s'.
Proof.
  intros Hok Hs. destruct e; unfold server_step in Hs;
    try (apply fmap_Some in Hs as (x & Hx & [= <-]));
    try by eauto using accept_step_conns_ok, closer_step_conns_ok, finish_step_conns_ok.
  - unfold handler_step in Hs. destruct (sv_conns s !! k) as [c|] eqn:Ek; [|done].
    case_bool_decide; [|done]. destruct (conn_step _ _ c _) as [[[c' b']| |]|] eqn:Ec; simplify_eq/=.
    eapply conns_ok_conn; [done|done|done| |by eapply conn_step_closed].
    eapply conn_step_ok; [|done]. by apply (cn_ok _ Hok k).
  - destruct (queue_step p e _) as [[en| |]|] eqn:Eq; simplify_eq/=. by destruct Hok.
Qed.

Lemma sv_step_served s s' : server_ok s -> sv_step s s' -> served (sv_conns s') (en_broker (sv_engine s')).
Proof.
  intros [Hen Hok Hsv] [e He Hs].
  destruct e; unfold server_step in Hs; simpl in He; try (apply fmap_Some in Hs as (x & Hx & [= <-]));
    try (destruct (accept_step_served _ _ _ Hx) as [-> Hf]; by eapply served_flags).
  - injection Hx as <-. by eapply served_keeps; [|by apply keeps_same].
  - unfold closer_step in Hx. destruct (sv_closer s), (sv_ctxDone s); by simplify_eq/=.
  - unfold closer_step in Hx. destruct (sv_closer s); try done. injection Hx as <-.
    eapply served_flags; [done|]. intros k c Hk. eexists.
    rewrite (closeConns_lookup s), Hk. split; [done|]. by case_decide.
  - unfold handler_step in Hs. destruct (sv_conns s !! k) as [c|] eqn:Ek; [|done].
    case_bool_decide; [|done]. destruct (conn_step _ _ c _) as [[[c' b']| |]|] eqn:Ec; simplify_eq/=.
    eapply served_tended; [done|done|]. eapply conn_step_tended; [done| |by apply He|done].
    by apply (cn_ok _ Hok k).
  - unfold finish_step in Hx. repeat case_match; by simplify_eq/=.
  - destruct (queue_step p e _) as [[en| |]|] eqn:Eq; simplify_eq/=.
    eapply served_keeps; [done|]. by eapply queue_step_keeps.
Qed.

Lemma sv_step_ok s s' : server_ok s -> sv_step s s' -> server_ok s'.
Proof.
  intros Hok Hs. split.
  - eapply engine_run_ok; [apply Hok|by apply sv_step_engine].
  - destruct Hs as [e _ Hs]. eapply server_step_conns_ok; [apply Hok|done].
  - by eapply sv_step_served.
Qed.

Lemma sv_run_ok s s' : server_ok s -> rtc sv_step s s' -> server_ok s'.
Proof. intros Hok Hr. induction Hr; eauto using sv_step_ok. Qed.

End ServerInv.
