(* ===== verification/ServerTheorems.v ===== *)
(** What the server promises in the runs [server_reachable] admits: behind it is
    the engine of [EngineTheorems.v], no connection escapes its shutdown, every
    registered consumer has a connection behind it, and the handlers of closed
    connections come to an end. *)

From S2P Require Import Prelude GoStrings Model RingBuffer Inflight Exchange Wal QueueRuntime.
From S2P Require Import System QueueSpec QueueInv RoundRobin QueueRefine QueueDeliver.
From S2P Require Import Redelivery SystemInv QueueCases Broker Topology BrokerInv Recovery.
From S2P Require Import BrokerTheorems Frame Engine EngineInv EngineCalls EngineTheorems.
From S2P Require Import Utf8 Rfc3339 Protocol Handler HandlerInv Consumers TcpServer ServerInv.

(** The length of the way a handler has left once its connection is closed. *)
Definition loop_measure (pc : HandlerPC) : nat :=
  match pc with
  | HReturned => 0 | HWaitDefer => 1 | HDefer => 2 | HTop => 3 | HEncode _ _ => 4
  | HWaitUnsub => 5 | HPublish _ _ _ => 6 | HDecode => 9
  end.

Definition sub_measure (c : Conn) : nat :=
  match h_sub c with
  | None => 0
  | Some sub => match sub_pc sub with SDone => 0 | SUnsubscribe => 1 | SEncode _ => 2 | SSelect => 3 end
  end.

Definition conn_measure (c : Conn) : nat := loop_measure (h_pc c) + sub_measure c.

Definition in_publish (c : Conn) : bool := match h_pc c with HPublish _ _ _ => true | _ => false end.

Section ServerTheorems.
Context {W : Type} `{!WAL W} `{!WALLaws W} {Hrange : MapRange} {Htime : TimeText}.
Abbreviation SV := (Server W).
Implicit Types (s : SV) (b : InMemoryBroker W) (en : Engine W) (c : Conn).

(** A server that some run leads to: the broker was made of a good log and
    started, then the server ran, with any clients. *)
Definition server_reachable s : Prop :=
  exists en, fresh_engine en /\
    rtc sv_step (New (set_broker (Broker_Start (en_broker en)) en)) s.

Lemma start_step en : engine_step en (set_broker (Broker_Start (en_broker en)) en).
Proof. eapply es_call; [by apply bc_Start|done]. Qed.

Lemma server_reachable_ok s : server_reachable s -> server_ok s.
Proof.
  intros (en & Hf & Hrun). eapply sv_run_ok; [|exact Hrun]. split.
  - eapply engine_step_ok; [by apply fresh_engine_ok|apply start_step].
  - apply New_conns_ok.
  - intros p id l (r & Hr & Hid).
    pose proof (Broker_Start_change (en_broker en)
      (bk_wal _ (eo_broker _ (fresh_engine_ok _ Hf)))) as Hch.
    simpl in Hr. rewrite (xc_runtimes _ _ Hch) in Hr.
    by rewrite (fresh_engine_idle _ Hf p r Hr) in Hid.
Qed.

Lemma server_reachable_run s s' : server_reachable s -> rtc sv_step s s' -> server_reachable s'.
Proof. intros (en & Hf & H) Hr. exists en. split; [done|by etrans]. Qed.

(** ** Refinement *)

(** Behind a server whose clients leave the identifiers of messages to the broker
    ([server_env]), the broker is in a state that calls of the broker's interface
    and steps of its queues lead to, so what holds of every reachable engine
    (recovery after a crash, routing of tokens) holds behind the server. Which
    calls these are, and what the clients are answered, is
    [server_implements_protocol]. *)
Theorem server_refines_engine s : server_reachable s -> reachable (sv_engine s).
Proof.
  intros (en & Hf & Hrun). exists en. split; [done|].
  eapply rtc_l; [apply start_step|]. by apply (sv_run_engine _ _ Hrun).
Qed.

(** ** Shutdown *)

Lemma running_shrinks s s' :
  sv_ctxDone s = true -> sv_step s s' -> sv_ctxDone s' = true /\ sv_running s' ⊆ sv_running s.
Proof.
  intros Hd [e _ H]. destruct e; unfold server_step in H;
    try (apply fmap_Some in H as (x & Hx & [= <-])); try unfold accept_step in Hx.
  1-6: destruct (sv_accept s); try done; rewrite ?Hd in Hx; repeat case_match; by simplify_eq/=.
  - by simplify_eq/=.
  - unfold closer_step in Hx. destruct (sv_closer s); try done. rewrite Hd in Hx. by simplify_eq/=.
  - unfold closer_step in Hx. destruct (sv_closer s); by simplify_eq/=.
  - unfold handler_step in H. repeat case_match; try done. injection H as H. go_inv H. done.
  - unfold finish_step in Hx. repeat case_match; simplify_eq/=. set_solver.
  - destruct (queue_step p e _) as [[en| |]|]; by simplify_eq/=.
Qed.

(** C12: Shutdown misses no connection. Once the goroutine that waits for the
    context has run, the listener is closed, the connection of every handler
    that still runs is closed (also one accepted while it ran), and no handler
    is started any more: those that run are among those that ran at that moment,
    for good. *)
Theorem shutdown_misses_no_connection s s' :
  server_reachable s -> sv_closer s = CDone -> rtc sv_step s s' ->
  sv_listening s' = false /\ sv_running s' ⊆ sv_running s /\
  forall k c, k ∈ sv_running s' -> sv_conns s' !! k = Some c -> h_closed c = true.
Proof.
  intros Hre Hc Hrun.
  assert (forall s s', sv_closer s = CDone -> sv_step s s' -> sv_closer s' = CDone) as Hstay.
  { clear. intros s s' Hc [e _ H]. destruct e; unfold server_step in H;
      try (apply fmap_Some in H as (x & Hx & [= <-])); try unfold accept_step in Hx.
    1-6: destruct (sv_accept s); try done; repeat case_match; by simplify_eq/=.
    1-3: unfold closer_step in Hx; rewrite Hc in Hx; by simplify_eq/=.
    - unfold handler_step in H. repeat case_match; try done. injection H as H. by go_inv H.
    - unfold finish_step in Hx. repeat case_match; by simplify_eq/=.
    - destruct (queue_step p e _) as [[en| |]|]; by simplify_eq/=. }
  pose proof (cn_ctx _ (so_conns _ (server_reachable_ok _ Hre))) as Hd. rewrite Hc in Hd.
  destruct (Hd ltac:(done)) as [Hctx _].
  assert (sv_closer s' = CDone /\ sv_ctxDone s' = true /\ sv_running s' ⊆ sv_running s)
    as (Hc' & _ & Hsub).
  { clear Hre Hd. induction Hrun as [|s s1 s' H1 _ IH]; [done|].
    destruct (running_shrinks _ _ Hctx H1). destruct IH as (? & ? & ?); [by eauto|done|].
    split_and!; [done..|]. by etrans. }
  pose proof (so_conns _ (server_reachable_ok _ (server_reachable_run _ _ Hre Hrun))) as Hok.
  split_and!; [|done|intros k c Hk Hkc; by eapply (cn_closed _ Hok)].
  apply (cn_ctx _ Hok). by rewrite Hc'.
Qed.

(** ** Consumers *)

(** C6: No consumer is left behind: every session registered with a queue is the
    session of a delivery goroutine that has not ended, of a handler that still
    runs, and was subscribed under that identifier to that queue. So when all
    handlers have returned, as at the end of [Start], no queue has a consumer. *)
Theorem consumers_are_served s p r id l :
  server_reachable s -> b_runtimes (en_broker (sv_engine s)) !! p = Some r ->
  consumerSessions r !! id = Some l ->
  (exists k c sub, k ∈ sv_running s /\ sv_conns s !! k = Some c /\ h_sub c = Some sub /\
     sub_session sub = l /\ sub_ID sub = id /\ sub_pc sub <> SDone /\ h_pc c <> HReturned /\
     b_queues (en_broker (sv_engine s)) !! queue_name (sub_queue sub) = Some p) /\
  sv_accept s <> AReturned.
Proof.
  intros Hre Hr Hid. destruct (server_reachable_ok _ Hre) as [Hen Hcn Hsv].
  destruct (Hsv p id l) as (k & c & q & Hk & Hsg & Hq); [by exists r|].
  pose proof (cn_subs _ Hcn k c l id q Hk Hsg) as Hrun. split.
  - destruct Hsg as (sub & H1 & H2 & H3 & <- & H5). exists k, c, sub. split_and!; try done.
    intros Hret. apply (returned_serving c l id (sub_queue sub) (cn_ok _ Hcn k c Hk) Hret). by exists sub.
  - intros Ha. rewrite (cn_returned _ Hcn Ha) in Hrun. set_solver.
Qed.

(** ** Closed connections come to an end *)

Lemma handle_measure now newID req c b c' b' :
  conn_ok c -> h_pc c = HDecode -> handle now newID req c b = Done (c', b') ->
  (conn_measure c' < conn_measure c)%nat.
Proof.
  intros Hc Hpc H. unfold conn_measure. rewrite Hpc. simpl.
  assert ((loop_measure (h_pc c') < 9)%nat /\ sub_measure c' = sub_measure c \/
    loop_measure (h_pc c') = 3%nat /\ (sub_measure c' <= 3)%nat) as Hm; [|lia].
  unfold handle in H. destruct (_ && _); [injection H as <- _; left; simpl; split; [lia|done]|].
  repeat (case_bool_decide; [unfold handle_publish, handle_ack, handle_create_queue,
    handle_delete_queue, handle_list_queues, handle_bind_queue, handle_unbind_queue,
    handle_create_exchange, handle_delete_exchange, handle_list_exchanges, handle_unsubscribe,
    handle_subscribe in H|]); unfold handle_metrics, handle_unknown in H; go_inv H;
    try (left; split; [simpl; lia|done]).
  - left. destruct b0; (split; [simpl; lia|done]).
  - right. split; [done|]. unfold sub_measure. simpl. lia.
  - destruct (close_stop_spec _ _ E0) as (sub & Hs & _ & ->). left. unfold sub_measure. simpl. rewrite Hs.
    split; [lia|done].
Qed.

Definition writes (e : conn_event) : bool :=
  match e with HWrite _ | SWrite _ => true | _ => false end.

(** Every step takes the handler of a closed connection closer to its end; a
    publisher that is woken may have to wait again. *)
Lemma conn_step_measure e c b c' b' :
  conn_ok c -> (if writes e then h_closed c else true) = true ->
  conn_step true e c b = Some (Done (c', b')) ->
  in_publish c && in_publish c' = false -> (conn_measure c' < conn_measure c)%nat.
Proof.
  intros Hc Hcl H Hnp.
  assert (h_closed c = true -> forall w resp, encode w resp c = (false, c)) as Henc.
  { intros Hx w resp. unfold encode. by rewrite Hx. }
  destruct e; simpl in H; unfold loop_step, deliver_step in H.
  8-11: destruct (h_sub c) as [sub|] eqn:Eb; [|done]; destruct (sub_pc sub) as [|d| |] eqn:Ep; try done.
  1-7: destruct (h_pc c) as [| |req p rest|resp leave| | | |] eqn:Ep; try done.
  - injection H as <- _. unfold conn_measure. rewrite Ep. simpl. unfold sub_measure. simpl. lia.
  - destruct (Request_UnmarshalJSON doc) as [req|].
    + injection H as H. by eapply handle_measure.
    + injection H as <- _. unfold conn_measure. rewrite Ep. unfold sub_measure. simpl. lia.
  - injection H as <- _. unfold conn_measure. rewrite Ep. unfold sub_measure. simpl. lia.
  - destruct (b_runtimes b !! p) as [r|]; [|done]. case_bool_decide; [done|].
    injection H as H. go_inv H. unfold in_publish in Hnp. rewrite Ep in Hnp.
    destruct b0; [|done]. unfold conn_measure. rewrite Ep. unfold sub_measure. simpl. lia.
  - rewrite (Henc Hcl) in H. injection H as <- _.
    unfold conn_measure. rewrite Ep. unfold sub_measure. simpl. lia.
  - destruct (sub_done c); [|done]. injection H as <- _. unfold conn_measure. rewrite Ep.
    unfold sub_measure. simpl. lia.
  - destruct (sub_done c); [|done]. injection H as <- _. unfold conn_measure. rewrite Ep.
    unfold sub_measure. simpl. lia.
  - unfold conn_measure. rewrite Ep. destruct (h_stop c); injection H as H.
    + go_inv H. destruct (close_stop_spec _ _ E) as (sub & Hs & _ & ->). unfold sub_measure. simpl.
      rewrite Hs. lia.
    + subst c'. unfold sub_measure. simpl. lia.
  - destruct (session_deliveries _ b); [done|]. injection H as <- _.
    unfold conn_measure, sub_measure. simpl. rewrite Eb, Ep. lia.
  - rewrite (Henc Hcl) in H. injection H as <- _.
    unfold conn_measure, sub_measure. simpl. rewrite Eb, Ep. lia.
  - destruct (sub_stopped sub); [|done]. injection H as <- _.
    unfold conn_measure, sub_measure. simpl. rewrite Eb, Ep. lia.
  - injection H as H. go_inv H. unfold conn_measure, sub_measure. simpl. rewrite Eb, Ep. lia.
Qed.

(** No request is read and no waiting publisher is woken. *)
Definition unasked (e : conn_event) : bool :=
  match e with HRead _ _ _ | HResume _ _ => false | _ => true end.

(** Steps a handler can make without a client: reading and writing come back by
    themselves only on a connection this side has closed. *)
Definition on_its_own (e : conn_event) (c : Conn) : bool :=
  match e with HReadErr | HWrite _ | SWrite _ => h_closed c | _ => unasked e end.

Lemma on_its_own_unasked e c : on_its_own e c = true -> unasked e = true.
Proof. by destruct e. Qed.

Lemma conn_step_progress c b :
  conn_ok c -> h_closed c = true -> h_pc c <> HReturned -> in_publish c = false ->
  exists e r, on_its_own e c = true /\ conn_step true e c b = Some r.
Proof.
  intros Hc Hcl Hr Hnp.
  assert (is_waiting (h_pc c) = true -> sub_done c = false ->
    exists e r, on_its_own e c = true /\ conn_step true e c b = Some r) as Hsub.
  { intros Hw Hd. pose proof (co_waiting _ Hc Hw) as Hs. unfold sub_done in Hd.
    destruct (h_sub c) as [sub|] eqn:Eb; [|done].
    assert (sub_stopped sub = true) as Hst.
    { rewrite (co_stopped _ Hc sub Eb Hs); [done|]. by destruct (h_pc c). }
    destruct (sub_pc sub) as [|d| |] eqn:Ep; [exists SStop|exists (SWrite WErr)|exists SLeave|done];
      unfold conn_step, deliver_step; rewrite Eb, Ep, ?Hst; try by eexists.
    destruct (encode _ _ c). simpl. by eexists. }
  unfold in_publish in Hnp. destruct (h_pc c) eqn:Ep; try done.
  - exists HCheck. eexists. split; [done|]. simpl. by rewrite Ep.
  - exists HReadErr. eexists. split; [done|]. simpl. by rewrite Ep.
  - exists (HWrite WErr). simpl. rewrite Ep. destruct (encode _ _ c). by eexists.
  - destruct (sub_done c) eqn:Ed; [|by apply Hsub]. exists HWaited. simpl. rewrite Ep, Ed. by eexists.
  - exists HLeave. simpl. rewrite Ep. destruct (h_stop c); by eexists.
  - destruct (sub_done c) eqn:Ed; [|by apply Hsub]. exists HWaited. simpl. rewrite Ep, Ed. by eexists.
Qed.

Lemma conn_measure_bound c : (conn_measure c <= 12)%nat.
Proof.
  unfold conn_measure, sub_measure. destruct (h_pc c), (h_sub c) as [sub|]; simpl; try lia;
    destruct (sub_pc sub); lia.
Qed.

(** C33: After the shutdown the handlers come to an end. Of a connection that is
    closed every step brings the handler and its delivery goroutine closer to
    their return, by a measure of at most twelve, whatever requests are still
    buffered, unless a publisher is woken and has to wait again; and as long as
    the handler has not returned and does not wait in [Publish], it has a step to
    make that no client can withhold. *)
Theorem closed_handlers_terminate s k c :
  server_reachable s -> sv_closer s = CDone -> k ∈ sv_running s -> sv_conns s !! k = Some c ->
  (conn_measure c <= 12)%nat /\
  (forall e c' b', conn_step (sv_ctxDone s) e c (en_broker (sv_engine s)) = Some (Done (c', b')) ->
     in_publish c && in_publish c' = false -> (conn_measure c' < conn_measure c)%nat) /\
  (h_pc c <> HReturned -> in_publish c = false -> exists e r, on_its_own e c = true /\
     conn_step (sv_ctxDone s) e c (en_broker (sv_engine s)) = Some r).
Proof.
  intros Hre Hc Hk Hkc. destruct (server_reachable_ok _ Hre) as [Hen Hcn _].
  destruct (cn_ctx _ Hcn) as [Hd _]; [by rewrite Hc|]. rewrite Hd.
  pose proof (cn_ok _ Hcn k c Hkc) as Hok. split_and!.
  - apply conn_measure_bound.
  - intros e c' b'. apply conn_step_measure; [done|].
    by destruct (writes e); [apply (cn_closed _ Hcn k c)|].
  - intros Hr Hp. apply conn_step_progress; [done|by apply (cn_closed _ Hcn k c)|done|done].
Qed.

End ServerTheorems.
