(* ===== verification/ServerRuns.v ===== *)
(** The server on concrete runs: scripts of events whose side conditions are
    computed, the theorems of [ServerTheorems.v] at such runs, and executions
    that show where the code falls short. *)

From stdpp Require Import pretty.
From S2P Require Import Prelude GoStrings Model RingBuffer Inflight Exchange Wal QueueRuntime.
From S2P Require Import System QueueSpec QueueInv RoundRobin QueueRefine QueueDeliver.
From S2P Require Import Redelivery SystemInv QueueCases Broker Topology BrokerInv Recovery.
From S2P Require Import BrokerTheorems Frame Engine EngineInv EngineCalls EngineTheorems.
From S2P Require Import Utf8 Rfc3339 Protocol Handler HandlerInv Consumers TcpServer ServerInv.
From S2P Require Import ServerTheorems.

Abbreviation CS := (Server FileWAL).

(** ** Scripts *)

(** Identifiers from the [n]th on. *)
Definition ids_from (n i : nat) : string := demo_id (n + i).

(** An event, or a request that a handler reads, with the number of identifiers
    drawn before it. *)
Inductive script_item :=
| Ev (e : server_event)
| Req (k : nat) (req : Request) (n : nat).

Definition item_doc (req : Request) : json :=
  match Request_MarshalJSON req with Some doc => doc | None => JObj [] end.

Definition item_event (i : script_item) : server_event :=
  match i with
  | Ev e => e
  | Req k req n => TConn k (HRead (item_doc req) (fun _ => 10) (ids_from n))
  end.

Definition request_envb (n : nat) (req : Request) (b : InMemoryBroker FileWAL) : bool :=
  bool_decide (ID (q_Payload req) = "") &&
  bool_decide (map_Forall (fun _ r => Forall (fun id => id ∈ demo_id <$> seq 0 n) (ID <$> live r))
    (b_runtimes b)) &&
  match DeleteQueue (q_Queue req) b with Done (err, _) => negb (storage_error err) | _ => true end &&
  negb (storage_error (BindQueue (q_Exchange req) (q_Queue req) (q_BindingKey req) b).1) &&
  negb (storage_error (UnbindQueue (q_Exchange req) (q_Queue req) (q_BindingKey req) b).1) &&
  bool_decide (map_Forall (fun _ r => Z.of_nat (length (consumerOrder r)) < max_int) (b_runtimes b)).

Definition item_ok (i : script_item) (s : CS) : bool :=
  match i with
  | Req k req n =>
      match Request_UnmarshalJSON (item_doc req) with
      | Some req => request_envb n req (en_broker (sv_engine s))
      | None => true
      end
  | Ev (TConn k e) => unasked e
  | Ev (TQueue p e) => queue_step_okb p e (sv_engine s)
  | Ev _ => true
  end.

(** Running a script; [None] when an event is not enabled or not allowed. *)
Fixpoint sv_script (items : list script_item) (s : CS) : option CS :=
  match items with
  | [] => Some s
  | i :: items =>
      if item_ok i s then
        match server_step (item_event i) s with
        | Some (Done s) => sv_script items s
        | _ => None
        end
      else None
  end.

Lemma ids_from_fresh n (b : InMemoryBroker FileWAL) :
  map_Forall (fun _ r => Forall (fun id => id ∈ demo_id <$> seq 0 n) (ID <$> live r)) (b_runtimes b) ->
  fresh_from 0 (ids_from n) b.
Proof.
  intros Hb. assert (Inj (=) (=) demo_id) as Hinj.
  { intros j k Hjk. by apply (inj (String.app _)), (inj pretty) in Hjk. }
  split_and!; [done|intros j k Hjk%Hinj; lia|]. intros j p r _ Hr Hin.
  specialize (Hb p r Hr). rewrite Forall_forall in Hb. specialize (Hb _ Hin).
  apply list_elem_of_fmap in Hb as (i & Hi%Hinj & Hs%elem_of_seq). lia.
Qed.

Lemma request_envb_ok n req b : request_envb n req b = true -> request_env (ids_from n) req b.
Proof.
  unfold request_envb, request_env. rewrite !andb_true_iff, !negb_true_iff, !bool_decide_eq_true.
  intros (((((H1 & H2) & H3) & H4) & H5) & H6). split_and!; auto using ids_from_fresh.
  intros err b' Hd. rewrite Hd in H3. by apply negb_true_iff.
Qed.

Lemma unasked_env e c (b : InMemoryBroker FileWAL) : unasked e = true -> conn_env e c b.
Proof. by destruct e. Qed.

Lemma item_ok_env i s : item_ok i s = true -> server_env (item_event i) s.
Proof.
  destruct i as [e|k req n]; simpl.
  - destruct e; try done; simpl; intros H.
    + intros c _. by apply unasked_env.
    + intros r Hr. unfold queue_step_okb in H. rewrite Hr in H. apply andb_true_iff in H as [H1 H2].
      split; [by apply env_okb_ok|by apply quiet_cancelb_ok].
  - intros H c _. simpl. intros req' Hr. rewrite Hr in H. by apply request_envb_ok.
Qed.

Lemma sv_script_runs items s s' : sv_script items s = Some s' -> rtc sv_step s s'.
Proof.
  revert s. induction items as [|i items IH]; intros s H; simpl in H; [by injection H as <-|].
  destruct (item_ok i s) eqn:Ei; [|done]. destruct (server_step _ s) as [[s1| |]|] eqn:Es; try done.
  eapply rtc_l; [|by apply IH]. by eapply sv_event; [apply item_ok_env|].
Qed.

(** ** Runs *)

Definition after_script (items : list script_item) (s : CS) : CS := default s (sv_script items s).

Lemma after_script_runs items s :
  bool_decide (is_Some (sv_script items s)) = true -> rtc sv_step s (after_script items s).
Proof.
  intros [s' Hs]%bool_decide_eq_true. unfold after_script. rewrite Hs. by apply (sv_script_runs items).
Qed.

(** A started server with an empty log. *)
Definition server0 : CS := New engine1.

Lemma server0_run items :
  bool_decide (is_Some (sv_script items server0)) = true -> server_reachable (after_script items server0).
Proof. intros H. exists engine0. split; [apply engine0_fresh|]. by apply after_script_runs. Qed.

Definition demo_request (t queue id : string) (m : Message) : Request :=
  mkRequest id t queue m 0 "" "default" "" "default" "" CurrentVersion.

(** A connection is accepted. *)
Definition connect (k : nat) : list script_item := Ev <$> [TAccept k; TTrack; TCheck; TConn k HCheck].

(** Connection [0] has subscribed to the default queue. *)
Definition subscribed_script : list script_item :=
  connect 0 ++ [Req 0 (demo_request SubscribeRequest "default" "c1" zeroMessage) 0; Ev (TConn 0 HCheck)].
Definition server_subscribed : CS := after_script subscribed_script server0.

Lemma server_subscribed_reachable : server_reachable server_subscribed.
Proof. apply server0_run. vm_compute. reflexivity. Qed.

(** Then the process is told to stop. *)
Definition closing_script : list script_item :=
  subscribed_script ++ (Ev <$> [TCancel; TCloseListener; TCloseConns]).
Definition server_closing : CS := after_script closing_script server0.

Lemma server_closing_reachable : server_reachable server_closing.
Proof. apply server0_run. vm_compute. reflexivity. Qed.

Definition closing_conn : Conn := default new_conn (sv_conns server_closing !! 0%nat).

Lemma server_refines_engine_witness : reachable (sv_engine server_closing).
Proof. apply (server_refines_engine server_closing server_closing_reachable). Defined.

Lemma shutdown_misses_no_connection_witness :
  sv_listening server_closing = false /\ h_closed closing_conn = true.
Proof.
  destruct (shutdown_misses_no_connection server_closing server_closing server_closing_reachable)
    as (H1 & _ & H3); [vm_compute; reflexivity|apply rtc_refl|].
  split; [exact H1|]. apply (H3 0%nat); [|vm_compute; reflexivity].
  apply (bool_decide_unpack _). vm_compute. exact I.
Defined.

Definition subscribed_runtime : QueueRuntime RingBufferQueue :=
  default runtime6 (b_runtimes (en_broker (sv_engine server_subscribed)) !! 0%nat).

Lemma consumers_are_served_witness : sv_accept server_subscribed <> AReturned.
Proof.
  apply (consumers_are_served server_subscribed 0 subscribed_runtime "c1" 0 server_subscribed_reachable);
    vm_compute; reflexivity.
Defined.

Lemma closed_handlers_terminate_witness :
  (conn_measure closing_conn <= 12)%nat /\ exists e r, on_its_own e closing_conn = true /\
    conn_step (sv_ctxDone server_closing) e closing_conn (en_broker (sv_engine server_closing)) = Some r.
Proof.
  destruct (closed_handlers_terminate server_closing 0 closing_conn server_closing_reachable)
    as (H1 & _ & H3).
  - vm_compute. reflexivity.
  - apply (bool_decide_unpack _). vm_compute. exact I.
  - vm_compute. reflexivity.
  - split; [exact H1|]. apply H3; [vm_compute; discriminate|vm_compute; reflexivity].
Defined.

(** ** A publisher that waits keeps the server from stopping *)

Definition publish_item (n : nat) : list script_item :=
  [Req 0 (demo_request PublishRequest "" "" (mkMessage "" "x" 0 0 None)) n].
Definition answered : list script_item := Ev <$> [TConn 0 (HWrite WOk); TConn 0 HCheck].

(** Twenty messages fill the queue; the twenty-first publication waits. *)
Definition full_script : list script_item :=
  connect 0 ++ mjoin ((fun n => publish_item n ++ answered) <$> seq 0 20) ++ publish_item 20.

(** Then the process is told to stop: the goroutines of the queue end with the
    context, the listener and the connection are closed. *)
Definition hanging_script : list script_item :=
  full_script ++ (Ev <$> [TCancel; TQueue 0 DCheck; TQueue 0 DCtxDone; TQueue 0 RCtxDone;
    TQueue 0 XCtxDone; TCloseListener; TCloseConns; TAcceptClosed]).
Definition server_hanging : CS := after_script hanging_script server0.

Lemma server_hanging_reachable : server_reachable server_hanging.
Proof. apply server0_run. vm_compute. reflexivity. Qed.

(** A handler in [Publish] with no delivery goroutine moves only when woken. *)
Lemma publisher_waits ctx e c (b : InMemoryBroker FileWAL) req p rest r :
  h_pc c = HPublish req p rest -> h_sub c = None -> b_runtimes b !! p = Some r ->
  woken (condProd r) = 0%nat -> conn_step ctx e c b = None.
Proof.
  intros Hp Hs Hr Hw. destruct e; simpl; unfold deliver_step; rewrite ?Hp, ?Hs; try done.
  by rewrite Hr, Hw.
Qed.

Lemma stopped_queue_waits p e (en : CE) ps :
  en_procs en !! p = Some ps -> pr_dist ps = DStopped -> pr_redel ps = WStopped ->
  pr_expiry ps = WStopped -> queue_step p e en = None.
Proof.
  intros Hp Hd Hr Hx. unfold queue_step. destruct (is_call e) eqn:Ec; [done|]. simpl.
  destruct (negb _); [done|]. destruct (b_runtimes _ !! p) as [r|]; [|done].
  unfold view, procs_of. rewrite Hp. simpl. rewrite Hd, Hr, Hx. by destruct e.
Qed.

Definition hanging_conn : Conn := default new_conn (sv_conns server_hanging !! 0%nat).

Lemma hanging_step e r :
  server_step e server_hanging = Some r -> r = Done server_hanging.
Proof.
  assert (sv_conns server_hanging = {[0%nat := hanging_conn]}) as Hc by by vm_compute.
  assert (en_procs (sv_engine server_hanging) = {[0%nat := mkProcs DStopped WStopped WStopped]}) as Hp
    by by vm_compute.
  assert (b_running (en_broker (sv_engine server_hanging)) = {[0%nat]}) as Hr by by vm_compute.
  assert (sv_accept server_hanging = AWait) as Ha by by vm_compute.
  assert (sv_closer server_hanging = CDone) as Hcl by by vm_compute.
  assert (bool_decide (sv_running server_hanging = ∅) = false) as Hru by by vm_compute.
  assert (set_broker (cancel_context (en_broker (sv_engine server_hanging))) (sv_engine server_hanging)
    = sv_engine server_hanging) as Hen by by vm_compute.
  assert (sv_ctxDone server_hanging = true) as Hd by by vm_compute.
  assert (exists req r, h_pc hanging_conn = HPublish req 0 [] /\ h_sub hanging_conn = None /\
    b_runtimes (en_broker (sv_engine server_hanging)) !! 0%nat = Some r /\ woken (condProd r) = 0%nat)
    as (req & r0 & Hpc & Hsub & Hr0 & Hw) by (eexists _, _; split_and!; vm_compute; reflexivity).
  generalize dependent hanging_conn. generalize dependent server_hanging.
  intros s Hp Hr Ha Hcl Hru Hen Hd Hr0 c Hc Hpc Hsub.
  destruct e; unfold server_step, accept_step, closer_step; rewrite ?Ha, ?Hcl, ?Hru; try done.
  - intros [= <-]. rewrite Hen. destruct s. simpl in *. congruence.
  - unfold handler_step. rewrite Hc. destruct (decide (k = 0%nat)) as [->|Hk].
    + rewrite lookup_singleton_eq. destruct (bool_decide (0%nat ∈ _)); [|done].
      by erewrite publisher_waits.
    + by rewrite lookup_singleton_ne.
  - unfold finish_step. rewrite Hc. destruct (decide (k = 0%nat)) as [->|Hk].
    + by rewrite lookup_singleton_eq, Hpc.
    + by rewrite lookup_singleton_ne.
  - destruct (decide (p = 0%nat)) as [->|Hne].
    + erewrite stopped_queue_waits; [done|by rewrite Hp, lookup_singleton_eq|done..].
    + unfold queue_step. rewrite Hr, (bool_decide_false (p ∈ _)) by set_solver.
      destruct (is_call e); simpl; done.
Qed.

(** C35: A publisher that waits for room keeps the server from stopping. With a
    full queue and one client in [Publish], the end of the context ends the
    goroutines of the queue and closes all connections, but nothing wakes the
    publisher: [Shutdown], which would, is called only after [Start] has waited
    for the handler. From there no goroutine can make a step that changes
    anything: the process does not stop. *)
Theorem waiting_publisher_blocks_shutdown :
  server_reachable server_hanging /\ sv_ctxDone server_hanging = true /\
  sv_closer server_hanging = CDone /\ sv_accept server_hanging = AWait /\
  sv_running server_hanging = {[0%nat]} /\
  (forall s', rtc sv_step server_hanging s' -> s' = server_hanging) /\
  runServer_stop server_hanging = None.
Proof.
  split; [apply server_hanging_reachable|]. do 4 (split; [by vm_compute|]). split; [|by vm_compute].
  intros s' Hrun. pose proof hanging_step as Hstep. generalize dependent server_hanging.
  intros s Hrun Hstep. induction Hrun as [|s s1 s' [e _ H] _ IH]; [done|].
  pose proof (Hstep _ _ H) as [= ->]. by apply IH.
Qed.

(** ** Session identifiers are the clients' *)

(** Two connections subscribe under one identifier; the second is told nothing,
    its session is not registered, and when it disconnects it unregisters the
    first, whose goroutine goes on waiting. *)
Definition same_id_script : list script_item :=
  subscribed_script ++ connect 1 ++
  [Req 1 (demo_request SubscribeRequest "default" "c1" zeroMessage) 0; Ev (TConn 1 HCheck)] ++
  (Ev <$> [TConn 1 HReadErr; TConn 1 HLeave; TConn 1 SStop; TConn 1 SLeave; TConn 1 HWaited; TFinish 1]).
Definition server_same_id : CS := after_script same_id_script server0.

Definition consumers_of (p : nat) (s : CS) : list string :=
  match b_runtimes (en_broker (sv_engine s)) !! p with Some r => consumerOrder r | None => [] end.
Definition conn_of (k : nat) (s : CS) : Conn := default new_conn (sv_conns s !! k).

Example same_id_unsubscribes_the_other :
  bool_decide (is_Some (sv_script same_id_script server0)) = true /\
  consumers_of 0 server_subscribed = ["c1"] /\ consumers_of 0 server_same_id = [] /\
  h_out (conn_of 1 server_same_id) = [] /\ h_out (conn_of 0 server_same_id) = [] /\
  h_pc (conn_of 0 server_same_id) = HDecode /\ sub_pc <$> h_sub (conn_of 0 server_same_id) = Some SSelect.
Proof. vm_compute. repeat split. Qed.

(** A subscription outlives its queue: after the queue is deleted the connection
    is no consumer of anything, is not told, and cannot subscribe again. *)
Definition deleted_queue_script : list script_item :=
  connect 0 ++ [Req 0 (demo_request CreateQueueRequest "orders" "" zeroMessage) 0] ++ answered ++
  [Req 0 (demo_request SubscribeRequest "orders" "c1" zeroMessage) 0; Ev (TConn 0 HCheck);
   Req 0 (demo_request DeleteQueueRequest "orders" "" zeroMessage) 0] ++ answered ++
  [Req 0 (demo_request SubscribeRequest "default" "c1" zeroMessage) 0] ++ answered.
Definition server_deleted : CS := after_script deleted_queue_script server0.

Example subscription_outlives_queue :
  bool_decide (is_Some (sv_script deleted_queue_script server0)) = true /\
  (fun r => (p_Success r, p_Error r)) <$> h_out (conn_of 0 server_deleted) =
    [(true, ""); (true, ""); (false, "Already subscribed")] /\
  consumers_of 0 server_deleted = [] /\ consumers_of 1 server_deleted = [].
Proof. vm_compute. repeat split. Qed.
