(* ===== verification/ServerSpec.v ===== *)
(** What the TCP server promises to its clients, as a service without
    connections, goroutines, channels, locks and a shutdown: a client has at most
    one request and at most one delivery under way, every request is the call of
    the broker that the protocol's table names for it, with the fields of the
    request as arguments, and is answered with what that call returned. The
    server implements this service, for any clients and any log. *)

From S2P Require Import Prelude GoStrings Model RingBuffer Inflight Exchange Wal QueueRuntime.
From S2P Require Import System QueueSpec QueueInv RoundRobin QueueRefine QueueDeliver.
From S2P Require Import Redelivery SystemInv QueueCases Broker Topology BrokerInv Recovery.
From S2P Require Import BrokerTheorems Frame Engine EngineInv EngineCalls EngineTheorems.
From S2P Require Import Utf8 Rfc3339 Protocol Handler HandlerInv Consumers TcpServer ServerInv.
From S2P Require Import ServerTheorems ServerRuns.

(** ** The protocol *)







(** ** The service *)

(** A client's requests: none under way, one to be answered (and the client left
    afterwards), a publication that waits, an unsubscription that waits for the
    consumer to leave; or the client is gone. *)
Inductive mode :=
| Idle
| Answering (r : Response) (last : bool)
| Publishing (m : Message) (ttl : Z) (p : nat) (rest : list string)
| Unsubscribing
| Gone.

(** A client's deliveries: it has no subscription; it is the consumer [id] of
    [queue] with the session at [l], waiting for a delivery, with a delivery to
    send, or about to leave the queue; or its consumer has left. *)
Inductive subscription :=
| NoConsumer
| Consuming (l : nat) (id queue : string)
| Sending (l : nat) (id queue : string) (d : Delivery)
| Leaving (l : nat) (id queue : string)
| Ended.

(** A client as the service knows it: its requests, its deliveries, and what it
    was sent. *)
Record Peer := mkPeer {
  cl_mode : mode;
  cl_sub : subscription;
  cl_out : list Response;
}.




Record Service {W : Type} := mkService {
  svc_engine : Engine W;
  svc_clients : gmap nat Peer;
}.
Arguments Service W : clear implicits.
Arguments mkService {W}.

Section Spec.
Context {W : Type} `{!WAL W} {Hrange : MapRange} {Htime : TimeText}.
Abbreviation BR := (InMemoryBroker W).
Abbreviation SV := (Server W).
Abbreviation SP := (Service W).








(** ** The server as a service *)






(** ** The server implements the service *)
















End Spec.

(** ** A run *)





