(* ===== verification/ServerSafety.v ===== *)
(** What the server promises whatever happens: no request, no reply of the log,
    no order of events makes it panic, it stops when it is told to unless a
    publisher waits, and so do the goroutines of the queues. Nothing is assumed
    of clients (they may choose identifiers, send anything and break off), of the
    log (it may fail in any call and keep what it said it did not write), and of
    the goroutines of the queues (a reservation may be cancelled at any time);
    only that [QueueSize] is positive and that no queue has [2^63 - 1] consumers
    or starts with more messages. *)

From S2P Require Import Prelude GoStrings Model RingBuffer Inflight Exchange Wal QueueRuntime.
From S2P Require Import System QueueSpec QueueInv RoundRobin QueueRefine QueueDeliver.
From S2P Require Import Redelivery SystemInv QueueCases Broker Topology BrokerInv Recovery.
From S2P Require Import BrokerTheorems Frame Engine Steady EngineInv EngineCalls.
From S2P Require Import EngineTheorems Drain.
From S2P Require Import Utf8 Rfc3339 Protocol Handler HandlerInv Consumers TcpServer ServerInv.
From S2P Require Import ServerTheorems ServerRuns ServerSpec.

Section Safety.
Context {W : Type} `{!WAL W} {Hrange : MapRange} {Htime : TimeText}.
Abbreviation SV := (Server W).
Implicit Types (s : SV) (b : InMemoryBroker W) (en : Engine W) (c : Conn).

(** A step of any goroutine, with any input; there is room for a consumer more
    in every queue. *)
Inductive free_step s s' : Prop :=
| free_event e : room (en_broker (sv_engine s)) -> server_step e s = Some (Done s') -> free_step s s'.

(** The engine [runServer] starts: what [NewBroker] makes of any log that has no
    more than [2^63 - 1] messages pending in a queue, started. *)
Definition free_start en : Prop :=
  exists cfg w sessions b, 0 < QueueSize cfg <= max_int /\
    map_Forall (fun _ cs => session_ok cs) sessions /\
    (forall st, Load w = inl st ->
       map_Forall (fun _ msgs => Z.of_nat (length msgs) <= max_int) (PendingMessages st)) /\
    NewBroker cfg w sessions = Done (Some b, None) /\ en = mkEngine (Broker_Start b) ∅.

(** A server that some run leads to. *)
Definition free_reachable s : Prop := exists en, free_start en /\ rtc free_step (New en) s.

Record free_ok s : Prop := {
  fo_steady : steady (true, false) (en_broker (sv_engine s));
  fo_conns : conns_ok s;
}.

(** ** No panic *)

Abbreviation calm_broker := (steady (true, false)).

Lemma close_stop_safe c :
  conn_ok c -> h_stop c = true -> is_waiting (h_pc c) = false -> is_returned (h_pc c) = false ->
  exists c', close_stop c = Done c'.
Proof.
  intros Hc Hs Hw Hr. unfold close_stop. destruct (co_started _ Hc Hs) as [sub Eb]. rewrite Eb.
  rewrite (co_stopped _ Hc sub Eb Hs Hr), Hw. by eexists.
Qed.

(** A call that returns, and what the handler makes of its result. *)
Lemma then_safe {A} (m : GoM (A * InMemoryBroker W)) (f : A -> InMemoryBroker W -> Conn) :
  (exists x b', m = Done (x, b') /\ calm_broker b') ->
  exists c' b', (let! (x, b) := m in Done (f x b, b)) = Done (c', b') /\ calm_broker b'.
Proof. intros (x & b' & -> & Hb). by eexists _, _. Qed.

Lemma handle_safe now newID req c b :
  conn_ok c -> h_pc c = HDecode -> calm_broker b -> room b ->
  exists c' b', handle now newID req c b = Done (c', b') /\ calm_broker b'.
Proof.
  intros Hc Hpc Hb Hroom. unfold handle. destruct (_ && _); [by eexists _, _|].
  repeat (case_bool_decide; [idtac|]).
  all: unfold handle_publish, handle_metrics, handle_create_queue, handle_delete_queue, handle_list_queues,
    handle_bind_queue, handle_unbind_queue, handle_create_exchange, handle_delete_exchange,
    handle_list_exchanges, handle_unknown; try by eexists _, _.
  - apply then_safe. by apply Broker_Publish_safe.
  - unfold handle_ack. destruct (Broker_Ack_safe _ (q_AckToken req) b Hb) as ([e|] & b' & -> & Hb'); by eexists _, _.
  - case_bool_decide.
    + destruct (QueueMetrics_safe _ (q_Queue req) b Hb) as [[] ->]. by eexists _, _.
    + destruct (Broker_Metrics_safe _ b Hb) as [m ->]. by eexists _, _.
  - unfold handle_subscribe. destruct (h_stop c); [by eexists _, _|]. cbv zeta.
    destruct (Broker_Subscribe_safe _ (q_Queue req) (new_ptr (w_sessions (b_world b))) (q_ID req) b Hb Hroom
      (new_ptr_fresh _)) as ([e|] & b' & -> & Hb'); by eexists _, _.
  - unfold handle_unsubscribe. destruct (h_stop c) eqn:Es; [|by eexists _, _].
    destruct (close_stop_safe c Hc Es) as [c' ->]; rewrite ?Hpc; try done. by eexists _, _.
  - apply then_safe. by apply CreateQueue_safe.
  - apply then_safe. by apply DeleteQueue_safe.
  - destruct (BindQueue _ _ _ b) as [e b'] eqn:E. apply BindQueue_aside in E. eexists _, _. split; [done|]. by eapply aside_steady.
  - destruct (UnbindQueue _ _ _ b) as [e b'] eqn:E. apply UnbindQueue_aside in E. eexists _, _. split; [done|]. by eapply aside_steady.
  - destruct (CreateExchange _ _ b) as [e b'] eqn:E. apply CreateExchange_aside in E. eexists _, _. split; [done|]. by eapply aside_steady.
  - destruct (DeleteExchange _ b) as [e b'] eqn:E. apply DeleteExchange_aside in E. eexists _, _. split; [done|]. by eapply aside_steady.
Qed.

Lemma conn_step_safe ctx e c b r :
  conn_ok c -> calm_broker b -> (unasked e = false -> room b) -> conn_step ctx e c b = Some r ->
  exists c' b', r = Done (c', b') /\ calm_broker b'.
Proof.
  intros Hc Hb Hroom H. destruct e; simpl in H; unfold loop_step, deliver_step in H.
  8-11: destruct (h_sub c) as [sub|]; [|done]; destruct (sub_pc sub) as [|d| |]; try done.
  1-7: destruct (h_pc c) as [| |req p rest|resp leave| | | |] eqn:Ep; try done.
  - injection H as <-. by eexists _, _.
  - injection H as <-. destruct (Request_UnmarshalJSON doc) as [req|]; [|by eexists _, _].
    apply handle_safe; auto.
  - injection H as <-. by eexists _, _.
  - destruct (b_runtimes b !! p) as [x|] eqn:Ex; [|done]. case_bool_decide; [done|]. injection H as <-.
    apply then_safe, Broker_Publish_resume_safe; [done|by eexists].
  - destruct (encode w resp c). injection H as <-. by eexists _, _.
  - destruct (sub_done c); [|done]. injection H as <-. by eexists _, _.
  - destruct (sub_done c); [|done]. injection H as <-. by eexists _, _.
  - destruct (h_stop c) eqn:Es; injection H as <-; [|by eexists _, _].
    destruct (close_stop_safe c Hc Es) as [c' ->]; rewrite ?Ep; try done. by eexists _, _.
  - destruct (session_deliveries _ _); [done|]. injection H as <-. eexists _, _. split; [done|]. by apply receive_steady.
  - destruct (encode w _ c). injection H as <-. by eexists _, _.
  - destruct (sub_stopped sub); [|done]. injection H as <-. by eexists _, _.
  - injection H as <-. destruct (Broker_Unsubscribe_safe _ (sub_queue sub) (sub_ID sub) b Hb) as (b' & -> & Hb').
    by eexists _, _.
Qed.

(** The events in which no client takes part: the accept loop without a new
    connection, the goroutine that waits for the context, the handlers by
    themselves. *)
Definition own (e : server_event) s : bool :=
  match e with
  | TAccept _ | TAcceptErr | TCancel | TQueue _ _ => false
  | TConn k e => match sv_conns s !! k with Some c => on_its_own e c | None => false end
  | _ => true
  end.

Lemma server_step_safe e s r :
  free_ok s -> (own e s = false -> room (en_broker (sv_engine s))) -> server_step e s = Some r ->
  exists s', r = Done s' /\ free_ok s'.
Proof.
  intros [Hb Hcn] Hroom H.
  assert (exists s', r = Done s' /\ calm_broker (en_broker (sv_engine s'))) as (s' & -> & Hb').
  { destruct e; unfold server_step in H; try (apply fmap_Some in H as (x & Hx & ->); eexists; split; [done|]).
    1-6: unfold accept_step in Hx; destruct (sv_accept s); try done; repeat case_match; by simplify_eq/=.
    - injection Hx as <-. simpl. by apply cancel_steady.
    - unfold closer_step in Hx. destruct (sv_closer s), (sv_ctxDone s); by simplify_eq/=.
    - unfold closer_step in Hx. destruct (sv_closer s); by simplify_eq/=.
    - unfold handler_step in H. destruct (sv_conns s !! k) as [c|] eqn:Ek; [|done].
      case_bool_decide; [|done]. destruct (conn_step _ _ c _) as [x|] eqn:Ec; [|done]. injection H as <-.
      assert (unasked e = false -> room (en_broker (sv_engine s))) as Hroom'
        by (intros Hu; apply Hroom; simpl; rewrite Ek; by destruct e).
      destruct (conn_step_safe _ _ _ _ _ (cn_ok _ Hcn k c Ek) Hb Hroom' Ec) as (c' & b' & -> & Hb'). by eexists.
    - unfold finish_step in Hx. repeat case_match; by simplify_eq/=.
    - destruct (queue_step p e _) as [x|] eqn:Eq; [|done]. injection H as <-.
      destruct (queue_step_safe _ _ _ _ _ Hb Eq) as (en' & -> & Hb'). by eexists. }
  exists s'. split; [done|]. split; [done|]. by eapply server_step_conns_ok.
Qed.

Lemma free_step_ok s s' : free_ok s -> free_step s s' -> free_ok s'.
Proof.
  intros Hok [e Hroom H]. destruct (server_step_safe e s _ Hok (fun _ => Hroom) H) as (s1 & [= <-] & Hok'). done.
Qed.

Lemma free_run_ok s s' : free_ok s -> rtc free_step s s' -> free_ok s'.
Proof. intros Hok Hr. induction Hr; eauto using free_step_ok. Qed.

Lemma free_reachable_ok s : free_reachable s -> free_ok s.
Proof.
  intros (en & (cfg & w & sessions & b & Hcfg & Hses & Hsm & Hnew & ->) & Hrun).
  eapply free_run_ok; [|exact Hrun]. split; [|apply New_conns_ok]. simpl. apply start_steady.
  by eapply NewBroker_safe.
Qed.

(** C5: The server never panics and no loop of its code runs forever, whatever
    its clients, its log and the order of events do: every step that some
    goroutine of a running server can make (a call of the broker being one step,
    up to where it waits) returns, from a decoded request
    (valid or not, with identifiers of the client's choice, whatever the log
    answers) with all the broker does for it, to a round of a queue's worker,
    also one that cancels a reservation whose token is gone or whose queue is
    full. In particular no stop channel and no session is closed twice. The
    conditions: [QueueSize] is positive, the log has at most [2^63 - 1] messages
    pending per queue at the start, and no queue has [2^63 - 1] consumers. *)
Theorem server_never_panics s e r :
  free_reachable s -> room (en_broker (sv_engine s)) -> server_step e s = Some r ->
  exists s', r = Done s'.
Proof.
  intros Hre Hroom H. destruct (server_step_safe e s r (free_reachable_ok _ Hre) (fun _ => Hroom) H) as (s' & -> & _). by exists s'.
Qed.

(** ** The queues stop *)

(** C9: [Shutdown] comes back from [wg.Wait] (calls of connections meanwhile are
    not considered: [runServer] calls it when no handler runs any more). Called at any moment of any run of
    the server (any clients, any log, any order of events; the conditions of the
    runs are a positive [QueueSize] and fewer than [2^63 - 1] pending messages
    and consumers per queue), its part before [wg.Wait] returns. After any number
    of steps of the goroutines of the queues from there on, in any order,
    whatever deliveries the distributors still hold and whatever the log answers,
    (1) the steps made and a number that is at most seven per started queue at
    the start together do not exceed that bound; (2) every further step returns
    without a panic and lowers the number; (3) when no goroutine can make a step,
    all three of every started queue have ended, so [wg] is at zero. *)
Theorem shutdown_drains s :
  free_reachable s ->
  exists b', Broker_Shutdown (en_broker (sv_engine s)) = Done b' /\
    forall n en', nsteps wait_step n (set_broker b' (sv_engine s)) en' ->
      (n + drain_left en' <= 7 * size (b_running b'))%nat /\
      (forall p e r, queue_step p e en' = Some r ->
         exists en2, r = Done en2 /\ (drain_left en2 < drain_left en')%nat) /\
      ((forall p e, queue_step p e en' = None) -> drained en').
Proof. intros Hre. apply steady_drains. apply (fo_steady _ (free_reachable_ok _ Hre)). Qed.

(** ** The server stops *)

Lemma unasked_publish e c b c' b' :
  unasked e = true -> in_publish c = false -> conn_step true e c b = Some (Done (c', b')) ->
  in_publish c' = false.
Proof.
  unfold in_publish. intros He Hp H. destruct e; try done; simpl in H; unfold loop_step, deliver_step in H.
  6-9: destruct (h_sub c) as [sub|]; [|done]; destruct (sub_pc sub); try done.
  1-5: destruct (h_pc c) eqn:Ep; try done.
  - by injection H as <- _.
  - by injection H as <- _.
  - destruct (encode w resp c) as [ok c1]. injection H as <- _. simpl. by destruct (_ && _).
  - destruct (sub_done c); [|done]. by injection H as <- _.
  - destruct (sub_done c); [|done]. by injection H as <- _.
  - destruct (h_stop c); injection H as H; [by go_inv H|by subst c'].
  - destruct (session_deliveries _ b); [done|]. by injection H as <- _.
  - destruct (encode w _ c) as [ok c1] eqn:E. injection H as <- _. simpl.
    by destruct (encode_spec _ _ _ _ _ E) as (-> & _).
  - destruct (sub_stopped sub); [|done]. by injection H as <- _.
  - injection H as H. by go_inv H.
Qed.

(** No handler waits in [Publish]. *)
Definition calm s : Prop :=
  forall k c, k ∈ sv_running s -> sv_conns s !! k = Some c -> in_publish c = false.

Inductive own_step s s' : Prop :=
| own_event e : own e s = true -> server_step e s = Some (Done s') -> own_step s s'.

Lemma own_step_ok s s' : free_ok s -> own_step s s' -> free_ok s'.
Proof.
  intros Hok [e He H]. assert (own e s = false -> room (en_broker (sv_engine s))) as Hroom by by rewrite He.
  by destruct (server_step_safe e s _ Hok Hroom H) as (s1 & [= <-] & Hok').
Qed.

Lemma own_run_ok s s' : free_ok s -> rtc own_step s s' -> free_ok s'.
Proof. intros Hok Hr. induction Hr; eauto using own_step_ok. Qed.

(** What is left to do. *)
Definition closer_left (pc : CloserPC) : nat :=
  match pc with CWait => 2 | CListenerClosed => 1 | CDone => 0 end.

Definition accept_left (pc : AcceptPC) : nat :=
  match pc with AAccepted _ => 4 | ATracked _ => 3 | AAccept => 2 | AWait => 1 | AReturned => 0 end.

Definition handler_left s (k : nat) : nat :=
  match sv_conns s !! k with Some c => S (conn_measure c) | None => 0 end.

Definition stop_left s : nat :=
  closer_left (sv_closer s) + accept_left (sv_accept s) +
  sum_list (handler_left s <$> elements (sv_running s)).

Lemma handler_left_closed s s' :
  (forall k, sv_conns s' !! k = sv_conns s !! k \/ sv_conns s' !! k = close_conn <$> sv_conns s !! k) ->
  forall k, handler_left s' k = handler_left s k.
Proof.
  intros H k. unfold handler_left. destruct (H k) as [-> | ->]; [done|]. by destruct (sv_conns s !! k).
Qed.

Lemma sum_handlers_ext s s' :
  (forall k, handler_left s' k = handler_left s k) -> sv_running s' = sv_running s ->
  sum_list (handler_left s' <$> elements (sv_running s')) =
  sum_list (handler_left s <$> elements (sv_running s)).
Proof. intros H ->. f_equal. apply list_fmap_ext. intros _ k _. apply H. Qed.

Lemma calm_closed s s' :
  (forall k, sv_conns s' !! k = sv_conns s !! k \/ sv_conns s' !! k = close_conn <$> sv_conns s !! k) ->
  sv_running s' ⊆ sv_running s -> calm s -> calm s'.
Proof.
  intros H Hr Hcalm k c Hk Hc. destruct (H k) as [E|E]; rewrite E in Hc; [by apply (Hcalm k c (Hr k Hk))|].
  apply fmap_Some in Hc as (x & Hx & ->). exact (Hcalm k x (Hr k Hk) Hx).
Qed.

Lemma sum_remove {A} (f : A -> nat) x l k : l ≡ₚ x :: k -> sum_list (f <$> l) = (f x + sum_list (f <$> k))%nat.
Proof. intros H. by rewrite H. Qed.

(** An own step of a server that shuts down: one less is left, and no handler
    has gone to wait in [Publish]. *)
Lemma own_step_left s s' :
  free_ok s -> sv_ctxDone s = true -> calm s -> own_step s s' ->
  sv_ctxDone s' = true /\ calm s' /\ (stop_left s' < stop_left s)%nat.
Proof.
  intros Hok Hd Hcalm [e He H].
  assert (forall s', sv_ctxDone s' = true -> sv_running s' = sv_running s ->
    (forall k, sv_conns s' !! k = sv_conns s !! k \/ sv_conns s' !! k = close_conn <$> sv_conns s !! k) ->
    (closer_left (sv_closer s') + accept_left (sv_accept s') <
     closer_left (sv_closer s) + accept_left (sv_accept s))%nat ->
    sv_ctxDone s' = true /\ calm s' /\ (stop_left s' < stop_left s)%nat) as Hloop.
  { intros x Hx Hr Hcn Hlt. split; [done|]. split; [eapply calm_closed; [done|by rewrite Hr|done]|].
    unfold stop_left. rewrite (sum_handlers_ext s x); [lia|by apply handler_left_closed|done]. }
  destruct e; try done; unfold server_step in H;
    try (apply fmap_Some in H as (x & Hx & [= <-])); try unfold accept_step in Hx.
  1-4: destruct (sv_accept s) eqn:Ea; try done; rewrite ?Hd in Hx; repeat case_match; simplify_eq;
    apply Hloop; try done; rewrite ?Ea; simpl; try lia; try (by left).
  - intros j. simpl. destruct (decide (j = k)) as [->|Hne];
      [right; by rewrite lookup_alter_eq|left; by rewrite lookup_alter_ne].
  - unfold closer_step in Hx. destruct (sv_closer s) eqn:Ec; try done. rewrite Hd in Hx. simplify_eq.
    apply Hloop; try done; rewrite ?Ec; simpl; try lia. by left.
  - unfold closer_step in Hx. destruct (sv_closer s) eqn:Ec; try done. simplify_eq.
    apply Hloop; try done; cbn [sv_closer sv_accept sv_conns closer_left]; rewrite ?Ec; simpl; try lia.
    intros k. change (map_imap _ _ !! k) with (sv_conns (closeConns s) !! k). rewrite closeConns_lookup.
    destruct (sv_conns s !! k) as [c|]; [|by left]. simpl. case_decide; [by right|by left].
  - unfold handler_step in H. simpl in He. destruct (sv_conns s !! k) as [c|] eqn:Ek; [|done].
    case_bool_decide as Hk; [|done]. rewrite Hd in H.
    destruct (conn_step true e c _) as [r|] eqn:Ec; [|done]. injection H as H.
    destruct r as [[c' b']| |]; try done. injection H as <-.
    pose proof (unasked_publish _ _ _ _ _ (on_its_own_unasked _ _ He) (Hcalm k c Hk Ek) Ec) as Hp'.
    split; [done|]. split.
    + intros j x Hj. simpl. rewrite lookup_insert. case_decide; [by intros [= <-]|by apply Hcalm].
    + unfold stop_left. simpl. apply Nat.add_lt_mono_l.
      apply (sum_list_less _ _ k); [by apply elem_of_elements| | |apply NoDup_elements].
      * unfold handler_left. simpl. rewrite lookup_insert_eq, Ek. apply -> Nat.succ_lt_mono.
        eapply conn_step_measure; [by apply (cn_ok _ (fo_conns _ Hok) k)| |exact Ec|].
        -- by destruct e.
        -- by rewrite (Hcalm k c Hk Ek).
      * intros j Hj. unfold handler_left. simpl. by rewrite lookup_insert_ne.
  - unfold finish_step in Hx. destruct (sv_conns s !! k) as [c|] eqn:Ek; [|done].
    destruct (h_pc c) eqn:Ep; try done. case_bool_decide as Hk; [|done]. simplify_eq/=.
    split; [done|]. split; [apply (calm_closed s); [by left|simpl; set_solver|done]|].
    unfold stop_left. simpl. apply Nat.add_lt_mono_l.
    rewrite (sum_remove (handler_left s) k (elements (sv_running s)) (elements (sv_running s ∖ {[k]}))).
    + match goal with |- (sum_list (?f <$> _) < _)%nat => change f with (handler_left s) end.
      assert (0 < handler_left s k)%nat by (unfold handler_left; rewrite Ek; lia). lia.
    + rewrite <- elements_union_singleton by set_solver. by rewrite <- union_difference_singleton_L.
Qed.

Lemma handler_progress s k :
  free_ok s -> sv_ctxDone s = true -> sv_closer s = CDone -> calm s -> k ∈ sv_running s ->
  exists s', own_step s s'.
Proof.
  intros Hok Hd Ec Hcalm Hk. pose proof Hok as [Hen Hcn].
  destruct (cn_tracked _ Hcn k Hk) as [_ [c Hkc]]. pose proof (cn_ok _ Hcn k c Hkc) as Hc.
  destruct (is_returned (h_pc c)) eqn:Er.
  { eexists. apply (own_event _ _ (TFinish k)); [done|]. simpl. unfold finish_step. rewrite Hkc.
    destruct (h_pc c); try done. by rewrite bool_decide_true. }
  destruct (conn_step_progress c (en_broker (sv_engine s)) Hc) as (e & r & He & Hr);
    [by apply (cn_closed _ Hcn k c)|by destruct (h_pc c)|by apply (Hcalm k c)|].
  assert (unasked e = false -> room (en_broker (sv_engine s))) as Hroom by by rewrite (on_its_own_unasked _ _ He).
  destruct (conn_step_safe _ _ _ _ _ Hc Hen Hroom Hr) as (c' & b' & -> & _).
  eexists. apply (own_event _ _ (TConn k e)); [simpl; by rewrite Hkc|]. simpl.
  unfold handler_step. rewrite Hkc, bool_decide_true, Hd, Hr by done. done.
Qed.

(** As long as [Start] has not returned, some goroutine can make an own step. *)
Lemma own_progress s :
  free_ok s -> sv_ctxDone s = true -> calm s ->
  sv_accept s = AReturned \/ exists s', own_step s s'.
Proof.
  intros Hok Hd Hcalm. pose proof Hok as [Hen Hcn].
  destruct (sv_closer s) eqn:Ec.
  - right. eexists. apply (own_event _ _ TCloseListener); [done|].
    unfold server_step, closer_step. by rewrite Ec, Hd.
  - right. eexists. apply (own_event _ _ TCloseConns); [done|].
    unfold server_step, closer_step. by rewrite Ec.
  - destruct (cn_ctx _ Hcn) as [_ Hli]; [by rewrite Ec|].
    destruct (sv_accept s) as [|k|k| |] eqn:Ea; [right..|by left].
    + eexists. apply (own_event _ _ TAcceptClosed); [done|].
      unfold server_step, accept_step. by rewrite Ea, Hli.
    + eexists. apply (own_event _ _ TTrack); [done|]. unfold server_step, accept_step. by rewrite Ea.
    + eexists. apply (own_event _ _ TCheck); [done|]. unfold server_step, accept_step. by rewrite Ea, Hd.
    + destruct (decide (sv_running s = ∅)) as [He|He].
      { eexists. apply (own_event _ _ TReturn); [done|].
        unfold server_step, accept_step. by rewrite Ea, bool_decide_true. }
      apply set_choose_L in He as [k Hk]. by apply (handler_progress s k).
Qed.

Lemma own_run_left n s s' :
  free_ok s -> sv_ctxDone s = true -> calm s -> nsteps own_step n s s' ->
  free_ok s' /\ sv_ctxDone s' = true /\ calm s' /\ (n + stop_left s' <= stop_left s)%nat.
Proof.
  intros Hok Hd Hc Hrun. revert Hok Hd Hc.
  induction Hrun as [s|n s s1 s' H1 _ IH]; intros Hok Hd Hc; [done|].
  destruct (own_step_left s s1 Hok Hd Hc H1) as (Hd1 & Hc1 & Hl).
  destruct (IH (own_step_ok _ _ Hok H1) Hd1 Hc1) as (? & ? & ? & ?).
  split_and!; [done..|lia].
Qed.

Lemma own_run_returns n s :
  (stop_left s <= n)%nat -> free_ok s -> sv_ctxDone s = true -> calm s ->
  exists s', rtc own_step s s' /\ sv_accept s' = AReturned.
Proof.
  revert s. induction n as [|n IH]; intros s Hn Hok Hd Hc;
    (destruct (own_progress s Hok Hd Hc) as [Ha|[s1 H1]]; [by exists s|]);
    destruct (own_step_left s s1 Hok Hd Hc H1) as (Hd1 & Hc1 & Hl); [lia|].
  destruct (IH s1 ltac:(lia) (own_step_ok _ _ Hok H1) Hd1 Hc1) as (s' & Hr & Ha).
  exists s'. split; [by eapply rtc_l|done].
Qed.

Lemma stop_left_bound s : (stop_left s <= 6 + 13 * size (sv_running s))%nat.
Proof.
  unfold stop_left, size, set_size. simpl.
  assert (closer_left (sv_closer s) <= 2)%nat by (destruct (sv_closer s); simpl; lia).
  assert (accept_left (sv_accept s) <= 4)%nat by (destruct (sv_accept s); simpl; lia).
  enough (sum_list (handler_left s <$> elements (sv_running s)) <= 13 * length (elements (sv_running s)))%nat by lia.
  induction (elements _) as [|k l IH]; [done|]. rewrite fmap_cons. simpl. unfold handler_left at 1.
  destruct (sv_conns s !! k) as [c|]; [pose proof (conn_measure_bound c)|]; simpl in *; lia.
Qed.

(** C34: The server stops by itself. From any moment of any run (any clients,
    any log, any order of events; positive [QueueSize] and fewer than [2^63 - 1]
    pending messages and consumers per queue) after the end of the context at
    which no handler waits in [Publish], the goroutines, with no help of a client
    (no new connection, no request, no write or read that only a client could let
    come back: a handler gets a read or write error by itself only on a connection
    the server has closed), (1) can bring [Start] to its return; then no handler
    runs and the call of [Shutdown] that follows in [runServer] returns up to
    [wg.Wait]. (2) They do so whatever their order: no more than six steps and
    thirteen per running handler can be made, and until [Start] has returned there
    is one to make. A handler that waits in [Publish] can keep the server from
    stopping: [waiting_publisher_blocks_shutdown]. *)
Theorem server_stops s :
  free_reachable s -> sv_ctxDone s = true -> calm s ->
  (exists s' b', rtc own_step s s' /\ sv_accept s' = AReturned /\ sv_running s' = ∅ /\
     runServer_stop s' = Some (Done b') /\ b_closed b' = true) /\
  (forall n s', nsteps own_step n s s' ->
     (n <= 6 + 13 * size (sv_running s))%nat /\
     (sv_accept s' = AReturned \/ exists s2, own_step s' s2)).
Proof.
  intros Hre Hd Hcalm. pose proof (free_reachable_ok _ Hre) as Hok. split.
  - destruct (own_run_returns _ s (le_n _) Hok Hd Hcalm) as (s' & Hrun & Ha).
    pose proof (own_run_ok _ _ Hok Hrun) as [Hb' Hcn'].
    destruct (Broker_Shutdown_safe _ Hb') as (b' & Hb & Hc & _).
    exists s', b'. split_and!; [done|done|by apply (cn_returned _ Hcn')| |by pose proof (sd_flags _ _ Hc) as [= _ ?]].
    unfold runServer_stop. by rewrite Ha, Hb.
  - intros n s' Hrun. destruct (own_run_left n s s' Hok Hd Hcalm Hrun) as (Hok' & Hd' & Hc' & Hl).
    pose proof (stop_left_bound s). split; [lia|by apply own_progress].
Qed.

End Safety.

(** ** Runs *)

Fixpoint run_free (es : list server_event) (s : Server FileWAL) : option (Server FileWAL) :=
  match es with
  | [] => Some s
  | e :: es =>
      if bool_decide (map_Forall (fun _ r => Z.of_nat (length (consumerOrder r)) < max_int)
                        (b_runtimes (en_broker (sv_engine s))))
      then match server_step e s with Some (Done s) => run_free es s | _ => None end
      else None
  end.

Lemma run_free_steps es s s' : run_free es s = Some s' -> rtc free_step s s'.
Proof.
  revert s. induction es as [|e es IH]; intros s H; simpl in H; [by injection H as <-|].
  case_bool_decide as Hroom; [|done]. destruct (server_step e s) as [[s1| |]|] eqn:E; try done.
  eapply rtc_l; [by apply (free_event _ _ e)|by apply IH].
Qed.

Lemma engine1_free : free_start engine1.
Proof.
  exists DefaultConfig, empty_wal, ∅, first_broker. split; [vm_compute; split; [reflexivity|discriminate]|].
  split; [apply map_Forall_empty|]. split; [|split; [apply first_broker_new|reflexivity]]. 
  intros st. rewrite (load_ok _ empty_wal_ok). intros [= <-]. apply map_Forall_empty.
Qed.

(** A client subscribes and publishes under an identifier of its own, and the
    process is told to stop. *)
Definition rude_visit : list server_event :=
  [TAccept 0; TTrack; TCheck; TConn 0 HCheck;
   TConn 0 (HRead (item_doc (demo_request SubscribeRequest "default" "c1" zeroMessage)) (fun _ => 10) demo_id);
   TConn 0 HCheck;
   TConn 0 (HRead (item_doc (demo_request PublishRequest "" "" (mkMessage "mine" "x" 0 0 None))) (fun _ => 10) demo_id);
   TConn 0 (HWrite WOk); TCancel].

Definition rude_server : Server FileWAL := default server0 (run_free rude_visit server0).

Lemma rude_server_reachable : free_reachable rude_server.
Proof. exists engine1. split; [apply engine1_free|]. apply (run_free_steps rude_visit). vm_compute. reflexivity. Qed.

Lemma server_never_panics_witness :
  exists s', server_step (TConn 0 HCheck) rude_server = Some (Done s').
Proof.
  destruct (server_step (TConn 0 HCheck) rude_server) as [r|] eqn:E.
  - destruct (server_never_panics rude_server (TConn 0 HCheck) r rude_server_reachable) as [s' ->].
    + apply (bool_decide_unpack _). vm_compute. exact I.
    + exact E.
    + exists s'. reflexivity.
  - exfalso. vm_compute in E. discriminate E.
Defined.

Lemma server_stops_witness :
  (exists s' b', rtc own_step rude_server s' /\ runServer_stop s' = Some (Done b')) /\
  (forall n s', nsteps own_step n rude_server s' -> (n <= 19)%nat).
Proof.
  destruct (server_stops rude_server rude_server_reachable) as ((s' & b' & H1 & _ & _ & H2 & _) & H3).
  - vm_compute. reflexivity.
  - intros k c _. revert k c.
    change (map_Forall (fun _ c => in_publish c = false) (sv_conns rude_server)).
    apply (bool_decide_unpack _). vm_compute. exact I.
  - split; [exists s', b'; split; [exact H1|exact H2]|]. intros n s2 Hn. destruct (H3 n s2 Hn) as [H4 _].
    replace 19%nat with (6 + 13 * size (sv_running rude_server))%nat by (vm_compute; reflexivity). exact H4.
Defined.

(** [Shutdown] is called, and the redelivery worker has seen the context. *)
Definition stopped_broker : InMemoryBroker FileWAL :=
  match Broker_Shutdown (en_broker (sv_engine rude_server)) with Done b => b | _ => en_broker (sv_engine rude_server) end.
Definition draining0 : Engine FileWAL := set_broker stopped_broker (sv_engine rude_server).
Definition draining1 : Engine FileWAL := after (queue_step 0 RCtxDone draining0) draining0.

Lemma shutdown_drains_witness :
  drain_left draining1 = 2%nat /\ (1 + drain_left draining1 <= 7 * size (b_running stopped_broker))%nat /\
  (forall e r, queue_step 0 e draining1 = Some r ->
     exists en2, r = Done en2 /\ (drain_left en2 < drain_left draining1)%nat).
Proof.
  split; [vm_compute; reflexivity|].
  destruct (shutdown_drains rude_server rude_server_reachable) as (b' & Hb & H).
  assert (b' = stopped_broker) as -> by (unfold stopped_broker; rewrite Hb; reflexivity).
  destruct (H 1%nat draining1) as (H1 & H2 & _).
  - apply nsteps_once. exists 0%nat, RCtxDone. vm_compute. reflexivity.
  - split; [exact H1|]. intros e r. apply H2.
Defined.
