(* ===== verification/Client.v ===== *)
(** The client SDK of [client/]: a producer that makes calls over a connection,
    and a consumer that reads deliveries. The connection is a function from the
    document written to what is read back, so the same definitions run against
    any peer, in particular against the handler of [Handler.v]. *)

From S2P Require Import Prelude GoStrings Model RingBuffer Inflight Exchange Wal QueueRuntime.
From S2P Require Import System Broker Engine Utf8 Rfc3339 Protocol Handler.

(** ** State *)

(** [baseClient]; [json.Encoder] keeps the first write error and [json.Decoder]
    the first read or syntax error, and both return it ever after. *)
Record Client := mkClient {
  cl_id : string;
  cl_encErr : option string;
  cl_decErr : option string;
  cl_closed : bool;
}.

(** [newBaseClient]; [id]: what [uuid.NewString] gave. *)
Definition newBaseClient (id : string) : Client := mkClient id None None false.

(** [NewProducer] and [NewConsumer]; [dial]: the error of [net.Dial]. *)
Definition NewProducer (dial : option string) (id : string) : Client + string :=
  match dial with Some err => inr err | None => inl (newBaseClient id) end.
Definition NewConsumer (dial : option string) (id : string) : Client + string :=
  match dial with Some err => inr err | None => inl (newBaseClient id) end.

(** [Close]; [err]: the error of [conn.Close()]. *)
Definition Client_Close (err : option string) (c : Client) : option string * Client :=
  (err, mkClient (cl_id c) (cl_encErr c) (cl_decErr c) true).

(** The errors a method returns: of the context, of the connection, of the JSON
    codec, or [errors.New] of a text. *)
Inductive ClientErr :=
| CtxErr (what : string)
| NetErr (what : string)
| JsonErr
| TextErr (what : string).

(** What a peer makes of a request: writing it fails, or it is written and then
    reading fails, or a document is read. *)
Inductive net_result :=
| NetWriteErr (what : string)
| NetReadErr (what : string)
| NetDoc (doc : json).

(** ** Encoder and decoder *)

(** [c.encoder.Encode(&req)]; [w]: the error of the write. *)
Section Codec.
Context {Htime : TimeText}.

Definition Client_Encode (req : Request) (w : option string) (c : Client) : option ClientErr * Client :=
  match cl_encErr c with
  | Some e => (Some (NetErr e), c)
  | None =>
      match Request_MarshalJSON req, w with
      | None, _ => (Some JsonErr, c)
      | Some _, Some e => (Some (NetErr e), mkClient (cl_id c) (Some e) (cl_decErr c) (cl_closed c))
      | Some _, None => (None, c)
      end
  end.

(** [c.decoder.Decode(&resp)]; [r]: the document the connection gives, or its
    error. *)
Definition Client_Decode (r : json + string) (c : Client) : (Response + ClientErr) * Client :=
  match cl_decErr c with
  | Some e => (inr (NetErr e), c)
  | None =>
      match r with
      | inr e => (inr (NetErr e), mkClient (cl_id c) (cl_encErr c) (Some e) (cl_closed c))
      | inl doc =>
          match Response_UnmarshalJSON doc with
          | None => (inr JsonErr, c)
          | Some resp => (inl resp, c)
          end
      end
  end.

(** ** The producer *)

Section Producer.
Context {T : Type} (net : json -> T -> net_result * T).

(** [do]: the peer sees the request as soon as it is written, also when the
    decoder is no longer usable. *)
Definition do (req : Request) (c : Client) (t : T) : (Response + ClientErr) * Client * T :=
  let req := set_q_Version CurrentVersion req in
  match cl_encErr c, Request_MarshalJSON req with
  | None, Some doc =>
      let (r, t) := net doc t in
      match r with
      | NetWriteErr e =>
          let (err, c) := Client_Encode req (Some e) c in
          (inr (default JsonErr err), c, t)
      | NetReadErr e => let (x, c) := Client_Decode (inr e) c in (x, c, t)
      | NetDoc doc => let (x, c) := Client_Decode (inl doc) c in (x, c, t)
      end
  | _, _ =>
      let (err, c) := Client_Encode req None c in
      (inr (default JsonErr err), c, t)
  end.

(** The frame all methods share: the context is tested before the call
    ([before]) and after a failed one ([after]), and a response that reports no
    success is an error. *)
Definition request {A} (before after : option string) (req : Request) (result : Response -> A + ClientErr)
    (c : Client) (t : T) : (A + ClientErr) * Client * T :=
  match before with
  | Some e => (inr (CtxErr e), c, t)
  | None =>
      let '(r, c, t) := do req c t in
      match r with
      | inr err => (inr (match after with Some e => CtxErr e | None => err end), c, t)
      | inl resp => (if p_Success resp then result resp else inr (TextErr (p_Error resp)), c, t)
      end
  end.

Definition Producer_Publish (before after : option string) (exchangeName routingKey payload : string)
    (ttl : Z) : Client -> T -> (unit + ClientErr) * Client * T :=
  request before after
    (mkRequest "" PublishRequest "" (mkMessage "" payload 0 0 None) ttl "" exchangeName "" routingKey "" 0)
    (fun _ => inl tt).

Definition Producer_Metrics (before after : option string) :
    Client -> T -> (BrokerMetrics + ClientErr) * Client * T :=
  request before after (mkRequest "" MetricsRequest "" zeroMessage 0 "" "" "" "" "" 0)
    (fun resp => inl (p_Metrics resp)).

Definition Producer_QueueMetrics (before after : option string) (queueName : string) :
    Client -> T -> (QueueMetric + ClientErr) * Client * T :=
  request before after (mkRequest "" MetricsRequest queueName zeroMessage 0 "" "" "" "" "" 0)
    (fun resp =>
       match List.find (fun m => bool_decide (qm_Name m = queueName)) (Queues (p_Metrics resp)) with
       | Some m => inl m
       | None => inr (TextErr ("queue metrics not found for " +:+ queueName))
       end).

Definition Producer_CreateQueue (before after : option string) (name : string) :
    Client -> T -> (unit + ClientErr) * Client * T :=
  request before after (mkRequest "" CreateQueueRequest name zeroMessage 0 "" "" "" "" "" 0)
    (fun _ => inl tt).

Definition Producer_DeleteQueue (before after : option string) (name : string) :
    Client -> T -> (unit + ClientErr) * Client * T :=
  request before after (mkRequest "" DeleteQueueRequest name zeroMessage 0 "" "" "" "" "" 0)
    (fun _ => inl tt).

Definition Producer_ListQueues (before after : option string) :
    Client -> T -> (list string + ClientErr) * Client * T :=
  request before after (mkRequest "" ListQueuesRequest "" zeroMessage 0 "" "" "" "" "" 0)
    (fun resp => inl (qm_Name <$> default [] (p_Queues resp))).

Definition Producer_BindQueue (before after : option string) (exchangeName queueName bindingKey : string) :
    Client -> T -> (unit + ClientErr) * Client * T :=
  request before after
    (mkRequest "" BindQueueRequest queueName zeroMessage 0 "" exchangeName "" "" bindingKey 0)
    (fun _ => inl tt).

Definition Producer_UnbindQueue (before after : option string) (exchangeName queueName bindingKey : string) :
    Client -> T -> (unit + ClientErr) * Client * T :=
  request before after
    (mkRequest "" UnbindQueueRequest queueName zeroMessage 0 "" exchangeName "" "" bindingKey 0)
    (fun _ => inl tt).

Definition Producer_CreateExchange (before after : option string) (exchangeName exchangeType : string) :
    Client -> T -> (unit + ClientErr) * Client * T :=
  request before after
    (mkRequest "" CreateExchangeRequest "" zeroMessage 0 "" exchangeName exchangeType "" "" 0)
    (fun _ => inl tt).

Definition Producer_DeleteExchange (before after : option string) (exchangeName : string) :
    Client -> T -> (unit + ClientErr) * Client * T :=
  request before after (mkRequest "" DeleteExchangeRequest "" zeroMessage 0 "" exchangeName "" "" "" 0)
    (fun _ => inl tt).

Definition Producer_ListExchanges (before after : option string) :
    Client -> T -> (list string + ClientErr) * Client * T :=
  request before after (mkRequest "" ListExchangesRequest "" zeroMessage 0 "" "" "" "" "" 0)
    (fun resp => inl (p_Exchanges resp)).

End Producer.

(** ** The consumer *)

Record ReceivedMessage := mkReceived { rm_ID : string; rm_Payload : string; rm_AckToken : string }.

(** [Receive]: [fired]: the goroutine that watches the context has closed the
    connection meanwhile. *)
Definition Consumer_Receive (before after : option string) (fired : bool) (r : json + string) (c : Client)
    : (ReceivedMessage + ClientErr) * Client :=
  match before with
  | Some e => (inr (CtxErr e), c)
  | None =>
      let c := mkClient (cl_id c) (cl_encErr c) (cl_decErr c) (cl_closed c || fired) in
      let (x, c) := Client_Decode r c in
      match x with
      | inr err => (inr (match after with Some e => CtxErr e | None => err end), c)
      | inl resp =>
          (if p_Success resp
           then inl (mkReceived (ID (p_Message resp)) (Payload (p_Message resp)) (p_AckToken resp))
           else inr (TextErr (p_Error resp)), c)
      end
  end.

(** The other three only write; nothing is read back. [w]: the error of the
    write. *)
Definition ack_request (token : string) : Request :=
  mkRequest "" AckRequest "" zeroMessage 0 token "" "" "" "" CurrentVersion.
Definition subscribe_request (id queueName : string) : Request :=
  mkRequest id SubscribeRequest queueName zeroMessage 0 "" "" "" "" "" CurrentVersion.
Definition unsubscribe_request : Request :=
  mkRequest "" UnsubscribeRequest "" zeroMessage 0 "" "" "" "" "" CurrentVersion.

Definition Consumer_Ack (token : string) (w : option string) (c : Client) : option ClientErr * Client :=
  Client_Encode (ack_request token) w c.
Definition Consumer_Subscribe (queueName : string) (w : option string) (c : Client)
    : option ClientErr * Client :=
  Client_Encode (subscribe_request (cl_id c) queueName) w c.
Definition Consumer_Unsubscribe (w : option string) (c : Client) : option ClientErr * Client :=
  Client_Encode unsubscribe_request w c.

End Codec.
