(* ===== verification/ClientTheorems.v ===== *)
(** The client against the server: a call of the producer returns what the
    broker's operation returned, and what a consumer receives is what the
    delivery goroutine sent. *)

From S2P Require Import Prelude GoStrings Model RingBuffer Inflight Exchange Wal QueueRuntime.
From S2P Require Import System QueueSpec QueueInv RoundRobin QueueRefine QueueDeliver.
From S2P Require Import Redelivery SystemInv QueueCases Broker Topology BrokerInv Recovery.
From S2P Require Import BrokerTheorems Engine EngineTheorems Utf8 Rfc3339 Protocol Handler.
From S2P Require Import HandlerInv.
From S2P Require Import Client.

(** ** A connection to the server *)

Section Net.
Context {W : Type} `{!WAL W} {Hrange : MapRange} {Htime : TimeText}.
Abbreviation BR := (InMemoryBroker W).

Definition timeout : string := "i/o timeout".

(** The handler at the other end: it reads the request, handles it, and if it
    has an answer writes it. A handler that does not answer lets the read of the
    client time out. *)
Definition server_net (now : nat -> Z) (newID : nat -> string) (doc : json) (t : Conn * BR)
    : net_result * (Conn * BR) :=
  match conn_step false HCheck t.1 t.2 with
  | Some (Done (c, b)) =>
      match conn_step false (HRead doc now newID) c b with
      | Some (Done (c1, b1)) =>
          match conn_step false (HWrite WOk) c1 b1 with
          | Some (Done (c2, b2)) =>
              (match drop (length (h_out c1)) (h_out c2) with
               | resp :: _ => from_option NetDoc (NetReadErr timeout) (Response_MarshalJSON resp)
               | [] => NetReadErr timeout
               end, (c2, b2))
          | _ => (NetReadErr timeout, (c1, b1))
          end
      | _ => (NetReadErr timeout, (c, b))
      end
  | _ => (NetReadErr timeout, t)
  end.

(** A connection between two requests, and a client that has seen no error. *)
Definition idle (c : Conn) : Prop := h_pc c = HTop /\ h_closed c = false /\ h_encErr c = false.
Definition usable (cl : Client) : Prop := cl_encErr cl = None /\ cl_decErr cl = None.

(** The connection after the answer. *)
Definition answered_conn (resp : Response) (c : Conn) : Conn :=
  mkConn HTop (h_stop c) (h_sub c) (h_out c ++ [set_p_Version CurrentVersion resp]) false false.

Lemma serve now newID req resp cl c b b' :
  usable cl -> idle c -> request_wire (set_q_Version CurrentVersion req) ->
  response_wire (set_p_Version CurrentVersion resp) ->
  handle now newID (set_q_Version CurrentVersion req) (set_h_pc HDecode c) b =
    Done (respond resp (set_h_pc HDecode c), b') ->
  do (server_net now newID) req cl (c, b) =
    (inl (set_p_Version CurrentVersion resp), cl, (answered_conn resp c, b')).
Proof.
  intros [He Hd] (Hpc & Hcl & Hee) Hq Hp H. unfold do. rewrite He.
  destruct (request_travels _ Hq) as (doc & -> & Hu). destruct (response_travels _ Hp) as (doc' & Hm & Hu').
  unfold server_net. simpl. rewrite Hpc. simpl. rewrite Hu, H. simpl.
  unfold encode. simpl. rewrite Hcl, Hee, Hm. simpl. rewrite drop_app_length. simpl. rewrite Hm. simpl.
  unfold Client_Decode. by rewrite Hd, Hu'.
Qed.

(** What a method that returns only an error makes of the broker's. *)
Definition result (err : option Err) : unit + ClientErr :=
  match err with None => inl tt | Some e => inr (TextErr (Err_Error e)) end.

(** A call is over: the client got [x], the broker is [b'], and both ends are
    ready for the next request. *)
Definition answers {A} (r : (A + ClientErr) * Client * (Conn * BR)) (x : A + ClientErr) (cl : Client)
    (b' : BR) : Prop :=
  exists c', r = (x, cl, (c', b')) /\ idle c'.

Lemma request_answers {A} now newID req resp (f : Response -> A + ClientErr) cl c b b' :
  usable cl -> idle c -> request_wire (set_q_Version CurrentVersion req) ->
  response_wire (set_p_Version CurrentVersion resp) ->
  handle now newID (set_q_Version CurrentVersion req) (set_h_pc HDecode c) b =
    Done (respond resp (set_h_pc HDecode c), b') ->
  answers (request (server_net now newID) None None req f cl (c, b))
    (if p_Success resp then f (set_p_Version CurrentVersion resp) else inr (TextErr (p_Error resp))) cl b'.
Proof.
  intros Hcl Hc Hq Hp H. exists (answered_conn resp c). unfold request.
  by rewrite (serve _ _ _ _ _ _ _ _ Hcl Hc Hq Hp H).
Qed.

End Net.

(** ** Wire conditions *)

Lemma zero_metric_wire : metric_wire zeroMetric.
Proof. by repeat split; vm_compute. Qed.

Lemma plain_message_wire payload : valid_utf8 payload -> message_wire (mkMessage "" payload 0 0 None).
Proof. intros H. split; simpl; try done; by split; vm_compute. Qed.

Lemma zero_message_wire : message_wire zeroMessage.
Proof. by apply plain_message_wire. Qed.

Create HintDb client.
#[export] Hint Resolve zero_metric_wire zero_message_wire plain_message_wire : client.
#[export] Hint Extern 1 (valid_utf8 _) => (vm_compute; reflexivity) : client.
#[export] Hint Extern 1 (is_int _) => (vm_compute; split; discriminate) : client.
#[export] Hint Extern 1 (Forall _ []) => constructor : client.

Lemma status_wire ok err : valid_utf8 err -> response_wire (set_p_Version CurrentVersion (resp_status ok err)).
Proof. intros H. split; simpl; auto with client. Qed.

(** A request without payload. *)
Lemma bare_request_wire t q e et k :
  valid_utf8 t -> valid_utf8 q -> valid_utf8 e -> valid_utf8 et -> valid_utf8 k ->
  request_wire (set_q_Version CurrentVersion (mkRequest "" t q zeroMessage 0 "" e et "" k 0)).
Proof. intros. split; simpl; auto with client. Qed.

#[export] Hint Resolve status_wire bare_request_wire : client.

(** A request whose dispatch is a computation, on a call with a known result. *)
Ltac handled H t := transitivity t; [reflexivity|by rewrite H].

Section ClientTheorems.
Context {W : Type} `{!WAL W} {Hrange : MapRange} {Htime : TimeText}.
Abbreviation BR := (InMemoryBroker W).
Implicit Types (b : BR) (c : Conn) (cl : Client).

(** A method whose answer is only success or an error. *)
Lemma status_answers now newID req err cl c b b' :
  usable cl -> idle c -> request_wire (set_q_Version CurrentVersion req) -> valid_utf8 (errorString err) ->
  handle now newID (set_q_Version CurrentVersion req) (set_h_pc HDecode c) b =
    Done (respond_err err (set_h_pc HDecode c), b') ->
  answers (request (server_net now newID) None None req (fun _ => inl tt) cl (c, b)) (result err) cl b'.
Proof.
  intros Hcl Hc Hq He H.
  destruct (request_answers now newID req _ (fun _ => inl tt) cl c b b' Hcl Hc Hq
    (status_wire (ok_err err) _ He) H) as (c' & Hr & Hi).
  exists c'. split; [|done]. rewrite Hr. by destruct err.
Qed.

(** The methods that return an error or nothing. *)
Lemma Producer_Publish_answers now newID cl c b xn rk payload ttl err b' :
  usable cl -> idle c -> valid_utf8 xn -> valid_utf8 rk -> valid_utf8 payload -> is_int ttl ->
  valid_utf8 (errorString err) ->
  Broker_Publish now newID xn rk (mkMessage "" payload 0 0 None) ttl b = Done (BReturned err, b') ->
  answers (Producer_Publish (server_net now newID) None None xn rk payload ttl cl (c, b)) (result err) cl b'.
Proof.
  intros Hcl Hc H1 H2 H3 H4 H5 H. apply status_answers; [done|done| |done|].
  - split; simpl; auto with client.
  - handled H (let! (r, b) := Broker_Publish now newID xn rk (mkMessage "" payload 0 0 None) ttl b in
      Done (published_conn (mkRequest "" PublishRequest "" (mkMessage "" payload 0 0 None) ttl "" xn "" rk
        "" CurrentVersion) r (set_h_pc HDecode c), b)).
Qed.

Lemma Producer_CreateQueue_answers now newID cl c b n err b' :
  usable cl -> idle c -> valid_utf8 n -> 
  valid_utf8 (errorString err) -> CreateQueue n b = Done (err, b') ->
  answers (Producer_CreateQueue (server_net now newID) None None n cl (c, b)) (result err) cl b'.
Proof.
  intros Hcl Hc H1 H2 H. apply status_answers; auto with client.
  handled H (let! (err, b) := CreateQueue n b in Done (respond_err err (set_h_pc HDecode c), b)).
Qed.

Lemma Producer_DeleteQueue_answers now newID cl c b n err b' :
  usable cl -> idle c -> valid_utf8 n -> 
  valid_utf8 (errorString err) -> DeleteQueue n b = Done (err, b') ->
  answers (Producer_DeleteQueue (server_net now newID) None None n cl (c, b)) (result err) cl b'.
Proof.
  intros Hcl Hc H1 H2 H. apply status_answers; auto with client.
  handled H (let! (err, b) := DeleteQueue n b in Done (respond_err err (set_h_pc HDecode c), b)).
Qed.

Lemma Producer_BindQueue_answers now newID cl c b e q k err b' :
  usable cl -> idle c -> valid_utf8 e -> valid_utf8 q -> valid_utf8 k -> 
  valid_utf8 (errorString err) -> BindQueue e q k b = (err, b') ->
  answers (Producer_BindQueue (server_net now newID) None None e q k cl (c, b)) (result err) cl b'.
Proof.
  intros Hcl Hc H1 H2 H3 H4 H. apply status_answers; auto with client.
  handled H (let (err, b) := BindQueue e q k b in Done (respond_err err (set_h_pc HDecode c), b)).
Qed.

Lemma Producer_UnbindQueue_answers now newID cl c b e q k err b' :
  usable cl -> idle c -> valid_utf8 e -> valid_utf8 q -> valid_utf8 k -> 
  valid_utf8 (errorString err) -> UnbindQueue e q k b = (err, b') ->
  answers (Producer_UnbindQueue (server_net now newID) None None e q k cl (c, b)) (result err) cl b'.
Proof.
  intros Hcl Hc H1 H2 H3 H4 H. apply status_answers; auto with client.
  handled H (let (err, b) := UnbindQueue e q k b in Done (respond_err err (set_h_pc HDecode c), b)).
Qed.

Lemma Producer_CreateExchange_answers now newID cl c b e t err b' :
  usable cl -> idle c -> valid_utf8 e -> valid_utf8 t -> 
  valid_utf8 (errorString err) -> CreateExchange e t b = (err, b') ->
  answers (Producer_CreateExchange (server_net now newID) None None e t cl (c, b)) (result err) cl b'.
Proof.
  intros Hcl Hc H1 H2 H3 H. apply status_answers; auto with client.
  handled H (let (err, b) := CreateExchange e t b in Done (respond_err err (set_h_pc HDecode c), b)).
Qed.

Lemma Producer_DeleteExchange_answers now newID cl c b e err b' :
  usable cl -> idle c -> valid_utf8 e -> 
  valid_utf8 (errorString err) -> DeleteExchange e b = (err, b') ->
  answers (Producer_DeleteExchange (server_net now newID) None None e cl (c, b)) (result err) cl b'.
Proof.
  intros Hcl Hc H1 H2 H. apply status_answers; auto with client.
  handled H (let (err, b) := DeleteExchange e b in Done (respond_err err (set_h_pc HDecode c), b)).
Qed.

(** The methods that return data. *)
Lemma Producer_ListQueues_answers now newID cl c b :
  usable cl -> idle c -> Forall valid_utf8 (ListQueues b) ->
  answers (Producer_ListQueues (server_net now newID) None None cl (c, b)) (inl (ListQueues b)) cl b.
Proof.
  intros Hcl Hc Hv. pose proof (request_answers now newID (mkRequest "" ListQueuesRequest "" zeroMessage 0
    "" "" "" "" "" 0) (resp_queues ((fun name => mkQueueMetric name zeroMetric) <$> ListQueues b))
    (fun resp => inl (qm_Name <$> default [] (p_Queues resp))) cl c b b Hcl Hc) as Ha.
  simpl in Ha. rewrite <- list_fmap_compose, list_fmap_id in Ha. apply Ha; auto with client.
  split; simpl; auto with client. apply Forall_fmap. eapply Forall_impl; [exact Hv|].
  intros n Hn. split; [done|apply zero_metric_wire].
Qed.

Lemma Producer_ListExchanges_answers now newID cl c b :
  usable cl -> idle c -> Forall valid_utf8 (ListExchanges b) ->
  answers (Producer_ListExchanges (server_net now newID) None None cl (c, b)) (inl (ListExchanges b)) cl b.
Proof.
  intros Hcl Hc Hv. refine (request_answers now newID (mkRequest "" ListExchangesRequest "" zeroMessage 0 ""
    "" "" "" "" 0) (resp_exchanges (ListExchanges b)) (fun resp => inl (p_Exchanges resp))
    cl c b b Hcl Hc _ _ _); auto with client. split; simpl; auto with client.
Qed.

Lemma Producer_Metrics_answers now newID cl c b m :
  usable cl -> idle c -> Forall queue_metric_wire (Queues m) -> metric_wire (Total m) ->
  Broker_Metrics b = Done m ->
  answers (Producer_Metrics (server_net now newID) None None cl (c, b)) (inl m) cl b.
Proof.
  intros Hcl Hc Hq Ht H. refine (request_answers now newID (mkRequest "" MetricsRequest "" zeroMessage 0 ""
    "" "" "" "" 0) (resp_metrics true "" m) (fun resp => inl (p_Metrics resp)) cl c b b Hcl Hc _ _ _);
    [auto with client|split; simpl; auto with client|].
  transitivity (let! m := Broker_Metrics b in Done (respond (resp_metrics true "" m) (set_h_pc HDecode c), b));
    [reflexivity|]. by rewrite H.
Qed.

Lemma Producer_QueueMetrics_answers now newID cl c b q m err :
  usable cl -> idle c -> q <> "" -> valid_utf8 q -> metric_wire m -> valid_utf8 (errorString err) ->
  QueueMetrics q b = Done (m, err) ->
  answers (Producer_QueueMetrics (server_net now newID) None None q cl (c, b))
    (match err with None => inl (mkQueueMetric q m) | Some e => inr (TextErr (Err_Error e)) end) cl b.
Proof.
  intros Hcl Hc Hne Hv Hm He H. pose proof (request_answers now newID (mkRequest "" MetricsRequest q
    zeroMessage 0 "" "" "" "" "" 0) (resp_metrics (ok_err err) (errorString err)
      (mkBrokerMetrics [mkQueueMetric q m] m))
    (fun resp => match List.find (fun m => bool_decide (qm_Name m = q)) (Queues (p_Metrics resp)) with
      | Some m => inl m | None => inr (TextErr ("queue metrics not found for " +:+ q)) end)
    cl c b b Hcl Hc) as Ha.
  simpl in Ha. rewrite bool_decide_true in Ha by done. destruct Ha as (c' & Hr & Hi).
  - auto with client.
  - split; simpl; auto with client. constructor; [by split|constructor].
  - transitivity (handle_metrics (mkRequest "" MetricsRequest q zeroMessage 0 "" "" "" "" "" CurrentVersion)
      (set_h_pc HDecode c) b); [reflexivity|].
    unfold handle_metrics. simpl. rewrite bool_decide_true by done. by rewrite H.
  - exists c'. split; [|done]. etrans; [exact Hr|]. by destruct err.
Qed.

(** The empty name: the handler takes it for a request for all metrics, and the
    producer finds none of that name in them. *)
Lemma Producer_QueueMetrics_unnamed now newID cl c b m :
  usable cl -> idle c -> Forall queue_metric_wire (Queues m) -> metric_wire (Total m) ->
  Forall (fun x => qm_Name x <> "") (Queues m) -> Broker_Metrics b = Done m ->
  answers (Producer_QueueMetrics (server_net now newID) None None "" cl (c, b))
    (inr (TextErr "queue metrics not found for ")) cl b.
Proof.
  intros Hcl Hc Hq Ht Hn H. pose proof (request_answers now newID (mkRequest "" MetricsRequest "" zeroMessage 0 ""
    "" "" "" "" 0) (resp_metrics true "" m)
    (fun resp => match List.find (fun m => bool_decide (qm_Name m = "")) (Queues (p_Metrics resp)) with
      | Some m => inl m | None => inr (TextErr ("queue metrics not found for " +:+ "")) end) cl c b b Hcl Hc) as Ha.
  destruct Ha as (c' & Hr & Hi); [auto with client|split; simpl; auto with client| |].
  - transitivity (let! m := Broker_Metrics b in Done (respond (resp_metrics true "" m) (set_h_pc HDecode c), b));
      [reflexivity|]. by rewrite H.
  - exists c'. split; [|done]. etrans; [exact Hr|]. simpl.
    assert (List.find (fun m => bool_decide (qm_Name m = "")) (Queues m) = None) as ->; [|done].
    clear -Hn. induction Hn as [|x l Hx _ IH]; simpl; [done|]. by rewrite bool_decide_false.
Qed.

(** A publication that has to wait: the producer's read times out while the
    handler is in [Publish]. *)
Lemma Producer_Publish_waits now newID cl c b xn rk payload ttl p rest b' :
  usable cl -> idle c -> valid_utf8 xn -> valid_utf8 rk -> valid_utf8 payload -> is_int ttl ->
  Broker_Publish now newID xn rk (mkMessage "" payload 0 0 None) ttl b = Done (BBlocked p rest, b') ->
  exists cl' c' req, Producer_Publish (server_net now newID) None None xn rk payload ttl cl (c, b) =
    (inr (NetErr timeout), cl', (c', b')) /\ h_pc c' = HPublish req p rest.
Proof.
  intros [He Hd] (Hpc & _) H1 H2 H3 H4 H. unfold Producer_Publish, request, do. rewrite He.
  set (req := set_q_Version CurrentVersion _). assert (request_wire req) as Hq.
  { split; simpl; auto with client. }
  destruct (request_travels _ Hq) as (doc & -> & Hu). unfold server_net. simpl. rewrite Hpc. simpl. rewrite Hu.
  assert (handle now newID req (set_h_pc HDecode c) b = Done (set_h_pc (HPublish req p rest) (set_h_pc HDecode c), b')) as ->.
  { transitivity (let! (r, b) := Broker_Publish now newID xn rk (mkMessage "" payload 0 0 None) ttl b in
      Done (published_conn req r (set_h_pc HDecode c), b)); [reflexivity|]. by rewrite H. }
  simpl. unfold Client_Decode. rewrite Hd. eexists _, _, req. split; [reflexivity|done].
Qed.

(** C10: A call of the producer is a call of the broker. Over a connection that
    is between two requests, without faults, with a producer that has seen no
    error, with names, payload, routing key and error texts in valid UTF-8 and
    numbers of 64 bits, every method of the producer (request encoded, read and
    dispatched by the handler, answered, decoded) returns to its caller exactly
    what the broker's operation returned in the state the broker had, an error as
    its text, and leaves the broker in the state that operation left and both ends
    ready for the next call; with two exceptions. A publication that has to wait
    for room leaves the handler waiting and returns the timeout of the client's
    read. [QueueMetrics] of the empty name (which no queue has), which the broker takes for the default
    queue, is sent as a request for all metrics, and the producer reports that no
    queue of that name was found. *)
Theorem producer_calls_reach_broker now newID cl c b :
  usable cl -> idle c ->
  let net := server_net now newID in
  (forall xn rk payload ttl err b', valid_utf8 xn -> valid_utf8 rk -> valid_utf8 payload -> is_int ttl ->
     valid_utf8 (errorString err) ->
     Broker_Publish now newID xn rk (mkMessage "" payload 0 0 None) ttl b = Done (BReturned err, b') ->
     answers (Producer_Publish net None None xn rk payload ttl cl (c, b)) (result err) cl b') /\
  (forall n err b', valid_utf8 n -> valid_utf8 (errorString err) -> CreateQueue n b = Done (err, b') ->
     answers (Producer_CreateQueue net None None n cl (c, b)) (result err) cl b') /\
  (forall n err b', valid_utf8 n -> valid_utf8 (errorString err) -> DeleteQueue n b = Done (err, b') ->
     answers (Producer_DeleteQueue net None None n cl (c, b)) (result err) cl b') /\
  (forall e q k err b', valid_utf8 e -> valid_utf8 q -> valid_utf8 k -> valid_utf8 (errorString err) ->
     BindQueue e q k b = (err, b') ->
     answers (Producer_BindQueue net None None e q k cl (c, b)) (result err) cl b') /\
  (forall e q k err b', valid_utf8 e -> valid_utf8 q -> valid_utf8 k -> valid_utf8 (errorString err) ->
     UnbindQueue e q k b = (err, b') ->
     answers (Producer_UnbindQueue net None None e q k cl (c, b)) (result err) cl b') /\
  (forall e t err b', valid_utf8 e -> valid_utf8 t -> valid_utf8 (errorString err) ->
     CreateExchange e t b = (err, b') ->
     answers (Producer_CreateExchange net None None e t cl (c, b)) (result err) cl b') /\
  (forall e err b', valid_utf8 e -> valid_utf8 (errorString err) -> DeleteExchange e b = (err, b') ->
     answers (Producer_DeleteExchange net None None e cl (c, b)) (result err) cl b') /\
  (Forall valid_utf8 (ListQueues b) ->
     answers (Producer_ListQueues net None None cl (c, b)) (inl (ListQueues b)) cl b) /\
  (Forall valid_utf8 (ListExchanges b) ->
     answers (Producer_ListExchanges net None None cl (c, b)) (inl (ListExchanges b)) cl b) /\
  (forall m, Forall queue_metric_wire (Queues m) -> metric_wire (Total m) -> Broker_Metrics b = Done m ->
     answers (Producer_Metrics net None None cl (c, b)) (inl m) cl b) /\
  (forall q m err, q <> "" -> valid_utf8 q -> metric_wire m -> valid_utf8 (errorString err) ->
     QueueMetrics q b = Done (m, err) ->
     answers (Producer_QueueMetrics net None None q cl (c, b))
       (match err with None => inl (mkQueueMetric q m) | Some e => inr (TextErr (Err_Error e)) end) cl b) /\
  (forall m, Forall queue_metric_wire (Queues m) -> metric_wire (Total m) ->
     Forall (fun x => qm_Name x <> "") (Queues m) -> Broker_Metrics b = Done m ->
     answers (Producer_QueueMetrics net None None "" cl (c, b))
       (inr (TextErr "queue metrics not found for ")) cl b) /\
  (forall xn rk payload ttl p rest b', valid_utf8 xn -> valid_utf8 rk -> valid_utf8 payload -> is_int ttl ->
     Broker_Publish now newID xn rk (mkMessage "" payload 0 0 None) ttl b = Done (BBlocked p rest, b') ->
     exists cl' c' req, Producer_Publish net None None xn rk payload ttl cl (c, b) =
       (inr (NetErr timeout), cl', (c', b')) /\ h_pc c' = HPublish req p rest).
Proof.
  intros Hcl Hc net. split_and!; intros.
  - by apply Producer_Publish_answers.
  - by apply Producer_CreateQueue_answers.
  - by apply Producer_DeleteQueue_answers.
  - by apply Producer_BindQueue_answers.
  - by apply Producer_UnbindQueue_answers.
  - by apply Producer_CreateExchange_answers.
  - by apply Producer_DeleteExchange_answers.
  - by apply Producer_ListQueues_answers.
  - by apply Producer_ListExchanges_answers.
  - by apply Producer_Metrics_answers.
  - by apply Producer_QueueMetrics_answers.
  - by apply (Producer_QueueMetrics_unnamed _ _ _ _ _ m).
  - by apply Producer_Publish_waits.
Qed.

(** ** Errors stay *)

(** C36: One failed read makes a producer useless. After a read error, such as the
    five second timeout while the broker lets a publication wait for room, the
    decoder keeps the error: every later call returns it, whatever the server
    answers, though the server receives and executes each of these calls. *)
Theorem producer_useless_after_timeout {T A B} (net : json -> T -> net_result * T) req req' e doc cl t t'
    (f : Response -> A + ClientErr) (g : Response -> B + ClientErr) :
  usable cl -> Request_MarshalJSON (set_q_Version CurrentVersion req) = Some doc ->
  net doc t = (NetReadErr e, t') ->
  exists cl', request net None None req f cl t = (inr (NetErr e), cl', t') /\
    forall t1 doc1 r1 t2, Request_MarshalJSON (set_q_Version CurrentVersion req') = Some doc1 ->
      net doc1 t1 = (r1, t2) -> (forall what, r1 <> NetWriteErr what) ->
      request net None None req' g cl' t1 = (inr (NetErr e), cl', t2).
Proof.
  intros [He Hd] Hm Hn. exists (mkClient (cl_id cl) None (Some e) (cl_closed cl)). split.
  - unfold request, do. rewrite He, Hm, Hn. unfold Client_Decode. rewrite Hd, He. done.
  - intros t1 doc1 r1 t2 Hm1 Hn1 Hr. unfold request, do. simpl. rewrite Hm1, Hn1.
    by destruct r1 as [what|what|d]; [destruct (Hr what)|..].
Qed.

(** ** The consumer *)

(** C37: What a consumer receives is what was sent to it: the document of a
    delivery gives its message and its token; the error of a failed
    acknowledgement or subscription, which the server answers and the client does
    not wait for, comes out of the next [Receive]; and the answer to
    [Unsubscribe] comes out of it as a message without identifier, payload and
    token. *)
Theorem consumer_receives cl resp :
  usable cl -> response_wire (set_p_Version CurrentVersion resp) ->
  exists doc, Response_MarshalJSON (set_p_Version CurrentVersion resp) = Some doc /\
    (Consumer_Receive None None false (inl doc) cl).2 = cl /\
    (forall d, resp = resp_delivery d -> (Consumer_Receive None None false (inl doc) cl).1 =
       inl (mkReceived (ID (d_Message d)) (Payload (d_Message d)) (d_AckToken d))) /\
    (forall e, resp = resp_status false (Err_Error e) ->
       (Consumer_Receive None None false (inl doc) cl).1 = inr (TextErr (Err_Error e))) /\
    (resp = resp_status true "" ->
       (Consumer_Receive None None false (inl doc) cl).1 = inl (mkReceived "" "" "")).
Proof.
  intros [He Hd] Hw. destruct (response_travels _ Hw) as (doc & Hm & Hu). exists doc. split; [done|].
  unfold Consumer_Receive, Client_Decode. simpl. rewrite Hd, Hu, He, orb_false_r. simpl.
  split_and!; [by destruct cl; simpl in *; subst|by intros d ->|by intros e ->|by intros ->].
Qed.

End ClientTheorems.

(** ** The theorems at concrete calls *)

Definition demo_client : Client := newBaseClient "client".

Lemma idle_new : idle new_conn.
Proof. done. Qed.

Lemma with_orders_queues : ListQueues with_orders = ["default"; "orders"].
Proof. vm_compute. reflexivity. Qed.

(** The client creates a queue, and lists the queues of the broker. *)
Lemma producer_calls_reach_broker_witness :
  answers (Producer_CreateQueue (server_net (fun _ => 10) demo_id) None None "orders" demo_client
    (new_conn, first_broker)) (inl tt) demo_client with_orders /\
  answers (Producer_ListQueues (server_net (fun _ => 10) demo_id) None None demo_client
    (new_conn, with_orders)) (inl ["default"; "orders"]) demo_client with_orders.
Proof.
  split.
  - destruct (producer_calls_reach_broker (fun _ => 10) demo_id demo_client new_conn first_broker)
      as (_ & H & _); [split; reflexivity|exact idle_new|].
    apply (H "orders" None with_orders); vm_compute; reflexivity.
  - destruct (producer_calls_reach_broker (fun _ => 10) demo_id demo_client new_conn with_orders)
      as (_ & _ & _ & _ & _ & _ & _ & H & _); [split; reflexivity|exact idle_new|].
    rewrite with_orders_queues in H. apply H.
    constructor; [vm_compute; reflexivity|]. constructor; [vm_compute; reflexivity|constructor].
Defined.

(** A server that answers the second request after the first timed out. *)
Definition slow_net (doc : json) (served : nat) : net_result * nat :=
  (match served with
   | O => NetReadErr timeout
   | S _ => from_option NetDoc (NetReadErr timeout)
              (Response_MarshalJSON (set_p_Version CurrentVersion (resp_status true "")))
   end, S served).

Lemma producer_useless_after_timeout_witness :
  exists cl', Producer_Publish slow_net None None "default" "default" "x" 0 demo_client 0%nat =
      (inr (NetErr timeout), cl', 1%nat) /\
    Producer_CreateQueue slow_net None None "orders" cl' 1%nat = (inr (NetErr timeout), cl', 2%nat).
Proof.
  destruct (producer_useless_after_timeout slow_net
    (mkRequest "" PublishRequest "" (mkMessage "" "x" 0 0 None) 0 "" "default" "" "default" "" 0)
    (mkRequest "" CreateQueueRequest "orders" zeroMessage 0 "" "" "" "" "" 0) timeout _ demo_client 0%nat 1%nat
    (fun _ => @inl unit ClientErr tt) (fun _ => @inl unit ClientErr tt) (conj eq_refl eq_refl) eq_refl eq_refl)
    as (cl' & H1 & H2).
  exists cl'. split; [exact H1|]. eapply H2; [reflexivity|reflexivity|discriminate].
Defined.

Definition demo_delivery : Delivery := mkDelivery (mkMessage "m0" "hello" 0 0 None) "t1" "c1".

Lemma demo_delivery_wire : response_wire (set_p_Version CurrentVersion (resp_delivery demo_delivery)).
Proof.
  split; simpl; auto with client.
  split; simpl; auto with client; [vm_compute; reflexivity|discriminate].
Qed.

Lemma consumer_receives_witness :
  exists doc, Response_MarshalJSON (set_p_Version CurrentVersion (resp_delivery demo_delivery)) = Some doc /\
    (Consumer_Receive None None false (inl doc) demo_client).1 = inl (mkReceived "m0" "hello" "t1").
Proof.
  destruct (consumer_receives demo_client (resp_delivery demo_delivery)) as (doc & H1 & _ & H2 & _).
  - split; reflexivity.
  - exact demo_delivery_wire.
  - exists doc. split; [exact H1|]. rewrite (H2 demo_delivery eq_refl). reflexivity.
Defined.
