(* ===== verification/WalWriter.v ===== *)
(** The hand-over inside the log ([internal/storage/wal.go]): callers of [Append]
    and [Close] share a mutex and an unbuffered channel with the writer
    goroutine, which answers each request on a channel of its own. [Wal.v]
    treats [Append] as one step; here every lock, channel operation and write is
    a step of its own, and the two agree. *)

From S2P Require Import Prelude Model Wal.

(** A caller of [Append]: before the lock, holding it at the send, waiting for
    the result, returned. *)
Inductive AppendPC :=
| ALock (r : WalRecord)
| ASend (r : WalRecord)
| AWaitResult (r : WalRecord)
| AReturn (r : WalRecord) (err : option Err).

(** A caller of [Close]: before the lock, in [wg.Wait], returned. *)
Inductive ClosePC := KLock | KWait | KReturn.

Inductive LogProc :=
| PAppend (pc : AppendPC)
| PClose (pc : ClosePC).

(** [runWriter]: at the range over the channel, with a request, returned. *)
Inductive WriterPC :=
| LReceive
| LWrite (i : nat) (r : WalRecord)
| LStopped.

(** [lg_file] has the flag [closed] of the struct; [lg_mu] is the caller that
    holds the mutex; [lg_results] are the result channels that hold a value. *)
Record Log := mkLog {
  lg_file : FileWAL;
  lg_fileClosed : bool;
  lg_mu : option nat;
  lg_chClosed : bool;
  lg_writer : WriterPC;
  lg_procs : gmap nat LogProc;
  lg_results : gmap nat (option Err);
}.

(** After [NewFileWAL] the writer runs. *)
Definition startLog (f : FileWAL) : Log := mkLog f false None false LReceive ∅ ∅.

Definition set_proc (i : nat) (p : LogProc) (s : Log) : Log :=
  mkLog (lg_file s) (lg_fileClosed s) (lg_mu s) (lg_chClosed s) (lg_writer s)
    (<[i := p]> (lg_procs s)) (lg_results s).

Inductive log_event :=
| LCall (i : nat) (r : WalRecord)
| LClose (i : nat)
| LLock (i : nat)
| LHand (i : nat)
| LWork
| LStop
| LResult (i : nat)
| LWaited (i : nat).

(** [Append]: [lock] with the test of [closed], the send with the unlock, the
    receive of the result. *)
Definition lock_step (i : nat) (s : Log) : option (GoM Log) :=
  match lg_procs s !! i, lg_mu s with
  | Some (PAppend (ALock r)), None =>
      Some (Done (if fw_closed (lg_file s)
                  then set_proc i (PAppend (AReturn r (Some (ErrStorage "WAL closed")))) s
                  else mkLog (lg_file s) (lg_fileClosed s) (Some i) (lg_chClosed s) (lg_writer s)
                         (<[i := PAppend (ASend r)]> (lg_procs s)) (lg_results s)))
  | Some (PClose KLock), None =>
      Some (if fw_closed (lg_file s) then Done (set_proc i (PClose KReturn) s)
            else if lg_chClosed s then Panic
            else Done (mkLog (file_Close (lg_file s)) (lg_fileClosed s) None true (lg_writer s)
                         (<[i := PClose KWait]> (lg_procs s)) (lg_results s)))
  | _, _ => None
  end.

(** The send meets the receive of the writer; sending on a closed channel
    panics. *)
Definition hand_step (i : nat) (s : Log) : option (GoM Log) :=
  match lg_procs s !! i with
  | Some (PAppend (ASend r)) =>
      if lg_chClosed s then Some Panic
      else match lg_writer s with
      | LReceive =>
          Some (Done (mkLog (lg_file s) (lg_fileClosed s) None (lg_chClosed s) (LWrite i r)
                        (<[i := PAppend (AWaitResult r)]> (lg_procs s)) (lg_results s)))
      | _ => None
      end
  | _ => None
  end.

(** [runWriter]: one request, or the end of the closed channel. A write to a
    closed file fails. *)
Definition runWriter_step (e : log_event) (s : Log) : option (GoM Log) :=
  match e, lg_writer s with
  | LWork, LWrite i r =>
      let (err, f) :=
        if lg_fileClosed s then (Some (ErrStorage "failed to write record to WAL file"), lg_file s)
        else writeRecord r (lg_file s) in
      Some (Done (mkLog f (lg_fileClosed s) (lg_mu s) (lg_chClosed s) LReceive (lg_procs s)
                    (<[i := err]> (lg_results s))))
  | LStop, LReceive =>
      if lg_chClosed s
      then Some (Done (mkLog (lg_file s) (lg_fileClosed s) (lg_mu s) (lg_chClosed s) LStopped
                         (lg_procs s) (lg_results s)))
      else None
  | _, _ => None
  end.

Definition log_step (e : log_event) (s : Log) : option (GoM Log) :=
  match e with
  | LCall i r =>
      if bool_decide (lg_procs s !! i = None) then Some (Done (set_proc i (PAppend (ALock r)) s)) else None
  | LClose i =>
      if bool_decide (lg_procs s !! i = None) then Some (Done (set_proc i (PClose KLock) s)) else None
  | LLock i => lock_step i s
  | LHand i => hand_step i s
  | LWork | LStop => runWriter_step e s
  | LResult i =>
      match lg_procs s !! i, lg_results s !! i with
      | Some (PAppend (AWaitResult r)), Some err =>
          Some (Done (mkLog (lg_file s) (lg_fileClosed s) (lg_mu s) (lg_chClosed s) (lg_writer s)
                        (<[i := PAppend (AReturn r err)]> (lg_procs s)) (delete i (lg_results s))))
      | _, _ => None
      end
  | LWaited i =>
      match lg_procs s !! i, lg_writer s with
      | Some (PClose KWait), LStopped =>
          Some (Done (mkLog (lg_file s) true (lg_mu s) (lg_chClosed s) (lg_writer s)
                        (<[i := PClose KReturn]> (lg_procs s)) (lg_results s)))
      | _, _ => None
      end
  end.

Inductive lg_step (s s' : Log) : Prop :=
| lg_event e : log_step e s = Some (Done s') -> lg_step s s'.

(** ** The invariant *)

Record log_ok (s : Log) : Prop := {
  lk_chan : lg_chClosed s = fw_closed (lg_file s);
  lk_mu i : lg_mu s = Some i <-> exists r, lg_procs s !! i = Some (PAppend (ASend r));
  lk_open i : lg_mu s = Some i -> fw_closed (lg_file s) = false;
  lk_writing i r : lg_writer s = LWrite i r ->
    lg_procs s !! i = Some (PAppend (AWaitResult r)) /\ lg_results s !! i = None;
  lk_result i r : lg_procs s !! i = Some (PAppend (AWaitResult r)) ->
    lg_writer s = LWrite i r \/ is_Some (lg_results s !! i);
  lk_waiting i err : lg_results s !! i = Some err ->
    exists r, lg_procs s !! i = Some (PAppend (AWaitResult r));
  lk_stopped : lg_writer s = LStopped -> lg_chClosed s = true;
  lk_file : lg_fileClosed s = true -> lg_writer s = LStopped;
  lk_closer i : lg_procs s !! i = Some (PClose KWait) -> lg_chClosed s = true;
}.

Lemma startLog_ok f : fw_closed f = false -> log_ok (startLog f).
Proof. intros Hf. split; try done. intros i. by split; [|intros [r Hr]]. Qed.

(** A caller that neither holds the mutex nor waits for a result moves between
    such points. *)
Definition passive (p : option LogProc) : Prop :=
  match p with Some (PAppend (ASend _)) | Some (PAppend (AWaitResult _)) => False | _ => True end.

Lemma set_proc_ok i p s :
  log_ok s -> passive (lg_procs s !! i) -> passive (Some p) ->
  (p = PClose KWait -> lg_chClosed s = true) -> log_ok (set_proc i p s).
Proof.
  intros [H1 H2 H3 H4 H5 H6 H7 H8 H9] Ho Hp Hk. split; simpl; try done.
  - intros j. rewrite H2, lookup_insert. case_decide as Hj; [subst j|done].
    split; intros [r Hr]; [by rewrite Hr in Ho|]. injection Hr as ->. done.
  - intros j r Hw. destruct (H4 j r Hw) as [Hj Hr]. split; [|done].
    rewrite lookup_insert_ne; [done|]. intros ->. by rewrite Hj in Ho.
  - intros j r. rewrite lookup_insert. case_decide; [|apply H5]. by intros [= ->].
  - intros j err Hj. destruct (H6 j err Hj) as [r Hr]. exists r.
    rewrite lookup_insert_ne; [done|]. intros ->. by rewrite Hr in Ho.
  - intros j. rewrite lookup_insert. case_decide; [intros [= ->]; auto|apply H9].
Qed.

Lemma writeRecord_closed r f : fw_closed (writeRecord r f).2 = fw_closed f.
Proof. unfold writeRecord. by destruct (hd IoOk (fw_io f)). Qed.

Lemma lock_step_ok i s r :
  log_ok s -> lock_step i s = Some r -> exists s', r = Done s' /\ log_ok s'.
Proof.
  intros Hok H. pose proof Hok as [H1 H2 H3 H4 H5 H6 H7 H8 H9]. unfold lock_step in H.
  destruct (lg_procs s !! i) as [[pc|[| |]]|] eqn:Ei; try done; [destruct pc as [rec|rec|rec|rec err]; try done|];
    destruct (lg_mu s) eqn:Em; try done; injection H as <-; destruct (fw_closed (lg_file s)) eqn:Ec.
  - eexists. split; [done|]. apply set_proc_ok; try done. by rewrite Ei.
  - eexists. split; [done|]. split; simpl; try done.
    + congruence.
    + intros j. rewrite lookup_insert. case_decide as Hj; [subst; split; eauto|].
      rewrite <- H2. split; [congruence|done].
    + intros j r Hw. destruct (H4 j r Hw) as [Hj Hr]. split; [|done].
      rewrite lookup_insert_ne; [done|]. congruence.
    + intros j r. rewrite lookup_insert. case_decide; [done|apply H5].
    + intros j err Hj. destruct (H6 j err Hj) as [r Hr]. exists r.
      rewrite lookup_insert_ne; [done|]. congruence.
    + intros j. rewrite lookup_insert. case_decide; [done|apply H9].
  - eexists. split; [done|]. apply set_proc_ok; try done. by rewrite Ei.
  - rewrite H1. eexists. split; [done|].
    assert (fw_closed (file_Close (lg_file s)) = true) as Hcl by (unfold file_Close; by rewrite Ec).
    split; simpl; rewrite ?Hcl; try done.
    + intros j. rewrite lookup_insert. case_decide; [split; [done|by intros [r ?]]|apply H2].
    + intros j r Hw. destruct (H4 j r Hw) as [Hj Hr]. split; [|done].
      rewrite lookup_insert_ne; [done|]. congruence.
    + intros j r. rewrite lookup_insert. case_decide; [done|apply H5].
    + intros j err Hj. destruct (H6 j err Hj) as [r Hr]. exists r.
      rewrite lookup_insert_ne; [done|]. congruence.
Qed.

Lemma hand_step_ok i s r :
  log_ok s -> hand_step i s = Some r -> exists s', r = Done s' /\ log_ok s'.
Proof.
  intros Hok H. pose proof Hok as [H1 H2 H3 H4 H5 H6 H7 H8 H9]. unfold hand_step in H.
  destruct (lg_procs s !! i) as [[[rec|rec|rec|rec err]|]|] eqn:Ei; try done.
  assert (lg_mu s = Some i) as Hm by (apply H2; eauto).
  rewrite H1, (H3 i Hm) in H. destruct (lg_writer s) eqn:Ew; try done. injection H as <-.
  eexists. split; [done|]. split; simpl; try done.
  - by rewrite (H3 i Hm).
  - intros j. split; [done|]. intros [r Hr]. rewrite lookup_insert in Hr. case_decide; [done|].
    assert (lg_mu s = Some j) by (apply H2; eauto). congruence.
  - intros j r [= <- <-]. rewrite lookup_insert_eq. split; [done|].
    destruct (lg_results s !! i) as [x|] eqn:Ex; [|done]. destruct (H6 i x Ex). congruence.
  - intros j r. rewrite lookup_insert. case_decide; [intros [= <-]; subst; by left|].
    intros Hj. destruct (H5 j r Hj); [done|by right].
  - intros j x Hj. destruct (H6 j x Hj) as [r Hr]. rewrite lookup_insert. case_decide; eauto.
  - intros Hc. by apply H8 in Hc.
  - intros j. rewrite lookup_insert. case_decide; [done|]. intros Hj. by rewrite (H9 j Hj), (H3 i Hm) in H1.
Qed.

Lemma runWriter_step_ok e s r :
  log_ok s -> runWriter_step e s = Some r -> exists s', r = Done s' /\ log_ok s'.
Proof.
  intros Hok H. pose proof Hok as [H1 H2 H3 H4 H5 H6 H7 H8 H9]. unfold runWriter_step in H.
  destruct e; try done; destruct (lg_writer s) as [|i rec|] eqn:Ew; try done.
  - destruct (lg_fileClosed s) eqn:Ef; [by specialize (H8 eq_refl)|].
    destruct (H4 i rec eq_refl) as [Hi Hr].
    destruct (writeRecord rec (lg_file s)) as [err f] eqn:Ewr. injection H as <-.
    assert (fw_closed f = fw_closed (lg_file s)) as Hf.
    { rewrite <- (writeRecord_closed rec (lg_file s)), Ewr. done. }
    eexists. split; [done|]. split; simpl; rewrite ?Hf; try done.
    + intros j r Hj. rewrite lookup_insert. case_decide; [eauto|]. right. destruct (H5 j r Hj); [congruence|done].
    + intros j x. rewrite lookup_insert. case_decide; [subst; eauto|eauto].
  - destruct (lg_chClosed s) eqn:Ec; [|done]. injection H as <-. eexists. split; [done|].
    split; simpl; try done. intros j r Hj. destruct (H5 j r Hj); [done|by right].
Qed.

(** No step panics and every step keeps the invariant. *)
Lemma log_step_ok e s r : log_ok s -> log_step e s = Some r -> exists s', r = Done s' /\ log_ok s'.
Proof.
  intros Hok H. pose proof Hok as [H1 H2 H3 H4 H5 H6 H7 H8 H9].
  destruct e; unfold log_step in H;
    eauto using lock_step_ok, hand_step_ok, runWriter_step_ok.
  - case_bool_decide as Hi; [|done]. injection H as <-. eexists. split; [done|].
    apply set_proc_ok; try done. by rewrite Hi.
  - case_bool_decide as Hi; [|done]. injection H as <-. eexists. split; [done|].
    apply set_proc_ok; try done. by rewrite Hi.
  - destruct (lg_procs s !! i) as [[[rec|rec|rec|rec err]|]|] eqn:Ei; try done.
    destruct (lg_results s !! i) as [err|] eqn:Er; [|done]. injection H as <-.
    eexists. split; [done|]. split; simpl; try done.
    + intros j. rewrite H2, lookup_insert. case_decide; [subst|done]. split; intros [? ?]; congruence.
    + intros j r Hw. destruct (H4 j r Hw) as [Hj Hr]. assert (i <> j) by congruence.
      by rewrite lookup_insert_ne, lookup_delete_ne.
    + intros j r. rewrite lookup_insert. case_decide; [done|]. rewrite lookup_delete_ne by done. apply H5.
    + intros j x. rewrite lookup_delete_Some. intros [Hne Hj]. rewrite lookup_insert_ne by done. eauto.
    + intros j. rewrite lookup_insert. case_decide; [done|apply H9].
  - destruct (lg_procs s !! i) as [[|[| |]]|] eqn:Ei; try done.
    destruct (lg_writer s) eqn:Ew; try done. injection H as <-. eexists. split; [done|].
    split; simpl; rewrite ?Ew; try done.
    + intros j. rewrite H2, lookup_insert. case_decide; [subst|done]. split; intros [? ?]; congruence.
    + intros j r. rewrite lookup_insert. case_decide; [done|apply H5].
    + intros j x Hj. destruct (H6 j x Hj) as [r Hr]. exists r. rewrite lookup_insert_ne; [done|congruence].
    + intros j. rewrite lookup_insert. case_decide; [done|apply H9].
Qed.

Lemma lg_run_ok s s' : log_ok s -> rtc lg_step s s' -> log_ok s'.
Proof.
  intros Hok Hr. induction Hr as [|s s1 s' [e He] _ IH]; [done|]. apply IH.
  by destruct (log_step_ok _ _ _ Hok He) as (x & [= <-] & ?).
Qed.

(** ** One call after the other *)

(** A complete call, with its result. *)
Inductive log_call :=
| CallAppend (i : nat) (r : WalRecord) (err : option Err)
| CallClose.

(** A sequence of calls of the sequential log of [Wal.v]. *)
Inductive serial : FileWAL -> list log_call -> FileWAL -> Prop :=
| serial_nil f : serial f [] f
| serial_append f h f1 i r err f2 :
    serial f h f1 -> file_Append r f1 = (err, f2) -> serial f (h ++ [CallAppend i r err]) f2
| serial_close f h f1 : serial f h f1 -> serial f (h ++ [CallClose]) (file_Close f1).

(** The log a sequential observer sees: what the writer has in hand counts as
    written. *)
Definition abs_file (s : Log) : FileWAL :=
  match lg_writer s with LWrite _ r => (writeRecord r (lg_file s)).2 | _ => lg_file s end.

(** The result that a call has got or is bound to get. *)
Definition owed (s : Log) (i : nat) (r : WalRecord) (err : option Err) : Prop :=
  lg_procs s !! i = Some (PAppend (AReturn r err)) \/
  lg_procs s !! i = Some (PAppend (AWaitResult r)) /\
    (lg_results s !! i = Some err \/
     lg_writer s = LWrite i r /\ err = (writeRecord r (lg_file s)).1).

Definition appended (h : list log_call) : list nat :=
  omap (fun x => match x with CallAppend i _ _ => Some i | CallClose => None end) h.

(** [h] explains [s]: called one after the other, the calls of [h] give this log
    and these results; every append that has got its result or has its result
    coming is in [h], once, and no other is. *)
Record explains (f : FileWAL) (h : list log_call) (s : Log) : Prop := {
  ex_serial : serial f h (abs_file s);
  ex_owed i r err : CallAppend i r err ∈ h <-> owed s i r err;
  ex_once : NoDup (appended h);
}.

Lemma close_write r f : (writeRecord r (file_Close f)).2 = file_Close (writeRecord r f).2.
Proof.
  unfold file_Close. rewrite writeRecord_closed. destruct (fw_closed f) eqn:E; [done|].
  unfold writeRecord. simpl. by destruct (hd IoOk (fw_io f)).
Qed.

Lemma close_write_err r f : (writeRecord r (file_Close f)).1 = (writeRecord r f).1.
Proof. unfold file_Close. destruct (fw_closed f); [done|]. unfold writeRecord. simpl. by destruct (hd IoOk (fw_io f)). Qed.

(** A step that does not reach the log of the sequential observer. *)
Lemma explains_same f h s s' :
  explains f h s -> abs_file s' = abs_file s -> (forall i r err, owed s' i r err <-> owed s i r err) ->
  explains f h s'.
Proof. intros [H1 H2 H3] Ha Ho. split; [by rewrite Ha| |done]. intros i r err. by rewrite Ho. Qed.

Lemma explains_append f h s s' i r err :
  explains f h s -> file_Append r (abs_file s) = (err, abs_file s') ->
  (forall r' err', ~ owed s i r' err') ->
  (forall j r' err', owed s' j r' err' <-> owed s j r' err' \/ (j, r', err') = (i, r, err)) ->
  explains f (h ++ [CallAppend i r err]) s'.
Proof.
  intros [H1 H2 H3] Ha Hn Ho. split.
  - by eapply serial_append.
  - intros j r' err'. rewrite elem_of_app, list_elem_of_singleton, Ho, H2. naive_solver.
  - unfold appended. rewrite omap_app. apply NoDup_app. split_and!; [done| |apply NoDup_singleton].
    intros x Hx ->%list_elem_of_singleton. apply list_elem_of_omap in Hx as ([j r' err'|] & Hx & [= ->]).
    by apply (Hn r' err'), H2.
Qed.

(** Moving a caller that has no result coming changes nothing. *)
Definition resultless (p : option LogProc) : Prop :=
  match p with Some (PAppend (AWaitResult _)) | Some (PAppend (AReturn _ _)) => False | _ => True end.

Lemma owed_passive i p s s' j r err :
  lg_procs s' = <[i := p]> (lg_procs s) -> lg_results s' = lg_results s -> lg_writer s' = lg_writer s ->
  lg_file s' = lg_file s -> resultless (lg_procs s !! i) -> resultless (Some p) ->
  owed s' j r err <-> owed s j r err.
Proof.
  intros E1 E2 E3 E4 Ho Hp. unfold owed. rewrite E1, E2, E3, E4, lookup_insert.
  case_decide as Hij; [subst j|done].
  split; (intros [H|[H _]]; exfalso).
  - by injection H as ->.
  - by injection H as ->.
  - by rewrite H in Ho.
  - by rewrite H in Ho.
Qed.

(** Moving a caller from a point with no result to another, or to the return
    with the result of a sequential call. *)
Lemma explains_lock f h i s s' :
  log_ok s -> explains f h s -> lock_step i s = Some (Done s') ->
  exists new, explains f (h ++ new) s'.
Proof.
  intros Hok Hex H. pose proof Hok as [H1 H2 H3 H4 H5 H6 H7 H8 H9]. unfold lock_step in H.
  destruct (lg_procs s !! i) as [[pc|[| |]]|] eqn:Ei; try done; [destruct pc as [rec|rec|rec|rec err]; try done|];
    destruct (lg_mu s) eqn:Em; try done; destruct (fw_closed (lg_file s)) eqn:Ec.
  - injection H as <-. exists [CallAppend i rec (Some (ErrStorage "WAL closed"))].
    eapply explains_append; [done| | |].
    + unfold file_Append, abs_file. simpl. destruct (lg_writer s); rewrite ?writeRecord_closed, Ec; done.
    + intros r' err' [?|[? _]]; congruence.
    + intros j r' err'. unfold owed. simpl. rewrite lookup_insert. case_decide; [subst j|naive_solver].
      rewrite Ei. naive_solver.
  - injection H as <-. exists []. rewrite app_nil_r. eapply explains_same; [done|done|].
    intros j r err. eapply owed_passive; try done; by rewrite Ei.
  - injection H as <-. exists []. rewrite app_nil_r. eapply explains_same; [done|done|].
    intros j r err. eapply owed_passive; try done; by rewrite Ei.
  - rewrite H1 in H. injection H as <-. exists [CallClose]. destruct Hex as [E1 E2 E3]. split.
    + assert (abs_file (mkLog (file_Close (lg_file s)) (lg_fileClosed s) None true (lg_writer s)
        (<[i:=PClose KWait]> (lg_procs s)) (lg_results s)) = file_Close (abs_file s)) as ->.
      { unfold abs_file. simpl. destruct (lg_writer s); try done. apply close_write. }
      by apply serial_close.
    + intros j r err. rewrite elem_of_app, list_elem_of_singleton, E2. unfold owed. simpl.
      rewrite lookup_insert, close_write_err. case_decide; [subst j; rewrite Ei; naive_solver|naive_solver].
    + unfold appended. rewrite omap_app. simpl. by rewrite app_nil_r.
Qed.

(** The hand-over is the moment at which an append takes effect. *)
Lemma explains_hand f h i s s' :
  log_ok s -> explains f h s -> hand_step i s = Some (Done s') ->
  exists new, explains f (h ++ new) s'.
Proof.
  intros [H1 H2 H3 H4 H5 H6 H7 H8 H9] Hex H. unfold hand_step in H.
  destruct (lg_procs s !! i) as [[[rec|rec|rec|rec err]|]|] eqn:Ei; try done.
  assert (lg_mu s = Some i) as Hm by (apply H2; eauto). pose proof (H3 i Hm) as Hc.
  rewrite H1, Hc in H. destruct (lg_writer s) eqn:Ew; try done. injection H as <-.
  exists [CallAppend i rec (writeRecord rec (lg_file s)).1]. eapply explains_append; [done| | |].
  - unfold file_Append, abs_file. simpl. rewrite Ew, Hc. apply surjective_pairing.
  - intros r' err' [?|[? _]]; congruence.
  - intros j r' err'. unfold owed. simpl. rewrite lookup_insert, Ew. case_decide; [subst j|naive_solver].
    assert (lg_results s !! i = None) as ->.
    { destruct (lg_results s !! i) as [x|] eqn:Ex; [|done]. destruct (H6 i x Ex). congruence. }
    rewrite Ei. naive_solver.
Qed.

Lemma explains_writer f h e s s' :
  log_ok s -> explains f h s -> runWriter_step e s = Some (Done s') -> explains f h s'.
Proof.
  intros [H1 H2 H3 H4 H5 H6 H7 H8 H9] Hex H. unfold runWriter_step in H.
  destruct e; try done; destruct (lg_writer s) as [|i rec|] eqn:Ew; try done.
  - destruct (lg_fileClosed s) eqn:Ef; [by specialize (H8 eq_refl)|].
    destruct (H4 i rec eq_refl) as [Hi Hr].
    destruct (writeRecord rec (lg_file s)) as [err f1] eqn:Ewr. injection H as <-.
    eapply explains_same; [done|unfold abs_file; simpl; by rewrite Ew, Ewr|].
    intros j r' err'. unfold owed. simpl. rewrite lookup_insert, Ew.
    case_decide as Hj.
    { subst j. rewrite Hi, Hr. split; (intros [?|[[= <-] Hx]]; [done|right; split; [done|]]).
      - destruct Hx as [[= <-]|[? _]]; [|done]. right. by rewrite Ewr.
      - destruct Hx as [?|[_ ->]]; [done|]. left. by rewrite Ewr. }
    split; (intros [?|[? Hx]]; [by left|right; split; [done|]]); destruct Hx as [?|[? ?]]; [by left|done|by left|].
    congruence.
  - destruct (lg_chClosed s) eqn:Ec; [|done]. injection H as <-.
    eapply explains_same; [done|unfold abs_file; simpl; by rewrite Ew|].
    intros j r' err'. unfold owed. simpl. rewrite Ew. naive_solver.
Qed.

Lemma explains_step f h s s' :
  log_ok s -> explains f h s -> lg_step s s' -> exists new, explains f (h ++ new) s'.
Proof.
  intros Hok Hex [e H]. pose proof Hok as [H1 H2 H3 H4 H5 H6 H7 H8 H9].
  assert (explains f h s' -> exists new, explains f (h ++ new) s') as Hsame.
  { intros. exists []. by rewrite app_nil_r. }
  destruct e; unfold log_step in H; eauto using explains_lock, explains_hand, explains_writer.
  - apply Hsame. case_bool_decide as Hi; [|done]. injection H as <-.
    eapply explains_same; [done|done|]. intros j r' err. eapply owed_passive; try done. by rewrite Hi.
  - apply Hsame. case_bool_decide as Hi; [|done]. injection H as <-.
    eapply explains_same; [done|done|]. intros j r' err. eapply owed_passive; try done. by rewrite Hi.
  - apply Hsame. destruct (lg_procs s !! i) as [[[rec|rec|rec|rec err]|]|] eqn:Ei; try done.
    destruct (lg_results s !! i) as [err|] eqn:Er; [|done]. injection H as <-.
    eapply explains_same; [done|done|]. intros j r' err'. unfold owed. simpl. rewrite lookup_insert.
    case_decide as Hj; [subst j|by rewrite lookup_delete_ne]. rewrite lookup_delete_eq, Ei, Er.
    split; [intros [[= -> ->]|[? _]]; [right; eauto|done]|].
    intros [?|[[= ->] [[= ->]|[Hw _]]]]; [done|by left|]. destruct (H4 _ _ Hw). congruence.
  - apply Hsame. destruct (lg_procs s !! i) as [[|[| |]]|] eqn:Ei; try done.
    destruct (lg_writer s) eqn:Ew; try done. injection H as <-.
    eapply explains_same; [done|unfold abs_file; simpl; by rewrite Ew|].
    intros j r' err. eapply owed_passive; try done; by rewrite ?Ei.
Qed.

Lemma explains_run f h s s' :
  log_ok s -> explains f h s -> rtc lg_step s s' -> exists new, explains f (h ++ new) s'.
Proof.
  intros Hok Hex Hr. revert h Hok Hex. induction Hr as [s|s s1 s' Hs _ IH]; intros h Hok Hex.
  { exists []. by rewrite app_nil_r. }
  destruct (explains_step f h s s1 Hok Hex Hs) as [n1 H1].
  destruct (IH (h ++ n1)) as [n2 H2]; [by eapply lg_run_ok, rtc_once|done|].
  exists (n1 ++ n2). by rewrite app_assoc.
Qed.

Lemma explains_start f : explains f [] (startLog f).
Proof.
  split; [apply serial_nil| |apply NoDup_nil_2]. intros i r err. split; [by intros ?%not_elem_of_nil|].
  unfold owed. simpl. naive_solver.
Qed.

(** ** The theorems *)

(** C11: [Append] and [Close] take effect one at a time. However any number of
    goroutines append and close at once, through the mutex, the channel and the
    writer, there is an order of their calls, growing only at its end as the run
    goes on, in which the sequential log of the engine's proofs gives the same
    file and every caller the same result; an append has its place in the order
    exactly when it has its result or the result is on its way, and only once.
    When the writer is at rest the file is that log. *)
Theorem log_is_sequential f s :
  fw_closed f = false -> rtc lg_step (startLog f) s ->
  exists h, serial f h (abs_file s) /\ NoDup (appended h) /\
    (forall i r err, lg_procs s !! i = Some (PAppend (AReturn r err)) -> CallAppend i r err ∈ h) /\
    (forall i r err, CallAppend i r err ∈ h -> owed s i r err) /\
    ((forall i r, lg_writer s <> LWrite i r) -> abs_file s = lg_file s) /\
    (forall s', rtc lg_step s s' -> exists new, serial f (h ++ new) (abs_file s') /\
       forall i r err, lg_procs s' !! i = Some (PAppend (AReturn r err)) -> CallAppend i r err ∈ h ++ new).
Proof.
  intros Hf Hrun. pose proof (lg_run_ok _ _ (startLog_ok f Hf) Hrun) as Hok.
  destruct (explains_run f [] _ _ (startLog_ok f Hf) (explains_start f) Hrun) as [h Hex]. simpl in Hex.
  exists h. pose proof Hex as [H1 H2 H3]. split_and!; try done.
  - intros i r err Hi. apply H2. by left.
  - intros i r err. apply H2.
  - unfold abs_file. destruct (lg_writer s) as [|i r|]; try done. intros Hw. by destruct (Hw i r).
  - intros s' Hr. destruct (explains_run f h s s' Hok Hex Hr) as [new [E1 E2 E3]]. exists new.
    split; [done|]. intros i r err Hi. apply E2. by left.
Qed.

(** A caller that has not returned. *)
Definition unfinished (p : LogProc) : bool :=
  match p with PAppend (AReturn _ _) | PClose KReturn => false | _ => true end.

(** The steps the goroutines make by themselves. *)
Definition internal (e : log_event) : bool := match e with LCall _ _ | LClose _ => false | _ => true end.

Lemma log_progress s i p :
  log_ok s -> lg_procs s !! i = Some p -> unfinished p = true ->
  exists e r, internal e = true /\ log_step e s = Some r.
Proof.
  intros [H1 H2 H3 H4 H5 H6 H7 H8 H9] Hi Hp.
  destruct (lg_writer s) as [|j rec|] eqn:Ew.
  2: { exists LWork. simpl. rewrite Ew. by destruct (if lg_fileClosed s then _ else _); eexists. }
  all: destruct (lg_mu s) as [j|] eqn:Em.
  - destruct (proj1 (H2 j) eq_refl) as [rec Hj]. exists (LHand j). simpl. unfold hand_step.
    rewrite Hj, H1, (H3 j eq_refl), Ew. by eexists.
  - destruct p as [[rec|rec|rec|rec err]|[| |]]; try done.
    + exists (LLock i). simpl. unfold lock_step. rewrite Hi, Em. by eexists.
    + discriminate (proj2 (H2 i) (ex_intro _ rec Hi)).
    + destruct (H5 i rec Hi) as [?|[x Hx]]; [done|]. exists (LResult i). simpl. rewrite Hi, Hx. by eexists.
    + exists (LLock i). simpl. unfold lock_step. rewrite Hi, Em. by eexists.
    + exists LStop. simpl. rewrite Ew, (H9 i Hi). by eexists.
  - rewrite H1, (H3 j eq_refl) in H7. by specialize (H7 eq_refl).
  - destruct p as [[rec|rec|rec|rec err]|[| |]]; try done.
    + exists (LLock i). simpl. unfold lock_step. rewrite Hi, Em. by eexists.
    + discriminate (proj2 (H2 i) (ex_intro _ rec Hi)).
    + destruct (H5 i rec Hi) as [?|[x Hx]]; [done|]. exists (LResult i). simpl. rewrite Hi, Hx. by eexists.
    + exists (LLock i). simpl. unfold lock_step. rewrite Hi, Em. by eexists.
    + exists (LWaited i). simpl. rewrite Hi, Ew. by eexists.
Qed.

Lemma closed_file_stays s s' :
  log_ok s -> lg_fileClosed s = true -> lg_step s s' ->
  lg_fileClosed s' = true /\ lg_file s' = lg_file s.
Proof.
  intros [H1 H2 H3 H4 H5 H6 H7 H8 H9] Hf [e H]. pose proof (H8 Hf) as Hw.
  assert (fw_closed (lg_file s) = true) as Hc by (rewrite <- H1; by apply H7).
  destruct e; simpl in H; unfold lock_step, hand_step in H; rewrite ?Hw, ?Hc, ?H1 in H;
    repeat case_match; by simplify_eq/=.
Qed.

(** C32: The hand-over neither panics nor deadlocks, and [Close] drains it. No
    step of a run sends on the closed channel or closes it twice; while a call of
    [Append] or [Close] has not returned, some goroutine can make a step; and
    once [Close] has closed the file, the writer has stopped, every request
    handed over before has been written, and the file does not change again. *)
Theorem log_hand_over_safe f s :
  fw_closed f = false -> rtc lg_step (startLog f) s ->
  (forall e r, log_step e s = Some r -> exists s', r = Done s') /\
  (forall i p, lg_procs s !! i = Some p -> unfinished p = true ->
     exists e s', log_step e s = Some (Done s') /\ (forall j r, e <> LCall j r) /\ (forall j, e <> LClose j)) /\
  (lg_fileClosed s = true -> lg_writer s = LStopped /\ abs_file s = lg_file s /\
     forall s', rtc lg_step s s' -> lg_file s' = lg_file s).
Proof.
  intros Hf Hrun. pose proof (lg_run_ok _ _ (startLog_ok f Hf) Hrun) as Hok. split_and!.
  - intros e r He. destruct (log_step_ok e s r Hok He) as (s' & -> & _). by exists s'.
  - intros i p Hi Hp. destruct (log_progress s i p Hok Hi Hp) as (e & r & Hint & He).
    destruct (log_step_ok e s r Hok He) as (s' & -> & _). exists e, s'.
    split_and!; [done|by intros j r ->|by intros j ->].
  - intros Hc. pose proof (lk_file _ Hok Hc) as Hw. split_and!; [done|unfold abs_file; by rewrite Hw|].
    clear Hrun Hw. intros s' Hr. induction Hr as [|s s1 s' Hs _ IH]; [done|].
    destruct (closed_file_stays _ _ Hok Hc Hs) as [Hc1 Hf1]. rewrite <- Hf1.
    apply IH; [by eapply lg_run_ok, rtc_once|done].
Qed.

(** ** Two appends and a close at once *)

Fixpoint log_script (es : list log_event) (s : Log) : option Log :=
  match es with
  | [] => Some s
  | e :: es => match log_step e s with Some (Done s) => log_script es s | _ => None end
  end.

Lemma log_script_runs es s s' : log_script es s = Some s' -> rtc lg_step s s'.
Proof.
  revert s. induction es as [|e es IH]; intros s H; simpl in H; [by injection H as <-|].
  destruct (log_step e s) as [[s1| |]|] eqn:E; try done. eapply rtc_l; [by eapply lg_event|by apply IH].
Qed.

Definition demo_record (q : string) : WalRecord := rec_queue QueueCreated q.

(** The first append is handed over, the log is closed, the second is refused,
    and the writer finishes the first. *)
Definition closing_calls : list log_event :=
  [LCall 1 (demo_record "a"); LCall 2 (demo_record "b"); LClose 3; LLock 1; LHand 1;
   LLock 3; LLock 2; LWork; LStop; LWaited 3; LResult 1].
Definition closing_log : Log :=
  default (startLog (NewFileWAL [] [])) (log_script closing_calls (startLog (NewFileWAL [] []))).

Lemma closing_log_run : rtc lg_step (startLog (NewFileWAL [] [])) closing_log.
Proof. apply (log_script_runs closing_calls). vm_compute. reflexivity. Qed.

Lemma log_is_sequential_witness :
  exists h, serial (NewFileWAL [] []) h (abs_file closing_log) /\
    CallAppend 1 (demo_record "a") None ∈ h /\
    CallAppend 2 (demo_record "b") (Some (ErrStorage "WAL closed")) ∈ h.
Proof.
  destruct (log_is_sequential (NewFileWAL [] []) closing_log eq_refl closing_log_run)
    as (h & H1 & _ & H2 & _).
  exists h. split; [exact H1|]. split; apply H2; vm_compute; reflexivity.
Defined.

Lemma log_hand_over_safe_witness :
  lg_writer closing_log = LStopped /\ fw_docs (lg_file closing_log) = [record_doc (demo_record "a")].
Proof.
  destruct (log_hand_over_safe (NewFileWAL [] []) closing_log eq_refl closing_log_run) as (_ & _ & H).
  split; [|vm_compute; reflexivity]. apply H. vm_compute. reflexivity.
Defined.
