(* ===== verification/Cmd.v ===== *)
(** The command line of [cmd/dsend]: the flags as the package [flag] parses
    them, the client commands over the methods of [Client.v], and [main]. What
    a command prints is part of its result. *)

From Stdlib Require Import Ascii.
From stdpp Require Import pretty.
From S2P Require Import Prelude GoStrings Model Utf8 Rfc3339 Protocol Client.

(** ** Package [flag] *)

(** A flag has a string or a duration; a flag set maps the names to values,
    first the defaults. *)
Inductive flag_value :=
| FString (s : string)
| FDuration (d : Z).

Abbreviation FlagSet := (gmap string flag_value).

(** [Parse] under [flag.ExitOnError]: the flags with the remaining arguments, or
    the end of the process, with the usage for [-h] and with an error message
    otherwise. *)
Inductive parse_result :=
| Parsed (flags : FlagSet) (rest : list string)
| ExitHelp
| ExitUsage.

Definition equals_sign : ascii := "="%char.
Definition minus_sign : ascii := "-"%char.

(** The name and the value of [name=value]; the name is not empty and does not
    start with [=]. *)
Fixpoint split_value (s : string) : string * option string :=
  match s with
  | EmptyString => ("", None)
  | String c rest =>
      if bool_decide (c = equals_sign) then ("", Some rest)
      else let (name, value) := split_value rest in (String c name, value)
  end.

(** What an argument is: the end of the flags (kept or, for [--], dropped), a
    malformed flag, or a flag. *)
Inductive arg_kind :=
| ArgPlain
| ArgTerminator
| ArgBad
| ArgFlag (name : string) (value : option string).

Definition flag_name (name : string) : arg_kind :=
  match name with
  | EmptyString => ArgBad
  | String c _ =>
      if bool_decide (c = minus_sign) || bool_decide (c = equals_sign) then ArgBad
      else let (name, value) := split_value name in ArgFlag name value
  end.

Definition classify (s : string) : arg_kind :=
  match s with
  | String c (String d rest) =>
      if bool_decide (c = minus_sign) then
        if bool_decide (d = minus_sign) then
          match rest with EmptyString => ArgTerminator | _ => flag_name rest end
        else flag_name (String d rest)
      else ArgPlain
  | _ => ArgPlain
  end.

Section Flags.
(** [time.ParseDuration], which computes fractions in floating point. *)
Context (ParseDuration : string -> option Z).

(** [flag.Value.Set] *)
Definition set_flag (name value : string) (fs : FlagSet) : parse_result + FlagSet :=
  match fs !! name with
  | None =>
      inl (if bool_decide (name = "help") || bool_decide (name = "h") then ExitHelp else ExitUsage)
  | Some (FString _) => inr (<[name := FString value]> fs)
  | Some (FDuration _) =>
      match ParseDuration value with
      | Some d => inr (<[name := FDuration d]> fs)
      | None => inl ExitUsage
      end
  end.

(** No flag of the program is boolean, so a flag without [=] takes the next
    argument. *)
Fixpoint Parse (fs : FlagSet) (args : list string) : parse_result :=
  match args with
  | [] => Parsed fs []
  | arg :: rest =>
      match classify arg with
      | ArgPlain => Parsed fs (arg :: rest)
      | ArgTerminator => Parsed fs rest
      | ArgBad => ExitUsage
      | ArgFlag name (Some value) =>
          match set_flag name value fs with
          | inl exit => exit
          | inr fs => Parse fs rest
          end
      | ArgFlag name None =>
          match fs !! name, rest with
          | None, _ =>
              match set_flag name "" fs with inl exit => exit | inr fs => Parsed fs rest end
          | Some _, [] => ExitUsage
          | Some _, value :: rest =>
              match set_flag name value fs with
              | inl exit => exit
              | inr fs => Parse fs rest
              end
          end
      end
  end.

Definition string_flag (name : string) (fs : FlagSet) : string :=
  match fs !! name with Some (FString s) => s | _ => "" end.
Definition duration_flag (name : string) (fs : FlagSet) : Z :=
  match fs !! name with Some (FDuration d) => d | _ => 0 end.

(** ** Commands *)

Definition default_addr : string := "127.0.0.1:8080".
Definition space : ascii := " "%char.

(** A command returns with what it printed, returns an error, or ends the
    process. *)
Inductive cmd_result :=
| CmdOk (printed : list string)
| CmdErr (printed : list string) (err : ClientErr)
| CmdExit (code : Z).

(** What the process meets: how [net.Dial] ended, the new client's identifier,
    and the errors of the context before and after a call. *)
Record CmdEnv := mkCmdEnv {
  ce_dial : option string;
  ce_id : string;
  ce_before : option string;
  ce_after : option string;
}.

(** The flags of a command, then the command. *)
Definition with_flags {A} (fs : FlagSet) (args : list string) (exit : Z -> A)
    (k : FlagSet -> list string -> A) : A :=
  match Parse fs args with
  | Parsed fs rest => k fs rest
  | ExitHelp => exit 0
  | ExitUsage => exit 2
  end.

Section Commands.
Context {Htime : TimeText} {T : Type} (net : json -> T -> net_result * T).

(** A producer for one call, closed at the end. *)
Definition with_producer {A} (env : CmdEnv) (call : Client -> T -> (A + ClientErr) * Client * T)
    (print : A -> list string) (t : T) : cmd_result * T :=
  match NewProducer (ce_dial env) (ce_id env) with
  | inr err => (CmdErr [] (NetErr err), t)
  | inl c =>
      let '(r, _, t) := call c t in
      (match r with inl a => CmdOk (print a) | inr err => CmdErr [] err end, t)
  end.

Definition fails (what : string) (t : T) : cmd_result * T := (CmdErr [] (TextErr what), t).
Definition says (line : string) {A} (_ : A) : list string := [line].

(** [fmt.Println] of a label and a slice of strings. *)
Definition print_list (label : string) (l : list string) : list string :=
  [label +:+ " [" +:+ strings_Join space l +:+ "]"].

Definition missing_three : string :=
  "missing required <exchangeName>, <queueName>, and <bindingKey> positional arguments".

Definition runQueue (env : CmdEnv) (args : list string) (t : T) : cmd_result * T :=
  with_flags {["addr" := FString default_addr]} args (fun code => (CmdExit code, t)) (fun _ rest =>
  match rest with
  | [] => fails "expected 'create', 'delete', or 'list' subcommand" t
  | cmd :: rest =>
      if bool_decide (cmd = "create") then
        match rest with
        | [] => fails "missing required <name> positional argument" t
        | _ => with_producer env (Producer_CreateQueue net (ce_before env) (ce_after env) (strings_Join space rest))
                 (says "Queue created successfully") t
        end
      else if bool_decide (cmd = "delete") then
        match rest with
        | [] => fails "missing required <name> positional argument" t
        | _ => with_producer env (Producer_DeleteQueue net (ce_before env) (ce_after env) (strings_Join space rest))
                 (says "Queue deleted successfully") t
        end
      else if bool_decide (cmd = "list") then
        with_producer env (Producer_ListQueues net (ce_before env) (ce_after env)) (print_list "Queues:") t
      else if bool_decide (cmd = "bind") then
        match rest with
        | exchangeName :: queueName :: ((_ :: _) as key) =>
            with_producer env (Producer_BindQueue net (ce_before env) (ce_after env) exchangeName queueName
              (strings_Join space key)) (says "Queue bounded successfully") t
        | _ => fails missing_three t
        end
      else if bool_decide (cmd = "unbind") then
        match rest with
        | exchangeName :: queueName :: ((_ :: _) as key) =>
            with_producer env (Producer_UnbindQueue net (ce_before env) (ce_after env) exchangeName queueName
              (strings_Join space key)) (says "Queue unbounded successfully") t
        | _ => fails missing_three t
        end
      else fails "invalid argument" t
  end).

Definition runExchange (env : CmdEnv) (args : list string) (t : T) : cmd_result * T :=
  with_flags {["addr" := FString default_addr]} args (fun code => (CmdExit code, t)) (fun _ rest =>
  match rest with
  | [] => fails "expected 'create', 'delete', or 'list' subcommand" t
  | cmd :: rest =>
      if bool_decide (cmd = "create") then
        match rest with
        | exchangeName :: exchangeType :: _ =>
            with_producer env (Producer_CreateExchange net (ce_before env) (ce_after env) exchangeName exchangeType)
              (says "Exchange created successfully") t
        | _ => fails "missing required <name> and <type> positional arguments" t
        end
      else if bool_decide (cmd = "delete") then
        match rest with
        | [] => fails "missing required <name> argument" t
        | _ => with_producer env (Producer_DeleteExchange net (ce_before env) (ce_after env)
                 (strings_Join space rest)) (says "Exchange deleted successfully") t
        end
      else if bool_decide (cmd = "list") then
        with_producer env (Producer_ListExchanges net (ce_before env) (ce_after env)) (print_list "Exchanges:") t
      else fails "invalid argument" t
  end).

Definition publish_flags : FlagSet :=
  <["exchange" := FString "default"]> (<["ttl" := FDuration 0]>
    (<["routing-key" := FString "default"]> {["addr" := FString default_addr]})).

Definition runPublish (env : CmdEnv) (args : list string) (t : T) : cmd_result * T :=
  with_flags publish_flags args (fun code => (CmdExit code, t)) (fun fs rest =>
  if bool_decide (duration_flag "ttl" fs < 0) then fails "error: --ttl cannot be negative" t
  else match rest with
  | [] => fails "missing required <payload> positional argument" t
  | _ =>
      with_producer env (Producer_Publish net (ce_before env) (ce_after env) (string_flag "exchange" fs)
        (string_flag "routing-key" fs) (strings_Join space rest) (duration_flag "ttl" fs))
        (says "Message Sent successfully") t
  end).

(** [printQueueMetrics]: the lines of its one format. *)
Definition printQueueMetrics (m : QueueMetric) : list string :=
  let metric := qm_Metric m in
  [""; "Queue: " +:+ qm_Name m; ""; "ProducedCount: " +:+ pretty (ProducedCount metric);
   "QueueDepth: " +:+ pretty (QueueDepth metric); "InflightCount: " +:+ pretty (InflightCount metric);
   "DlqCount: " +:+ pretty (DlqCount metric);
   "ConsumerSessionCount: " +:+ pretty (ConsumerSessionCount metric);
   "AckedCount: " +:+ pretty (AckedCount metric);
   "RedeliveredCount: " +:+ pretty (RedeliveredCount metric)].

Definition runMetrics (env : CmdEnv) (args : list string) (t : T) : cmd_result * T :=
  with_flags (<["queue" := FString ""]> {["addr" := FString default_addr]}) args
    (fun code => (CmdExit code, t)) (fun fs _ =>
  let queueName := string_flag "queue" fs in
  if bool_decide (queueName <> "") then
    with_producer env (Producer_QueueMetrics net (ce_before env) (ce_after env) queueName) printQueueMetrics t
  else
    with_producer env (Producer_Metrics net (ce_before env) (ce_after env))
      (fun m => mjoin (printQueueMetrics <$> Queues m)) t).

End Commands.

(** ** The subscriber *)

(** A round of the loop: whether the context has ended at its [select], what
    [Receive] meets, and the error of writing the acknowledgement. *)
Record Round := mkRound {
  rd_done : bool;
  rd_before : option string;
  rd_after : option string;
  rd_fired : bool;
  rd_read : json + string;
  rd_ackErr : option string;
}.

(** [None]: the loop runs on. With the lines printed and the tokens
    acknowledged, in order. *)
Fixpoint subscribe_loop `{TimeText} (rounds : list Round) (c : Client)
    : option (option ClientErr) * list string * list string :=
  match rounds with
  | [] => (None, [], [])
  | rd :: rounds =>
      if rd_done rd then (Some None, [], [])
      else
        let (msg, c) := Consumer_Receive (rd_before rd) (rd_after rd) (rd_fired rd) (rd_read rd) c in
        match msg with
        | inr err => (Some (Some err), [], [])
        | inl msg =>
            let line := "Received message: " +:+ rm_Payload msg in
            let (err, c) := Consumer_Ack (rm_AckToken msg) (rd_ackErr rd) c in
            match err with
            | Some err => (Some (Some err), [line], [])
            | None =>
                let '(r, printed, acked) := subscribe_loop rounds c in
                (r, line :: printed, rm_AckToken msg :: acked)
            end
        end
  end.

(** [subErr]: the error of writing the subscription. [None]: still running. *)
Definition runSubscribe `{TimeText} (env : CmdEnv) (args : list string) (subErr : option string)
    (rounds : list Round) : option cmd_result * list string :=
  with_flags (<["queue" := FString "default"]> {["addr" := FString default_addr]}) args
    (fun code => (Some (CmdExit code), [])) (fun fs _ =>
  let first := "Initializing subscription client..." in
  match NewConsumer (ce_dial env) (ce_id env) with
  | inr err => (Some (CmdErr [first] (NetErr err)), [])
  | inl c =>
      let (err, c) := Consumer_Subscribe (string_flag "queue" fs) subErr c in
      match err with
      | Some err => (Some (CmdErr [first] err), [])
      | None =>
          let '(r, printed, acked) := subscribe_loop rounds c in
          (match r with
           | None => None
           | Some None => Some (CmdOk (first :: printed))
           | Some (Some err) => Some (CmdErr (first :: printed) err)
           end, acked)
      end
  end).

End Flags.

(** ** [main] *)

Inductive Command := CServer | CPublish | CSubscribe | CMetrics | CQueue | CExchange | CVersion.

Definition command_of (name : string) : option Command :=
  if bool_decide (name = "server") then Some CServer
  else if bool_decide (name = "publish") then Some CPublish
  else if bool_decide (name = "subscribe") then Some CSubscribe
  else if bool_decide (name = "metrics") then Some CMetrics
  else if bool_decide (name = "queue") then Some CQueue
  else if bool_decide (name = "exchange") then Some CExchange
  else if bool_decide (name = "version") then Some CVersion
  else None.

(** [log.Fatal] on an error. *)
Definition exit_code (r : cmd_result) : Z :=
  match r with CmdOk _ => 0 | CmdErr _ _ => 1 | CmdExit code => code end.

(** The exit code of the process; [run] runs a command on its arguments. *)
Definition main (run : Command -> list string -> cmd_result) (argv : list string) : Z :=
  match argv with
  | _ :: name :: args => match command_of name with Some c => exit_code (run c args) | None => 1 end
  | _ => 1
  end.
