(* ===== verification/Process.v ===== *)
(** The process of [dsend server] ([cmd/dsend/server.go]) from its command line
    to its exit, and a log that several processes use one after the other:
    [runServer] parses its flags, opens the log, recovers the broker and serves;
    after [Start] has returned it shuts the broker down, waits for the goroutines
    of the queues and closes the log. A process that serves or stops may also be
    killed between two steps. In both cases the next one starts on the file that
    is left. *)

From S2P Require Import Prelude GoStrings Model RingBuffer Inflight Exchange Wal QueueRuntime.
From S2P Require Import System QueueSpec QueueInv RoundRobin QueueRefine QueueDeliver.
From S2P Require Import Redelivery SystemInv QueueCases Broker Topology BrokerInv Recovery.
From S2P Require Import BrokerTheorems Frame Engine EngineInv EngineCalls EngineTheorems Drain.
From S2P Require Import Utf8 Rfc3339 Protocol Handler HandlerInv Consumers TcpServer ServerInv.
From S2P Require Import ServerTheorems ServerRuns Client Cmd.

(** ** A disk that works *)

Section Steady.
Context {W : Type} `{!WAL W} {Hrange : MapRange}.
Context (steady : W -> Prop).
Hypothesis steady_append : forall r w, steady w -> exists w', Append r w = (None, w') /\ steady w'.
Implicit Types (b : InMemoryBroker W).

Definition steady_broker b : Prop := steady (w_wal (b_world b)).

Lemma broker_append_steady r b :
  steady_broker b -> exists b', broker_append r b = (None, b') /\ steady_broker b'.
Proof.
  intros Hs. unfold broker_append. destruct (steady_append r _ Hs) as (w' & -> & Hw). by eexists.
Qed.

Lemma validateBindingKey_storage k : storage_error (validateBindingKey k) = false.
Proof.
  unfold validateBindingKey. case_match; [done|]. generalize (Z.of_nat (length (strings_Split dot k)) - 1).
  intros last. generalize 0. induction (strings_Split dot k) as [|sg l IH]; intros i; simpl; [done|].
  repeat case_match; try done; apply IH.
Qed.

Lemma BindQueue_steady e q k b err b' :
  BindQueue e q k b = (err, b') -> steady_broker b -> storage_error err = false /\ steady_broker b'.
Proof.
  intros H Hs. unfold BindQueue in H. pose proof (validateBindingKey_storage k) as Hk.
  destruct (validateBindingKey k); [by simplify_eq|].
  destruct (b_exchanges b !! e) as [x|]; [|by simplify_eq]. destruct (b_queues b !! q); [|by simplify_eq].
  destruct (Bind k q x) as [er x'] eqn:Eb.
  assert (storage_error er = false) as Her.
  { unfold Bind, base_Bind in Eb. destruct (checkBindingExists _ _ _); by simplify_eq/=. }
  destruct er; [by simplify_eq|].
  destruct (broker_append_steady (rec_binding QueueBinded e q k)
    (set_b_exchanges (<[e := x']> (b_exchanges b)) b) Hs) as (b1 & E1 & H1).
  rewrite E1 in H. by simplify_eq.
Qed.

Lemma CreateExchange_steady e t b err b' :
  CreateExchange e t b = (err, b') -> steady_broker b -> storage_error err = false /\ steady_broker b'.
Proof.
  intros H Hs. unfold CreateExchange in H.
  destruct (validateExchangeName e) as [x|] eqn:En.
  { unfold validateExchangeName in En. repeat case_match; by simplify_eq. }
  destruct (validateExchangeType t) as [ty|x] eqn:Et.
  2: { unfold validateExchangeType in Et. repeat case_match; by simplify_eq. }
  destruct (b_exchanges b !! e); [by simplify_eq|].
  destruct (broker_append_steady (rec_exchange ExchangeCreated e t) b Hs) as (b1 & E1 & H1).
  rewrite E1 in H. by simplify_eq.
Qed.

Lemma recover_bindings_steady e bs b err b' :
  recover_bindings e bs b = (err, b') -> steady_broker b -> storage_error err = false /\ steady_broker b'.
Proof.
  revert b. induction bs as [|x bs IH]; simpl; intros b H Hs; [by simplify_eq|].
  destruct (BindQueue _ _ _ b) as [er b1] eqn:Eb. destruct (BindQueue_steady _ _ _ _ _ _ Eb Hs).
  destruct er; [by simplify_eq|]. by eapply IH.
Qed.

Lemma recover_exchanges_steady es b err b' :
  recover_exchanges es b = (err, b') -> steady_broker b -> storage_error err = false /\ steady_broker b'.
Proof.
  revert b. induction es as [|[e st] es IH]; simpl; intros b H Hs; [by simplify_eq|].
  destruct (CreateExchange _ _ b) as [er b1] eqn:Ec. destruct (CreateExchange_steady _ _ _ _ _ Ec Hs).
  destruct er; [by simplify_eq|].
  destruct (recover_bindings _ _ b1) as [er b2] eqn:Eb.
  destruct (recover_bindings_steady _ _ _ _ _ Eb H1). destruct er; [by simplify_eq|]. by eapply IH.
Qed.

Lemma newQueueRuntime_world n ms b p b' : newQueueRuntime n ms b = Done (p, b') -> b_world b' = b_world b.
Proof. unfold newQueueRuntime. intros H. go_inv H. by simplify_eq. Qed.

Lemma recover_queues_world qs b b' : recover_queues qs b = Done b' -> b_world b' = b_world b.
Proof.
  revert b. induction qs as [|[n ms] qs IH]; simpl; intros b H; [by simplify_eq|]. go_inv H.
  apply IH in H. simpl in H. rewrite H. by eapply newQueueRuntime_world.
Qed.

(** Recovery of a log that can be loaded fails on the disk only if an append
    fails. *)
Lemma NewBroker_steady cfg w sessions ob err :
  NewBroker cfg w sessions = Done (ob, err) -> (exists st, Load w = inl st) -> steady w ->
  storage_error err = false.
Proof.
  intros H [st Hl] Hs. unfold NewBroker in H. rewrite Hl in H.
  destruct (recover_queues _ _) as [b1| |] eqn:E1; [|done..]. cbn [go_bind] in H.
  apply recover_queues_world in E1.
  destruct (recover_default b1) as [b2| |] eqn:E2; [|done..]. cbn [go_bind] in H.
  assert (steady_broker b2) as Hs2.
  { unfold steady_broker. enough (b_world b2 = b_world b1) as -> by (by rewrite E1).
    unfold recover_default in E2. destruct (b_queues b1 !! DefaultQueueName); [by simplify_eq|].
    go_inv E2. simplify_eq/=. by eapply newQueueRuntime_world. }
  destruct (recover_exchanges _ b2) as [er b3] eqn:E3.
  destruct (recover_exchanges_steady _ _ _ _ E3 Hs2) as [He Hs3]. destruct er; [by simplify_eq|].
  destruct (BindQueue _ _ _ b3) as [er b4] eqn:E4. destruct (BindQueue_steady _ _ _ _ _ _ E4 Hs3) as [He4 _].
  repeat case_match; by simplify_eq.
Qed.

End Steady.

(** ** The broker stays started *)

Section Started.
Context {W : Type} `{!WAL W} `{!WALLaws W} {Hrange : MapRange} {Htime : TimeText}.
Implicit Types (b : InMemoryBroker W).

Lemma broker_append_started r b err b' : broker_append r b = (err, b') -> b_started b' = b_started b.
Proof. unfold broker_append. destruct (Append _ _). intros H. by simplify_eq. Qed.

Lemma on_runtime_started {A} p (f : QState RingBufferQueue W -> GoM (A * _)) b a b' :
  on_runtime p f b = Done (a, b') -> b_started b' = b_started b.
Proof. unfold on_runtime. intros H. go_inv H. done. Qed.

Lemma unbind_all_started es n b err b' : unbind_all es n b = (err, b') -> b_started b' = b_started b.
Proof.
  revert b. induction es as [|[e x] es IH]; simpl; intros b H; [by simplify_eq|].
  destruct (Unbind "" n x) as [er x']. destruct er as [er|].
  - destruct er; try (by simplify_eq). by eapply IH.
  - destruct (broker_append _ _) as [er b1] eqn:Ea. apply broker_append_started in Ea. simpl in Ea.
    rewrite <- Ea. destruct er; [by simplify_eq|]. by eapply IH.
Qed.

Lemma publish_loop_started now newID m ttl i qs b r b' :
  publish_loop now newID m ttl i qs b = Done (r, b') -> b_started b' = b_started b.
Proof.
  revert i b. induction qs as [|q qs IH]; simpl; intros i b H; [by simplify_eq|].
  destruct (broker_queue q b) as [p|]; [|by simplify_eq].
  destruct (on_runtime _ _ b) as [[r1 b1]| |] eqn:E1; [|done..]. cbn [go_bind] in H.
  apply on_runtime_started in E1. rewrite <- E1.
  destruct r1 as [|[err|]]; [by simplify_eq|by simplify_eq|by eapply IH].
Qed.

Lemma CreateQueue_started n b err b' : CreateQueue n b = Done (err, b') -> b_started b' = b_started b.
Proof.
  unfold CreateQueue. intros H. destruct (validateQueueName n); [by simplify_eq|].
  destruct (b_closed b); [by simplify_eq|]. case_bool_decide; [by simplify_eq|].
  destruct (broker_append _ b) as [er b1] eqn:Ea. apply broker_append_started in Ea. rewrite <- Ea.
  destruct er; [by simplify_eq|]. destruct (newQueueRuntime _ _ b1) as [[p b2]| |] eqn:En; [|done..].
  unfold newQueueRuntime in En. go_inv En. simplify_eq/=. by destruct (b_started b1) eqn:Eb.
Qed.

Lemma DeleteQueue_started n b err b' : DeleteQueue n b = Done (err, b') -> b_started b' = b_started b.
Proof.
  unfold DeleteQueue. intros H. case_bool_decide; [by simplify_eq|].
  destruct (b_queues b !! n) as [p|]; [|by simplify_eq].
  destruct (on_runtime p CloseIfEmpty b) as [[em b1]| |] eqn:E1; [|done..]. cbn [go_bind] in H.
  apply on_runtime_started in E1. rewrite <- E1. destruct (negb em); [by simplify_eq|].
  destruct (broker_append _ b1) as [er b2] eqn:Ea. apply broker_append_started in Ea. rewrite <- Ea.
  destruct er; [by simplify_eq|].
  destruct (unbind_all _ n _) as [er b3] eqn:Eu. apply unbind_all_started in Eu. simpl in Eu. rewrite <- Eu.
  destruct er; [by simplify_eq|]. destruct (on_runtime p _ b3) as [[u b4]| |] eqn:E4; [|done..].
  apply on_runtime_started in E4. rewrite <- E4. by simplify_eq/=.
Qed.

(** Starting is for good. *)
Lemma broker_call_started b b' : broker_call b b' -> b_started b = true -> b_started b' = true.
Proof.
  intros Hc Hs. destruct Hc as
    [n err H|n err H|e q k err H|e q k err H|e t err H|e err H|now newID e rk m ttl r _ _ H
    |now newID m ttl p rest r _ _ _ H|q l id err _ _ H|q id H|tok err H|l ->| -> | ->].
  - apply CreateQueue_started in H. congruence.
  - apply DeleteQueue_started in H. congruence.
  - unfold BindQueue in H. repeat case_match; simplify_eq/=; try done.
    all: by match goal with E : broker_append _ _ = _ |- _ => apply broker_append_started in E; rewrite E end.
  - unfold UnbindQueue in H. repeat case_match; simplify_eq/=; try done.
    all: by match goal with E : broker_append _ _ = _ |- _ => apply broker_append_started in E; rewrite E end.
  - unfold CreateExchange in H. repeat case_match; simplify_eq/=; try done.
    all: by match goal with E : broker_append _ _ = _ |- _ => apply broker_append_started in E; rewrite E end.
  - unfold DeleteExchange in H. repeat case_match; simplify_eq/=; try done.
    all: by match goal with E : broker_append _ _ = _ |- _ => apply broker_append_started in E; rewrite E end.
  - unfold Broker_Publish in H. destruct (b_exchanges b !! e); [|by simplify_eq].
    destruct (Route _ _) as [qs| |]; [|done..]. cbn [go_bind] in H.
    case_bool_decide; [by simplify_eq|]. apply publish_loop_started in H. congruence.
  - unfold Broker_Publish_resume in H. destruct (on_runtime p _ b) as [[r1 b1]| |] eqn:E1; [|done..].
    cbn [go_bind] in H. apply on_runtime_started in E1.
    destruct r1 as [|[er|]]; [by simplify_eq; congruence|by simplify_eq; congruence|].
    apply publish_loop_started in H. congruence.
  - unfold Broker_Subscribe in H. destruct (broker_queue _ _); [|by simplify_eq].
    apply on_runtime_started in H. by rewrite H.
  - unfold Broker_Unsubscribe in H. destruct (broker_queue _ _); [|by simplify_eq].
    destruct (on_runtime _ _ b) as [[u b1]| |] eqn:E1; [|done..]. apply on_runtime_started in E1.
    simplify_eq/=. congruence.
  - unfold Broker_Ack in H. destruct (w_tokenOwners _ !! tok); [|by simplify_eq].
    apply on_runtime_started in H. congruence.
  - done.
  - unfold Broker_Start. by rewrite Hs.
  - done.
Qed.

Lemma engine_step_started (en en' : Engine W) :
  engine_step en en' -> b_started (en_broker en) = true -> b_started (en_broker en') = true.
Proof.
  intros [p e _ H|b' H ->] Hs; [|by eapply broker_call_started].
  unfold queue_step in H. repeat case_match; try done. unfold go_bind in H. repeat case_match; by simplify_eq/=.
Qed.

Lemma server_started (s : Server W) : server_reachable s -> b_started (en_broker (sv_engine s)) = true.
Proof.
  intros (en & Hf & Hrun%sv_run_engine). cbn [sv_engine New] in Hrun.
  assert (b_started (en_broker (set_broker (Broker_Start (en_broker en)) en)) = true) as Hs.
  { pose proof (fresh_engine_ok _ Hf) as Hok. simpl. unfold Broker_Start. rewrite (eo_open _ Hok), orb_false_r.
    destruct (b_started (en_broker en)) eqn:E; [done|].
    match goal with |- b_started (foldl _ ?b0 ?l) = true =>
      assert (b_started b0 = true) as H0 by done; revert H0; generalize b0, l end.
    intros b0 l. revert b0. induction l as [|p l IH]; intros b0 H0; simpl; [done|]. by apply IH. }
  revert Hs. induction Hrun as [|en1 en2 en3 H12 _ IH]; [done|]. intros Hs. apply IH. by eapply engine_step_started.
Qed.

End Started.

(** ** The process *)

(** Serving; in [broker.Shutdown], where [wg.Wait] waits for the goroutines of
    the queues; ended with status 0, with what the memory held last; ended
    before it served. *)
Inductive Process :=
| PServing (s : Server FileWAL)
| PStopping (en : Engine FileWAL)
| PExited (en : Engine FileWAL)
| PFailed (code : Z).

Section Process.
Context {Hrange : MapRange} {Htime : TimeText} (ParseDuration : string -> option Z).

Definition server_flags : FlagSet :=
  <["addr" := FString default_addr]> {["wal" := FString "./data/wal.log"]}.

(** [runServer] from its arguments; [openLog] and [listen] are what the
    operating system does with a path and with an address. *)
Definition dsend_server (args : list string) (openLog : string -> FileWAL + string)
    (listen : string -> option string) : GoM Process :=
  with_flags ParseDuration server_flags args (fun code => Done (PFailed code)) (fun fs _ =>
    let! r := runServer (openLog (string_flag "wal" fs)) (listen (string_flag "addr" fs)) in
    Done (match r with inl s => PServing s | inr _ => PFailed 1 end)).

(** The signal is the event [TCancel] of the server. *)
Inductive process_step : Process -> Process -> Prop :=
| ps_serve s s' : sv_step s s' -> process_step (PServing s) (PServing s')
| ps_shutdown s b :
    runServer_stop s = Some (Done b) -> process_step (PServing s) (PStopping (set_broker b (sv_engine s)))
| ps_drain en en' : drain_step en en' -> process_step (PStopping en) (PStopping en')
| ps_exit en : drained en -> process_step (PStopping en) (PExited en).

Definition memory (p : Process) : option (Engine FileWAL) :=
  match p with
  | PServing s => Some (sv_engine s)
  | PStopping en | PExited en => Some en
  | PFailed _ => None
  end.

(** The log as the process leaves it when it is killed or has ended. *)
Definition disk (p : Process) : option FileWAL :=
  match p with
  | PServing s => Some (w_wal (b_world (en_broker (sv_engine s))))
  | PStopping en => Some (w_wal (b_world (en_broker en)))
  | PExited en => Some (file_Close (w_wal (b_world (en_broker en))))
  | PFailed _ => None
  end.

(** The next process opens the file; [io]: what the disk does for it. *)
Definition reopen (f : FileWAL) (io : list io_outcome) : FileWAL := NewFileWAL (fw_docs f) io.

Definition small (f : FileWAL) : Prop :=
  map_Forall (fun _ msgs => Z.of_nat (length msgs) <= max_int) (PendingMessages (replay (file_log f))).

(** A process on a log that was new once and that any number of processes have
    used before, each until it stopped or was killed. *)
Inductive lives : Process -> Prop :=
| lives_first args io listen p :
    Forall clean_io io -> dsend_server args (fun _ => inl (NewFileWAL [] io)) listen = Done p -> lives p
| lives_step p p' : lives p -> process_step p p' -> lives p'
| lives_restart p w args io listen p' :
    lives p -> disk p = Some w -> small w -> Forall clean_io io ->
    dsend_server args (fun _ => inl (reopen w io)) listen = Done p' -> lives p'.

(** ** Recovery of a log another process has left *)

(** A server on the log [w]. *)
Definition serves (w : FileWAL) (s : Server FileWAL) : Prop :=
  exists b, NewBroker DefaultConfig w ∅ = Done (Some b, None) /\
    s = New (set_broker (Broker_Start b) (mkEngine b ∅)).

Lemma dsend_server_serves args w listen s :
  dsend_server args (fun _ => inl w) listen = Done (PServing s) -> serves w s.
Proof.
  unfold dsend_server, with_flags. destruct (Parse _ _ _) as [fs rest| |]; [|done..].
  unfold runServer. destruct (NewBroker DefaultConfig w ∅) as [[ob err]| |] eqn:En; [|done..]. cbn [go_bind].
  destruct err; [done|]. destruct ob as [b|]; [|done]. cbn [go_bind]. unfold Start.
  destruct (listen _); [done|]. intros [= <-]. by exists b.
Qed.

Lemma dsend_server_cases args openLog listen p :
  dsend_server args openLog listen = Done p -> (exists s, p = PServing s) \/ exists code, p = PFailed code.
Proof.
  unfold dsend_server, with_flags. destruct (Parse _ _ _); [|intros [= <-]; eauto..].
  destruct (runServer _ _) as [[]| |]; [| |done..]; intros [= <-]; eauto.
Qed.

Definition sound (en : Engine FileWAL) : Prop := exists o, engine_ok (ghost o en).

Lemma engine_ok_sound en : engine_ok en -> sound en.
Proof.
  intros Hok. exists (w_tokenOwners (b_world (en_broker en))).
  refine (exchange_change_engine en _ _ _ Hok); destruct (eo_broker _ Hok) as [Hw Ht Hp];
    pose proof (eo_open _ Hok); by split.
Qed.

(** The engine with its log opened anew. *)
Definition on_log (w : FileWAL) (en : Engine FileWAL) : Engine FileWAL :=
  let b := en_broker en in
  set_broker (set_b_world (mkWorld w (w_sessions (b_world b)) (w_tokenOwners (b_world b))) b) en.

Lemma on_log_ok w en :
  engine_ok en -> wal_ok w -> wal_log w = wal_log (w_wal (b_world (en_broker en))) -> engine_ok (on_log w en).
Proof.
  intros Hok Hw Hl. destruct (eo_broker _ Hok) as [_ Ht Hp].
  assert (logged (en_broker (on_log w en)) = logged (en_broker en)) as Hlog
    by (exact (f_equal replay Hl)).
  refine (exchange_change_engine en _ _ _ Hok); split; try done.
  - exact (f_equal PendingMessages Hlog).
  - rewrite <- Hlog in Ht. exact Ht.
Qed.

Lemma pending_unique_ok (en : Engine FileWAL) : engine_ok en -> pending_unique (logged (en_broker en)).
Proof.
  intros Hok n msgs Hn. destruct (eo_broker _ Hok) as [_ Ht _].
  assert (n ∈ dom (b_queues (en_broker en))) as [p Hp]%elem_of_dom.
  { rewrite (tp_queues _ _ _ _ Ht). apply elem_of_union_l. by apply elem_of_dom_2 in Hn. }
  destruct (named_runtime en n p Hok Hp) as (r & Hr & _).
  destruct (eo_live _ Hok n p r Hp Hr) as [Hl Hnd]. unfold pending_of in Hl. rewrite Hn in Hl. simpl in Hl.
  by rewrite Hl.
Qed.

(** The server behind a recovered broker has its messages. *)
Definition same_messages (en : Engine FileWAL) (s : Server FileWAL) : Prop :=
  let b := en_broker en in let b' := en_broker (sv_engine s) in
  dom (b_queues b') = dom (b_queues b) /\
  forall n p r, b_queues b !! n = Some p -> b_runtimes b !! p = Some r ->
    exists p' r', b_queues b' !! n = Some p' /\ b_runtimes b' !! p' = Some r' /\
      contents (queue r') ≡ₚ live r /\ NoDup (ID <$> contents (queue r')).

Lemma reopened_ok en io :
  engine_ok en -> Forall clean_io io ->
  let w := reopen (w_wal (b_world (en_broker en))) io in
  wal_ok w /\ wal_log w = wal_log (w_wal (b_world (en_broker en))).
Proof.
  intros Hok Hio. destruct (bk_wal _ (eo_broker _ Hok)) as (_ & _ & Ht & Hd).
  split; [|done]. by split.
Qed.

Lemma serves_reachable en io s :
  engine_ok en -> Forall clean_io io -> small (w_wal (b_world (en_broker en))) ->
  serves (reopen (w_wal (b_world (en_broker en))) io) s -> server_reachable s /\ same_messages en s.
Proof.
  intros Hok Hio Hsm (b & Hn & ->). destruct (reopened_ok en io Hok Hio) as [Hw Hl].
  set (w := reopen _ io) in *. pose proof (on_log_ok w en Hok Hw Hl) as Hok2.
  assert (0 <= QueueSize DefaultConfig <= max_int) as Hs by (vm_compute; split; discriminate).
  destruct (engine_ok_recovers (on_log w en) DefaultConfig ∅ Hok2 Hs) as (ob & err & Hn' & Hr).
  { exact Hsm. }
  simpl in Hn'. rewrite Hn in Hn'. injection Hn' as <- <-.
  destruct (Hr eq_refl) as (b' & [= <-] & _ & Hd & Hm).
  assert (fresh_engine (mkEngine b ∅)) as Hf.
  { destruct (eo_broker _ Hok2) as [_ Ht _]. exists DefaultConfig, w, ∅, b, (b_queues (en_broker en)), (b_exchanges (en_broker en)).
    split; [done|]. split; [exact Ht|]. split; [done|].
    split; [exact Hsm|]. split; [exact (pending_unique_ok _ Hok2)|].
    split; [apply map_Forall_empty|]. done. }
  split; [by exists (mkEngine b ∅)|].
  pose proof (Broker_Start_change b (bk_wal _ (eo_broker _ (fresh_engine_ok _ Hf)))) as Hch.
  unfold same_messages. cbn [sv_engine New en_broker set_broker].
  rewrite (xc_queues _ _ Hch), (xc_runtimes _ _ Hch). by split.
Qed.

(** ** Any number of processes *)

Lemma first_serves io s :
  Forall clean_io io -> serves (NewFileWAL [] io) s -> server_reachable s.
Proof.
  intros Hio (b & Hn & ->). exists (mkEngine b ∅). split; [|done].
  exists DefaultConfig, (NewFileWAL [] io), ∅, b, first_queues, first_exchanges.
  split; [by repeat split|]. split; [apply first_topo|]. split; [vm_compute; split; discriminate|].
  split; [apply map_Forall_empty|]. split; [apply map_Forall_empty|]. split; [apply map_Forall_empty|]. done.
Qed.

Definition process_ok (p : Process) : Prop :=
  match p with
  | PServing s => server_reachable s
  | PStopping en | PExited en => drain_ok en
  | PFailed _ => True
  end.

Lemma process_sound p en : process_ok p -> memory p = Some en -> sound en.
Proof.
  destruct p; simpl; intros Hok [= <-]; [|by destruct Hok..].
  apply engine_ok_sound, (so_engine _ (server_reachable_ok _ Hok)).
Qed.

Lemma disk_of_memory p w : disk p = Some w ->
  exists en, memory p = Some en /\ fw_docs w = fw_docs (w_wal (b_world (en_broker en))).
Proof.
  destruct p; simpl; intros [= <-]; eexists; (split; [done|]); try done.
  unfold file_Close. by case_match.
Qed.

Lemma restarted p w args io listen s :
  process_ok p -> disk p = Some w -> small w -> Forall clean_io io ->
  dsend_server args (fun _ => inl (reopen w io)) listen = Done (PServing s) ->
  server_reachable s /\ forall en, memory p = Some en -> same_messages en s.
Proof.
  intros Hok Hd Hsm Hio Hs. destruct (disk_of_memory p w Hd) as (en & Hm & Hdocs).
  destruct (process_sound p en Hok Hm) as [o Ho]. apply dsend_server_serves in Hs.
  assert (reopen w io = reopen (w_wal (b_world (en_broker (ghost o en)))) io) as Hw
    by (unfold reopen; simpl; by rewrite Hdocs).
  rewrite Hw in Hs. destruct (serves_reachable (ghost o en) io s Ho Hio) as [Hr Hmsg]; [|done|].
  - revert Hsm. unfold small, file_log. simpl. by rewrite Hdocs.
  - split; [done|]. intros en' Hm'. assert (en' = en) as -> by congruence. exact Hmsg.
Qed.

Lemma lives_ok p : lives p -> process_ok p.
Proof.
  induction 1 as [args io listen p Hio Hp|p p' _ IH Hs|p w args io listen p' _ IH Hd Hsm Hio Hp].
  - destruct (dsend_server_cases _ _ _ _ Hp) as [[s ->]|[code ->]]; [|done].
    eapply first_serves, dsend_server_serves; done.
  - destruct Hs as [s s' Hs|s b Hb|en en' Hs|en _]; simpl in *.
    + eapply server_reachable_run; [done|by apply rtc_once].
    + unfold runServer_stop in Hb. destruct (sv_accept s); try done. injection Hb as Hb.
      destruct (shutdown_drain_ok (sv_engine s)) as (b1 & Hb1 & Hok & _);
        [apply (so_engine _ (server_reachable_ok _ IH))|by apply server_started|].
      rewrite Hb in Hb1. by injection Hb1 as <-.
    + by eapply drain_run_ok, rtc_once.
    + done.
  - destruct (dsend_server_cases _ _ _ _ Hp) as [[s ->]|[code ->]]; [|done]. by eapply restarted.
Qed.

(** A disk without further failures. *)
Definition works (f : FileWAL) : Prop := fw_io f = [] /\ fw_closed f = false.

Lemma works_append r f : works f -> exists f', Append r f = (None, f') /\ works f'.
Proof.
  intros [Hio Hc]. simpl. unfold file_Append, writeRecord. rewrite Hc, Hio. eexists. split; [done|]. by split.
Qed.

Lemma reopened_starts en io args fs rest listen :
  engine_ok en -> Forall clean_io io -> small (w_wal (b_world (en_broker en))) ->
  Parse ParseDuration server_flags args = Parsed fs rest -> listen (string_flag "addr" fs) = None ->
  exists p', dsend_server args (fun _ => inl (reopen (w_wal (b_world (en_broker en))) io)) listen = Done p' /\
    (io = [] -> exists s, p' = PServing s).
Proof.
  intros Hok Hio Hsm Hp Hl. destruct (reopened_ok en io Hok Hio) as [Hw Hlog].
  set (w := reopen _ io) in *.
  assert (0 <= QueueSize DefaultConfig <= max_int) as Hs by (vm_compute; split; discriminate).
  destruct (engine_ok_recovers (on_log w en) DefaultConfig ∅ (on_log_ok w en Hok Hw Hlog) Hs Hsm)
    as (ob & err & Hn & Hr).
  unfold dsend_server, with_flags. rewrite Hp, Hl. unfold runServer. simpl in Hn. rewrite Hn. cbn [go_bind].
  assert (io = [] -> storage_error err = false) as Hst.
  { intros ->. eapply (NewBroker_steady works works_append); [exact Hn|eexists; by apply load_ok|by split]. }
  destruct err as [e|].
  - eexists. split; [done|]. intros Hi. by destruct (Hr (Hst Hi)) as (b' & _ & ? & _).
  - destruct (Hr eq_refl) as (b' & -> & _). eexists. split; [done|]. eauto.
Qed.

(** C2: Messages outlive processes, as long as every write to the log file either
    succeeds or leaves nothing behind ([clean_io]: no failed sync and no short
    write), no queue has more than [2^63 - 1] messages pending ([small]), and the
    servers run as [server_env] says (clients leave the identifiers of messages
    to the broker; no storage error in [DeleteQueue], [BindQueue], [UnbindQueue];
    [quiet_cancel]). Then on a log that any number of [dsend server] processes
    have used one after the other, each killed between two of its steps (calls of
    the broker and steps of goroutines) or stopped by a signal, a further one that
    parses its flags and gets its address comes back from recovery, serves on a
    disk without further failures, and once it serves has the queues of the
    process before it with exactly the messages that one had ready or in flight,
    none twice, and is again a server that [server_reachable] admits. *)
Theorem server_survives_restarts p w args fs rest io listen :
  lives p -> disk p = Some w -> small w -> Forall clean_io io ->
  Parse ParseDuration server_flags args = Parsed fs rest -> listen (string_flag "addr" fs) = None ->
  exists p', dsend_server args (fun _ => inl (reopen w io)) listen = Done p' /\ lives p' /\
    (io = [] -> exists s, p' = PServing s) /\
    forall s en, p' = PServing s -> memory p = Some en -> server_reachable s /\ same_messages en s.
Proof.
  intros Hlv Hd Hsm Hio Hp Hl. pose proof (lives_ok p Hlv) as Hok.
  destruct (disk_of_memory p w Hd) as (en & Hm & Hdocs). destruct (process_sound p en Hok Hm) as [o Ho].
  assert (small (w_wal (b_world (en_broker (ghost o en))))) as Hsm'
    by (revert Hsm; unfold small, file_log; simpl; by rewrite Hdocs).
  destruct (reopened_starts (ghost o en) io args fs rest listen Ho Hio Hsm' Hp Hl) as (p' & Hs & Hserve).
  unfold reopen in Hs. cbn [ghost en_broker b_world w_wal] in Hs. rewrite <- Hdocs in Hs.
  exists p'. split; [exact Hs|]. split; [by eapply lives_restart|]. split; [done|].
  intros s en' -> Hm'. destruct (restarted p w args io listen s Hok Hd Hsm Hio Hs) as [H1 H2]. eauto.
Qed.

End Process.

(** ** A run *)

Definition no_durations (s : string) : option Z := None.

Definition published_script : list script_item :=
  connect 0 ++ [Req 0 (demo_request PublishRequest "" "" (mkMessage "" "hello" 0 0 None)) 0].
Definition server_published : CS := after_script published_script server0.

Lemma lives_run p p' : lives no_durations p -> rtc process_step p p' -> lives no_durations p'.
Proof. intros Hl Hr. induction Hr as [|p p1 p' Hs _ IH]; [done|]. apply IH. by eapply lives_step. Qed.

Lemma server_published_lives : lives no_durations (PServing server_published).
Proof.
  apply lives_run with (PServing server0).
  - apply (lives_first _ [] [] (fun _ => None)); [constructor|]. vm_compute. reflexivity.
  - assert (rtc sv_step server0 server_published) as Hr
      by (apply after_script_runs; vm_compute; reflexivity).
    induction Hr as [|s s1 s2 Hs _ IH]; [done|]. eapply rtc_l; [by apply ps_serve|done].
Qed.

(** Killed with a message in its queue, the server is started at another
    address. *)
Lemma server_survives_restarts_witness :
  exists s, dsend_server no_durations ["-addr=:9090"]
    (fun _ => inl (reopen (w_wal (b_world (en_broker (sv_engine server_published)))) [])) (fun _ => None) =
    Done (PServing s) /\ server_reachable s /\ same_messages (sv_engine server_published) s.
Proof.
  destruct (server_survives_restarts no_durations (PServing server_published)
    (w_wal (b_world (en_broker (sv_engine server_published)))) ["-addr=:9090"]
    (<["addr" := FString ":9090"]> server_flags) [] [] (fun _ => None)) as (p' & Hp & _ & Hs & Hm).
  - apply server_published_lives.
  - reflexivity.
  - apply (bool_decide_unpack _). vm_compute. exact I.
  - constructor.
  - vm_compute. reflexivity.
  - reflexivity.
  - destruct (Hs eq_refl) as [s ->]. exists s. split; [exact Hp|]. apply (Hm s _ eq_refl eq_refl).
Defined.

(** The binding of the default queue and the message. *)
Example message_on_disk :
  length (file_log (w_wal (b_world (en_broker (sv_engine server_published))))) = 2%nat.
Proof. vm_compute. reflexivity. Qed.
