(* ===== verification/CmdTheorems.v ===== *)
(** What the command line promises: the spellings of a flag mean the same, a
    client command does exactly the broker's operation and reports its result,
    and the subscriber prints and acknowledges each message once, in order. *)

From Stdlib Require Import Ascii.
From S2P Require Import Prelude GoStrings Model RingBuffer Inflight Exchange Wal QueueRuntime.
From S2P Require Import System Redelivery Broker BrokerTheorems Engine EngineTheorems Utf8.
From S2P Require Import Rfc3339 Protocol.
From S2P Require Import Handler Client ClientTheorems Cmd.

(** ** Flags *)

(** A name a flag can have. *)
Definition good_name (n : string) : Prop :=
  has_char equals_sign n = false /\
  match n with EmptyString => False | String c _ => c <> minus_sign end.

Lemma split_value_plain n : has_char equals_sign n = false -> split_value n = (n, None).
Proof.
  induction n as [|c n IH]; simpl; [done|]. case_bool_decide; [done|]. intros Hn. by rewrite IH.
Qed.

Lemma split_value_eq n v :
  has_char equals_sign n = false -> split_value (n +:+ String equals_sign v) = (n, Some v).
Proof.
  induction n as [|c n IH]; simpl; [done|]. case_bool_decide; [done|]. intros Hn. by rewrite IH.
Qed.

Lemma flag_name_plain n : good_name n -> flag_name n = ArgFlag n None.
Proof.
  intros [He Hn]. unfold flag_name. destruct n as [|c n]; [done|].
  rewrite bool_decide_false by done. rewrite (split_value_plain (String c n) He).
  simpl in He. by case_bool_decide.
Qed.

Lemma flag_name_eq n v : good_name n -> flag_name (n +:+ String equals_sign v) = ArgFlag n (Some v).
Proof.
  intros [He Hn]. pose proof (split_value_eq n v He) as Hs. unfold flag_name.
  destruct n as [|c n]; [done|]. cbn [String.app] in *. rewrite Hs.
  simpl. rewrite bool_decide_false by done. simpl in He. by case_bool_decide.
Qed.

(** One dash or two. *)
Lemma classify_dash n rest :
  good_name n -> classify (String minus_sign (n +:+ rest)) = flag_name (n +:+ rest).
Proof.
  intros [_ Hn]. destruct n as [|c n]; [done|]. simpl. by rewrite bool_decide_false.
Qed.

Lemma classify_dashes n rest :
  good_name n ->
  classify (String minus_sign (String minus_sign (n +:+ rest))) = flag_name (n +:+ rest).
Proof. intros [_ Hn]. by destruct n. Qed.

Lemma app_empty (s : string) : s +:+ "" = s.
Proof. induction s as [|c s IH]; [done|]. exact (f_equal (String c) IH). Qed.

(** The four spellings of a flag with a value, one dash or two and the value
    after an equals sign or as the next argument, mean the same for every value,
    also an empty one or one that looks like a flag: the flag is set to the value
    and parsing goes on after it. *)
Theorem flag_spellings PD fs n v w rest :
  fs !! n = Some (FString w) -> good_name n ->
  let set := Parse PD (<[n := FString v]> fs) rest in
  Parse PD fs (("-" +:+ n) :: v :: rest) = set /\ Parse PD fs (("--" +:+ n) :: v :: rest) = set /\
  Parse PD fs (("-" +:+ n +:+ "=" +:+ v) :: rest) = set /\
  Parse PD fs (("--" +:+ n +:+ "=" +:+ v) :: rest) = set.
Proof.
  intros Hn Hg set. pose proof (classify_dash n "" Hg) as H1. pose proof (classify_dashes n "" Hg) as H2.
  rewrite (app_empty n), flag_name_plain in H1, H2 by done.
  pose proof (classify_dash n (String equals_sign v) Hg) as H3. pose proof (classify_dashes n (String equals_sign v) Hg) as H4.
  rewrite (flag_name_eq n v Hg) in H3, H4.
  assert (set_flag PD n v fs = inr (<[n := FString v]> fs)) as Hs by (unfold set_flag; by rewrite Hn).
  split_and!; cbn [Parse].
  - change ("-" +:+ n) with (String minus_sign n). by rewrite H1, Hn, Hs.
  - change ("--" +:+ n) with (String minus_sign (String minus_sign n)). by rewrite H2, Hn, Hs.
  - change ("-" +:+ n +:+ "=" +:+ v) with (String minus_sign (n +:+ String equals_sign v)). by rewrite H3, Hs.
  - change ("--" +:+ n +:+ "=" +:+ v) with (String minus_sign (String minus_sign (n +:+ String equals_sign v))).
    by rewrite H4, Hs.
Qed.

(** ** Commands *)

Section Commands.
Context {W : Type} `{!WAL W} {Hrange : MapRange} {Htime : TimeText}.
Abbreviation BR := (InMemoryBroker W).
Implicit Types (b : BR) (c : Conn) (env : CmdEnv).

(** What a command that only reports success makes of the broker's error. *)
Definition outcome (line : string) (err : option Err) : cmd_result :=
  match err with None => CmdOk [line] | Some e => CmdErr [] (TextErr (Err_Error e)) end.

(** The command has ended with [x] and the broker is [b']. *)
Definition ends (r : cmd_result * (Conn * BR)) (x : cmd_result) b' : Prop := exists c', r = (x, (c', b')).

(** The server is reached and the process is not interrupted. *)
Definition undisturbed env : Prop := ce_dial env = None /\ ce_before env = None /\ ce_after env = None.

Lemma with_producer_ends {A} env (call : Client -> Conn * BR -> (A + ClientErr) * Client * (Conn * BR))
    print t x b' :
  undisturbed env -> answers (call (newBaseClient (ce_id env)) t) x (newBaseClient (ce_id env)) b' ->
  ends (with_producer env call print t)
    (match x with inl a => CmdOk (print a) | inr err => CmdErr [] err end) b'.
Proof.
  intros (Hd & _) (c' & Hc & _). exists c'. unfold with_producer, NewProducer. by rewrite Hd, Hc.
Qed.

Lemma status_ends env (call : Client -> Conn * BR -> (unit + ClientErr) * Client * (Conn * BR)) line t err b' :
  undisturbed env ->
  answers (call (newBaseClient (ce_id env)) t) (result err) (newBaseClient (ce_id env)) b' ->
  ends (with_producer env call (says line) t) (outcome line err) b'.
Proof.
  intros He Ha. destruct (with_producer_ends env call (says line) t _ b' He Ha) as [c' Hc].
  exists c'. rewrite Hc. by destruct err.
Qed.

Lemma new_client_usable id : usable (newBaseClient id).
Proof. done. Qed.

(** *** [queue] and [exchange]: [rest] is what follows the flags *)

Section Words.
Context (PD : string -> option Z) (now : nat -> Z) (newID : nat -> string) (env : CmdEnv) (c : Conn) (b : BR).
Hypotheses (He : undisturbed env) (Hc : idle c).
Abbreviation net := (server_net now newID).
Abbreviation text ws := (strings_Join space ws).
Abbreviation addr_flag := ({["addr" := FString default_addr]} : FlagSet).

Local Ltac producer_call lem :=
  destruct He as (_ & Hb & Ha); apply status_ends; [done|]; rewrite Hb, Ha; by apply lem.

Lemma queue_words args fs rest :
  Parse PD addr_flag args = Parsed fs rest ->
  (forall w ws err b', rest = "create" :: w :: ws -> valid_utf8 (text (w :: ws)) ->
     valid_utf8 (errorString err) -> CreateQueue (text (w :: ws)) b = Done (err, b') ->
     ends (runQueue PD net env args (c, b)) (outcome "Queue created successfully" err) b') /\
  (forall w ws err b', rest = "delete" :: w :: ws -> valid_utf8 (text (w :: ws)) ->
     valid_utf8 (errorString err) -> DeleteQueue (text (w :: ws)) b = Done (err, b') ->
     ends (runQueue PD net env args (c, b)) (outcome "Queue deleted successfully" err) b') /\
  (forall ws, rest = "list" :: ws -> Forall valid_utf8 (ListQueues b) ->
     ends (runQueue PD net env args (c, b)) (CmdOk (print_list "Queues:" (ListQueues b))) b) /\
  (forall e q k ks err b', rest = "bind" :: e :: q :: k :: ks -> valid_utf8 e -> valid_utf8 q ->
     valid_utf8 (text (k :: ks)) -> valid_utf8 (errorString err) -> BindQueue e q (text (k :: ks)) b = (err, b') ->
     ends (runQueue PD net env args (c, b)) (outcome "Queue bounded successfully" err) b') /\
  (forall e q k ks err b', rest = "unbind" :: e :: q :: k :: ks -> valid_utf8 e -> valid_utf8 q ->
     valid_utf8 (text (k :: ks)) -> valid_utf8 (errorString err) -> UnbindQueue e q (text (k :: ks)) b = (err, b') ->
     ends (runQueue PD net env args (c, b)) (outcome "Queue unbounded successfully" err) b').
Proof.
  intros Hp. unfold runQueue, with_flags. rewrite Hp. pose proof (new_client_usable (ce_id env)) as Hu.
  split_and!; intros; subst rest.
  - producer_call @Producer_CreateQueue_answers.
  - producer_call @Producer_DeleteQueue_answers.
  - destruct He as (_ & Hb & Ha). refine (with_producer_ends env (Producer_ListQueues net (ce_before env) (ce_after env))
      (print_list "Queues:") (c, b) (inl (ListQueues b)) b He _). rewrite Hb, Ha. by apply Producer_ListQueues_answers.
  - producer_call @Producer_BindQueue_answers.
  - producer_call @Producer_UnbindQueue_answers.
Qed.

Lemma exchange_words args fs rest :
  Parse PD addr_flag args = Parsed fs rest ->
  (forall e t ws err b', rest = "create" :: e :: t :: ws -> valid_utf8 e -> valid_utf8 t ->
     valid_utf8 (errorString err) -> CreateExchange e t b = (err, b') ->
     ends (runExchange PD net env args (c, b)) (outcome "Exchange created successfully" err) b') /\
  (forall w ws err b', rest = "delete" :: w :: ws -> valid_utf8 (text (w :: ws)) ->
     valid_utf8 (errorString err) -> DeleteExchange (text (w :: ws)) b = (err, b') ->
     ends (runExchange PD net env args (c, b)) (outcome "Exchange deleted successfully" err) b') /\
  (forall ws, rest = "list" :: ws -> Forall valid_utf8 (ListExchanges b) ->
     ends (runExchange PD net env args (c, b)) (CmdOk (print_list "Exchanges:" (ListExchanges b))) b).
Proof.
  intros Hp. unfold runExchange, with_flags. rewrite Hp. pose proof (new_client_usable (ce_id env)) as Hu.
  split_and!; intros; subst rest.
  - producer_call @Producer_CreateExchange_answers.
  - producer_call @Producer_DeleteExchange_answers.
  - destruct He as (_ & Hb & Ha). refine (with_producer_ends env (Producer_ListExchanges net (ce_before env) (ce_after env))
      (print_list "Exchanges:") (c, b) (inl (ListExchanges b)) b He _). rewrite Hb, Ha. by apply Producer_ListExchanges_answers.
Qed.

(** *** [publish] and [metrics] *)

Lemma publish_words args fs rest :
  Parse PD publish_flags args = Parsed fs rest ->
  let xn := string_flag "exchange" fs in let rk := string_flag "routing-key" fs in
  let ttl := duration_flag "ttl" fs in
  (ttl < 0 -> runPublish PD net env args (c, b) = fails "error: --ttl cannot be negative" (c, b)) /\
  (forall w ws err b', rest = w :: ws -> 0 <= ttl -> is_int ttl -> valid_utf8 xn -> valid_utf8 rk ->
     valid_utf8 (text (w :: ws)) -> valid_utf8 (errorString err) ->
     Broker_Publish now newID xn rk (mkMessage "" (text (w :: ws)) 0 0 None) ttl b = Done (BReturned err, b') ->
     ends (runPublish PD net env args (c, b)) (outcome "Message Sent successfully" err) b').
Proof.
  intros Hp xn rk ttl. unfold runPublish, with_flags. rewrite Hp. fold xn rk ttl.
  pose proof (new_client_usable (ce_id env)) as Hu. split.
  - intros Ht. by rewrite bool_decide_true.
  - intros w ws err b' -> Ht. rewrite bool_decide_false by lia. intros. producer_call @Producer_Publish_answers.
Qed.

Lemma ttl_word fs x d ttl rest :
  fs !! "ttl" = Some (FDuration x) -> PD d = Some ttl ->
  Parse PD fs ("-ttl" :: d :: rest) = Parse PD (<["ttl" := FDuration ttl]> fs) rest.
Proof.
  intros Hl Hd. cbn [Parse]. change (classify "-ttl") with (ArgFlag "ttl" None). unfold set_flag.
  by rewrite Hl, Hd.
Qed.

Lemma string_word fs n x v rest :
  fs !! n = Some (FString x) -> good_name n ->
  Parse PD fs (("-" +:+ n) :: v :: rest) = Parse PD (<[n := FString v]> fs) rest.
Proof.
  intros Hl Hg. cbn [Parse]. pose proof (classify_dash n "" Hg) as H1.
  rewrite (app_empty n), flag_name_plain in H1 by done. change ("-" +:+ n) with (String minus_sign n).
  rewrite H1. unfold set_flag. by rewrite Hl.
Qed.

(** The flags of [publish], each given as a word and its value. *)
Lemma publish_flag_words xn rk d ttl w ws :
  PD d = Some ttl -> classify w = ArgPlain ->
  exists fs, Parse PD publish_flags ("-exchange" :: xn :: "-routing-key" :: rk :: "-ttl" :: d :: w :: ws) =
      Parsed fs (w :: ws) /\
    string_flag "exchange" fs = xn /\ string_flag "routing-key" fs = rk /\ duration_flag "ttl" fs = ttl.
Proof.
  intros Hd Hw. eexists. split.
  - rewrite (string_word publish_flags "exchange" "default") by done.
    rewrite (string_word _ "routing-key" "default") by done.
    rewrite (ttl_word _ 0 d ttl) by done. cbn [Parse]. by rewrite Hw.
  - done.
Qed.

Abbreviation metrics_flags := (<["queue" := FString ""]> addr_flag).

Lemma metrics_words args fs rest :
  Parse PD metrics_flags args = Parsed fs rest ->
  let q := string_flag "queue" fs in
  (forall m, q = "" -> Forall queue_metric_wire (Queues m) -> metric_wire (Total m) -> Broker_Metrics b = Done m ->
     ends (runMetrics PD net env args (c, b)) (CmdOk (mjoin (printQueueMetrics <$> Queues m))) b) /\
  (forall m err, q <> "" -> valid_utf8 q -> metric_wire m -> valid_utf8 (errorString err) ->
     QueueMetrics q b = Done (m, err) ->
     ends (runMetrics PD net env args (c, b))
       (match err with
        | None => CmdOk (printQueueMetrics (mkQueueMetric q m))
        | Some e => CmdErr [] (TextErr (Err_Error e))
        end) b).
Proof.
  intros Hp q. unfold runMetrics, with_flags. rewrite Hp. fold q. destruct He as (_ & Hb & Ha).
  pose proof (new_client_usable (ce_id env)) as Hu. split.
  - intros m Hq H1 H2 H3. rewrite bool_decide_false by auto.
    refine (with_producer_ends env _ (fun m => mjoin (printQueueMetrics <$> Queues m)) (c, b) (inl m) b He _).
    rewrite Hb, Ha. by apply Producer_Metrics_answers.
  - intros m err Hq H1 H2 H3 H4. rewrite bool_decide_true by done.
    destruct (with_producer_ends env (Producer_QueueMetrics net (ce_before env) (ce_after env) q) printQueueMetrics
      (c, b) (match err with None => inl (mkQueueMetric q m) | Some e => inr (TextErr (Err_Error e)) end) b He) as [c' Hr].
    + rewrite Hb, Ha. by apply Producer_QueueMetrics_answers.
    + exists c'. rewrite Hr. by destruct err.
Qed.

(** *** [subscribe] *)

Abbreviation subscribe_flags := (<["queue" := FString "default"]> addr_flag).

(** The request the subscriber sends subscribes it: the handler that reads it
    has a new session registered under the client's identifier in the queue of
    the flag, and starts the goroutine that serves it. *)
Lemma subscribe_words args fs rest b' :
  Parse PD subscribe_flags args = Parsed fs rest ->
  let q := string_flag "queue" fs in let l := new_ptr (w_sessions (b_world b)) in
  valid_utf8 q -> valid_utf8 (ce_id env) -> h_stop c = false ->
  Broker_Subscribe q l (broker_alloc l (ce_id env) b) = Done (None, b') ->
  (exists doc, Request_MarshalJSON (subscribe_request (ce_id env) q) = Some doc /\
     conn_step false (HRead doc now newID) (set_h_pc HDecode c) b =
       Some (Done (set_h_pc HTop (set_h_stop true
         (set_h_sub (Some (mkSub l (ce_id env) q false SSelect)) (set_h_pc HDecode c))), b'))) /\
  forall rounds, runSubscribe PD env args None rounds =
    (let '(r, printed, acked) := subscribe_loop rounds (newBaseClient (ce_id env)) in
     (match r with
      | None => None
      | Some None => Some (CmdOk ("Initializing subscription client..." :: printed))
      | Some (Some err) => Some (CmdErr ("Initializing subscription client..." :: printed) err)
      end, acked)).
Proof.
  intros Hp q l Hq Hid Hs Hsub.
  assert (request_wire (subscribe_request (ce_id env) q)) as Hw.
  { split; simpl; auto with client. }
  destruct (request_travels _ Hw) as (doc & Hm & Hu). split.
  - exists doc. split; [done|]. simpl. rewrite Hu.
    transitivity (Some (handle_subscribe (subscribe_request (ce_id env) q)
      (set_h_pc HDecode c) b)); [reflexivity|].
    unfold handle_subscribe. simpl. rewrite Hs. fold l. by rewrite Hsub.
  - intros rounds. unfold runSubscribe, with_flags. rewrite Hp. unfold NewConsumer. rewrite (proj1 He).
    fold q. unfold Consumer_Subscribe, Client_Encode. cbn [newBaseClient cl_id cl_encErr]. by rewrite Hm.
Qed.

End Words.

(** C38: A command on the command line is an operation of the broker. Against a
    running server on a connection of its own, uninterrupted, with words and
    error texts in valid UTF-8 and numbers of 64 bits, each client command, with
    any spelling of its flags that [Parse] accepts and followed by the words it
    needs, performs exactly the broker's
    operation on the words that follow the flags (joined by spaces where the
    command joins them) and on the values of the flags, reports success if and
    only if the operation succeeded, prints what it returned, and otherwise fails
    with the text of its error: [queue] create, delete, list, bind and unbind;
    [exchange] create, delete and list; [publish] with exchange, routing key and
    time to live (a negative one is refused and nothing sent; a publication that
    has to wait is not covered); [metrics] of all queues or of one; and
    [subscribe] to a queue that exists, on a connection that has no subscription,
    whose request registers a consumer of the queue under the
    client's identifier, and which then does as its loop does. *)
Theorem commands_reach_broker PD now newID env c b :
  undisturbed env -> idle c ->
  let net := server_net now newID in
  let text ws := strings_Join space ws in
  let addr_flag : FlagSet := {["addr" := FString default_addr]} in
  (forall args fs rest, Parse PD addr_flag args = Parsed fs rest ->
    (forall w ws err b', rest = "create" :: w :: ws -> valid_utf8 (text (w :: ws)) ->
       valid_utf8 (errorString err) -> CreateQueue (text (w :: ws)) b = Done (err, b') ->
       ends (runQueue PD net env args (c, b)) (outcome "Queue created successfully" err) b') /\
    (forall w ws err b', rest = "delete" :: w :: ws -> valid_utf8 (text (w :: ws)) ->
       valid_utf8 (errorString err) -> DeleteQueue (text (w :: ws)) b = Done (err, b') ->
       ends (runQueue PD net env args (c, b)) (outcome "Queue deleted successfully" err) b') /\
    (forall ws, rest = "list" :: ws -> Forall valid_utf8 (ListQueues b) ->
       ends (runQueue PD net env args (c, b)) (CmdOk (print_list "Queues:" (ListQueues b))) b) /\
    (forall e q k ks err b', rest = "bind" :: e :: q :: k :: ks -> valid_utf8 e -> valid_utf8 q ->
       valid_utf8 (text (k :: ks)) -> valid_utf8 (errorString err) -> BindQueue e q (text (k :: ks)) b = (err, b') ->
       ends (runQueue PD net env args (c, b)) (outcome "Queue bounded successfully" err) b') /\
    (forall e q k ks err b', rest = "unbind" :: e :: q :: k :: ks -> valid_utf8 e -> valid_utf8 q ->
       valid_utf8 (text (k :: ks)) -> valid_utf8 (errorString err) -> UnbindQueue e q (text (k :: ks)) b = (err, b') ->
       ends (runQueue PD net env args (c, b)) (outcome "Queue unbounded successfully" err) b')) /\
  (forall args fs rest, Parse PD addr_flag args = Parsed fs rest ->
    (forall e t ws err b', rest = "create" :: e :: t :: ws -> valid_utf8 e -> valid_utf8 t ->
       valid_utf8 (errorString err) -> CreateExchange e t b = (err, b') ->
       ends (runExchange PD net env args (c, b)) (outcome "Exchange created successfully" err) b') /\
    (forall w ws err b', rest = "delete" :: w :: ws -> valid_utf8 (text (w :: ws)) ->
       valid_utf8 (errorString err) -> DeleteExchange (text (w :: ws)) b = (err, b') ->
       ends (runExchange PD net env args (c, b)) (outcome "Exchange deleted successfully" err) b') /\
    (forall ws, rest = "list" :: ws -> Forall valid_utf8 (ListExchanges b) ->
       ends (runExchange PD net env args (c, b)) (CmdOk (print_list "Exchanges:" (ListExchanges b))) b)) /\
  (forall args fs rest, Parse PD publish_flags args = Parsed fs rest ->
    let xn := string_flag "exchange" fs in let rk := string_flag "routing-key" fs in
    let ttl := duration_flag "ttl" fs in
    (ttl < 0 -> runPublish PD net env args (c, b) = fails "error: --ttl cannot be negative" (c, b)) /\
    (forall w ws err b', rest = w :: ws -> 0 <= ttl -> is_int ttl -> valid_utf8 xn -> valid_utf8 rk ->
       valid_utf8 (text (w :: ws)) -> valid_utf8 (errorString err) ->
       Broker_Publish now newID xn rk (mkMessage "" (text (w :: ws)) 0 0 None) ttl b = Done (BReturned err, b') ->
       ends (runPublish PD net env args (c, b)) (outcome "Message Sent successfully" err) b')) /\
  (forall xn rk d ttl w ws, PD d = Some ttl -> classify w = ArgPlain ->
    exists fs, Parse PD publish_flags ("-exchange" :: xn :: "-routing-key" :: rk :: "-ttl" :: d :: w :: ws) =
        Parsed fs (w :: ws) /\
      string_flag "exchange" fs = xn /\ string_flag "routing-key" fs = rk /\ duration_flag "ttl" fs = ttl) /\
  (forall args fs rest, Parse PD (<["queue" := FString ""]> addr_flag) args = Parsed fs rest ->
    let q := string_flag "queue" fs in
    (forall m, q = "" -> Forall queue_metric_wire (Queues m) -> metric_wire (Total m) -> Broker_Metrics b = Done m ->
       ends (runMetrics PD net env args (c, b)) (CmdOk (mjoin (printQueueMetrics <$> Queues m))) b) /\
    (forall m err, q <> "" -> valid_utf8 q -> metric_wire m -> valid_utf8 (errorString err) ->
       QueueMetrics q b = Done (m, err) ->
       ends (runMetrics PD net env args (c, b))
         (match err with
          | None => CmdOk (printQueueMetrics (mkQueueMetric q m))
          | Some e => CmdErr [] (TextErr (Err_Error e))
          end) b)) /\
  (forall args fs rest b', Parse PD (<["queue" := FString "default"]> addr_flag) args = Parsed fs rest ->
    let q := string_flag "queue" fs in let l := new_ptr (w_sessions (b_world b)) in
    valid_utf8 q -> valid_utf8 (ce_id env) -> h_stop c = false ->
    Broker_Subscribe q l (broker_alloc l (ce_id env) b) = Done (None, b') ->
    (exists doc, Request_MarshalJSON (subscribe_request (ce_id env) q) = Some doc /\
       conn_step false (HRead doc now newID) (set_h_pc HDecode c) b =
         Some (Done (set_h_pc HTop (set_h_stop true
           (set_h_sub (Some (mkSub l (ce_id env) q false SSelect)) (set_h_pc HDecode c))), b'))) /\
    forall rounds, runSubscribe PD env args None rounds =
      (let '(r, printed, acked) := subscribe_loop rounds (newBaseClient (ce_id env)) in
       (match r with
        | None => None
        | Some None => Some (CmdOk ("Initializing subscription client..." :: printed))
        | Some (Some err) => Some (CmdErr ("Initializing subscription client..." :: printed) err)
        end, acked))).
Proof.
  intros He Hc net text addr_flag. split_and!.
  - intros args fs rest. by apply queue_words.
  - intros args fs rest. by apply exchange_words.
  - intros args fs rest. by apply publish_words.
  - intros xn rk d ttl w ws. by apply publish_flag_words.
  - intros args fs rest. by apply metrics_words.
  - intros args fs rest b'. by apply subscribe_words.
Qed.
End Commands.

(** ** The subscriber *)

Section Subscriber.
Context {Htime : TimeText}.

(** A round in which a delivery arrives. *)
Definition delivery_round (d : Delivery) : Round :=
  mkRound false None None false
    (from_option inl (inr timeout)
       (Response_MarshalJSON (set_p_Version CurrentVersion (resp_delivery d)))) None.

Definition received_line (d : Delivery) : string := "Received message: " +:+ Payload (d_Message d).

(** C39: The subscriber prints every delivery it receives and then acknowledges
    it, once each and in the order of arrival, and keeps doing so as long as
    deliveries arrive: after any number of them it is back where it was, with
    their payloads printed and their tokens sent. *)
Theorem subscriber_acks_in_order ds rounds c :
  usable c ->
  Forall (fun d => response_wire (set_p_Version CurrentVersion (resp_delivery d))) ds ->
  subscribe_loop ((delivery_round <$> ds) ++ rounds) c =
  (let '(r, printed, acked) := subscribe_loop rounds c in
   (r, (received_line <$> ds) ++ printed, (d_AckToken <$> ds) ++ acked)).
Proof.
  intros [He Hd] Hds. induction Hds as [|d ds Hw _ IH].
  { simpl. by destruct (subscribe_loop rounds c) as [[r p] a]. }
  destruct (response_travels _ Hw) as (doc & Hm & Hu). cbn [app fmap list_fmap subscribe_loop].
  unfold delivery_round at 1 2 3 4 5 6. cbn [rd_done rd_before rd_after rd_fired rd_read rd_ackErr].
  rewrite Hm. unfold Consumer_Receive, Client_Decode, Consumer_Ack, Client_Encode. simpl.
  rewrite Hd, Hu. simpl. rewrite He. simpl.
  rewrite orb_false_r. replace (mkClient (cl_id c) None None (cl_closed c)) with c
    by (destruct c; simpl in *; by subst).
  rewrite IH. by destruct (subscribe_loop rounds c) as [[r p] a].
Qed.

End Subscriber.

(** ** The theorems on concrete commands *)

Lemma flag_spellings_witness :
  Parse (fun _ => None) publish_flags ["--routing-key=-x"; "hello"] =
  Parsed (<["routing-key" := FString "-x"]> publish_flags) ["hello"].
Proof.
  destruct (flag_spellings (fun _ => None) publish_flags "routing-key" "-x" "default" ["hello"])
    as (_ & _ & _ & H).
  - reflexivity.
  - split; [reflexivity|discriminate].
  - exact H.
Defined.

Definition demo_env : CmdEnv := mkCmdEnv None "client" None None.

(** A command with the address given, and one that publishes with every flag. *)
Lemma commands_reach_broker_witness :
  ends (runQueue (fun _ => None) (server_net (fun _ => 10) demo_id) demo_env ["--addr=localhost:1"; "create"; "orders"]
    (new_conn, first_broker)) (CmdOk ["Queue created successfully"]) with_orders /\
  ends (runPublish (fun _ => Some 5) (server_net (fun _ => 10) demo_id) demo_env
    ["-exchange"; "default"; "-routing-key"; "nowhere"; "-ttl"; "5ns"; "hello"] (new_conn, first_broker))
    (CmdErr [] (TextErr (Err_Error ErrNoRoute))) first_broker.
Proof.
  split.
  - destruct (commands_reach_broker (fun _ => None) (fun _ => 10) demo_id demo_env new_conn first_broker)
      as (H & _); [split; [reflexivity|split; reflexivity]|exact idle_new|].
    destruct (H ["--addr=localhost:1"; "create"; "orders"] {["addr" := FString "localhost:1"]} ["create"; "orders"])
      as (H1 & _); [vm_compute; reflexivity|].
    apply (H1 "orders" [] None with_orders); [reflexivity|vm_compute; reflexivity..].
  - destruct (commands_reach_broker (fun _ => Some 5) (fun _ => 10) demo_id demo_env new_conn first_broker)
      as (_ & _ & H & Hfl & _); [split; [reflexivity|split; reflexivity]|exact idle_new|].
    destruct (Hfl "default" "nowhere" "5ns" 5 "hello" [] eq_refl) as (fs & Hp & E1 & E2 & E3); [vm_compute; reflexivity|].
    destruct (H _ fs _ Hp) as [_ H1]. rewrite E1, E2, E3 in H1.
    apply (H1 "hello" [] (Some ErrNoRoute) first_broker); try (vm_compute; reflexivity).
    + discriminate.
    + vm_compute. split; discriminate.
Defined.

Lemma subscriber_acks_in_order_witness :
  subscribe_loop [delivery_round demo_delivery; mkRound true None None false (inr timeout) None] demo_client =
  (Some None, ["Received message: hello"], ["t1"]).
Proof.
  apply (subscriber_acks_in_order [demo_delivery] [mkRound true None None false (inr timeout) None] demo_client).
  - split; reflexivity.
  - constructor; [exact demo_delivery_wire|constructor].
Defined.

(** An interrupt reaches the subscriber while it waits in [Receive], which
    returns the error of the context; [runSubscribe] returns it, and [main] ends
    the process with status 1, although the loop means to return without error
    when the context has ended. *)
Example interrupted_subscriber_fails :
  runSubscribe (fun _ => None) demo_env [] None
    [mkRound false None (Some "context canceled") true (inr "use of closed network connection") None] =
  (Some (CmdErr ["Initializing subscription client..."] (CtxErr "context canceled")), []) /\
  exit_code (CmdErr ["Initializing subscription client..."] (CtxErr "context canceled")) = 1.
Proof. vm_compute. split; reflexivity. Qed.
