(* ===== verification/Logger.v ===== *)
(** The logger of [internal/logger]: a chain of handlers, one per level, each
    with the appenders subscribed to it. The configuration and the chain share
    the handlers, so these live in a heap, as do the open files. Sprintf is done
    by the callers; the offset of the local zone is a parameter. *)

From S2P Require Import Prelude GoStrings Model Utf8 Rfc3339 Protocol JsonText.
From S2P Require Import JsonTextFacts JsonTorn WireBytes.

(** ** [model/logger.go] *)

Definition LogLevel : Type := Z.
Definition INFO : LogLevel := 0.
Definition WARN : LogLevel := 1.
Definition ERROR : LogLevel := 2.

Definition LogLevel_String (l : LogLevel) : string :=
  if bool_decide (l = INFO) then "INFO"
  else if bool_decide (l = WARN) then "WARN"
  else if bool_decide (l = ERROR) then "ERROR"
  else "INFO".

Record LogMessage := mkLogMessage {
  lm_Level : LogLevel;
  lm_Message : string;
  lm_Timestamp : Z;
}.

(** ** Formatters and appenders *)

Inductive LogFormatter := PlainTextFormatter | JsonFormatter.

(** An appender with its formatter; [file]: the pointer to the open file. *)
Inductive LogAppender :=
| ConsoleAppender (formatter : LogFormatter)
| FileAppender (formatter : LogFormatter) (file : nat).

(** [*os.File] *)
Record LogFile := mkLogFile { lf_path : string; lf_open : bool }.

(** Standard output, the contents of the files by path, the open files, and what
    the next writes to a file do: all of it, or so many bytes and an error. *)
Record LogOutput := mkOutput {
  lo_console : text;
  lo_disk : gmap string text;
  lo_files : gmap nat LogFile;
  lo_io : list (option nat);
}.

Section Logger.
(** The offset of the local zone from UTC at an instant. *)
Context {Htime : TimeText} (zone_offset : Z -> Z).

(** [Timestamp.Format("2006-01-02 15:04:05")], for the years 0 to 9999. *)
Definition format_time (t : Z) : text :=
  let secs := (t + zone_offset t) / second in
  let c := civil_of_days (secs / 86400) in
  let sod := secs mod 86400 in
  dec 4 (c_year c) ++ [45] ++ dec 2 (c_month c) ++ [45] ++ dec 2 (c_day c) ++ [32] ++
  dec 2 (sod / 3600) ++ [58] ++ dec 2 (sod / 60 mod 60) ++ [58] ++ dec 2 (sod mod 60).

Definition PlainText_Format (m : LogMessage) : text :=
  format_time (lm_Timestamp m) ++
  bytes_of (" [" +:+ LogLevel_String (lm_Level m) +:+ "] - " +:+ lm_Message m).

(** [json.Marshal(message)] and its inverse. The level is its number: [String]
    is not used. *)
Definition LogMessage_MarshalJSON (m : LogMessage) : option json :=
  ts ← w_time (lm_Timestamp m);
  Some (JObj (put "level" (JNum (lm_Level m)) ++ put "message" (w_string (lm_Message m)) ++
              put "timestamp" ts)).

Definition log_message_of (o : fields) (m : LogMessage) : option LogMessage :=
  l ← field "level" u_int o (lm_Level m);
  s ← field "message" u_string o (lm_Message m);
  t ← field "timestamp" u_time o (lm_Timestamp m);
  Some (mkLogMessage l s t).

Definition Json_Format (m : LogMessage) : text :=
  match LogMessage_MarshalJSON m with
  | None => with_quotes "{'error': 'failed to marshal log message'}"
  | Some v => json_text v
  end.

Definition Format (f : LogFormatter) (m : LogMessage) : text :=
  match f with PlainTextFormatter => PlainText_Format m | JsonFormatter => Json_Format m end.

Definition NewConsoleAppender (f : LogFormatter) : LogAppender := ConsoleAppender f.

(** [openErr]: the error of [os.OpenFile], which makes a missing file. *)
Definition NewFileAppender (path : string) (f : LogFormatter) (openErr : option string) (o : LogOutput)
    : (LogAppender + string) * LogOutput :=
  match openErr with
  | Some err => (inr ("failed to open log file: " +:+ err), o)
  | None =>
      let p := fresh (dom (lo_files o)) in
      (inl (FileAppender f p),
       mkOutput (lo_console o) (<[path := default [] (lo_disk o !! path)]> (lo_disk o))
         (<[p := mkLogFile path true]> (lo_files o)) (lo_io o))
  end.

Definition console_Append (f : LogFormatter) (m : LogMessage) (o : LogOutput) : option string * LogOutput :=
  (None, mkOutput (lo_console o ++ Format f m ++ [c_newline]) (lo_disk o) (lo_files o) (lo_io o)).

(** The bytes a write leaves. *)
Definition written (outcome : option nat) (data : text) : text :=
  match outcome with None => data | Some n => firstn n data end.

Definition file_appender_Append (f : LogFormatter) (p : nat) (m : LogMessage) (o : LogOutput)
    : option string * LogOutput :=
  match lo_files o !! p with
  | None => (Some "failed writing log record: invalid argument", o)
  | Some file =>
      if negb (lf_open file) then
        (Some ("failed writing log record: write " +:+ lf_path file +:+ ": file already closed"), o)
      else
        let outcome := hd None (lo_io o) in
        let data := written outcome (Format f m ++ [c_newline]) in
        (match outcome with None => None | Some _ => Some "failed writing log record: write error" end,
         mkOutput (lo_console o)
           (<[lf_path file := default [] (lo_disk o !! lf_path file) ++ data]> (lo_disk o))
           (lo_files o) (List.tl (lo_io o)))
  end.

(** [FileAppender.Close] *)
Definition file_appender_Close (p : nat) (o : LogOutput) : option string * LogOutput :=
  match lo_files o !! p with
  | None => (Some "invalid argument", o)
  | Some file =>
      if lf_open file then
        (None, mkOutput (lo_console o) (lo_disk o) (<[p := mkLogFile (lf_path file) false]> (lo_files o)) (lo_io o))
      else (Some ("close " +:+ lf_path file +:+ ": file already closed"), o)
  end.

Definition appender_Append (a : LogAppender) (m : LogMessage) (o : LogOutput) : option string * LogOutput :=
  match a with
  | ConsoleAppender f => console_Append f m o
  | FileAppender f p => file_appender_Append f p m o
  end.

(** ** Handlers *)

Inductive LogFilter := ErrorHandler | WarnHandler | InfoHandler.

Definition ErrorHandler_CanHandle (level : LogLevel) : bool := bool_decide (level = ERROR).
Definition WarnHandler_CanHandle (level : LogLevel) : bool := bool_decide (level = WARN).
Definition InfoHandler_CanHandle (level : LogLevel) : bool := bool_decide (level = INFO).

Definition CanHandle (f : LogFilter) (level : LogLevel) : bool :=
  match f with
  | ErrorHandler => ErrorHandler_CanHandle level
  | WarnHandler => WarnHandler_CanHandle level
  | InfoHandler => InfoHandler_CanHandle level
  end.

Record LogHandler := mkLogHandler {
  lh_next : option nat;
  lh_appenders : list LogAppender;
  lh_filter : LogFilter;
}.

Abbreviation Handlers := (gmap nat LogHandler).

Definition NewLogHandler (f : LogFilter) (next : option nat) (h : Handlers) : nat * Handlers :=
  let p := fresh (dom h) in (p, <[p := mkLogHandler next [] f]> h).

Definition LogHandler_Subscribe (p : nat) (observer : LogAppender) (h : Handlers) : GoM Handlers :=
  match h !! p with
  | None => Panic
  | Some lh => Done (<[p := mkLogHandler (lh_next lh) (lh_appenders lh ++ [observer]) (lh_filter lh)]> h)
  end.

(** The errors of the appenders are dropped. *)
Definition NotifyObservers (lh : LogHandler) (m : LogMessage) (o : LogOutput) : LogOutput :=
  foldl (fun o a => (appender_Append a m o).2) o (lh_appenders lh).

(** The chain, with fuel for its length. *)
Fixpoint Handle (fuel : nat) (p : nat) (m : LogMessage) (h : Handlers) (o : LogOutput) : GoM LogOutput :=
  match fuel with
  | O => OutOfFuel
  | S fuel =>
      match h !! p with
      | None => Panic
      | Some lh =>
          let o := if CanHandle (lh_filter lh) (lm_Level m) then NotifyObservers lh m o else o in
          match lh_next lh with
          | Some next => Handle fuel next m h o
          | None => Done o
          end
      end
  end.

(** ** [logger_config.go] *)

Record LogHandlerConfiguration := mkLogConfig { errHandler : nat; warnHandler : nat; infoHandler : nat }.

Definition NewLogHandlerConfiguration (h : Handlers) : LogHandlerConfiguration * Handlers :=
  let (errH, h) := NewLogHandler ErrorHandler None h in
  let (warnH, h) := NewLogHandler WarnHandler (Some errH) h in
  let (infoH, h) := NewLogHandler InfoHandler (Some warnH) h in
  (mkLogConfig errH warnH infoH, h).

Definition Build (lc : LogHandlerConfiguration) : nat := infoHandler lc.

Definition AddAppenderForLevel (lc : LogHandlerConfiguration) (level : LogLevel) (a : LogAppender)
    (h : Handlers) : GoM Handlers :=
  if bool_decide (level = INFO) then LogHandler_Subscribe (infoHandler lc) a h
  else if bool_decide (level = WARN) then LogHandler_Subscribe (warnHandler lc) a h
  else if bool_decide (level = ERROR) then LogHandler_Subscribe (errHandler lc) a h
  else Done h.

(** ** [logger.go] *)

Record Logger := mkLogger { lg_cfg : LogHandlerConfiguration; lg_chain : nat; lg_handlers : Handlers }.

(** [log] at a reading of the clock; a chain has three handlers. *)
Definition Logger_log (l : Logger) (now : Z) (level : LogLevel) (message : string) (o : LogOutput)
    : GoM LogOutput :=
  Handle 3 (lg_chain l) (mkLogMessage level message now) (lg_handlers l) o.

Definition Logger_Info (l : Logger) (now : Z) (message : string) : LogOutput -> GoM LogOutput :=
  Logger_log l now INFO message.
Definition Logger_Warn (l : Logger) (now : Z) (message : string) : LogOutput -> GoM LogOutput :=
  Logger_log l now WARN message.
Definition Logger_Error (l : Logger) (now : Z) (message : string) : LogOutput -> GoM LogOutput :=
  Logger_log l now ERROR message.

(** With the exit code of the process. *)
Definition Logger_Fatal (l : Logger) (now : Z) (message : string) (o : LogOutput) : GoM (LogOutput * Z) :=
  let! o := Logger_Error l now message o in Done (o, 1).

Definition Infof (l : Logger) (now : Z) (message : string) : LogOutput -> GoM LogOutput :=
  Logger_log l now INFO message.
Definition Warnf (l : Logger) (now : Z) (message : string) : LogOutput -> GoM LogOutput :=
  Logger_log l now WARN message.
Definition Errorf (l : Logger) (now : Z) (message : string) : LogOutput -> GoM LogOutput :=
  Logger_log l now ERROR message.

Definition Fatalf (l : Logger) (now : Z) (message : string) (o : LogOutput) : GoM (LogOutput * Z) :=
  let! o := Errorf l now message o in Done (o, 1).

Fixpoint add_appenders (lc : LogHandlerConfiguration) (subs : list (LogLevel * LogAppender)) (h : Handlers)
    : GoM Handlers :=
  match subs with
  | [] => Done h
  | (level, a) :: subs => let! h := AddAppenderForLevel lc level a h in add_appenders lc subs h
  end.

Definition log_path : string := "./data/dsend.log".

(** The package variables [instance] and [once]: the function of [once] has run
    when there is an instance. *)
Record LogState := mkLogState { ls_instance : option Logger; ls_output : LogOutput }.

(** [openErr]: the error of opening the log file, if this call opens it. *)
Definition GetInstance (openErr : option string) (now : Z) (st : LogState) : GoM (Logger * LogState) :=
  match ls_instance st with
  | Some instance => Done (instance, st)
  | None =>
      let (config, h) := NewLogHandlerConfiguration ∅ in
      let console := NewConsoleAppender PlainTextFormatter in
      let! h := add_appenders config [(INFO, console); (WARN, console); (ERROR, console)] h in
      let (file, o) := NewFileAppender log_path PlainTextFormatter openErr (ls_output st) in
      let! h := match file with
                | inl file => add_appenders config [(WARN, file); (ERROR, file)] h
                | inr _ => Done h
                end in
      let instance := mkLogger config (Build config) h in
      match file with
      | inl _ => Done (instance, mkLogState (Some instance) o)
      | inr err =>
          let! o := Warnf instance now ("file logging disabled: " +:+ err) o in
          Done (instance, mkLogState (Some instance) o)
      end
  end.

(** ** The chain *)

(** The handlers of a configuration are three, linked from info to error. *)
Record chain_ok (lc : LogHandlerConfiguration) (h : Handlers) (subs : list (LogLevel * LogAppender)) : Prop := {
  ch_info : h !! infoHandler lc = Some (mkLogHandler (Some (warnHandler lc))
    (snd <$> filter (fun s => s.1 = INFO) subs) InfoHandler);
  ch_warn : h !! warnHandler lc = Some (mkLogHandler (Some (errHandler lc))
    (snd <$> filter (fun s => s.1 = WARN) subs) WarnHandler);
  ch_err : h !! errHandler lc = Some (mkLogHandler None
    (snd <$> filter (fun s => s.1 = ERROR) subs) ErrorHandler);
  ch_distinct : infoHandler lc <> warnHandler lc /\ infoHandler lc <> errHandler lc /\
    warnHandler lc <> errHandler lc;
}.

Lemma NewLogHandler_spec f next h p h' :
  NewLogHandler f next h = (p, h') -> h !! p = None /\ h' = <[p := mkLogHandler next [] f]> h.
Proof. intros [= <- <-]. split; [|done]. apply not_elem_of_dom, is_fresh. Qed.

Lemma chain_new h : let (lc, h') := NewLogHandlerConfiguration h in chain_ok lc h' [].
Proof.
  unfold NewLogHandlerConfiguration.
  destruct (NewLogHandler ErrorHandler None h) as [pe h1] eqn:E1.
  destruct (NewLogHandler WarnHandler (Some pe) h1) as [pw h2] eqn:E2.
  destruct (NewLogHandler InfoHandler (Some pw) h2) as [pi h3] eqn:E3.
  apply NewLogHandler_spec in E1 as [_ ->], E2 as [F2 ->], E3 as [F3 ->].
  assert (pw <> pe) by (intros ->; by rewrite lookup_insert_eq in F2).
  assert (pi <> pw) by (intros ->; by rewrite lookup_insert_eq in F3).
  assert (pi <> pe) by (intros ->; rewrite lookup_insert_ne in F3 by done; by rewrite lookup_insert_eq in F3).
  split; simpl; [| | |done]; rewrite ?lookup_insert_eq, ?lookup_insert_ne, ?lookup_insert_eq by done; done.
Qed.

(** Subscribing to a level changes the handler of that level only. *)
Lemma chain_add lc h subs level a :
  chain_ok lc h subs ->
  exists h', AddAppenderForLevel lc level a h = Done h' /\ chain_ok lc h' (subs ++ [(level, a)]).
Proof.
  intros [H1 H2 H3 (D1 & D2 & D3)]. unfold AddAppenderForLevel, LogHandler_Subscribe.
  rewrite H1, H2, H3. repeat case_bool_decide; subst; eexists; (split; [done|]);
    split; try done; simpl; rewrite filter_app, fmap_app; simpl;
    rewrite ?lookup_insert_eq, ?lookup_insert_ne by done; try done;
    unfold filter, list_filter; rewrite ?decide_True, ?decide_False by done; rewrite ?app_nil_r; done.
Qed.

Lemma chain_adds lc h subs more :
  chain_ok lc h subs ->
  exists h', add_appenders lc more h = Done h' /\ chain_ok lc h' (subs ++ more).
Proof.
  revert h subs. induction more as [|[level a] more IH]; intros h subs Hc; simpl.
  { exists h. by rewrite app_nil_r. }
  destruct (chain_add lc h subs level a Hc) as (h1 & -> & Hc1). simpl.
  destruct (IH h1 _ Hc1) as (h2 & Hr & Hc2). exists h2. split; [done|]. by rewrite <- app_assoc in Hc2.
Qed.

(** The chain hands a message to the subscribers of its level. *)
Lemma chain_handle lc h subs m o :
  chain_ok lc h subs ->
  Handle 3 (infoHandler lc) m h o =
  Done (if bool_decide (lm_Level m = INFO \/ lm_Level m = WARN \/ lm_Level m = ERROR)
        then foldl (fun o a => (appender_Append a m o).2) o (snd <$> filter (fun s => s.1 = lm_Level m) subs)
        else o).
Proof.
  intros [H1 H2 H3 _]. simpl. rewrite H1. simpl. rewrite H2. simpl. rewrite H3. simpl.
  unfold NotifyObservers, ErrorHandler_CanHandle, WarnHandler_CanHandle, InfoHandler_CanHandle. simpl.
  destruct (decide (lm_Level m = INFO)) as [->|N1]; [done|].
  destruct (decide (lm_Level m = WARN)) as [->|N2]; [done|].
  destruct (decide (lm_Level m = ERROR)) as [->|N3]; [done|].
  rewrite !bool_decide_false; [done|naive_solver..].
Qed.

(** A message is handed to exactly the appenders subscribed to its level, once
    each and in the order of their subscription, whatever was subscribed and in
    whatever order; a level the chain does not know is dropped. Handling returns:
    the chain has no cycle and no missing handler. *)
Theorem log_notifies_subscribers (subs : list (LogLevel * LogAppender)) m o :
  let (lc, h) := NewLogHandlerConfiguration ∅ in
  exists h', add_appenders lc subs h = Done h' /\
    Handle 3 (Build lc) m h' o =
    Done (if bool_decide (lm_Level m = INFO \/ lm_Level m = WARN \/ lm_Level m = ERROR)
          then foldl (fun o a => (appender_Append a m o).2) o (snd <$> filter (fun s => s.1 = lm_Level m) subs)
          else o).
Proof.
  pose proof (chain_new ∅) as Hc. destruct (NewLogHandlerConfiguration ∅) as [lc h].
  destruct (chain_adds lc h [] subs Hc) as (h' & Hr & Hc'). exists h'. split; [done|].
  by apply (chain_handle lc h' subs).
Qed.

(** ** The logger of the program *)

#[local] Arguments Format : simpl never.

(** A sequence of calls of [Info], [Warn] and [Error] or their formatting forms. *)
Fixpoint log_all (l : Logger) (ms : list LogMessage) (o : LogOutput) : GoM LogOutput :=
  match ms with
  | [] => Done o
  | m :: ms => let! o := Logger_log l (lm_Timestamp m) (lm_Level m) (lm_Message m) o in log_all l ms o
  end.

Definition known_level (m : LogMessage) : Prop := lm_Level m = INFO \/ lm_Level m = WARN \/ lm_Level m = ERROR.
Definition grave (m : LogMessage) : Prop := lm_Level m = WARN \/ lm_Level m = ERROR.

#[global] Instance known_level_dec m : Decision (known_level m).
Proof. unfold known_level. apply _. Defined.
#[global] Instance grave_dec m : Decision (grave m).
Proof. unfold grave. apply _. Defined.

Definition log_line (m : LogMessage) : text := PlainText_Format m ++ [c_newline].

#[local] Arguments log_line : simpl never.

(** What a sequence of writes leaves in a file. *)
Fixpoint write_all (io : list (option nat)) (ls : list text) : text :=
  match ls with
  | [] => []
  | l :: ls => written (hd None io) l ++ write_all (List.tl io) ls
  end.

Definition console_subs : list (LogLevel * LogAppender) :=
  let c := ConsoleAppender PlainTextFormatter in [(INFO, c); (WARN, c); (ERROR, c)].
Definition file_subs (p : nat) : list (LogLevel * LogAppender) :=
  let f := FileAppender PlainTextFormatter p in [(WARN, f); (ERROR, f)].

Lemma log_subs l subs m o :
  lg_chain l = infoHandler (lg_cfg l) -> chain_ok (lg_cfg l) (lg_handlers l) subs ->
  Logger_log l (lm_Timestamp m) (lm_Level m) (lm_Message m) o =
  Done (if bool_decide (known_level m)
        then foldl (fun o a => (appender_Append a m o).2) o (snd <$> filter (fun s => s.1 = lm_Level m) subs)
        else o).
Proof. intros Hl Hc. unfold Logger_log. rewrite Hl, (chain_handle _ _ _ _ _ Hc). by destruct m. Qed.

(** Without a file every line goes to the console. *)
Lemma log_all_console l ms o :
  lg_chain l = infoHandler (lg_cfg l) -> chain_ok (lg_cfg l) (lg_handlers l) console_subs ->
  log_all l ms o = Done (mkOutput (lo_console o ++ mjoin (log_line <$> filter known_level ms))
                           (lo_disk o) (lo_files o) (lo_io o)).
Proof.
  intros Hl Hc. revert o. induction ms as [|m ms IH]; intros o; cbn [log_all].
  { rewrite filter_nil. simpl. rewrite app_nil_r. by destruct o. }
  rewrite (log_subs _ _ _ _ Hl Hc). cbn [go_bind]. rewrite IH, filter_cons. case_bool_decide as Hk.
  - rewrite decide_True by done. destruct Hk as [E|[E|E]]; rewrite E; simpl; by rewrite <- app_assoc.
  - by rewrite decide_False.
Qed.

Lemma both_subs p m :
  grave m ->
  snd <$> filter (fun s => s.1 = lm_Level m) (console_subs ++ file_subs p) =
  [ConsoleAppender PlainTextFormatter; FileAppender PlainTextFormatter p].
Proof. by intros [->| ->]. Qed.

Lemma append_both p m o :
  lo_files o !! p = Some (mkLogFile log_path true) ->
  (file_appender_Append PlainTextFormatter p m (console_Append PlainTextFormatter m o).2).2 =
  mkOutput (lo_console o ++ log_line m)
    (<[log_path := default [] (lo_disk o !! log_path) ++ written (hd None (lo_io o)) (log_line m)]> (lo_disk o))
    (lo_files o) (List.tl (lo_io o)).
Proof.
  intros Hp. unfold file_appender_Append, console_Append. cbn [snd lo_files]. by rewrite Hp.
Qed.

(** With a file, warnings and errors go to it too. *)
Lemma log_all_file l p ms o :
  lg_chain l = infoHandler (lg_cfg l) -> chain_ok (lg_cfg l) (lg_handlers l) (console_subs ++ file_subs p) ->
  lo_files o !! p = Some (mkLogFile log_path true) ->
  exists o', log_all l ms o = Done o' /\
    lo_console o' = lo_console o ++ mjoin (log_line <$> filter known_level ms) /\
    default [] (lo_disk o' !! log_path) =
      default [] (lo_disk o !! log_path) ++ write_all (lo_io o) (log_line <$> filter grave ms).
Proof.
  intros Hl Hc. revert o. induction ms as [|m ms IH]; intros o Hp; cbn [log_all].
  { exists o. rewrite !filter_nil. simpl. by rewrite !app_nil_r. }
  rewrite (log_subs _ _ _ _ Hl Hc). cbn [go_bind]. rewrite !filter_cons. case_bool_decide as Hk.
  - rewrite (decide_True (P := known_level m)) by done. destruct Hk as [E|E].
    + rewrite (decide_False (P := grave m)) by (unfold grave; rewrite E; intros [?|?]; discriminate). rewrite E. simpl.
      match goal with |- context [log_all l ms ?o1] => destruct (IH o1 Hp) as (o' & -> & Hc' & Hd') end.
      exists o'. simpl in *. rewrite Hc', Hd'. by rewrite <- app_assoc.
    + rewrite (decide_True (P := grave m)) by done.
      rewrite (both_subs p m E). cbn [foldl appender_Append]. rewrite append_both by done.
      match goal with |- context [log_all l ms ?o1] => destruct (IH o1 Hp) as (o' & -> & Hc' & Hd') end.
      exists o'. split; [done|]. rewrite Hc', Hd'. cbn [lo_console lo_disk lo_io].
      rewrite lookup_insert_eq. cbn [default from_option id fmap list_fmap write_all mjoin list_join].
      by rewrite <- !app_assoc.
  - rewrite (decide_False (P := known_level m)) by done.
    rewrite decide_False by (intros H; apply Hk; by right). by apply IH.
Qed.

(** The logger behind the instance. *)
Lemma instance_chain subs :
  exists h, (let (lc, h0) := NewLogHandlerConfiguration ∅ in
             exists h1, add_appenders lc console_subs h0 = Done h1 /\ add_appenders lc subs h1 = Done h) /\
    chain_ok (NewLogHandlerConfiguration ∅).1 h (console_subs ++ subs).
Proof.
  pose proof (chain_new ∅) as Hc. destruct (NewLogHandlerConfiguration ∅) as [lc h0].
  destruct (chain_adds lc h0 [] console_subs Hc) as (h1 & H1 & Hc1).
  destruct (chain_adds lc h1 _ subs Hc1) as (h & H2 & Hc2). exists h. split; [by exists h1|done].
Qed.

#[local] Ltac fold_subs :=
  match goal with
  | |- context [add_appenders _ [?a; ?b; ?c] _] => change [a; b; c] with console_subs
  | |- context [add_appenders _ [?a; (?e, FileAppender ?f ?p)] _] => change [a; (e, FileAppender f p)] with (file_subs p)
  end.

(** C40: The logger of the program writes what it is given: the first [GetInstance]
    makes it and every later call returns the same; after it, whatever is logged,
    standard output has one line per message, in order, and the log file has, in
    order and behind what it held, the lines of exactly the warnings and errors,
    as far as its writes succeed; when the file cannot be opened this is said in
    a first line and no file is touched. *)
Theorem logger_output openErr now o ms :
  exists l st o', GetInstance openErr now (mkLogState None o) = Done (l, st) /\
    (forall err t, GetInstance err t st = Done (l, st)) /\
    log_all l ms (ls_output st) = Done o' /\
    let lines ms := mjoin (log_line <$> filter known_level ms) in
    match openErr with
    | None =>
        lo_console o' = lo_console o ++ lines ms /\
        default [] (lo_disk o' !! log_path) =
          default [] (lo_disk o !! log_path) ++ write_all (lo_io o) (log_line <$> filter grave ms)
    | Some err =>
        lo_console o' = lo_console o ++ lines
          (mkLogMessage WARN ("file logging disabled: failed to open log file: " +:+ err) now :: ms) /\
        lo_disk o' = lo_disk o
    end.
Proof.
  unfold GetInstance. cbn [ls_instance ls_output]. destruct openErr as [err|]; cbn [NewFileAppender].
  - destruct (instance_chain []) as (h & Hs & Hc). rewrite app_nil_r in Hc.
    destruct (NewLogHandlerConfiguration ∅) as [lc h0]. destruct Hs as (h1 & H1 & [= ->]).
    cbv zeta. fold_subs. rewrite H1. cbn [go_bind]. set (l := mkLogger lc (Build lc) h).
    set (w := mkLogMessage WARN ("file logging disabled: failed to open log file: " +:+ err) now).
    change (Warnf l now ("file logging disabled: " +:+ ("failed to open log file: " +:+ err)) o)
      with (Logger_log l (lm_Timestamp w) (lm_Level w) (lm_Message w) o).
    assert (Logger_log l (lm_Timestamp w) (lm_Level w) (lm_Message w) o = log_all l [w] o) as ->
      by (cbn [log_all]; by destruct (Logger_log l _ _ _ o)).
    rewrite log_all_console by done. cbn [go_bind].
    eexists l, _, _. split; [reflexivity|]. split; [done|]. split; [by apply log_all_console|].
    change (w :: ms) with ([w] ++ ms). rewrite filter_app, fmap_app, join_app. split; [|done].
    cbn [lo_console ls_output]. by rewrite <- app_assoc.
  - set (p := fresh _). destruct (instance_chain (file_subs p)) as (h & Hs & Hc).
    destruct (NewLogHandlerConfiguration ∅) as [lc h0]. destruct Hs as (h1 & H1 & H2).
    cbv zeta. fold_subs. rewrite H1. cbn [go_bind]. fold_subs.
    rewrite H2. cbn [go_bind]. set (l := mkLogger lc (Build lc) h).
    match goal with |- context [mkLogState (Some l) ?o1] =>
      destruct (log_all_file l p ms o1 eq_refl Hc) as (o' & Hr & Hco & Hd); [apply lookup_insert_eq|];
      exists l, (mkLogState (Some l) o1), o'
    end.
    cbn [lo_console lo_disk lo_io] in Hco, Hd. rewrite lookup_insert_eq in Hd. done.
Qed.

(** ** Files of the JSON formatter *)

Definition log_message_wire (m : LogMessage) : Prop :=
  is_int (lm_Level m) /\ valid_utf8 (lm_Message m) /\ has_text (lm_Timestamp m).

Definition LogMessage_UnmarshalJSON (v : json) : option LogMessage :=
  u_struct log_message_of v (mkLogMessage 0 "" 0).

#[local] Opaque put put_unless w_string u_string u_int u_bool.
#[local] Hint Resolve u_time_w : wire.

Lemma log_message_travels m :
  log_message_wire m -> exists v, LogMessage_MarshalJSON m = Some v /\ LogMessage_UnmarshalJSON v = Some m.
Proof.
  intros (Hl & Hm & Ht). unfold LogMessage_MarshalJSON. rewrite w_time_some by done.
  destruct m as [l s t]; cbn [lm_Level lm_Message lm_Timestamp mbind option_bind] in *. eexists. split; [done|]. unfold LogMessage_UnmarshalJSON. cbn [u_struct].
  unfold log_message_of. do 3 read_field. done.
Qed.

#[local] Transparent put put_unless w_string u_string u_int u_bool.

Lemma log_message_unaffected v : LogMessage_UnmarshalJSON (norm_json v) = LogMessage_UnmarshalJSON v.
Proof.
  pose proof u_time_unaffected. apply u_struct_unaffected. unfold log_message_of. by_fields.
Qed.

Lemma log_message_fits m v : LogMessage_MarshalJSON m = Some v -> fits maxNestingDepth v /\ lettered v.
Proof.
  unfold LogMessage_MarshalJSON. destruct (w_time (lm_Timestamp m)) as [ts|] eqn:Et; [|done].
  intros <-%(inj Some). split; [|done]. apply (fits_le _ 1); [|apply maxNestingDepth_large; lia].
  fits_fields. by eapply w_time_fits.
Qed.

Lemma json_appends p path ms vs o :
  mapM LogMessage_MarshalJSON ms = Some vs -> lo_files o !! p = Some (mkLogFile path true) -> lo_io o = [] ->
  default [] (lo_disk (foldl (fun o m => (appender_Append (FileAppender JsonFormatter p) m o).2) o ms) !! path) =
  default [] (lo_disk o !! path) ++ sent vs.
Proof.
  revert vs o. induction ms as [|m ms IH]; intros vs o Hm Hp Hio.
  { injection Hm as <-. simpl. by rewrite app_nil_r. }
  cbn in Hm. destruct (LogMessage_MarshalJSON m) as [v|] eqn:Ev; [|done]. simpl in Hm.
  destruct (mapM LogMessage_MarshalJSON ms) as [vs'|] eqn:Evs; [|done]. injection Hm as <-.
  cbn [foldl appender_Append]. unfold file_appender_Append at 2. rewrite Hp, Hio. cbn [lf_open negb snd].
  rewrite (IH vs') by done. cbn [lo_disk lf_path hd]. rewrite lookup_insert_eq.
  unfold Format, Json_Format. rewrite Ev. change (sent (v :: vs')) with (line v ++ sent vs').
  cbn [default from_option id written]. by rewrite <- app_assoc.
Qed.

(** The file of an appender with the JSON formatter is read back: one document
    per message, in order, whatever their texts hold. *)
Theorem json_log_roundtrip p path ms o :
  Forall log_message_wire ms -> lo_files o !! p = Some (mkLogFile path true) -> lo_io o = [] ->
  default [] (lo_disk o !! path) = [] ->
  let o' := foldl (fun o m => (appender_Append (FileAppender JsonFormatter p) m o).2) o ms in
  (fun d => d ≫= LogMessage_UnmarshalJSON) <$> stream (default [] (lo_disk o' !! path)) = Some <$> ms.
Proof.
  intros Hms Hp Hio Hd o'.
  destruct (sequence_read_back _ _ log_message_wire ms log_message_unaffected log_message_travels
    log_message_fits Hms) as (vs & Hvs & Hs).
  unfold o'. rewrite (json_appends p path ms vs o Hvs Hp Hio), Hd. specialize (Hs []).
  by rewrite !app_nil_r in Hs.
Qed.

(** ** A closed file *)

(** After [Close] no [Append] of the appender writes anything any more, it
    returns an error, and so does a second [Close]. *)
Theorem closed_appender f p m o file :
  lo_files o !! p = Some file -> lf_open file = true ->
  let (err, o1) := file_appender_Close p o in
  err = None /\ is_Some (file_appender_Append f p m o1).1 /\ (file_appender_Append f p m o1).2 = o1 /\
  is_Some (file_appender_Close p o1).1 /\ (file_appender_Close p o1).2 = o1.
Proof.
  intros Hp Ho. unfold file_appender_Close at 1. rewrite Hp, Ho.
  unfold file_appender_Append, file_appender_Close. cbn [lo_files]. rewrite lookup_insert_eq. by cbn; eauto.
Qed.

End Logger.

(** ** Lines *)

(** The first day of 2024, at a place one hour east of Greenwich. *)
Definition new_year : Z := days_of_civil (mkCivil 2024 1 1) * 86400 * second.

Example plain_line :
  log_line (fun _ => 3600 * second) (mkLogMessage WARN "disk full" new_year) =
  bytes_of "2024-01-01 01:00:00 [WARN] - disk full" ++ [c_newline].
Proof. vm_compute. reflexivity. Qed.

Example json_line :
  Json_Format (mkLogMessage WARN "disk full" new_year) =
  with_quotes "{'level':1,'message':'disk full','timestamp':'2024-01-01T00:00:00Z'}".
Proof. vm_compute. reflexivity. Qed.
